(* ===== verification/_CoqProject ===== *)
-Q . S2P
Prelude.v
RustStr.v
Ir.v
Metadata.v
Json.v
Uri.v
Clash.v
Ingest.v
Adapter.v
Typing.v
Repository.v
Store.v
Storage.v
ViewModel.v
Dispatcher.v
Egress.v
Probe.v
ProbeCli.v
Score.v
F64.v
SocketHealth.v
Netlink.v
AutoSelect.v
Supervisor.v
Controller.v
Catalog.v
Session.v
Testbed.v
Watchdog.v
WatchdogThread.v
Failover.v
Netfilter.v
Netd.v
NetdMain.v
NetdClient.v
Heartbeats.v
Gui.v
GuiMain.v
