(* ===== verification/Prelude.v ===== *)
(** * Yarisugi: a verification development

    Yarisugi is a desktop proxy client for Linux: it imports subscriptions of proxy
    nodes, keeps them in a database, tests which ones work, drives a sing-box core
    on one of them and routes the machine's traffic through it.  This development
    models the Rust crates under [src/crates/] as pure functions, one file per
    component, and proves what each component promises.

    ** The parts and the files

    - [Prelude] (this file): Rust's [Result] as an error monad and [anyhow] errors,
      machine integers, comparators with stable sorting, lemmas on lists and runs.
    - [RustStr]: [str] as bytes, UTF-8, trimming and splitting, integer parsing and
      printing, the standard library's IP address parser and printer.
    - [Ir] ([ir/src/]): protocols, transports, security, endpoints; [try_new]
      normalises an endpoint and computes the canonical hash of the functional
      identity.
    - [Metadata], [Uri], [Clash], [Ingest] ([parser/src/metadata.rs], [uri.rs],
      [clash.rs], [lib.rs] and [format.rs]): country codes of labels, the seven URI
      schemes, Clash documents, and [ingest_with_timestamp], which dispatches a
      payload, deduplicates and reports.  [Ingest] calls [Uri] and [Clash], which
      call [Metadata] and [Ir].
    - [Json], [Adapter] ([adapter/src/lib.rs]): JSON values; the compilation of a
      node into a sing-box configuration; the gateway of the route table.
    - [Typing]: the types of nodes ([ir/src/]) and of the JSON [Adapter] writes, from
      what [Ingest] reads to what the core is given.
    - [Repository] ([storage/src/repository.rs], [db.rs],
      [subscription_service.rs]): the schema as finite maps, the transactions, the
      refresh of a subscription, which calls [Ingest].
    - [Storage] ([storage/src/db.rs], [subscription_service.rs]): opening a database
      file, the migration of older ones, the refresh that publishes into [Store].
    - [Store] ([storage/src/soa_store.rs], [query_engine.rs], [snapshot.rs]): the
      dense columns hydrated from the database, queries, the published snapshot.
    - [ViewModel] ([gui/src/view_state.rs], [virtual_model.rs]): the list on the
      screen, the worker that projects the store in the background, and their
      interleavings with imports and the publication of metrics.
    - [Dispatcher] ([gui/src/dispatcher.rs]): the bounded stream of measurements from
      the handlers to the published metrics.
    - [Egress] ([adapter/src/egress.rs]): the targets of a trial, their sample, the
      concurrent scatter and its verdict, the HTTP and SOCKS5 exchanges.
    - [Probe], [ProbeCli] ([probe/src/lib.rs], [main.rs]): the socket probe of an
      address, a node and a catalog, its tasks, and its command line.
    - [Score] (the shortlist part of [controller/src/proxy_controller.rs]): the
      score of a trial report, medians, the selection order, and the tiered
      shortlist, whose cheap tier is [Probe]'s sweep.
    - [F64], [SocketHealth], [Netlink] ([probe/src/socket_health.rs]), [AutoSelect]
      ([controller/src/auto_select.rs]): doubles; kernel telemetry and its grade;
      the netlink dialogue that samples it, byte for byte; the history of a node, its
      cost, the ranking and the decision.
    - [Supervisor] ([adapter/src/supervisor.rs]): the core process and the swap of
      its configuration with rollback.
    - [Controller] ([proxy_controller.rs], the session): settings, switching,
      stopping, importing, probe targets; it calls [Adapter], [Supervisor],
      [Repository] and [Store].  [Session] cuts its switch, stop and degradation where
      another thread can come between, under the supervisor's lock.
    - [Catalog]: the invariant of the catalogue from [Ingest] through [Repository],
      [Storage] and the sessions of a [Controller]: what was imported stays usable.
    - [Testbed] ([adapter/src/egress.rs], the commands of [adapter/src/lib.rs]): a core
      on a trial's configuration, from its validation to its end, and the trials over
      it, which run [Egress]'s scatter and answer [Score]'s shortlist.
    - [Watchdog] ([proxy_controller.rs], from [FailoverConfig] on): the failover
      cycle over injected hooks, and the production hooks, which are [Score]'s
      shortlist, [AutoSelect]'s telemetry and [Controller]'s switch.
      [WatchdogThread] is the thread that runs it, with its stop flag and its lock.
      [Failover] composes the cycle with the production hooks and [Testbed]'s trials.
    - [Netfilter] ([netd/src/netfilter.rs]): the backend of the privileged daemon,
      as the trace of the commands it runs, and the ruleset with its meaning.
    - [Netd] ([netd/src/main.rs], [netd-proto/src/lib.rs]): the daemon's messages,
      its state one critical section at a time, its handlers over any
      [Netfilter.RoutingBackend], and their interleavings; [NetdMain], its start.
    - [NetdClient] ([controller/src/netd_client.rs]): frames, handshakes, requests
      and heartbeats; the conversation with [Netd]; and the composition of
      [Controller]'s switch with the client and the daemon over nftables.
      [Heartbeats] joins the client, its heartbeat thread, the controller's calls and
      the daemon, where any of them can come between two steps of another.
    - [Gui] ([gui/src/main.rs]): the window's handlers, which compose [Controller],
      [Probe], [Score], [Dispatcher] and [Store]; the health it shows, and start-up.
      [GuiMain] is [main]: it opens [Storage], builds [Controller] and the world of
      [ViewModel], and takes the handlers of the list as its steps.

    ** How state and effects are modelled

    A struct is a Record with the source's fields behind a prefix, an enum an
    Inductive, a method that takes [&mut self] a function to the new value.  A
    fallible function returns [result]; where a failure leaves effects behind, the
    function returns the outcome and the new state.  An operation that can panic by
    indexing returns an [option], and a panic of a hook unwinds the watchdog's cycle.  [HashMap]s and tables are [gmap]s.  Integers are
    [Z] with the width's wrapping or saturation written out; [f64] is SpecFloat's
    binary64; strings are byte strings.

    Code that is not in the repository is a parameter with its documented
    behaviour as a class of laws: bincode and SHA-256 ([IdentityHash]), the url,
    base64, uuid and serde_yaml crates ([ParserLib], [YamlLib]), SQLite's choice of
    row ids ([Sqlite]), Unicode lower case ([Unicode]), [powf], the resolver and
    the socket table ([SelectLib]), [sing-box check] ([CoreLib], [SingBox]), JSON printing
    ([ControllerLib], [TestbedLib]), the ipnet crate ([Netd.IpNet]), bincode's encoding of
    messages ([NetdClient.Bincode]), the outcome of a command after others
    ([Netfilter.Machine]) and which addresses a CIDR covers ([Netfilter.Cidrs]);
    whether slint upgrades a weak handle is an argument.  The processes [Testbed] spawns
    are records of their program, arguments and the file they were given, and what
    answers a dial is a function of the address it goes to.
    Network, processes and clocks are data: the outcomes of the
    steps of one operation ([Egress.Dial], [Supervisor.CoreIo], [Netlink.DiagIo],
    [Storage.OpenIo]), the futures of a network or of a core ([Probe.Network],
    [Testbed.Core]) or functions of the
    world ([Watchdog.FailoverHooks]).  The interleavings the code allows are step
    relations: the scatter's workers ([Egress.pool_step]), the atomic loads and
    stores of the snapshot ([Store]), the tasks of a batch of probes
    ([Probe.task_step]), the threads of the window ([ViewModel.gui_step],
    [Dispatcher.on_event]), the validations that share a file
    ([Testbed.validate_step]), the callers of the controller
    ([Session.session_step]), the watchdog's thread and the holder of its handle
    ([WatchdogThread.watchdog_step]), and the critical sections and backend calls of the
    daemon's tasks ([Netd.step], with the watchdog's sleeps; [Netd.prompt_step] where it
    is never late by more than a bound), and the heartbeat thread with the callers of the
    client and the ends of its connections ([Heartbeats.own_step]).

    ** What the theorems show

    - Canonical data: what [try_new] accepts is normalised and its hash is its
      identity; every parser yields only such nodes; ingestion accounts for every
      entry and keeps the first node of each hash.
    - Compilation is total on canonical nodes, sections and tags are exactly those
      the node calls for, and a full configuration refers only to what it defines and
      sends tunnelled names through the node alone.
      Whatever a subscription says, its nodes are typed and their configurations are
      documents of one grammar, every field of its kind and within its width.
    - Storage: synchronising a subscription is an all-or-nothing transaction that
      keeps the schema and relinks exactly that subscription; the dense store
      refines the database; queries return exactly the selected rows in a total
      order; publishing changes exactly the named nodes; a database in the older form
      opens to exactly itself; what was imported stays usable through any operations.
    - Measurement: the scatter's report does not depend on the interleaving, its
      verdict counts operators only, a target is verified exactly when its whole
      round trip succeeded and the tunnel was asked for that target, exchanges are read
      within their limits, the SOCKS5 request means what an RFC 1928 server reads.  A socket probe claims exactly what
      it saw, a batch is its sequential probes within its permits, and the shortlist
      never tries what the sweep proved dead; a dump of sockets is read back as the
      kernel wrote it, and reading it ends but for one defect.  A row of the shortlist
      that passes names a node whose own configuration the binary accepted and was run
      on and through whose port enough operators answered; trials whose cores exit
      sooner or later all end and leave no core behind.
    - Selection: only candidates that passed are ranked or chosen, costs are
      numbers, a challenger needs the margin, telemetry is monotone and its absence
      is never a verdict.
    - Control: a configuration swap succeeds exactly when every system call it needs
      and the core's verdict do, and one that fails leaves a live core on what it ran
      (and on its file, where the file can be rolled back); a switch succeeds exactly
      when every step did, and only then commits the session; in the watchdog a switch
      follows a passing
      probe of the same node (or adopts a node that just passed), degradation needs
      a failed node outside every window and a dead catalog, and no cycle panics over a
      sweep in range; over real trials
      it only switches to nodes its own trials proved end to end; stopped, its
      thread runs at most the cycle it is in.
    - The window: started, its rows are sound in every interleaving and catch up with
      the view the user chose last; a preflight reaches the arena as the verdicts of its probes if
      slint gives the worker the window, and not at all if, as documented, it does not;
      and the exact range in which reachable cannot out-score verified.
    - The daemon: in every interleaving its state is coherent and ownership is not
      handed over or leaked; routing never outlives its last heartbeat by more than the
      timeout, the second its watchdog sleeps and the watchdog's lateness, and needs the
      watchdog alone to go down; routing whose owner keeps beating stays, whatever else
      its client's connections do; each answer means what it says, and the client
      learns exactly that of the answers that come in time; frames
      round trip; the ruleset does what its comments say of the output hook.  The
      defects that the composition shows are lemmas too
      ([NetdClient.second_switch_fails], [Netd.rollback_race],
      [Heartbeats.enabling_lost_to_reconnection], [Heartbeats.unattended_routing_ends]).

    ** Bounds and fuel

    Recursion is structural except in [RustStr.from_utf8] and
    [RustStr.utf8_lossy], whose fuel is the length of the input, every step
    consuming a byte; [ProbeCli.parse_args], whose fuel is the number of arguments;
    the wait of [Testbed], whose fuel is one turn per sleep that fits in the timeout and
    two more ([Testbed.wait_until_ready_spec]); and the two loops of [Netlink], whose
    fuel exceeds the length of the buffer: more changes nothing unless the source's loop
    does not end either ([Netlink.reading_ends]).  [AutoSelect.MAX_TARGETS] (32) bounds the targets of a trial
    in one theorem; the default configuration has eleven.

    ** What is not modelled

    The wiring of the window's callbacks and its markup; TLS; the search for a free
    port; the length-delimited codec of the daemon; plain accessors; mutexes and
    threads beyond the interleavings above.  A call of [set_settings] during a switch
    is not among those: nothing in the repository makes one.
*)

From stdpp Require Export base option list gmap strings sorting pretty.
From Stdlib Require Export ZArith Lia Bool.
From Stdlib Require String.
From Stdlib Require Export Ascii.
Export String.StringSyntax.
Open Scope Z_scope.

(** ** Fallible code: Rust's [Result] as an error monad *)

(** [Result<A, E>]; the error type comes first so that [result E] is a monad
    and stdpp's [x ← m; k] is Rust's [let x = m?; k]. *)
Inductive result (E A : Type) : Type :=
| Ok (a : A)
| Err (e : E).
Arguments Ok {E A} a.
Arguments Err {E A} e.

#[export] Instance result_ret E : MRet (result E) := λ A a, Ok a.
#[export] Instance result_bind E : MBind (result E) := λ A B k m,
  match m with Ok a => k a | Err e => Err e end.
#[export] Instance result_fmap E : FMap (result E) := λ A B f m,
  match m with Ok a => Ok (f a) | Err e => Err e end.

#[export] Instance result_eq_dec E A `{EqDecision E, EqDecision A} : EqDecision (result E A).
Proof. solve_decision. Defined.

Section Result.
Context {E A : Type}.

Definition is_ok (m : result E A) : bool := match m with Ok _ => true | Err _ => false end.
Definition is_err (m : result E A) : bool := negb (is_ok m).
Definition res_ok (m : result E A) : option A := match m with Ok a => Some a | Err _ => None end.
Definition ok_or (o : option A) (e : E) : result E A :=
  match o with Some a => Ok a | None => Err e end.
Definition map_err {E'} (f : E → E') (m : result E A) : result E' A :=
  match m with Ok a => Ok a | Err e => Err (f e) end.

Lemma ok_or_Ok o (e : E) a : ok_or o e = Ok a ↔ o = Some a.
Proof. destruct o; simpl; naive_solver. Qed.

Lemma map_err_Ok {E'} (f : E → E') m a : map_err f m = Ok a ↔ m = Ok a.
Proof. destruct m; simpl; naive_solver. Qed.
End Result.

Lemma result_bind_Ok {E A B} (m : result E A) (k : A → result E B) b :
  m ≫= k = Ok b ↔ ∃ a, m = Ok a ∧ k a = Ok b.
Proof. destruct m; simpl; naive_solver. Qed.

Lemma result_bind_Err {E A B} (m : result E A) (k : A → result E B) e :
  m ≫= k = Err e ↔ m = Err e ∨ ∃ a, m = Ok a ∧ k a = Err e.
Proof. destruct m; simpl; naive_solver. Qed.

Lemma result_fmap_Ok {E A B} (f : A → B) (m : result E A) b :
  f <$> m = Ok b ↔ ∃ a, m = Ok a ∧ b = f a.
Proof. destruct m; simpl; naive_solver. Qed.

(** An [anyhow::Error] is its chain of messages, outermost first: [bail!] makes
    a chain of one, [context] puts a message in front, and [to_string] prints
    the outermost. *)
Abbreviation Error := (list string).
Definition bail {A} (msg : string) : result Error A := Err [msg].
Definition context {A} (msg : string) (m : result Error A) : result Error A := map_err (cons msg) m.
Definition error_to_string (e : Error) : string := default EmptyString (head e).
(** [{:#}]: the whole chain. *)
Definition error_alternate (e : Error) : string := String.concat ": " e.

(** A system call that returns nothing, by what went wrong, if anything. *)
Definition os_fault (o : option string) : result Error () :=
  match o with Some msg => Err [msg] | None => Ok () end.

(** Splits the hypotheses [m ≫= k = Ok b] of straight-line fallible code into
    one equation per [?], the way one reads the Rust body. *)
Ltac inv_ok :=
  repeat match goal with
  | H : _ ≫= _ = Ok _ |- _ => apply result_bind_Ok in H as (? & ? & H); cbn beta in H
  | H : _ <$> _ = Ok _ |- _ => apply result_fmap_Ok in H as (? & ? & H)
  | H : ok_or _ _ = Ok _ |- _ => apply ok_or_Ok in H
  | H : map_err _ _ = Ok _ |- _ => apply map_err_Ok in H
  | H : Ok _ = Ok _ |- _ => injection H as H
  | H : Err _ = Ok _ |- _ => discriminate H
  | H : mret _ = Ok _ |- _ => injection H as H
  end.

(** One [?] at a time, with names. *)
Tactic Notation "bind_inv" hyp(H) "as" simple_intropattern(x) simple_intropattern(E) :=
  apply result_bind_Ok in H as (x & E & H); cbn beta in H.

(** Splits every [match]/[if] of a hypothesis, discarding impossible branches. *)
Ltac case_in H :=
  repeat (case_match; try discriminate H; simplify_eq).

(** ** Machine integers *)

(** Unsigned integers of width [w] are [Z] in range; wrapping operations name
    the modulus, saturating ones the bound. *)
Definition umax (w : Z) : Z := 2 ^ w - 1.
Definition in_u (w z : Z) : Prop := 0 ≤ z ≤ umax w.
Abbreviation U8_MAX := 255.
Abbreviation U16_MAX := 65535.
Abbreviation U32_MAX := 4294967295.
Abbreviation U64_MAX := 18446744073709551615.

Definition wrap (w z : Z) : Z := z mod 2 ^ w.
Definition wrapping_add (w a b : Z) : Z := wrap w (a + b).
Definition wrapping_mul (w a b : Z) : Z := wrap w (a * b).
Definition saturating_add (w a b : Z) : Z := Z.min (a + b) (umax w).
Definition saturating_sub (a b : Z) : Z := Z.max 0 (a - b).
(** [uN::try_from]. *)
Definition try_from_u (w z : Z) : option Z := if (0 <=? z) && (z <=? umax w) then Some z else None.
Definition clampZ (lo hi z : Z) : Z := Z.max lo (Z.min hi z).

Lemma wrap_range w z : 0 ≤ w → 0 ≤ wrap w z < 2 ^ w.
Proof. intros. apply Z.mod_pos_bound. lia. Qed.

Lemma wrap_small w z : 0 ≤ z < 2 ^ w → wrap w z = z.
Proof. apply Z.mod_small. Qed.

Lemma clampZ_range lo hi z : lo ≤ hi → lo ≤ clampZ lo hi z ≤ hi.
Proof. unfold clampZ. lia. Qed.

Lemma try_from_u_Some w z n : try_from_u w z = Some n ↔ n = z ∧ in_u w z.
Proof.
  unfold try_from_u, in_u. destruct (0 <=? z) eqn:?, (z <=? umax w) eqn:?; simpl;
    split; intros; simplify_eq; try split; try lia; naive_solver lia.
Qed.

(** A [Duration] is a number of nanoseconds. *)
Definition MILLI : Z := 1000000.
Definition as_millis (d : Z) : Z := d / MILLI.

(** ** Comparators and stable sorting

    Rust's [sort_by] is stable, and for a comparator that is a total preorder
    its result is the only stable sorted permutation: an insertion sort that
    keeps equal elements in their order is that function. *)

Definition cmp_le {A} (cmp : A → A → comparison) (x y : A) : bool :=
  match cmp x y with Gt => false | _ => true end.

Definition then_with (c d : comparison) : comparison :=
  match c with Eq => d | _ => c end.

Definition cmp_then {A} (f g : A → A → comparison) (x y : A) : comparison :=
  then_with (f x y) (g x y).
Definition cmp_on {A B} (k : A → B) (f : B → B → comparison) (x y : A) : comparison :=
  f (k x) (k y).
Definition cmp_rev {A} (f : A → A → comparison) (x y : A) : comparison := f y x.
(** [bool]'s [Ord]: [false < true]. *)
Definition bool_cmp (a b : bool) : comparison :=
  match a, b with
  | false, true => Lt
  | true, false => Gt
  | _, _ => Eq
  end.

Fixpoint insert_by {A} (cmp : A → A → comparison) (x : A) (l : list A) : list A :=
  match l with
  | [] => [x]
  | y :: l' => if cmp_le cmp x y then x :: l else y :: insert_by cmp x l'
  end.
Definition sort_by {A} (cmp : A → A → comparison) (l : list A) : list A :=
  foldr (insert_by cmp) [] l.

(** A comparator that is a total preorder. *)
Class CmpOrder {A} (cmp : A → A → comparison) : Prop := {
  cmp_flip : ∀ x y, cmp y x = CompOpp (cmp x y);
  cmp_le_trans : ∀ x y z, cmp x y ≠ Gt → cmp y z ≠ Gt → cmp x z ≠ Gt
}.

Section CmpOrder.
Context {A : Type} (cmp : A → A → comparison) `{!CmpOrder cmp}.

Lemma cmp_refl x : cmp x x = Eq.
Proof. pose proof (cmp_flip (cmp:=cmp) x x) as H. by destruct (cmp x x). Qed.

Lemma cmp_eq_l x y z : cmp x y = Eq → cmp x z = cmp y z.
Proof.
  intros Hxy. pose proof (cmp_flip (cmp:=cmp)) as F.
  pose proof (cmp_le_trans (cmp:=cmp)) as T.
  pose proof (T x y z) as H1. pose proof (T y x z) as H2.
  pose proof (T z x y) as H3. pose proof (T z y x) as H4.
  rewrite (F x z), (F y z), (F x y) in *. rewrite Hxy in *.
  destruct (cmp x z), (cmp y z); simpl in *; try done; exfalso; naive_solver.
Qed.

Lemma cmp_le_true x y : cmp_le cmp x y = true ↔ cmp x y ≠ Gt.
Proof. unfold cmp_le. destruct (cmp x y); naive_solver. Qed.

Lemma cmp_le_total x y : cmp_le cmp x y = false → cmp_le cmp y x = true.
Proof.
  unfold cmp_le. rewrite (cmp_flip (cmp:=cmp) x y). by destruct (cmp x y).
Qed.
End CmpOrder.

(** Composite comparators are orders by instance resolution, which must not
    unfold them to look for another decomposition. *)
#[global] Typeclasses Opaque cmp_then cmp_on cmp_rev.

#[export] Instance cmp_then_order {A} (f g : A → A → comparison) :
  CmpOrder f → CmpOrder g → CmpOrder (cmp_then f g).
Proof.
  intros Hf Hg. unfold cmp_then, then_with. split.
  - intros x y. rewrite (cmp_flip (cmp:=f) x y), (cmp_flip (cmp:=g) x y).
    by destruct (f x y).
  - intros x y z.
    pose proof (cmp_eq_l f x y z) as E1. pose proof (cmp_eq_l f z y x) as E2.
    pose proof (cmp_le_trans (cmp:=f) x y z) as T1.
    pose proof (cmp_le_trans (cmp:=f) y z x) as T2.
    pose proof (cmp_le_trans (cmp:=g) x y z) as T3.
    rewrite (cmp_flip (cmp:=f) y z), (cmp_flip (cmp:=f) x z),
      (cmp_flip (cmp:=f) x y) in *.
    destruct (f x y), (f y z), (f x z); simpl in *; naive_solver.
Qed.

#[export] Instance cmp_on_order {A B} (k : A → B) (f : B → B → comparison) :
  CmpOrder f → CmpOrder (cmp_on k f).
Proof.
  intros Hf. unfold cmp_on. split.
  - intros x y. apply (cmp_flip (cmp:=f)).
  - intros x y z. apply (cmp_le_trans (cmp:=f)).
Qed.

#[export] Instance cmp_rev_order {A} (f : A → A → comparison) :
  CmpOrder f → CmpOrder (cmp_rev f).
Proof.
  intros Hf. unfold cmp_rev. split.
  - intros x y. apply (cmp_flip (cmp:=f)).
  - intros x y z H1 H2. exact (cmp_le_trans (cmp:=f) _ _ _ H2 H1).
Qed.

#[export] Instance Z_compare_order : CmpOrder Z.compare.
Proof.
  split; [intros x y; apply Z.compare_antisym|].
  intros x y z. rewrite !Z.compare_le_iff. lia.
Qed.

#[export] Instance nat_compare_order : CmpOrder Nat.compare.
Proof.
  split; [intros x y; apply Nat.compare_antisym|].
  intros x y z. rewrite !Nat.compare_le_iff. lia.
Qed.

#[export] Instance bool_cmp_order : CmpOrder bool_cmp.
Proof. split; [by intros [] []|intros [] [] []; simpl; naive_solver]. Qed.

#[export] Instance string_compare_order : CmpOrder String.compare.
Proof.
  split; [intros x y; apply String.compare_antisym|].
  assert (∀ a b c : ascii, Ascii.compare a b ≠ Gt → Ascii.compare b c ≠ Gt →
            Ascii.compare a c ≠ Gt) as HA.
  { intros a b c. unfold Ascii.compare. rewrite !N.compare_le_iff. lia. }
  intros x. induction x as [|a x IH]; intros [|b y] [|c z]; simpl; try done.
  specialize (IH y z). specialize (HA a b c).
  destruct (Ascii.compare a b) eqn:E1, (Ascii.compare b c) eqn:E2;
    repeat match goal with
    | E : Ascii.compare _ _ = Eq |- _ => apply Ascii.compare_eq_iff in E
    end; simplify_eq; rewrite ?E1, ?E2; try done.
  - unfold Ascii.compare. by rewrite N.compare_refl.
  - revert E1 E2. unfold Ascii.compare.
    rewrite !N.compare_lt_iff. intros. by rewrite (proj2 (N.compare_lt_iff _ _)) by lia.
Qed.

Section SortBy.
Context {A : Type} (cmp : A → A → comparison).

Lemma insert_by_perm x l : insert_by cmp x l ≡ₚ x :: l.
Proof.
  induction l as [|y l IH]; simpl; [done|].
  destruct (cmp_le cmp x y); [done|]. rewrite IH. apply Permutation_swap.
Qed.

Lemma sort_by_perm l : sort_by cmp l ≡ₚ l.
Proof.
  induction l as [|x l IH]; simpl; [done|]. by rewrite insert_by_perm, IH.
Qed.

Lemma sort_by_length l : length (sort_by cmp l) = length l.
Proof. apply Permutation_length, sort_by_perm. Qed.

Lemma elem_of_sort_by x l : x ∈ sort_by cmp l ↔ x ∈ l.
Proof. by rewrite sort_by_perm. Qed.

Context `{!CmpOrder cmp}.
Let le x y := cmp x y ≠ Gt.

Lemma insert_by_sorted x l : StronglySorted le l → StronglySorted le (insert_by cmp x l).
Proof.
  induction 1 as [|y l Hl IH Hy]; simpl; [by repeat constructor|].
  destruct (cmp_le cmp x y) eqn:E.
  - apply cmp_le_true in E. constructor; [by constructor|]. constructor; [done|].
    eapply Forall_impl; [done|]. intros z Hz. by apply (cmp_le_trans (cmp:=cmp)) with y.
  - apply (cmp_le_total cmp), cmp_le_true in E. constructor; [done|].
    rewrite insert_by_perm. by constructor.
Qed.

Lemma sort_by_sorted l : StronglySorted le (sort_by cmp l).
Proof. induction l as [|x l IH]; [constructor|]. by apply insert_by_sorted. Qed.

(** The first element of a sort is minimal. *)
Lemma sort_by_head_min l x l' y :
  sort_by cmp l = x :: l' → y ∈ l → cmp x y ≠ Gt.
Proof.
  intros E Hy. pose proof (sort_by_sorted l) as HS. rewrite E in HS.
  apply (elem_of_sort_by y l) in Hy. rewrite E in Hy.
  apply elem_of_cons in Hy as [->|Hy]; [by rewrite (cmp_refl cmp)|].
  apply StronglySorted_inv in HS as [_ HF]. rewrite Forall_forall in HF. by apply HF.
Qed.

(** Where only identical elements compare equal, any sorted permutation is
    [sort_by]: this is what makes [sort_unstable_by] deterministic. *)
Lemma sort_by_unique l k :
  (∀ x y, x ∈ l → y ∈ l → cmp x y = Eq → x = y) →
  k ≡ₚ l → StronglySorted le k → k = sort_by cmp l.
Proof.
  intros Hinj Hp Hk. pose proof (sort_by_sorted l) as Hs.
  assert (k ≡ₚ sort_by cmp l) as Hp' by by rewrite sort_by_perm.
  assert (∀ x y, x ∈ k → y ∈ k → cmp x y = Eq → x = y) as Hinj'.
  { intros x y Hx Hy. rewrite Hp in Hx, Hy. by apply Hinj. }
  clear Hinj Hp. revert Hp' Hs Hinj'. generalize (sort_by cmp l) as s. clear l.
  induction Hk as [|x k Hk IH Hx]; intros s Hp Hs Hinj.
  { symmetry. by apply Permutation_nil. }
  destruct s as [|y s]; [by apply Permutation_nil_r in Hp|].
  apply StronglySorted_inv in Hs as [Hs Hy].
  rewrite Forall_forall in Hx, Hy.
  assert (x = y) as ->.
  { assert (y ∈ x :: k) as Hyk by (rewrite Hp; left).
    assert (x ∈ y :: s) as Hxs by (rewrite <-Hp; left).
    apply elem_of_cons in Hyk as [->|Hyk]; [done|].
    apply elem_of_cons in Hxs as [->|Hxs]; [done|].
    specialize (Hx _ Hyk). specialize (Hy _ Hxs). unfold le in Hx, Hy.
    apply Hinj; [left|by right|]. rewrite (cmp_flip (cmp:=cmp) x y) in Hy.
    destruct (cmp x y); done. }
  f_equal. apply IH; [by eapply Permutation_cons_inv|done|].
  intros a b Ha Hb. apply Hinj; by right.
Qed.
End SortBy.

(** Stability: sorting keeps the relative order of the elements selected by a
    predicate whose members all compare equal. *)
Lemma insert_by_filter {A} (cmp : A → A → comparison) (P : A → bool) x l :
  (∀ a b, P a = true → P b = true → cmp a b = Eq) →
  List.filter P (insert_by cmp x l) = List.filter P (x :: l).
Proof.
  intros HP. induction l as [|y l IH]; simpl; [done|].
  destruct (cmp_le cmp x y) eqn:E; [done|]. simpl. rewrite IH. simpl.
  destruct (P x) eqn:Px, (P y) eqn:Py; try done.
  unfold cmp_le in E. by rewrite (HP x y) in E.
Qed.

Lemma sort_by_stable {A} (cmp : A → A → comparison) (P : A → bool) l :
  (∀ a b, P a = true → P b = true → cmp a b = Eq) →
  List.filter P (sort_by cmp l) = List.filter P l.
Proof.
  intros HP. induction l as [|x l IH]; simpl; [done|].
  rewrite insert_by_filter by done. simpl. by rewrite IH.
Qed.

(** ** Lists *)

Lemma lookup_repeat_lt {A} (x : A) n k : (k < n)%nat → repeat x n !! k = Some x.
Proof. revert k. induction n as [|n IH]; intros [|k] Hk; simpl; try lia; [done|]. apply IH. lia. Qed.

Lemma StronglySorted_lookup_lt {A} (R : A → A → Prop) l i j a b :
  StronglySorted R l → l !! i = Some a → l !! j = Some b → (i < j)%nat → R a b.
Proof.
  intros Hs. revert i j. induction Hs as [|x l Hl IH Hx]; intros [|i] [|j] Ha Hb Hij;
    simpl in *; try done; try lia.
  - injection Ha as ->. rewrite Forall_forall in Hx. by eapply Hx, list_elem_of_lookup_2.
  - eapply IH; eauto. lia.
Qed.

(** An invariant of every step is one of every run. *)
Lemma rtc_preserves {A} (R : relation A) (P : A → Prop) :
  (∀ x y, R x y → P x → P y) → ∀ x y, rtc R x y → P x → P y.
Proof. intros Hs x y. induction 1; eauto. Qed.

(** Steps that decrease a measure only make short runs. *)
Lemma measured_runs {A} (R : relation A) (turns : A → nat) :
  (∀ x y, R x y → (turns y < turns x)%nat) →
  ∀ k x y, nsteps R k x y → (k + turns y ≤ turns x)%nat.
Proof. intros Hd k x y. induction 1 as [|k x y z Hs _ IH]; [lia|]. apply Hd in Hs. lia. Qed.

(** Replacing one element of a list. *)
Lemma sum_insert {A} (f : A → nat) l w x y :
  l !! w = Some x →
  (f x + sum_list_with f (<[w := y]> l) = f y + sum_list_with f l)%nat.
Proof.
  intros Hw. pose proof (lookup_lt_Some _ _ _ Hw).
  rewrite insert_take_drop by done. rewrite <-(take_drop_middle l w x Hw) at 3.
  rewrite !sum_list_with_app. simpl. lia.
Qed.

Lemma omap_insert_new {A B} (f : A → option B) (l : list A) i x y b :
  l !! i = Some x → f x = None → f y = Some b → omap f (<[i:=y]> l) ≡ₚ b :: omap f l.
Proof.
  revert i. induction l as [|z l IH]; intros [|i] E Hx Hy; simpl in *; try done; simplify_eq.
  - by rewrite Hx, Hy.
  - specialize (IH i E Hx Hy). destruct (f z); [|done]. rewrite IH. apply Permutation_swap.
Qed.
Lemma omap_insert_same {A B} (f : A → option B) (l : list A) i x y :
  l !! i = Some x → f y = f x → omap f (<[i:=y]> l) = omap f l.
Proof.
  revert i. induction l as [|z l IH]; intros [|i] E Hx; simpl in *; try done; simplify_eq.
  - by rewrite Hx.
  - specialize (IH i E Hx). destruct (f z); [|done]. by f_equal.
Qed.

Lemma elem_of_insert_inv {A} (l : list A) i x y : x ∈ <[i := y]> l → x = y ∨ x ∈ l.
Proof.
  intros [k Hk]%list_elem_of_lookup. apply list_lookup_insert_Some in Hk as [(_ & -> & _)|[_ Hk]];
    [by left|right; by eapply list_elem_of_lookup_2].
Qed.

(** A sort depends on its comparator on the list's elements only. *)
Lemma insert_by_ext {A} (f g : A → A → comparison) x l :
  (∀ y, y ∈ l → f x y = g x y) → insert_by f x l = insert_by g x l.
Proof.
  induction l as [|y l IH]; intros He; simpl; [done|]. unfold cmp_le. rewrite He by left.
  destruct (g x y); [done|done|]. f_equal. apply IH. intros z Hz. apply He. by right.
Qed.

Lemma sort_by_ext {A} (f g : A → A → comparison) l :
  (∀ x y, x ∈ l → y ∈ l → f x y = g x y) → sort_by f l = sort_by g l.
Proof.
  induction l as [|x l IH]; intros He; [done|].
  change (insert_by f x (sort_by f l) = insert_by g x (sort_by g l)).
  rewrite IH by (intros y z Hy Hz; apply He; by right).
  apply insert_by_ext. intros y Hy%elem_of_sort_by. apply He; [by left|by right].
Qed.

Lemma StronglySorted_impl_in {A} (R S : A → A → Prop) (l : list A) :
  (∀ x y, x ∈ l → y ∈ l → R x y → S x y) → StronglySorted R l → StronglySorted S l.
Proof.
  intros Hi Hs. induction Hs as [|x l Hl IH Hx]; constructor.
  - apply IH. intros y z Hy Hz. apply Hi; by right.
  - rewrite Forall_forall in Hx |- *. intros y Hy. apply Hi; [by left|by right|by apply Hx].
Qed.

Lemma Forall2_impl_in {A B} (P Q : A → B → Prop) l k :
  (∀ x y, x ∈ l → P x y → Q x y) → Forall2 P l k → Forall2 Q l k.
Proof.
  intros Hi Hp. induction Hp as [|x y l k Hxy _ IH]; constructor.
  - apply Hi; [left|done].
  - apply IH. intros z w Hz. apply Hi. by right.
Qed.
