(* ===== verification/RustStr.v ===== *)
(** Strings and text-level standard-library routines of the program.

    A Rust [str] is its UTF-8 byte sequence, kept as a Rocq [string]; a [char]
    is the one- to four-byte string that encodes it, so that [chars] splits a
    string into pieces and [of_chars] is plain concatenation.  The file holds
    the [core::str], [core::num] and [core::net] routines the source calls:
    trimming, splitting, searching, [parse::<uN>], UTF-8 validation, and the
    parser and printer of IP addresses. *)

From S2P Require Import Prelude.

(** ** Bytes and characters *)

Abbreviation byte_of a := (Z.of_N (N_of_ascii a)).
Definition char_of (z : Z) : ascii := ascii_of_N (Z.to_N z).

Definition str_len (s : string) : Z := Z.of_nat (String.length s).
Definition in_range (lo hi z : Z) : bool := (lo <=? z) && (z <=? hi).

Definition is_digit (a : ascii) : bool := in_range 48 57 (byte_of a).
Definition is_ascii_uppercase (a : ascii) : bool := in_range 65 90 (byte_of a).
Definition is_ascii_lowercase (a : ascii) : bool := in_range 97 122 (byte_of a).
Definition is_ascii_alphanumeric (a : ascii) : bool :=
  is_digit a || is_ascii_uppercase a || is_ascii_lowercase a.
(** [u8::is_ascii_whitespace]: tab, line feed, form feed, carriage return, space. *)
Definition is_ascii_whitespace (a : ascii) : bool :=
  let b := byte_of a in (b =? 32) || (b =? 9) || (b =? 10) || (b =? 12) || (b =? 13).

Definition lower_ascii (a : ascii) : ascii :=
  if is_ascii_uppercase a then char_of (byte_of a + 32) else a.

Fixpoint str_map (f : ascii → ascii) (s : string) : string :=
  match s with
  | EmptyString => EmptyString
  | String a s => String (f a) (str_map f s)
  end.
Fixpoint bytes (s : string) : list ascii :=
  match s with EmptyString => [] | String a s => a :: bytes s end.
Fixpoint of_bytes (l : list ascii) : string :=
  match l with [] => EmptyString | a :: l => String a (of_bytes l) end.

Definition to_ascii_lowercase : string → string := str_map lower_ascii.

(** The pieces of a valid UTF-8 string, by the length its leading byte announces. *)
Fixpoint chars (s : string) : list string :=
  match s with
  | EmptyString => []
  | String a s1 =>
    if byte_of a <? 192 then String a "" :: chars s1 else
    match s1 with
    | EmptyString => [String a ""]
    | String b s2 =>
      if byte_of a <? 224 then String a (String b "") :: chars s2 else
      match s2 with
      | EmptyString => [String a (String b "")]
      | String c s3 =>
        if byte_of a <? 240 then String a (String b (String c "")) :: chars s3 else
        match s3 with
        | EmptyString => [String a (String b (String c ""))]
        | String d s4 => String a (String b (String c (String d ""))) :: chars s4
        end
      end
    end
  end.
Definition of_chars (l : list string) : string := foldr String.append EmptyString l.

(** The scalar value of an encoded character. *)
Definition code_point (c : string) : Z :=
  match map (λ a, byte_of a) (bytes c) with
  | [a] => a
  | [a; b] => (a - 192) * 64 + (b - 128)
  | [a; b; c] => (a - 224) * 4096 + (b - 128) * 64 + (c - 128)
  | [a; b; c; d] => (a - 240) * 262144 + (b - 128) * 4096 + (c - 128) * 64 + (d - 128)
  | _ => 65533
  end.

(** [char::is_whitespace]: Unicode's White_Space. *)
Definition is_whitespace (c : string) : bool :=
  let z := code_point c in
  in_range 9 13 z || (z =? 32) || (z =? 133) || (z =? 160) || (z =? 5760)
  || in_range 8192 8202 z || (z =? 8232) || (z =? 8233) || (z =? 8239)
  || (z =? 8287) || (z =? 12288).

Fixpoint drop_while {A} (p : A → bool) (l : list A) : list A :=
  match l with
  | [] => []
  | x :: l' => if p x then drop_while p l' else l
  end.
Definition drop_while_end {A} (p : A → bool) (l : list A) : list A :=
  rev (drop_while p (rev l)).

Definition trim_start (s : string) : string := of_chars (drop_while is_whitespace (chars s)).
Definition trim_end (s : string) : string := of_chars (drop_while_end is_whitespace (chars s)).
Definition trim (s : string) : string :=
  of_chars (drop_while_end is_whitespace (drop_while is_whitespace (chars s))).

(** [str::trim_start_matches] and [trim_end_matches] with an ASCII pattern. *)
Definition trim_start_matches (a : ascii) (s : string) : string :=
  of_bytes (drop_while (Ascii.eqb a) (bytes s)).
Definition trim_end_matches (a : ascii) (s : string) : string :=
  of_bytes (drop_while_end (Ascii.eqb a) (bytes s)).

Definition starts_with (p s : string) : bool := String.prefix p s.

Fixpoint str_contains (p s : string) : bool :=
  String.prefix p s ||
  match s with EmptyString => false | String _ s' => str_contains p s' end.

Definition contains_byte (a : ascii) (s : string) : bool := existsb (Ascii.eqb a) (bytes s).
Definition contains_whitespace (s : string) : bool := existsb is_whitespace (chars s).

Fixpoint strip_prefix (p s : string) : option string :=
  match p, s with
  | EmptyString, _ => Some s
  | String a p', String b s' => if Ascii.eqb a b then strip_prefix p' s' else None
  | String _ _, EmptyString => None
  end.

(** [str::split_once] with a string pattern: around its first occurrence. *)
Fixpoint split_once (p s : string) : option (string * string) :=
  match strip_prefix p s with
  | Some rest => Some (EmptyString, rest)
  | None =>
    match s with
    | EmptyString => None
    | String a s' =>
      match split_once p s' with
      | Some (l, r) => Some (String a l, r)
      | None => None
      end
    end
  end.

(** [str::rsplit_once] with an ASCII pattern. *)
Fixpoint rsplit_once (c : ascii) (s : string) : option (string * string) :=
  match s with
  | EmptyString => None
  | String a s' =>
    match rsplit_once c s' with
    | Some (l, r) => Some (String a l, r)
    | None => if Ascii.eqb a c then Some (EmptyString, s') else None
    end
  end.

(** [str::split] on an ASCII character: always at least one piece. *)
Fixpoint split_char (c : ascii) (s : string) : list string :=
  match s with
  | EmptyString => [EmptyString]
  | String a s' =>
    if Ascii.eqb a c then EmptyString :: split_char c s'
    else match split_char c s' with
         | w :: ws => String a w :: ws
         | [] => [String a EmptyString]
         end
  end.

Definition strip_cr (s : string) : string :=
  match rev (bytes s) with
  | a :: l => if byte_of a =? 13 then of_bytes (rev l) else s
  | [] => s
  end.

(** [str::lines]: terminated by [\n] or [\r\n], no empty line after a final one. *)
Definition lines (s : string) : list string :=
  let pieces := split_char (char_of 10) s in
  let terminated := removelast pieces in
  let final := List.last pieces EmptyString in
  map strip_cr terminated ++ (if bool_decide (final = EmptyString) then [] else [final]).

Fixpoint words_of (cur : list string) (l : list string) : list string :=
  match l with
  | [] => match cur with [] => [] | _ => [of_chars (rev cur)] end
  | c :: l =>
    if is_whitespace c
    then match cur with [] => words_of [] l | _ => of_chars (rev cur) :: words_of [] l end
    else words_of (c :: cur) l
  end.
Definition split_whitespace (s : string) : list string := words_of [] (chars s).

Definition str_join (sep : string) (l : list string) : string := String.concat sep l.

(** ** Numbers *)

(** [char::to_digit]. *)
Definition to_digit (radix : Z) (a : ascii) : option Z :=
  let b := byte_of a in
  let d :=
    if in_range 48 57 b then b - 48
    else if in_range 97 122 b then b - 87
    else if in_range 65 90 b then b - 55
    else radix in
  if d <? radix then Some d else None.

Fixpoint digits_value (acc : Z) (s : string) : option Z :=
  match s with
  | EmptyString => Some acc
  | String a s =>
    match to_digit 10 a with
    | Some d => digits_value (acc * 10 + d) s
    | None => None
    end
  end.

(** [str::parse::<uW>]: an optional [+], then at least one decimal digit,
    and a value that fits. *)
Definition parse_uint (w : Z) (s : string) : option Z :=
  let digits := match s with
    | String a rest => if byte_of a =? 43 then rest else s
    | EmptyString => s
    end in
  match digits with
  | EmptyString => None
  | _ => match digits_value 0 digits with
         | Some z => if z <=? umax w then Some z else None
         | None => None
         end
  end.

(** The message of the [ParseIntError] of a failed [parse]. *)
Definition parse_int_error (s : string) : string :=
  let digits := match s with
    | String a rest => if byte_of a =? 43 then rest else s
    | EmptyString => s
    end in
  if bool_decide (s = EmptyString) then "cannot parse integer from empty string"
  else if bool_decide (digits = EmptyString) then "invalid digit found in string"
  else match digits_value 0 digits with
       | Some _ => "number too large to fit in target type"
       | None => "invalid digit found in string"
       end.

(** [u8]'s [Display] and [{:02x}], a word's [{:x}]. *)
Definition hex_digit (d : Z) : ascii := char_of (if d <? 10 then d + 48 else d + 87).
Definition hex2 (b : Z) : string := String (hex_digit (b / 16)) (String (hex_digit (b mod 16)) "").
Definition hex_word (z : Z) : string :=
  let ds := [z / 4096; z / 256 mod 16; z / 16 mod 16] in
  of_bytes (map hex_digit (drop_while (Z.eqb 0) ds ++ [z mod 16])).
Definition show_Z (z : Z) : string := pretty z.

(** ** UTF-8 validation *)

Definition is_cont (a : ascii) : bool := in_range 128 191 (byte_of a).

Inductive utf8_step : Type :=
| U_char (n : nat)        (** a well-formed character of [n] bytes *)
| U_bad (n : nat)         (** [n] bytes that cannot start one *)
| U_incomplete.           (** the input ends inside a character *)

(** One step of [core::str::run_utf8_validation]. *)
Definition utf8_next (a : ascii) (rest : list ascii) : utf8_step :=
  let z := byte_of a in
  let second lo hi (k : list ascii → utf8_step) :=
    match rest with
    | [] => U_incomplete
    | b :: r => if in_range lo hi (byte_of b) then k r else U_bad 1
    end in
  let more n (r : list ascii) (k : list ascii → utf8_step) :=
    match r with
    | [] => U_incomplete
    | b :: r => if is_cont b then k r else U_bad n
    end in
  if z <? 128 then U_char 1
  else if in_range 194 223 z then second 128 191 (λ _, U_char 2)
  else if in_range 224 239 z then
    let '(lo, hi) := if z =? 224 then (160, 191) else if z =? 237 then (128, 159) else (128, 191) in
    second lo hi (λ r, more 2%nat r (λ _, U_char 3))
  else if in_range 240 244 z then
    let '(lo, hi) := if z =? 240 then (144, 191) else if z =? 244 then (128, 143) else (128, 191) in
    second lo hi (λ r, more 2%nat r (λ r, more 3%nat r (λ _, U_char 4)))
  else U_bad 1.

(** [Utf8Error]: [valid_up_to] and [error_len]. *)
Record Utf8Error := { valid_up_to : Z; error_len : option Z }.

Fixpoint utf8_check (fuel : nat) (pos : Z) (l : list ascii) : option Utf8Error :=
  match fuel, l with
  | _, [] => None
  | O, _ => None
  | S fuel, a :: rest =>
    match utf8_next a rest with
    | U_char n => utf8_check fuel (pos + Z.of_nat n) (drop n l)
    | U_bad n => Some {| valid_up_to := pos; error_len := Some (Z.of_nat n) |}
    | U_incomplete => Some {| valid_up_to := pos; error_len := None |}
    end
  end.

(** [std::str::from_utf8]; every step consumes a byte, so the length is fuel enough. *)
Definition from_utf8 (s : string) : result Utf8Error string :=
  match utf8_check (String.length s) 0 (bytes s) with
  | None => Ok s
  | Some e => Err e
  end.

Definition show_utf8_error (e : Utf8Error) : string :=
  match error_len e with
  | Some n => "invalid utf-8 sequence of " +:+ show_Z n +:+ " bytes from index "
              +:+ show_Z (valid_up_to e)
  | None => "incomplete utf-8 byte sequence from index " +:+ show_Z (valid_up_to e)
  end.

(** U+FFFD. *)
Definition replacement_char : string :=
  of_bytes [char_of 239; char_of 191; char_of 189].

Fixpoint utf8_lossy (fuel : nat) (l : list ascii) : string :=
  match fuel, l with
  | _, [] => EmptyString
  | O, _ => EmptyString
  | S fuel, a :: rest =>
    match utf8_next a rest with
    | U_char n => of_bytes (take n l) +:+ utf8_lossy fuel (drop n l)
    | U_bad n => replacement_char +:+ utf8_lossy fuel (drop n l)
    | U_incomplete => replacement_char
    end
  end.
(** [String::from_utf8_lossy]. *)
Definition from_utf8_lossy (s : string) : string := utf8_lossy (String.length s) (bytes s).

(** ** IP addresses *)

(** [IpAddr]: four octets, or eight 16-bit segments. *)
Inductive IpAddr : Type :=
| V4 (a b c d : Z)
| V6 (segments : list Z).
#[export] Instance IpAddr_eq_dec : EqDecision IpAddr.
Proof. solve_decision. Defined.

Record SocketAddr := { sa_ip : IpAddr; sa_port : Z }.
#[export] Instance SocketAddr_eq_dec : EqDecision SocketAddr.
Proof. solve_decision. Defined.

(** The parser of [core::net::parser]: a state is the rest of the input, and a
    reader that fails leaves it where it was. *)
Module Net.

Definition read_given_char (c : ascii) (s : list ascii) : option (list ascii) :=
  match s with
  | a :: s' => if Ascii.eqb a c then Some s' else None
  | [] => None
  end.

(** The digits at the head of the input, and the rest. *)
Fixpoint read_digits (radix : Z) (s : list ascii) : list Z * list ascii :=
  match s with
  | a :: s' =>
    match to_digit radix a with
    | Some d => let '(ds, r) := read_digits radix s' in (d :: ds, r)
    | None => ([], s)
    end
  | [] => ([], [])
  end.

Definition digits_of (radix : Z) (ds : list Z) : Z :=
  foldl (λ acc d, acc * radix + d) 0 ds.

Definition read_number (radix : Z) (max_digits : nat) (allow_zero_prefix : bool) (bound : Z)
    (s : list ascii) : option (Z * list ascii) :=
  let '(ds, rest) := read_digits radix s in
  let n := length ds in
  if (max_digits <? n)%nat || (n =? 0)%nat then None
  else if negb allow_zero_prefix && bool_decide (head ds = Some 0) && (1 <? n)%nat then None
  else let z := digits_of radix ds in
       if z <=? bound then Some (z, rest) else None.

Definition read_separator {A} (sep : ascii) (index : nat)
    (inner : list ascii → option (A * list ascii)) (s : list ascii) : option (A * list ascii) :=
  match index with
  | O => inner s
  | S _ => s' ← read_given_char sep s; inner s'
  end.

Definition read_octet (i : nat) : list ascii → option (Z * list ascii) :=
  read_separator "."%char i (read_number 10 3 false U8_MAX).

Definition read_ipv4 (s : list ascii) : option ((Z * Z * Z * Z) * list ascii) :=
  '(a, s) ← read_octet 0 s;
  '(b, s) ← read_octet 1 s;
  '(c, s) ← read_octet 2 s;
  '(d, s) ← read_octet 3 s;
  Some ((a, b, c, d), s).

(** [read_groups]: [todo] slots are left of a slice whose first [i] are read. *)
Fixpoint read_groups (todo i : nat) (s : list ascii) : list Z * bool * list ascii :=
  match todo with
  | O => ([], false, s)
  | S todo' =>
    let embedded :=
      match todo' with
      | O => None
      | S _ => read_separator ":"%char i read_ipv4 s
      end in
    match embedded with
    | Some ((a, b, c, d), s') => ([a * 256 + b; c * 256 + d], true, s')
    | None =>
      match read_separator ":"%char i (read_number 16 4 true U16_MAX) s with
      | Some (g, s') => let '(gs, v4, r) := read_groups todo' (S i) s' in (g :: gs, v4, r)
      | None => ([], false, s)
      end
    end
  end.

Definition read_ipv6 (s : list ascii) : option (list Z * list ascii) :=
  let '(head, v4, s) := read_groups 8 0 s in
  if (length head =? 8)%nat then Some (head, s)
  else if v4 then None
  else
    s ← read_given_char ":"%char s;
    s ← read_given_char ":"%char s;
    let limit := (8 - (length head + 1))%nat in
    let '(tail, _, s) := read_groups limit 0 s in
    Some (head ++ repeat 0 (8 - length head - length tail)%nat ++ tail, s).

Definition read_ip_addr (s : list ascii) : option (IpAddr * list ascii) :=
  match read_ipv4 s with
  | Some ((a, b, c, d), r) => Some (V4 a b c d, r)
  | None =>
    match read_ipv6 s with
    | Some (g, r) => Some (V6 g, r)
    | None => None
    end
  end.

(** [str::parse::<IpAddr>]: the whole input must be read. *)
Definition parse_ip (s : string) : option IpAddr :=
  match read_ip_addr (bytes s) with
  | Some (ip, []) => Some ip
  | _ => None
  end.

(** *** Printing *)

(** The start and length of the first longest run of zero segments. *)
Fixpoint longest_zeros (i cur_start cur_len best_start best_len : nat) (l : list Z) : nat * nat :=
  match l with
  | [] => (best_start, best_len)
  | z :: l =>
    if z =? 0 then
      let cs := if (cur_len =? 0)%nat then i else cur_start in
      let cl := S cur_len in
      if (best_len <? cl)%nat then longest_zeros (S i) cs cl cs cl l
      else longest_zeros (S i) cs cl best_start best_len l
    else longest_zeros (S i) 0 0 best_start best_len l
  end.

Definition show_ipv4 (a b c d : Z) : string :=
  show_Z a +:+ "." +:+ show_Z b +:+ "." +:+ show_Z c +:+ "." +:+ show_Z d.

Definition fmt_subslice (l : list Z) : string := str_join ":" (map hex_word l).

(** [IpAddr]'s [Display]. *)
Definition show_ip (ip : IpAddr) : string :=
  match ip with
  | V4 a b c d => show_ipv4 a b c d
  | V6 [0; 0; 0; 0; 0; 65535; g; h] =>
    "::ffff:" +:+ show_ipv4 (g / 256) (g mod 256) (h / 256) (h mod 256)
  | V6 l =>
    let '(start, len) := longest_zeros 0 0 0 0 0 l in
    if (1 <? len)%nat
    then fmt_subslice (take start l) +:+ "::" +:+ fmt_subslice (drop (start + len) l)
    else fmt_subslice l
  end.

(** [SocketAddr]'s [Display]. *)
Definition show_socket_addr (a : SocketAddr) : string :=
  match sa_ip a with
  | V4 _ _ _ _ => show_ip (sa_ip a) +:+ ":" +:+ show_Z (sa_port a)
  | V6 _ => "[" +:+ show_ip (sa_ip a) +:+ "]:" +:+ show_Z (sa_port a)
  end.
End Net.

Example parse_ip_samples :
  Net.parse_ip "10.0.0.1" = Some (V4 10 0 0 1) ∧
  Net.parse_ip "10.0.0.01" = None ∧
  Net.parse_ip "::1" = Some (V6 [0;0;0;0;0;0;0;1]) ∧
  Net.parse_ip "fe80::1:2" = Some (V6 [65152;0;0;0;0;0;1;2]) ∧
  Net.parse_ip "::ffff:1.2.3.4" = Some (V6 [0;0;0;0;0;65535;258;772]) ∧
  Net.parse_ip "1:2:3:4:5:6:7:8" = Some (V6 [1;2;3;4;5;6;7;8]) ∧
  Net.parse_ip "[::1]" = None ∧
  Net.parse_ip "example.com" = None ∧
  Net.show_ip (V6 [65152;0;0;0;0;0;1;2]) = "fe80::1:2" ∧
  Net.show_ip (V6 [0;0;0;0;0;65535;258;772]) = "::ffff:1.2.3.4" ∧
  parse_uint 16 "+443" = Some 443 ∧ parse_uint 16 "65536" = None.
Proof. vm_compute. done. Qed.

(** ** Lemmas *)

Create HintDb rust_str.

Lemma of_bytes_bytes s : of_bytes (bytes s) = s.
Proof. induction s as [|a s IH]; simpl; congruence. Qed.

Lemma bytes_of_bytes l : bytes (of_bytes l) = l.
Proof. induction l as [|a l IH]; simpl; congruence. Qed.

Lemma bytes_inj s t : bytes s = bytes t → s = t.
Proof. intros E. by rewrite <-(of_bytes_bytes s), E, of_bytes_bytes. Qed.

Lemma bytes_str_map f s : bytes (str_map f s) = map f (bytes s).
Proof. induction s as [|a s IH]; simpl; congruence. Qed.

Lemma bytes_app s t : bytes (s +:+ t) = bytes s ++ bytes t.
Proof.
  induction s as [|a s IH]; [done|].
  change (a :: bytes (s +:+ t) = a :: bytes s ++ bytes t). by rewrite IH.
Qed.

Lemma append_empty_r s : s +:+ EmptyString = s.
Proof. apply bytes_inj. by rewrite bytes_app, app_nil_r. Qed.

Lemma of_bytes_app l k : of_bytes (l ++ k) = of_bytes l +:+ of_bytes k.
Proof. apply bytes_inj. by rewrite bytes_app, !bytes_of_bytes. Qed.

Lemma length_bytes s : length (bytes s) = String.length s.
Proof. induction s; simpl; congruence. Qed.

Lemma append_String a s t : String a s +:+ t = String a (s +:+ t).
Proof. done. Qed.

Lemma append_nil_l t : EmptyString +:+ t = t.
Proof. done. Qed.

(** Induction in steps of up to four bytes, the recursion scheme of [chars]. *)
Lemma of_chars_chars s : of_chars (chars s) = s.
Proof.
  remember (String.length s) as n eqn:En.
  revert s En. induction n as [n IH] using lt_wf_ind. intros s ->.
  assert (∀ t, String.length t < String.length s → of_chars (chars t) = t)%nat as IH'
    by eauto. clear IH.
  destruct s as [|a s1]; [done|]; simpl in *.
  destruct (byte_of a <? 192); [|destruct s1 as [|b s2]; [done|]].
  2: destruct (byte_of a <? 224); [|destruct s2 as [|c s3]; [done|]].
  3: destruct (byte_of a <? 240); [|destruct s3 as [|d s4]; [done|]].
  all: simpl in *; rewrite !append_String, append_nil_l, IH' by lia; done.
Qed.

Lemma drop_while_none {A} (p : A → bool) l : existsb p l = false → drop_while p l = l.
Proof. destruct l as [|x l]; simpl; [done|]. by intros [-> _]%orb_false_iff. Qed.

Lemma drop_while_idemp {A} (p : A → bool) l : drop_while p (drop_while p l) = drop_while p l.
Proof.
  induction l as [|x l IH]; simpl; [done|]. destruct (p x) eqn:E; [done|]. simpl. by rewrite E.
Qed.

Lemma drop_while_map {A} (p : A → bool) f l :
  (∀ x, p (f x) = p x) → drop_while p (map f l) = map f (drop_while p l).
Proof. intros Hf. induction l as [|x l IH]; simpl; [done|]. rewrite Hf. by destruct (p x). Qed.

Lemma In_drop_while {A} (p : A → bool) l x : In x (drop_while p l) → In x l.
Proof. induction l as [|y l IH]; simpl; [done|]. destruct (p y); simpl; tauto. Qed.

Lemma existsb_rev {A} (p : A → bool) l : existsb p (rev l) = existsb p l.
Proof.
  induction l as [|x l IH]; simpl; [done|].
  rewrite existsb_app, IH. simpl. rewrite orb_false_r. apply orb_comm.
Qed.

Lemma drop_while_end_none {A} (p : A → bool) l : existsb p l = false → drop_while_end p l = l.
Proof.
  intros E. unfold drop_while_end. rewrite drop_while_none; [apply rev_involutive|].
  by rewrite existsb_rev.
Qed.

Lemma drop_while_end_idemp {A} (p : A → bool) l :
  drop_while_end p (drop_while_end p l) = drop_while_end p l.
Proof. unfold drop_while_end. by rewrite rev_involutive, drop_while_idemp. Qed.

Lemma drop_while_end_map {A} (p : A → bool) f l :
  (∀ x, p (f x) = p x) → drop_while_end p (map f l) = map f (drop_while_end p l).
Proof. intros Hf. unfold drop_while_end. by rewrite <-map_rev, drop_while_map, map_rev. Qed.

Lemma trim_no_whitespace s : contains_whitespace s = false → trim s = s.
Proof.
  unfold contains_whitespace, trim. intros E.
  rewrite drop_while_none by done. rewrite drop_while_end_none by done. apply of_chars_chars.
Qed.

Lemma byte_of_char_of z : 0 ≤ z < 256 → byte_of (char_of z) = z.
Proof. intros. unfold char_of. rewrite N_ascii_embedding by lia. by rewrite Z2N.id by lia. Qed.

(** Facts about single bytes are checked on all 256 of them. *)
Ltac by_bytes := intros [[] [] [] [] [] [] [] []]; vm_compute; try done.

Lemma lower_ascii_idemp a : lower_ascii (lower_ascii a) = lower_ascii a.
Proof. revert a. by_bytes. Qed.

Lemma lower_ascii_dot a : Ascii.eqb "."%char (lower_ascii a) = Ascii.eqb "."%char a.
Proof. revert a. by_bytes. Qed.

Lemma lower_ascii_not_uppercase a : is_ascii_uppercase (lower_ascii a) = false.
Proof. revert a. by_bytes. Qed.

Lemma lower_ascii_fixed a : is_ascii_uppercase a = false → lower_ascii a = a.
Proof. unfold lower_ascii. by intros ->. Qed.

Lemma to_ascii_lowercase_idemp s :
  to_ascii_lowercase (to_ascii_lowercase s) = to_ascii_lowercase s.
Proof.
  unfold to_ascii_lowercase. induction s as [|a s IH]; simpl; [done|].
  by rewrite IH, lower_ascii_idemp.
Qed.

Lemma to_ascii_lowercase_not_uppercase s :
  forallb (λ a, negb (is_ascii_uppercase a)) (bytes (to_ascii_lowercase s)) = true.
Proof.
  unfold to_ascii_lowercase. induction s as [|a s IH]; simpl; [done|].
  by rewrite IH, lower_ascii_not_uppercase.
Qed.

Lemma trim_dots_lower s :
  trim_end_matches "."%char (to_ascii_lowercase (trim_end_matches "."%char s))
  = to_ascii_lowercase (trim_end_matches "."%char s).
Proof.
  unfold trim_end_matches, to_ascii_lowercase. apply bytes_inj.
  rewrite !bytes_of_bytes, !bytes_str_map, !bytes_of_bytes.
  rewrite drop_while_end_map by apply lower_ascii_dot. by rewrite drop_while_end_idemp.
Qed.

(** *** White space and printed numbers *)

(** A printable ASCII byte. *)
Definition graphic (a : ascii) : bool := in_range 33 126 (byte_of a).

Lemma graphic_not_whitespace a :
  graphic a = true → byte_of a <? 192 = true ∧ is_whitespace (String a "") = false.
Proof. revert a. by_bytes. Qed.

Lemma graphic_no_whitespace s :
  forallb graphic (bytes s) = true → contains_whitespace s = false.
Proof.
  unfold contains_whitespace. induction s as [|a s IH]; [done|].
  simpl bytes. cbn [forallb]. intros [Ha Hs]%andb_true_iff.
  apply graphic_not_whitespace in Ha as [E1 E2]. cbn [chars]. rewrite E1. cbn [existsb].
  by rewrite E2, IH.
Qed.

Lemma graphic_app s t :
  forallb graphic (bytes (s +:+ t)) = forallb graphic (bytes s) && forallb graphic (bytes t).
Proof. by rewrite bytes_app, forallb_app. Qed.

Lemma graphic_pretty_N_go x s :
  forallb graphic (bytes s) = true → forallb graphic (bytes (pretty_N_go x s)) = true.
Proof.
  revert s. induction (N.lt_wf_0 x) as [x _ IH]; intros s Hs.
  destruct (decide (x = 0)%N) as [->|Hx]; [by rewrite pretty_N_go_0|].
  rewrite pretty_N_go_step by lia. apply IH; [apply N.div_lt; lia|].
  simpl. rewrite Hs, andb_true_r. unfold pretty_N_char. by repeat case_match.
Qed.

Lemma graphic_show_Z z : forallb graphic (bytes (show_Z z)) = true.
Proof.
  assert (∀ n : N, forallb graphic (bytes (pretty n)) = true) as HN.
  { intros n. unfold pretty, pretty_N. case_decide; [done|]. by apply graphic_pretty_N_go. }
  unfold show_Z, pretty, pretty_Z. destruct z; try done; try apply HN.
Qed.

Lemma digits_value_pretty_N_go x s :
  digits_value 0 (pretty_N_go x s) = digits_value (Z.of_N x) s.
Proof.
  revert s. induction (N.lt_wf_0 x) as [x _ IH]; intros s.
  destruct (decide (x = 0)%N) as [->|Hx]; [by rewrite pretty_N_go_0|].
  rewrite pretty_N_go_step by lia. rewrite IH by (apply N.div_lt; lia). simpl.
  assert (to_digit 10 (pretty_N_char (x mod 10)) = Some (Z.of_N (x mod 10))) as ->.
  { assert (x mod 10 < 10)%N as Hlt by (apply N.mod_lt; lia). revert Hlt.
    generalize (x mod 10)%N. intros [|p] Hlt; [done|].
    do 4 (destruct p as [p|p|]; try done; try lia). }
  f_equal. rewrite N2Z.inj_div, N2Z.inj_mod. pose proof (Z.div_mod (Z.of_N x) 10). lia.
Qed.

(** Printing an unsigned integer and parsing it back. *)
Lemma parse_uint_show w z : in_u w z → parse_uint w (show_Z z) = Some z.
Proof.
  intros [H0 H1].
  assert (∀ s, digits_value 0 s = Some z → s ≠ EmptyString → parse_uint w s = Some z) as Hgen.
  { intros s E Hne. unfold parse_uint. destruct s as [|a s]; [done|].
    destruct (byte_of a =? 43) eqn:Ea.
    - exfalso. assert (to_digit 10 a = None) as Hd.
      { revert Ea. clear. revert a. by_bytes. }
      simpl in E. by rewrite Hd in E.
    - rewrite E. by rewrite (proj2 (Z.leb_le _ _)) by done. }
  unfold show_Z, pretty, pretty_Z. destruct z as [|p|p]; [| |lia].
  - by apply Hgen.
  - change (parse_uint w (pretty_N_go (Npos p) EmptyString) = Some (Z.pos p)).
    apply Hgen; [by rewrite digits_value_pretty_N_go|].
    intros E. pose proof (digits_value_pretty_N_go (Npos p) EmptyString) as D.
    rewrite E in D. cbn in D. discriminate D.
Qed.

(** Addresses as their types allow them. *)
Definition ip_wf (ip : IpAddr) : Prop :=
  match ip with
  | V4 a b c d => in_u 8 a ∧ in_u 8 b ∧ in_u 8 c ∧ in_u 8 d
  | V6 l => length l = 8%nat ∧ Forall (in_u 16) l
  end.

(** Facts about the sixteen hexadecimal digits, by enumeration. *)
Lemma hex_digit_cases (P : Z → Prop) :
  P 0 → P 1 → P 2 → P 3 → P 4 → P 5 → P 6 → P 7 → P 8 → P 9 → P 10 → P 11 → P 12 → P 13 →
  P 14 → P 15 → ∀ d, 0 ≤ d < 16 → P d.
Proof.
  intros. assert (d = 0 ∨ d = 1 ∨ d = 2 ∨ d = 3 ∨ d = 4 ∨ d = 5 ∨ d = 6 ∨ d = 7 ∨ d = 8 ∨ d = 9
    ∨ d = 10 ∨ d = 11 ∨ d = 12 ∨ d = 13 ∨ d = 14 ∨ d = 15) by lia. naive_solver.
Qed.

Lemma graphic_hex_digit d : 0 ≤ d < 16 → graphic (hex_digit d) = true.
Proof. revert d. by apply hex_digit_cases. Qed.

Lemma to_digit_hex_digit d : 0 ≤ d < 16 → to_digit 16 (hex_digit d) = Some d.
Proof. revert d. by apply hex_digit_cases. Qed.

Lemma hex_digit_not_plus d : 0 ≤ d < 16 → (byte_of (hex_digit d) =? 43) = false.
Proof. revert d. by apply hex_digit_cases. Qed.

Lemma graphic_hex_word z : in_u 16 z → forallb graphic (bytes (hex_word z)) = true.
Proof.
  unfold in_u, umax. simpl. intros Hz. unfold hex_word. rewrite bytes_of_bytes.
  apply forallb_forall. intros a Ha. apply in_map_iff in Ha as (d & <- & Hd).
  apply graphic_hex_digit. apply in_app_iff in Hd as [Hd|[<-|[]]].
  - apply In_drop_while in Hd as Hd'.
    simpl in Hd'. destruct Hd' as [<-|[<-|[<-|[]]]];
      [split; [apply Z.div_pos; lia|apply Z.div_lt_upper_bound; lia]|..];
      apply Z.mod_pos_bound; lia.
  - apply Z.mod_pos_bound. lia.
Qed.

Lemma graphic_fmt_subslice l :
  Forall (in_u 16) l → forallb graphic (bytes (Net.fmt_subslice l)) = true.
Proof.
  unfold Net.fmt_subslice, str_join. induction 1 as [|z l Hz Hl IH]; [done|].
  destruct l as [|y l]; simpl; [by apply graphic_hex_word|].
  simpl in IH. rewrite !graphic_app, IH, graphic_hex_word by done. done.
Qed.

Lemma graphic_show_ip ip : ip_wf ip → forallb graphic (bytes (Net.show_ip ip)) = true.
Proof.
  assert (∀ a b c d, forallb graphic (bytes (Net.show_ipv4 a b c d)) = true) as H4.
  { intros. unfold Net.show_ipv4. by rewrite !graphic_app, !graphic_show_Z. }
  intros Hip. destruct ip as [a b c d|l]; [apply H4|]. destruct Hip as [Hl Hw].
  unfold Net.show_ip. repeat case_match; try (by rewrite graphic_app, H4);
    rewrite ?graphic_app, ?graphic_fmt_subslice by eauto using Forall_take, Forall_drop; done.
Qed.

Lemma append_length s t : String.length (s +:+ t) = (String.length s + String.length t)%nat.
Proof. by rewrite <-!length_bytes, bytes_app, length_app. Qed.

Lemma show_ip_nonempty ip : ip_wf ip → Net.show_ip ip ≠ EmptyString.
Proof.
  intros Hip E. apply (f_equal String.length) in E. revert E.
  destruct ip as [a b c d|l]; [unfold Net.show_ip, Net.show_ipv4; rewrite !append_length; simpl; lia|].
  assert (String.length (Net.fmt_subslice l) ≠ 0)%nat as Hl.
  { destruct Hip as [Hl _]. destruct l as [|x [|y l]]; try done.
    unfold Net.fmt_subslice, str_join.
    change (String.concat ":" (map hex_word (x :: y :: l)))
      with (hex_word x +:+ ":" +:+ String.concat ":" (map hex_word (y :: l))).
    rewrite !append_length. simpl. lia. }
  clear Hip. unfold Net.show_ip. repeat case_match; rewrite ?append_length; simpl; try lia; done.
Qed.

#[export] Hint Rewrite of_bytes_bytes bytes_of_bytes bytes_str_map bytes_app of_chars_chars
  to_ascii_lowercase_idemp trim_dots_lower : rust_str.
