(* ===== verification/Ir.v ===== *)
(** The canonical intermediate representation of [crates/ir]: the data every
    other component exchanges, the functional identity of a node and its hash.

    [bincode] and [sha2] are third-party crates: their two functions are the
    operations of the class [IdentityHash], and the one law the code relies on
    (what [bincode] writes determines the value) is the class
    [IdentityHashLaws]. *)

From S2P Require Import Prelude RustStr.

(** ** protocol.rs *)

(** A 128-bit UUID. *)
Definition Uuid := Z.

Inductive VlessFlow := XtlsRprxVision | XtlsRprxVisionUdp443.
Record VlessConfig := { vless_uuid : Uuid; vless_flow : option VlessFlow }.

Inductive VmessCipher := VmAuto | VmAes128Gcm | VmChacha20Poly1305 | VmNone.
Record VmessConfig := { vmess_uuid : Uuid; vmess_alter_id : Z; vmess_cipher : VmessCipher }.

Record TrojanConfig := { trojan_password : string }.

Inductive ShadowsocksCipher :=
| SsAes128Gcm
| SsAes256Gcm
| SsChacha20IetfPoly1305
| Ss2022Blake3Aes128Gcm
| Ss2022Blake3Aes256Gcm
| Ss2022Blake3Chacha20Poly1305.
Record ShadowsocksConfig := {
  ss_method : ShadowsocksCipher;
  ss_password : string;
  ss_plugin : option string;
  ss_plugin_opts : option string
}.

Record Hysteria2Obfs := { obfs_type : string; obfs_password : string }.
Record Hysteria2Config := {
  hy_password : string;
  hy_up_mbps : option Z;
  hy_down_mbps : option Z;
  hy_obfs : option Hysteria2Obfs;
  hy_port_hopping : option string
}.

Inductive TuicCongestion := TcBbr | TcCubic | TcNewReno.
Inductive TuicUdpRelay := TrNative | TrQuic.
Record TuicConfig := {
  tuic_uuid : Uuid;
  tuic_password : string;
  tuic_congestion_control : TuicCongestion;
  tuic_udp_relay_mode : TuicUdpRelay;
  tuic_zero_rtt_handshake : bool
}.

Record WireGuardConfig := {
  wg_private_key : string;
  wg_peer_public_key : string;
  wg_preshared_key : option string;
  wg_local_address : list IpAddr;
  wg_reserved : option (Z * Z * Z);
  wg_mtu : option Z
}.

Inductive ProtocolSpec :=
| Vless (c : VlessConfig)
| Vmess (c : VmessConfig)
| Trojan (c : TrojanConfig)
| Shadowsocks (c : ShadowsocksConfig)
| Hysteria2 (c : Hysteria2Config)
| Tuic (c : TuicConfig)
| WireGuard (c : WireGuardConfig).

(** ** transport.rs *)

Record WebSocketConfig := {
  ws_path : string;
  ws_host : option string;
  ws_max_early_data : Z;
  ws_early_data_header : option string
}.
Record GrpcConfig := { grpc_service_name : string; grpc_multi_mode : bool }.
Record HttpUpgradeConfig := { hu_path : string; hu_host : option string }.
Inductive XHttpMode := StreamOne | StreamUp | PacketUp.
Record XHttpConfig := { xh_mode : XHttpMode; xh_path : string; xh_host : option string }.

Inductive TransportSpec :=
| Tcp
| WebSocket (c : WebSocketConfig)
| Grpc (c : GrpcConfig)
| HttpUpgrade (c : HttpUpgradeConfig)
| XHttp (c : XHttpConfig).

Inductive UtlsFingerprint := FpChrome | FpFirefox | FpSafari | FpEdge | FpRandomized | FpNone.
Record StandardTlsConfig := {
  tls_server_name : string;
  tls_alpn : list string;
  tls_fingerprint : UtlsFingerprint;
  tls_allow_insecure : bool
}.
Record RealityConfig := {
  re_server_name : string;
  re_public_key : string;
  re_short_id : string;
  re_spider_x : option string;
  re_fingerprint : UtlsFingerprint
}.
Inductive SecuritySpec :=
| SecNone
| SecTls (c : StandardTlsConfig)
| SecReality (c : RealityConfig).

Inductive MuxProtocol := Smux | Yamux | H2Mux.
Record MuxSpec := { mux_enabled : bool; mux_concurrency : Z; mux_protocol : MuxProtocol }.

(** ** adapter.rs *)

Inductive CoreCapability :=
| CapVless | CapVlessReality | CapVmess | CapTrojan | CapShadowsocks | CapHysteria2
| CapTuic | CapWireGuard | CapWebSocket | CapGrpc | CapHttpUpgrade | CapXHttp
| CapMultiplexing.
#[export] Instance CoreCapability_eq_dec : EqDecision CoreCapability.
Proof. solve_decision. Defined.

(** The [BTreeSet] of capabilities, as the set's members in any order. *)
Record CoreCapabilities := {
  core_name : string;
  core_version : string;
  core_supported : list CoreCapability
}.
Definition supports (caps : CoreCapabilities) (c : CoreCapability) : bool :=
  bool_decide (c ∈ core_supported caps).

(** ** Decidable equality *)

#[export] Instance VlessFlow_eq_dec : EqDecision VlessFlow.
Proof. solve_decision. Defined.
#[export] Instance VlessConfig_eq_dec : EqDecision VlessConfig.
Proof. solve_decision. Defined.
#[export] Instance VmessCipher_eq_dec : EqDecision VmessCipher.
Proof. solve_decision. Defined.
#[export] Instance VmessConfig_eq_dec : EqDecision VmessConfig.
Proof. solve_decision. Defined.
#[export] Instance TrojanConfig_eq_dec : EqDecision TrojanConfig.
Proof. solve_decision. Defined.
#[export] Instance ShadowsocksCipher_eq_dec : EqDecision ShadowsocksCipher.
Proof. solve_decision. Defined.
#[export] Instance ShadowsocksConfig_eq_dec : EqDecision ShadowsocksConfig.
Proof. solve_decision. Defined.
#[export] Instance Hysteria2Obfs_eq_dec : EqDecision Hysteria2Obfs.
Proof. solve_decision. Defined.
#[export] Instance Hysteria2Config_eq_dec : EqDecision Hysteria2Config.
Proof. solve_decision. Defined.
#[export] Instance TuicCongestion_eq_dec : EqDecision TuicCongestion.
Proof. solve_decision. Defined.
#[export] Instance TuicUdpRelay_eq_dec : EqDecision TuicUdpRelay.
Proof. solve_decision. Defined.
#[export] Instance TuicConfig_eq_dec : EqDecision TuicConfig.
Proof. solve_decision. Defined.
#[export] Instance WireGuardConfig_eq_dec : EqDecision WireGuardConfig.
Proof. solve_decision. Defined.
#[export] Instance ProtocolSpec_eq_dec : EqDecision ProtocolSpec.
Proof. solve_decision. Defined.
#[export] Instance WebSocketConfig_eq_dec : EqDecision WebSocketConfig.
Proof. solve_decision. Defined.
#[export] Instance GrpcConfig_eq_dec : EqDecision GrpcConfig.
Proof. solve_decision. Defined.
#[export] Instance HttpUpgradeConfig_eq_dec : EqDecision HttpUpgradeConfig.
Proof. solve_decision. Defined.
#[export] Instance XHttpMode_eq_dec : EqDecision XHttpMode.
Proof. solve_decision. Defined.
#[export] Instance XHttpConfig_eq_dec : EqDecision XHttpConfig.
Proof. solve_decision. Defined.
#[export] Instance TransportSpec_eq_dec : EqDecision TransportSpec.
Proof. solve_decision. Defined.
#[export] Instance UtlsFingerprint_eq_dec : EqDecision UtlsFingerprint.
Proof. solve_decision. Defined.
#[export] Instance StandardTlsConfig_eq_dec : EqDecision StandardTlsConfig.
Proof. solve_decision. Defined.
#[export] Instance RealityConfig_eq_dec : EqDecision RealityConfig.
Proof. solve_decision. Defined.
#[export] Instance SecuritySpec_eq_dec : EqDecision SecuritySpec.
Proof. solve_decision. Defined.
#[export] Instance MuxProtocol_eq_dec : EqDecision MuxProtocol.
Proof. solve_decision. Defined.
#[export] Instance MuxSpec_eq_dec : EqDecision MuxSpec.
Proof. solve_decision. Defined.

(** ** lib.rs *)

Definition CANONICAL_HASH_VERSION : Z := 1.

Record NodeMetadata := {
  sub_id : Z;
  label : string;
  country_code : string;
  import_timestamp : Z
}.
#[export] Instance NodeMetadata_eq_dec : EqDecision NodeMetadata.
Proof. solve_decision. Defined.

(** [NodeMetadata::new]; [country_code] is a two-byte array. *)
Definition NodeMetadata_new (sid : Z) (lbl : string) (code : string) (ts : Z)
  : result Error NodeMetadata :=
  if negb (forallb is_ascii_uppercase (bytes code))
  then bail "country code must use uppercase ASCII letters"
  else Ok {| sub_id := sid; label := lbl; country_code := code; import_timestamp := ts |}.

Inductive EndpointTarget :=
| EpIp (address : SocketAddr)
| EpDomain (host : string) (port : Z).
#[export] Instance EndpointTarget_eq_dec : EqDecision EndpointTarget.
Proof. solve_decision. Defined.

Definition normalize_host (h : string) : result Error string :=
  let host := to_ascii_lowercase (trim_end_matches "."%char (trim h)) in
  if bool_decide (host = EmptyString) || (253 <? str_len host)
     || contains_byte "/"%char host || contains_whitespace host
  then bail "invalid endpoint hostname"
  else match Net.parse_ip host with
       | Some _ => bail "IP addresses must use EndpointTarget::Ip"
       | None => Ok host
       end.

Definition EndpointTarget_domain (host : string) (port : Z) : result Error EndpointTarget :=
  if port =? 0 then bail "endpoint port cannot be zero"
  else normalized ← normalize_host host; Ok (EpDomain normalized port).

Definition EndpointTarget_normalize (e : EndpointTarget) : result Error EndpointTarget :=
  match e with
  | EpIp address =>
    if negb (sa_port address =? 0) then Ok e else bail "endpoint port cannot be zero"
  | EpDomain host port => EndpointTarget_domain host port
  end.

Record FunctionalIdentity := {
  fi_version : Z;
  fi_endpoint : EndpointTarget;
  fi_protocol : ProtocolSpec;
  fi_transport : TransportSpec;
  fi_security : SecuritySpec;
  fi_mux : option MuxSpec
}.
#[export] Instance FunctionalIdentity_eq_dec : EqDecision FunctionalIdentity.
Proof. solve_decision. Defined.

Record CanonicalNode := {
  hash : string;
  meta : NodeMetadata;
  endpoint : EndpointTarget;
  protocol : ProtocolSpec;
  transport : TransportSpec;
  security : SecuritySpec;
  mux : option MuxSpec
}.
#[export] Instance CanonicalNode_eq_dec : EqDecision CanonicalNode.
Proof. solve_decision. Defined.

(** The operations of [bincode] and [sha2] on an identity. *)
Class IdentityHash := {
  bincode_serialize : FunctionalIdentity → result Error string;
  sha256_digest : string → string
}.

(** What [bincode] documents: its output determines the value it encodes. *)
Class IdentityHashLaws `{IdentityHash} := {
  bincode_deserialize : string → option FunctionalIdentity;
  bincode_roundtrip i b : bincode_serialize i = Ok b → bincode_deserialize b = Some i
}.

Section CanonicalNode.
Context `{IdentityHash}.

Definition try_new (m : NodeMetadata) (e : EndpointTarget) (p : ProtocolSpec)
    (t : TransportSpec) (s : SecuritySpec) (mx : option MuxSpec) : result Error CanonicalNode :=
  ep ← EndpointTarget_normalize e;
  let mx := match mx with Some v => if mux_enabled v then Some v else None | None => None end in
  let identity := {| fi_version := CANONICAL_HASH_VERSION; fi_endpoint := ep; fi_protocol := p;
                     fi_transport := t; fi_security := s; fi_mux := mx |} in
  bs ← bincode_serialize identity;
  Ok {| hash := sha256_digest bs; meta := m; endpoint := ep; protocol := p;
        transport := t; security := s; mux := mx |}.

(** The identity [functional_identity_bytes] serializes. *)
Definition identity_of (n : CanonicalNode) : FunctionalIdentity :=
  {| fi_version := CANONICAL_HASH_VERSION; fi_endpoint := endpoint n; fi_protocol := protocol n;
     fi_transport := transport n; fi_security := security n; fi_mux := mux n |}.

Definition functional_identity_bytes (n : CanonicalNode) : result Error string :=
  bincode_serialize (identity_of n).
End CanonicalNode.

Definition hash_hex (n : CanonicalNode) : string :=
  of_chars (map (λ a, hex2 (byte_of a)) (bytes (hash n))).

(** ** Well-formedness *)

(** The host of a domain endpoint is in canonical form. *)
Definition host_wf (h : string) : Prop :=
  h ≠ EmptyString ∧ str_len h ≤ 253 ∧
  contains_byte "/"%char h = false ∧ contains_whitespace h = false ∧
  to_ascii_lowercase h = h ∧ trim_end_matches "."%char h = h ∧
  Net.parse_ip h = None.

Definition endpoint_wf (e : EndpointTarget) : Prop :=
  match e with
  | EpIp a => sa_port a ≠ 0
  | EpDomain h p => p ≠ 0 ∧ host_wf h
  end.

Lemma normalize_host_wf h h' : normalize_host h = Ok h' → host_wf h'.
Proof.
  unfold normalize_host. intros E.
  case_match eqn:Eb; [done|]. case_match eqn:Ep; [done|]. simplify_eq.
  repeat rewrite orb_false_iff in Eb. destruct Eb as [[[E1 E2] E3] E4].
  apply bool_decide_eq_false in E1.
  unfold host_wf. repeat split; try done; [lia| |]; by autorewrite with rust_str.
Qed.

Lemma normalize_host_fixed h : host_wf h → normalize_host h = Ok h.
Proof.
  intros (H1 & H2 & H3 & H4 & H5 & H6 & H7). unfold normalize_host.
  rewrite trim_no_whitespace, H6, H5, H3, H4, H7 by done.
  rewrite bool_decide_eq_false_2 by done. rewrite (proj2 (Z.ltb_ge _ _)) by done. done.
Qed.

Lemma endpoint_normalize_wf e e' : EndpointTarget_normalize e = Ok e' → endpoint_wf e'.
Proof.
  destruct e as [a|h p]; simpl.
  - case_match eqn:E; [|done]. intros. simplify_eq. simpl.
    by apply negb_true_iff, Z.eqb_neq in E.
  - unfold EndpointTarget_domain. case_match eqn:E; [done|]. intros. inv_ok. subst.
    apply Z.eqb_neq in E. split; [done|]. by eapply normalize_host_wf.
Qed.

Lemma endpoint_normalize_fixed e : endpoint_wf e → EndpointTarget_normalize e = Ok e.
Proof.
  destruct e as [a|h p]; simpl.
  - intros H. by rewrite (proj2 (Z.eqb_neq _ _) H).
  - intros [H Hw]. unfold EndpointTarget_domain. rewrite (proj2 (Z.eqb_neq _ _) H).
    by rewrite normalize_host_fixed.
Qed.

Section CanonicalNodeLemmas.
Context `{IdentityHash}.

(** What a node built by [try_new] satisfies. *)
Record node_wf (n : CanonicalNode) : Prop := {
  wf_endpoint : endpoint_wf (endpoint n);
  wf_mux : ∀ v, mux n = Some v → mux_enabled v = true;
  wf_hash : ∃ bs, bincode_serialize (identity_of n) = Ok bs ∧ hash n = sha256_digest bs
}.

Lemma try_new_node_wf m e p t s mx n : try_new m e p t s mx = Ok n → node_wf n.
Proof.
  unfold try_new. intros. inv_ok. subst. split; simpl.
  - by eapply endpoint_normalize_wf.
  - intros v. repeat case_match; naive_solver.
  - eauto.
Qed.

Lemma try_new_fields m e p t s mx n : try_new m e p t s mx = Ok n →
  meta n = m ∧ protocol n = p ∧ transport n = t ∧ security n = s
  ∧ EndpointTarget_normalize e = Ok (endpoint n)
  ∧ mux n = (v ← mx; if mux_enabled v then Some v else None).
Proof. unfold try_new. intros. inv_ok. subst. by destruct mx. Qed.
End CanonicalNodeLemmas.

(** ** Properties *)

(** C25. A node that [try_new] accepts is canonical: its endpoint is normalised
    (a non-zero port and a trimmed, dot-free, lower-case, non-IP host of 1 to 253
    bytes without [/] or white space), a multiplexing section it keeps is enabled,
    its hash is the digest of its own identity, and building a node again from
    its fields gives the very same node. *)
Theorem try_new_canonical `{IdentityHash} m e p t s mx n :
  try_new m e p t s mx = Ok n →
  node_wf n ∧
  try_new (meta n) (endpoint n) (protocol n) (transport n) (security n) (mux n) = Ok n.
Proof.
  intros Hn. pose proof (try_new_node_wf _ _ _ _ _ _ _ Hn) as [Hep Hmux Hh]. split; [done|].
  destruct Hh as (bs & Hbs & Hd). destruct n as [h m' ep p' t' s' mx']; simpl in *. subst h.
  unfold try_new. rewrite endpoint_normalize_fixed by done. simpl.
  assert ((match mx' with Some v => if mux_enabled v then Some v else None | None => None end)
          = mx') as ->.
  { destruct mx' as [v|]; [|done]. by rewrite (Hmux v). }
  unfold identity_of in Hbs. simpl in Hbs. by rewrite Hbs.
Qed.

(** Two accepted nodes with the same functional identity have the same hash,
    whatever their metadata; and two with the same hash have the same endpoint,
    protocol, transport, security and multiplexing, unless their serialized
    identities are a collision of SHA-256. *)
Lemma hash_is_identity `{IdentityHashLaws} m1 e1 p1 t1 s1 x1 n1 m2 e2 p2 t2 s2 x2 n2 :
  try_new m1 e1 p1 t1 s1 x1 = Ok n1 →
  try_new m2 e2 p2 t2 s2 x2 = Ok n2 →
  (identity_of n1 = identity_of n2 → hash n1 = hash n2) ∧
  (hash n1 = hash n2 →
    identity_of n1 = identity_of n2 ∨
    ∃ b1 b2, functional_identity_bytes n1 = Ok b1 ∧ functional_identity_bytes n2 = Ok b2 ∧
             b1 ≠ b2 ∧ sha256_digest b1 = sha256_digest b2).
Proof.
  intros H1 H2.
  pose proof (wf_hash _ (try_new_node_wf _ _ _ _ _ _ _ H1)) as (b1 & E1 & D1).
  pose proof (wf_hash _ (try_new_node_wf _ _ _ _ _ _ _ H2)) as (b2 & E2 & D2).
  split.
  - intros E. rewrite E in E1. congruence.
  - intros E. destruct (decide (b1 = b2)) as [->|Hne].
    + left. apply bincode_roundtrip in E1. apply bincode_roundtrip in E2. congruence.
    + right. exists b1, b2. unfold functional_identity_bytes. by rewrite <-D1, <-D2.
Qed.

(** *** Concrete instances *)

Definition sample_meta (sid : Z) (lbl : string) : NodeMetadata :=
  {| sub_id := sid; label := lbl; country_code := "DE"; import_timestamp := 1 |}.
Definition sample_identity : FunctionalIdentity :=
  {| fi_version := 1; fi_endpoint := EpDomain "example.com" 443;
     fi_protocol := Vless {| vless_uuid := 0; vless_flow := Some XtlsRprxVision |};
     fi_transport := Tcp; fi_security := SecNone; fi_mux := None |}.

(** A serializer that knows one value. *)
Definition sample_hash : IdentityHash :=
  {| bincode_serialize i := if decide (i = sample_identity) then Ok "id"%stdpp else bail "?";
     sha256_digest b := b |}.
#[local] Existing Instance sample_hash.
#[local] Program Instance sample_hash_laws : @IdentityHashLaws sample_hash :=
  {| bincode_deserialize _ := Some sample_identity |}.
Next Obligation. intros i b. simpl. case_decide; naive_solver. Qed.

Definition sample_node (sid : Z) (lbl : string) : CanonicalNode :=
  {| hash := "id"; meta := sample_meta sid lbl; endpoint := EpDomain "example.com" 443;
     protocol := fi_protocol sample_identity; transport := Tcp; security := SecNone;
     mux := None |}.

Lemma try_new_canonical_witness :
  node_wf (sample_node 1 "Frankfurt") ∧
  try_new (sample_meta 1 "Frankfurt") (EpDomain "example.com" 443)
    (fi_protocol sample_identity) Tcp SecNone None = Ok (sample_node 1 "Frankfurt").
Proof.
  apply (try_new_canonical (sample_meta 1 "Frankfurt") (EpDomain " Example.COM. " 443)
    (fi_protocol sample_identity) Tcp SecNone
    (Some {| mux_enabled := false; mux_concurrency := 32; mux_protocol := Smux |})).
  reflexivity.
Defined.

Lemma hash_is_identity_witness :
  hash (sample_node 1 "Frankfurt") = hash (sample_node 2 "VIP Frankfurt").
Proof.
  eapply (hash_is_identity (sample_meta 1 "Frankfurt") (EpDomain "Example.COM." 443)
    (fi_protocol sample_identity) Tcp SecNone None _
    (sample_meta 2 "VIP Frankfurt") (EpDomain "example.com" 443)
    (fi_protocol sample_identity) Tcp SecNone None); reflexivity.
Defined.
