(* ===== verification/Metadata.v ===== *)
(** Country codes from node labels ([crates/parser/src/metadata.rs]) and the
    parser's error and report types ([error.rs]). *)

From S2P Require Import Prelude RustStr Ir.

(** ** error.rs *)

Inductive ParseError :=
| UnsupportedFormat (s : string)
| InvalidUri (s : string)
| Base64Decode (s : string)
| JsonError (s : string)
| MissingField (field : string)
| InvalidUuid (s : string)
| InvalidEndpoint (s : string)
| InvalidValue (field : string) (value : string).
#[export] Instance ParseError_eq_dec : EqDecision ParseError.
Proof. solve_decision. Defined.

(** The [Display] that [thiserror] derives from the attributes. *)
Definition show_parse_error (e : ParseError) : string :=
  match e with
  | UnsupportedFormat s => "unsupported format or scheme: " +:+ s
  | InvalidUri s => "malformed URI: " +:+ s
  | Base64Decode s => "Base64 decoding failed: " +:+ s
  | JsonError s => "JSON deserialization failed: " +:+ s
  | MissingField f => "missing mandatory field: " +:+ f
  | InvalidUuid s => "invalid UUID: " +:+ s
  | InvalidEndpoint s => "invalid endpoint: " +:+ s
  | InvalidValue f v => "invalid value for " +:+ f +:+ ": " +:+ v
  end.

Record ParseFailure := {
  entry_index : Z;
  line_number : Z;
  raw_snippet : string;
  reason : ParseError
}.

Record IngestionReport := {
  total_entries_scanned : Z;
  successful_nodes : list CanonicalNode;
  duplicates_omitted : Z;
  failed_entries : list ParseFailure
}.
Definition IngestionReport_default : IngestionReport :=
  {| total_entries_scanned := 0; successful_nodes := []; duplicates_omitted := 0;
     failed_entries := [] |}.

(** ** metadata.rs *)

Definition COUNTRY_KEYWORDS : list (string * string) :=
  [("tokyo", "JP");
   ("osaka", "JP");
   ("japan", "JP");
   ("hong kong", "HK");
   ("taiwan", "TW");
   ("taipei", "TW");
   ("singapore", "SG");
   ("korea", "KR");
   ("seoul", "KR");
   ("frankfurt", "DE");
   ("germany", "DE");
   ("deutschland", "DE");
   ("amsterdam", "NL");
   ("netherlands", "NL");
   ("paris", "FR");
   ("france", "FR");
   ("london", "GB");
   ("united kingdom", "GB");
   ("new york", "US");
   ("los angeles", "US");
   ("chicago", "US");
   ("seattle", "US");
   ("dallas", "US");
   ("san jose", "US");
   ("united states", "US");
   ("usa", "US");
   ("sydney", "AU");
   ("australia", "AU");
   ("bangkok", "TH");
   ("thailand", "TH");
   ("vietnam", "VN");
   ("hanoi", "VN");
   ("ho chi minh", "VN");
   ("moscow", "RU");
   ("russia", "RU");
   ("mumbai", "IN");
   ("india", "IN");
   ("dubai", "AE");
   ("istanbul", "TR");
   ("turkey", "TR");
   ("madrid", "ES");
   ("spain", "ES");
   ("helsinki", "FI");
   ("finland", "FI");
   ("stockholm", "SE");
   ("sweden", "SE");
   ("oslo", "NO");
   ("norway", "NO");
   ("copenhagen", "DK");
   ("denmark", "DK");
   ("warsaw", "PL");
   ("poland", "PL");
   ("prague", "CZ");
   ("toronto", "CA");
   ("vancouver", "CA");
   ("montreal", "CA");
   ("canada", "CA");
   ("sao paulo", "BR");
   ("brazil", "BR");
   ("chile", "CL");
   ("argentina", "AR");
   ("kuala lumpur", "MY");
   ("malaysia", "MY");
   ("jakarta", "ID");
   ("indonesia", "ID");
   ("manila", "PH");
   ("philippines", "PH")].

(** The letter of a regional indicator. *)
Definition indicator (c : string) : option ascii :=
  let value := code_point c in
  if in_range 127462 127487 value then Some (char_of (65 + (value - 127462))) else None.

Definition emoji_code (lbl : string) : option string :=
  match omap indicator (chars lbl) with
  | a :: b :: _ => Some (of_bytes [a; b])
  | _ => None
  end.

(** [position] with the slice before it. *)
Fixpoint take_until (close : ascii) (l : list ascii) : option (list ascii) :=
  match l with
  | [] => None
  | a :: l => if Ascii.eqb a close then Some [] else cons a <$> take_until close l
  end.

(** One byte of the scan: the candidate a bracket opens, if it is a code. *)
Definition bracket_at (byte : ascii) (rest : list ascii) : option string :=
  close ← (if Ascii.eqb byte "["%char then Some "]"%char
           else if Ascii.eqb byte "("%char then Some ")"%char else None);
  if (6 <? length rest)%nat then None
  else candidate ← take_until close rest;
       if (length candidate =? 2)%nat && forallb is_ascii_uppercase candidate
       then Some (of_bytes candidate) else None.

Fixpoint bracket_scan (l : list ascii) : option string :=
  match l with
  | [] => None
  | a :: rest =>
    match bracket_at a rest with
    | Some code => Some code
    | None => bracket_scan rest
    end
  end.
Definition bracket_code (lbl : string) : option string := bracket_scan (bytes lbl).

(** The dictionary loop: the code of the first keyword the label contains. *)
Definition keyword_code (lowered : string) : string :=
  match List.find (λ '(keyword, _), str_contains keyword lowered) COUNTRY_KEYWORDS with
  | Some (_, code) => code
  | None => "UN"
  end.

Definition extract_country_code (lbl : string) : string :=
  match emoji_code lbl with
  | Some code => code
  | None =>
    match bracket_code lbl with
    | Some code => code
    | None => keyword_code (to_ascii_lowercase lbl)
    end
  end.

(** [make_metadata] of [lib.rs]. *)
Definition make_metadata (sid : Z) (lbl : string) (ts : Z) : result ParseError NodeMetadata :=
  map_err (λ e, InvalidValue "metadata" (error_to_string e))
    (NodeMetadata_new sid lbl (extract_country_code lbl) ts).

(** ** Lemmas *)

Definition code_wf (c : string) : Prop :=
  String.length c = 2%nat ∧ forallb is_ascii_uppercase (bytes c) = true.

Lemma indicator_uppercase c a : indicator c = Some a → is_ascii_uppercase a = true.
Proof.
  unfold indicator, in_range. case_match eqn:E; [|done]. intros [= <-].
  unfold is_ascii_uppercase, in_range. rewrite byte_of_char_of by lia. lia.
Qed.

Lemma emoji_code_wf l c : emoji_code l = Some c → code_wf c.
Proof.
  unfold emoji_code. destruct (omap indicator (chars l)) as [|a [|b t]] eqn:E; try done.
  intros [= <-].
  assert (∀ x, x ∈ omap indicator (chars l) → is_ascii_uppercase x = true) as H.
  { intros x. rewrite list_elem_of_omap. intros (y & _ & Hy). by eapply indicator_uppercase. }
  rewrite E in H. split; [done|]. simpl.
  rewrite (H a), (H b) by set_solver. done.
Qed.

Lemma bracket_at_wf a r c : bracket_at a r = Some c → code_wf c.
Proof.
  unfold bracket_at. intros H. apply bind_Some in H as (cl & _ & H).
  case_match; [done|]. apply bind_Some in H as (cand & _ & H).
  case_match eqn:E; [|done]. simplify_eq. apply andb_true_iff in E as [E1 E2].
  unfold code_wf. rewrite <-length_bytes, bytes_of_bytes. by apply Nat.eqb_eq in E1.
Qed.

Lemma bracket_scan_wf l c : bracket_scan l = Some c → code_wf c.
Proof.
  induction l as [|a l IH]; simpl; [done|]. case_match eqn:E; [|done].
  intros. simplify_eq. by eapply bracket_at_wf.
Qed.

Lemma keyword_codes_wf :
  Forall (λ kc, code_wf kc.2) COUNTRY_KEYWORDS.
Proof. repeat constructor. Qed.

Lemma extract_country_code_wf l : code_wf (extract_country_code l).
Proof.
  unfold extract_country_code.
  destruct (emoji_code l) eqn:E1; [by eapply emoji_code_wf|].
  destruct (bracket_code l) eqn:E2; [by eapply bracket_scan_wf|].
  unfold keyword_code. destruct (List.find _ _) as [[k c]|] eqn:E3; [|done].
  apply List.find_some in E3 as [Hin _]. apply list_elem_of_In in Hin.
  pose proof keyword_codes_wf as HF. rewrite Forall_forall in HF. by apply (HF (k, c)).
Qed.

Lemma make_metadata_ok sid lbl ts :
  make_metadata sid lbl ts =
    Ok {| sub_id := sid; label := lbl; country_code := extract_country_code lbl;
          import_timestamp := ts |}.
Proof.
  unfold make_metadata, NodeMetadata_new.
  by rewrite (proj2 (extract_country_code_wf lbl)).
Qed.

(** ** Properties *)

(** The country code found in any label is two upper-case ASCII letters, so
    [NodeMetadata::new] accepts it: [make_metadata] never fails, and a label that
    carries two regional indicators gets exactly their letters whatever else it
    contains. *)
Lemma country_code_total sid lbl ts :
  code_wf (extract_country_code lbl) ∧
  (∃ m, make_metadata sid lbl ts = Ok m ∧ label m = lbl ∧ sub_id m = sid ∧
        import_timestamp m = ts ∧ country_code m = extract_country_code lbl) ∧
  (∀ a b l, omap indicator (chars lbl) = a :: b :: l →
     extract_country_code lbl = of_bytes [a; b]).
Proof.
  split; [apply extract_country_code_wf|]. split.
  - rewrite make_metadata_ok. eauto 10.
  - intros a b l E. unfold extract_country_code, emoji_code. by rewrite E.
Qed.

(** A bracketed tag is only recognised when at most six bytes follow its
    bracket: in the middle of a label the keyword dictionary wins over it. *)
Lemma bracket_only_near_the_end lbl :
  (∀ pre a rest, bytes lbl = pre ++ a :: rest → (a = "["%char ∨ a = "("%char) →
     (6 < length rest)%nat) →
  bracket_code lbl = None ∧
  (emoji_code lbl = None →
   extract_country_code lbl = keyword_code (to_ascii_lowercase lbl)).
Proof.
  intros H.
  assert (bracket_code lbl = None) as Hb.
  { unfold bracket_code. revert H. generalize (bytes lbl). intros l.
    induction l as [|a l IH]; intros H; simpl; [done|].
    assert (bracket_at a l = None) as ->.
    { unfold bracket_at. destruct (Ascii.eqb_spec a "["), (Ascii.eqb_spec a "("); simpl;
        try done; pose proof (H [] a l); rewrite (proj2 (Nat.ltb_lt _ _)); naive_solver. }
    apply IH. intros pre b rest ->. apply (H (a :: pre)). done. }
  split; [done|]. intros He. unfold extract_country_code. by rewrite He, Hb.
Qed.

Lemma bracket_only_near_the_end_witness :
  bracket_code "[FR] Osaka" = None ∧
  extract_country_code "[FR] Osaka" = "JP" ∧ extract_country_code "Osaka [FR]" = "FR".
Proof.
  assert (∀ pre a rest, bytes "[FR] Osaka" = pre ++ a :: rest →
            (a = "["%char ∨ a = "("%char) → (6 < length rest)%nat) as H.
  { intros pre a rest E Ha.
    do 10 (destruct pre as [|? pre]; [simpl in E; simplify_eq; destruct Ha; try done; simpl; lia|
      simpl in E; injection E as _ E]).
    by destruct pre. }
  destruct (bracket_only_near_the_end "[FR] Osaka" H) as [H1 H2].
  split; [exact H1|]. split; [rewrite H2; reflexivity|reflexivity].
Defined.
