(* ===== verification/Json.v ===== *)
(** JSON values as [serde_json] keeps them (without [preserve_order]: an object
    is a [BTreeMap], here a key-sorted association list), with the accessors and
    the insertion the source uses. *)

From S2P Require Import Prelude RustStr.
From Stdlib Require Import SpecFloat.

(** [serde_json::Number]: an unsigned, a negative, or a float. *)
Inductive Number :=
| PosInt (n : Z)
| NegInt (n : Z)
| Float (f : spec_float).

Inductive Value :=
| JNull
| JBool (b : bool)
| JNumber (n : Number)
| JString (s : string)
| JArray (l : list Value)
| JObject (m : list (string * Value)).

Abbreviation Map := (list (string * Value)).

(** ** Accessors *)

Definition as_u64 (v : Value) : option Z :=
  match v with JNumber (PosInt n) => Some n | _ => None end.
Definition as_str (v : Value) : option string :=
  match v with JString s => Some s | _ => None end.
Definition as_array (v : Value) : option (list Value) :=
  match v with JArray l => Some l | _ => None end.

Fixpoint map_lookup (k : string) (m : Map) : option Value :=
  match m with
  | [] => None
  | (k', v) :: m => if String.eqb k k' then Some v else map_lookup k m
  end.

(** [Map::insert]: the value of a present key is replaced. *)
Fixpoint map_insert (k : string) (v : Value) (m : Map) : Map :=
  match m with
  | [] => [(k, v)]
  | (k', v') :: m' =>
    match String.compare k k' with
    | Lt => (k, v) :: m
    | Eq => (k, v) :: m'
    | Gt => (k', v') :: map_insert k v m'
    end
  end.

(** [Value::get] with a string key. *)
Definition value_get (k : string) (v : Value) : option Value :=
  match v with JObject m => map_lookup k m | _ => None end.

(** The [json!] macro on an object literal: its entries inserted in order. *)
Definition json_object (entries : list (string * Value)) : Value :=
  JObject (foldl (λ m '(k, v), map_insert k v m) [] entries).

Definition json_uint (n : Z) : Value := JNumber (PosInt n).
Definition json_opt_str (o : option string) : Value :=
  match o with Some s => JString s | None => JNull end.

(** ** Lemmas *)

Lemma string_compare_eqb k k' :
  String.eqb k k' = match String.compare k k' with Eq => true | _ => false end.
Proof.
  destruct (String.eqb_spec k k') as [->|Hne].
  - by rewrite (cmp_refl String.compare).
  - destruct (String.compare k k') eqn:E; try done.
    by apply String.compare_eq_iff in E.
Qed.

Lemma map_lookup_insert k v m : map_lookup k (map_insert k v m) = Some v.
Proof.
  induction m as [|[k' v'] m IH]; simpl; [by rewrite String.eqb_refl|].
  destruct (String.compare k k') eqn:E; simpl; rewrite ?String.eqb_refl; try done.
  by rewrite string_compare_eqb, E.
Qed.

Lemma map_lookup_insert_ne k k' v m :
  k ≠ k' → map_lookup k (map_insert k' v m) = map_lookup k m.
Proof.
  intros Hne. induction m as [|[q w] m IH]; simpl.
  - by rewrite (proj2 (String.eqb_neq _ _) Hne).
  - destruct (String.compare k' q) eqn:E; simpl.
    + apply String.compare_eq_iff in E as <-.
      by rewrite (proj2 (String.eqb_neq _ _) Hne).
    + by rewrite (proj2 (String.eqb_neq _ _) Hne).
    + by rewrite IH.
Qed.

(** Keys in strictly increasing order. *)
Definition map_sorted (m : Map) : Prop :=
  StronglySorted (λ a b, String.compare a.1 b.1 = Lt) m.

Lemma map_insert_keys k v m kv : kv ∈ map_insert k v m → kv.1 = k ∨ kv ∈ m.
Proof.
  induction m as [|[k' v'] m IH]; simpl.
  - intros ->%list_elem_of_singleton. by left.
  - destruct (String.compare k k'); rewrite ?elem_of_cons; naive_solver.
Qed.

Lemma map_insert_sorted k v m : map_sorted m → map_sorted (map_insert k v m).
Proof.
  induction 1 as [|[k' v'] m Hm IH Hk]; simpl; [by repeat constructor|].
  destruct (String.compare k k') eqn:E.
  - apply String.compare_eq_iff in E as ->. by constructor.
  - constructor; [by constructor|]. constructor; [done|].
    eapply Forall_impl; [exact Hk|]. intros [q w]; simpl. intros Hq.
    destruct (String.compare k q) eqn:E'; [|done|].
    + apply String.compare_eq_iff in E' as <-.
      pose proof (cmp_flip (cmp:=String.compare) k k') as F. rewrite E, Hq in F. done.
    + exfalso. apply (cmp_le_trans (cmp:=String.compare) k k' q); [by rewrite E|by rewrite Hq|done].
  - constructor; [done|]. apply Forall_forall. intros kv [Hkv|Hkv]%map_insert_keys.
    + rewrite Hkv. simpl. pose proof (cmp_flip (cmp:=String.compare) k k') as F.
      rewrite E in F. done.
    + rewrite Forall_forall in Hk. by apply Hk.
Qed.

Lemma map_sorted_nil : map_sorted [].
Proof. constructor. Qed.

#[export] Hint Resolve map_sorted_nil map_insert_sorted : core.
