(* ===== verification/Uri.v ===== *)
(** Proxy URI entries ([crates/parser/src/uri.rs]) and the Base64 bundles and
    scheme tests of [format.rs] they rely on.

    [url], [percent-encoding], [base64], [uuid] and [simd-json] are third-party
    crates; what the parser calls of them are the fields of the class
    [ParserLib], an argument of every definition that uses one. *)

From S2P Require Import Prelude RustStr Ir Metadata Json.

(** The parts of a parsed [url::Url] that the parser reads. *)
Record Url := {
  url_scheme : string;
  url_username : string;
  url_password : option string;
  url_host_str : option string;
  url_port : option Z;
  url_path : string;
  url_fragment : option string;
  url_query_pairs : list (string * string)
}.

(** The fields of the VMess JSON object; [null] and a missing key are [None]. *)
Record VmessWire := {
  vw_add : option string;
  vw_port : option Value;
  vw_id : option string;
  vw_aid : option Value;
  vw_scy : option string;
  vw_net : option string;
  vw_host : option string;
  vw_path : option string;
  vw_tls : option string;
  vw_sni : option string;
  vw_alpn : option string;
  vw_fp : option string;
  vw_ps : option string
}.

Inductive Base64Engine := STANDARD | STANDARD_NO_PAD | URL_SAFE | URL_SAFE_NO_PAD.

Class ParserLib := {
  Url_parse : string → result string Url;
  percent_decode_str : string → string;             (** bytes, perhaps not UTF-8 *)
  base64_decode : Base64Engine → string → option string;
  Uuid_parse_str : string → option Uuid;
  vmess_from_slice : string → result string VmessWire;
  (** the [outbounds] and [inbounds] of a JSON object *)
  container_from_slice : string → option (option Value * option Value)
}.

(** ** format.rs *)

Definition MAX_DECODED_BYTES : Z := 8 * 1024 * 1024.

Section Format.
Context `{ParserLib}.

(** The first engine whose output exists and is small enough. *)
Definition decode_with (compact : string) (engine : Base64Engine) : option string :=
  decoded ← base64_decode engine compact;
  if str_len decoded <=? MAX_DECODED_BYTES then Some decoded else None.

Definition decode_bundle (raw : string) : result string string :=
  let compact := of_bytes (List.filter (λ a, negb (is_ascii_whitespace a)) (bytes raw)) in
  if bool_decide (compact = EmptyString) || (MAX_DECODED_BYTES * 2 <? str_len compact)
  then Err "empty or oversized Base64 input"
  else
    match omap (decode_with compact) [STANDARD; STANDARD_NO_PAD; URL_SAFE; URL_SAFE_NO_PAD] with
    | decoded :: _ => Ok decoded
    | [] => Err "unsupported alphabet, padding, or input length"
    end.
End Format.

Definition scheme_byte (a : ascii) : bool :=
  is_ascii_alphanumeric a || existsb (Ascii.eqb a) (bytes "+.-").

Definition scheme_of (entry : string) : option string :=
  '(scheme, _) ← split_once "://" entry;
  if bool_decide (scheme = EmptyString) || negb (forallb scheme_byte (bytes scheme))
  then None else Some scheme.

Definition SUPPORTED_SCHEMES : list string :=
  ["vless"; "vmess"; "trojan"; "ss"; "hysteria2"; "hy2"; "tuic"].

Definition is_supported_scheme (entry : string) : bool :=
  match to_ascii_lowercase <$> scheme_of entry with
  | Some s => existsb (String.eqb s) SUPPORTED_SCHEMES
  | None => false
  end.

Definition looks_like_supported_entry (bs : string) : bool :=
  match from_utf8 bs with
  | Ok text => existsb (λ line, is_supported_scheme (trim line)) (lines text)
  | Err _ => false
  end.

Inductive ContainerKind := ClashYaml | SingBoxJson.

Definition looks_like_clash_yaml (text : string) : bool :=
  existsb (λ line,
    let line := trim line in
    String.eqb line "proxies:" || String.eqb line "proxy-groups:" || String.eqb line "rules:")
    (lines text).

Section Container.
Context `{ParserLib}.

Definition looks_like_singbox_json (text : string) : bool :=
  if negb (starts_with "{" (trim_start text)) then false
  else match container_from_slice text with
       | Some (outbounds, inbounds) =>
         bool_decide (is_Some outbounds) || bool_decide (is_Some inbounds)
       | None => false
       end.

Definition detect_container (text : string) : option ContainerKind :=
  if looks_like_clash_yaml text then Some ClashYaml
  else if looks_like_singbox_json text then Some SingBoxJson
  else None.
End Container.

(** ** uri.rs: helpers *)

Definition invalid (field value : string) : ParseError := InvalidValue field value.

(** [Query]: a [HashMap] collected from the pairs, so the last value of a key wins. *)
Definition Query := gmap string string.
Definition Query_new (url : Url) : Query :=
  foldl (λ m '(k, v), <[k := v]> m) ∅ (url_query_pairs url).
Definition query_get (q : Query) (key : string) : option string := q !! key.

Definition endpoint_from_host (host : string) (port : Z) : result ParseError EndpointTarget :=
  if port =? 0 then Err (InvalidEndpoint "port cannot be zero")
  else match Net.parse_ip host with
       | Some ip => Ok (EpIp {| sa_ip := ip; sa_port := port |})
       | None => map_err (λ e, InvalidEndpoint (error_to_string e)) (EndpointTarget_domain host port)
       end.

Definition url_endpoint (url : Url) (default_port : Z) : result ParseError EndpointTarget :=
  host ← ok_or (url_host_str url) (MissingField "host");
  port ← ok_or (match url_port url with
                | Some p => Some p
                | None => if negb (default_port =? 0) then Some default_port else None
                end) (MissingField "port");
  endpoint_from_host host port.

Definition parse_ss_method (value : string) : result ParseError ShadowsocksCipher :=
  let v := to_ascii_lowercase value in
  if String.eqb v "aes-128-gcm" then Ok SsAes128Gcm
  else if String.eqb v "aes-256-gcm" then Ok SsAes256Gcm
  else if String.eqb v "chacha20-ietf-poly1305" then Ok SsChacha20IetfPoly1305
  else if String.eqb v "2022-blake3-aes-128-gcm" then Ok Ss2022Blake3Aes128Gcm
  else if String.eqb v "2022-blake3-aes-256-gcm" then Ok Ss2022Blake3Aes256Gcm
  else if String.eqb v "2022-blake3-chacha20-poly1305" then Ok Ss2022Blake3Chacha20Poly1305
  else Err (invalid "method" v).

Definition parse_fingerprint (value : option string) : UtlsFingerprint :=
  let v := to_ascii_lowercase (default EmptyString value) in
  if String.eqb v "chrome" then FpChrome
  else if String.eqb v "firefox" then FpFirefox
  else if String.eqb v "safari" then FpSafari
  else if String.eqb v "edge" then FpEdge
  else if String.eqb v "randomized" || String.eqb v "random" then FpRandomized
  else FpNone.

Definition split_csv (value : option string) : list string :=
  List.filter (λ v, negb (bool_decide (v = EmptyString)))
    (split_char ","%char (default EmptyString value)).

Definition parse_xhttp_mode (mode : option string) : XHttpMode :=
  match mode with
  | Some m => if String.eqb m "packet-up" then PacketUp
              else if String.eqb m "stream-up" then StreamUp else StreamOne
  | None => StreamOne
  end.

Definition parse_u16 (value : Value) (field : string) : result ParseError Z :=
  v ← ok_or (match as_u64 value with
             | Some n => Some n
             | None => s ← as_str value; parse_uint 64 s
             end) (MissingField field);
  ok_or (try_from_u 16 v) (invalid field (show_Z v)).

Definition parse_transport (q : Query) : result ParseError TransportSpec :=
  let ty := default "tcp" (query_get q "type") in
  if String.eqb ty "tcp" then Ok Tcp
  else if String.eqb ty "ws" then
    Ok (WebSocket {|
      ws_path := default "/" (query_get q "path");
      ws_host := query_get q "host";
      ws_max_early_data := default 0 (v ← query_get q "ed"; parse_uint 32 v);
      ws_early_data_header := query_get q "eh" |})
  else if String.eqb ty "grpc" then
    Ok (Grpc {| grpc_service_name := default EmptyString (query_get q "serviceName");
                grpc_multi_mode := bool_decide (query_get q "mode" = Some "multi") |})
  else if String.eqb ty "xhttp" then
    Ok (XHttp {| xh_mode := parse_xhttp_mode (query_get q "mode");
                 xh_path := default "/" (query_get q "path");
                 xh_host := query_get q "host" |})
  else Err (invalid "type" ty).

Definition parse_security (q : Query) : result ParseError SecuritySpec :=
  let sec := default "none" (query_get q "security") in
  if String.eqb sec "none" || String.eqb sec "" then Ok SecNone
  else if String.eqb sec "tls" then
    Ok (SecTls {|
      tls_server_name := default EmptyString (query_get q "sni");
      tls_alpn := split_csv (query_get q "alpn");
      tls_fingerprint := parse_fingerprint (query_get q "fp");
      tls_allow_insecure :=
        match query_get q "allowInsecure" with
        | Some v => String.eqb v "1" || String.eqb v "true"
        | None => false
        end |})
  else if String.eqb sec "reality" then
    public_key ← ok_or (query_get q "pbk") (MissingField "pbk");
    Ok (SecReality {|
      re_server_name := default EmptyString (query_get q "sni");
      re_public_key := public_key;
      re_short_id := default EmptyString (query_get q "sid");
      re_spider_x := query_get q "spx";
      re_fingerprint := parse_fingerprint (query_get q "fp") |})
  else Err (invalid "security" sec).

Definition parse_flow (flow : option string) : result ParseError (option VlessFlow) :=
  match flow with
  | Some v =>
    if String.eqb v "xtls-rprx-vision" then Ok (Some XtlsRprxVision)
    else if String.eqb v "xtls-rprx-vision-udp443" then Ok (Some XtlsRprxVisionUdp443)
    else if negb (bool_decide (v = EmptyString)) then Err (invalid "flow" v)
    else Ok None
  | None => Ok None
  end.

Definition parse_vmess_transport (w : VmessWire) : TransportSpec :=
  let net := default "tcp" (vw_net w) in
  if String.eqb net "ws" then
    WebSocket {| ws_path := default "/" (vw_path w); ws_host := vw_host w;
                 ws_max_early_data := 0; ws_early_data_header := None |}
  else if String.eqb net "grpc" then
    Grpc {| grpc_service_name := default EmptyString (vw_path w); grpc_multi_mode := false |}
  else Tcp.

Definition parse_vmess_security (w : VmessWire) : SecuritySpec :=
  if String.eqb (default EmptyString (vw_tls w)) "tls" then
    SecTls {| tls_server_name := default EmptyString (vw_sni w);
              tls_alpn := split_csv (vw_alpn w);
              tls_fingerprint := parse_fingerprint (vw_fp w);
              tls_allow_insecure := false |}
  else SecNone.

(** [error.to_string()] of a [try_new] failure. *)
Definition to_invalid_endpoint (e : Error) : ParseError := InvalidEndpoint (error_to_string e).

(** ** uri.rs: one parser per scheme *)

Section Uri.
Context `{IdentityHash} `{ParserLib}.

Definition parse_uuid (value : string) : result ParseError Uuid :=
  ok_or (Uuid_parse_str value) (InvalidUuid value).

(** [Cow::decode_utf8]. *)
Definition decode_utf8 (bs : string) : option string := res_ok (from_utf8 bs).

Definition url_label (url : Url) (fallback : string) : string :=
  match url_fragment url with
  | Some f =>
    let l := from_utf8_lossy (percent_decode_str f) in
    if bool_decide (l = EmptyString) then fallback else l
  | None => fallback
  end.

Definition node_of (m : NodeMetadata) (e : EndpointTarget) (p : ProtocolSpec)
    (t : TransportSpec) (s : SecuritySpec) : result ParseError CanonicalNode :=
  map_err to_invalid_endpoint (try_new m e p t s None).

Definition parse_vless (url : Url) (sid ts : Z) : result ParseError CanonicalNode :=
  uuid ← parse_uuid (url_username url);
  ep ← url_endpoint url 443;
  let query := Query_new url in
  t ← parse_transport query;
  s ← parse_security query;
  flow ← parse_flow (query_get query "flow");
  let lbl := url_label url "VLESS Node" in
  m ← make_metadata sid lbl ts;
  node_of m ep (Vless {| vless_uuid := uuid; vless_flow := flow |}) t s.

Definition vmess_payload (url : Url) : string :=
  match url_host_str url with
  | Some h => h
  | None => trim_start_matches "/"%char (url_path url)
  end.

Definition parse_vmess_cipher (scy : option string) : result ParseError VmessCipher :=
  let v := to_ascii_lowercase (default "auto" scy) in
  if String.eqb v "auto" then Ok VmAuto
  else if String.eqb v "aes-128-gcm" then Ok VmAes128Gcm
  else if String.eqb v "chacha20-poly1305" then Ok VmChacha20Poly1305
  else if String.eqb v "none" then Ok VmNone
  else Err (invalid "scy" v).

Definition parse_vmess (url : Url) (sid ts : Z) : result ParseError CanonicalNode :=
  let payload := vmess_payload url in
  if bool_decide (payload = EmptyString) then Err (MissingField "vmess payload") else
  decoded ← map_err Base64Decode (decode_bundle payload);
  wire ← map_err JsonError (vmess_from_slice decoded);
  host ← ok_or (vw_add wire) (MissingField "add");
  port_value ← ok_or (vw_port wire) (MissingField "port");
  port ← parse_u16 port_value "port";
  id ← ok_or (vw_id wire) (MissingField "id");
  uuid ← parse_uuid id;
  let t := parse_vmess_transport wire in
  let s := parse_vmess_security wire in
  cipher ← parse_vmess_cipher (vw_scy wire);
  let lbl := default "VMess Node" (vw_ps wire) in
  m ← make_metadata sid lbl ts;
  ep ← endpoint_from_host host port;
  let aid := default (json_uint 0) (vw_aid wire) in
  alter_id ← parse_u16 aid "aid";
  node_of m ep (Vmess {| vmess_uuid := uuid; vmess_alter_id := alter_id;
                         vmess_cipher := cipher |}) t s.

(** The user name of a Trojan or Hysteria2 entry is its password. *)
Definition url_password_of (url : Url) : result ParseError string :=
  password ← ok_or (decode_utf8 (percent_decode_str (url_username url)))
               (InvalidValue "password" "invalid UTF-8");
  if bool_decide (password = EmptyString) then Err (MissingField "password") else Ok password.

Definition parse_trojan (url : Url) (sid ts : Z) : result ParseError CanonicalNode :=
  password ← url_password_of url;
  let query := Query_new url in
  let lbl := url_label url "Trojan Node" in
  m ← make_metadata sid lbl ts;
  ep ← url_endpoint url 443;
  t ← parse_transport query;
  s ← parse_security query;
  node_of m ep (Trojan {| trojan_password := password |}) t s.

(** The plugin name and its options. *)
Definition parse_plugin (query : Query) : option string * option string :=
  match query_get query "plugin" with
  | Some value =>
    match split_once ";" value with
    | Some (name, opts) =>
      if negb (bool_decide (opts = EmptyString)) then (Some name, Some opts) else (Some name, None)
    | None => (Some value, query_get query "plugin-opts")
    end
  | None => (None, None)
  end.

Definition parse_shadowsocks (url : Url) (sid ts : Z) : result ParseError CanonicalNode :=
  decoded ← map_err Base64Decode (decode_bundle (url_username url));
  credentials ← ok_or (res_ok (from_utf8 decoded)) (InvalidValue "credentials" "invalid UTF-8");
  '(method, password) ← ok_or (split_once ":" credentials) (MissingField "method/password");
  cipher ← parse_ss_method method;
  ep ← url_endpoint url 0;
  let query := Query_new url in
  let '(plugin_name, plugin_opts) := parse_plugin query in
  let lbl := url_label url "Shadowsocks Node" in
  m ← make_metadata sid lbl ts;
  node_of m ep (Shadowsocks {| ss_method := cipher; ss_password := password;
                               ss_plugin := plugin_name; ss_plugin_opts := plugin_opts |})
    Tcp SecNone.

Definition parse_hysteria2 (url : Url) (sid ts : Z) : result ParseError CanonicalNode :=
  password ← url_password_of url;
  let query := Query_new url in
  let obfs := (λ ty, {| obfs_type := ty;
                        obfs_password := default EmptyString (query_get query "obfs-password") |})
              <$> query_get query "obfs" in
  let lbl := url_label url "Hysteria2 Node" in
  m ← make_metadata sid lbl ts;
  ep ← url_endpoint url 443;
  node_of m ep (Hysteria2 {|
    hy_password := password;
    hy_up_mbps := v ← query_get query "up"; parse_uint 32 v;
    hy_down_mbps := v ← query_get query "down"; parse_uint 32 v;
    hy_obfs := obfs;
    hy_port_hopping := query_get query "mport" |}) Tcp SecNone.

Definition parse_congestion (field : string) (value : option string)
  : result ParseError TuicCongestion :=
  let v := default "cubic" value in
  if String.eqb v "bbr" then Ok TcBbr
  else if String.eqb v "new_reno" then Ok TcNewReno
  else if String.eqb v "cubic" then Ok TcCubic
  else Err (invalid field v).

Definition parse_relay (field : string) (value : option string) : result ParseError TuicUdpRelay :=
  let v := default "native" value in
  if String.eqb v "native" then Ok TrNative
  else if String.eqb v "quic" then Ok TrQuic
  else Err (invalid field v).

Definition parse_tuic (url : Url) (sid ts : Z) : result ParseError CanonicalNode :=
  uuid ← parse_uuid (url_username url);
  let password := default EmptyString (url_password url) in
  let query := Query_new url in
  cc ← parse_congestion "congestion_control" (query_get query "congestion_control");
  relay ← parse_relay "udp_relay_mode" (query_get query "udp_relay_mode");
  let lbl := url_label url "TUIC Node" in
  m ← make_metadata sid lbl ts;
  ep ← url_endpoint url 443;
  node_of m ep (Tuic {|
    tuic_uuid := uuid; tuic_password := password; tuic_congestion_control := cc;
    tuic_udp_relay_mode := relay;
    tuic_zero_rtt_handshake := bool_decide (query_get query "zero_rtt_handshake" = Some "true") |})
    Tcp SecNone.

Definition parse_entry (raw : string) (sid ts : Z) : result ParseError CanonicalNode :=
  url ← map_err InvalidUri (Url_parse raw);
  let s := url_scheme url in
  if String.eqb s "vless" then parse_vless url sid ts
  else if String.eqb s "vmess" then parse_vmess url sid ts
  else if String.eqb s "trojan" then parse_trojan url sid ts
  else if String.eqb s "ss" then parse_shadowsocks url sid ts
  else if String.eqb s "hysteria2" || String.eqb s "hy2" then parse_hysteria2 url sid ts
  else if String.eqb s "tuic" then parse_tuic url sid ts
  else Err (UnsupportedFormat s).
End Uri.

(** ** Soundness of an accepted entry *)

(** The protocol a URI scheme or a Clash type stands for; no entry gives
    WireGuard. *)
Definition scheme_protocol (s : string) (p : ProtocolSpec) : Prop :=
  match p with
  | Vless _ => s = "vless"
  | Vmess _ => s = "vmess"
  | Trojan _ => s = "trojan"
  | Shadowsocks _ => s = "ss"
  | Hysteria2 _ => s = "hysteria2" ∨ s = "hy2"
  | Tuic _ => s = "tuic"
  | WireGuard _ => False
  end.

(** Protocols that carry their own transport have none of their own choice. *)
Definition stream_protocol (p : ProtocolSpec) : Prop :=
  match p with Vless _ | Vmess _ | Trojan _ => True | _ => False end.

(** The credentials without which an entry is refused. *)
Definition credentials_ok (p : ProtocolSpec) : Prop :=
  match p with
  | Trojan c => trojan_password c ≠ EmptyString
  | Hysteria2 c => hy_password c ≠ EmptyString
  | Vmess c => in_u 16 (vmess_alter_id c)
  | _ => True
  end.

Section UriLemmas.
Context `{IdentityHash} `{ParserLib}.

Record parsed_node (s : string) (sid ts : Z) (n : CanonicalNode) : Prop := {
  pn_wf : node_wf n;
  pn_mux : mux n = None;
  pn_meta : make_metadata sid (label (meta n)) ts = Ok (meta n);
  pn_scheme : scheme_protocol s (protocol n);
  pn_plain : ¬ stream_protocol (protocol n) → transport n = Tcp ∧ security n = SecNone;
  pn_credentials : credentials_ok (protocol n)
}.

Lemma node_of_parsed s sid ts lbl m e p t sec n :
  make_metadata sid lbl ts = Ok m →
  scheme_protocol s p → (¬ stream_protocol p → t = Tcp ∧ sec = SecNone) → credentials_ok p →
  node_of m e p t sec = Ok n → parsed_node s sid ts n.
Proof.
  intros Hm Hs Hp Hc Hn. unfold node_of in Hn. inv_ok.
  pose proof (try_new_node_wf _ _ _ _ _ _ _ Hn) as Hw.
  apply try_new_fields in Hn as (Em & Ep & Et & Es & _ & Ex).
  split; try rewrite Ep; try rewrite Et; try rewrite Es; try done.
  rewrite Em. rewrite make_metadata_ok in *. injection Hm as <-. done.
Qed.

Lemma parse_u16_range v f z : parse_u16 v f = Ok z → in_u 16 z.
Proof. unfold parse_u16. intros E. inv_ok. apply try_from_u_Some in E. naive_solver. Qed.

Lemma url_password_nonempty url p : url_password_of url = Ok p → p ≠ EmptyString.
Proof. unfold url_password_of. intros E. inv_ok. case_bool_decide; by simplify_eq. Qed.

End UriLemmas.

(** Opens a parser body down to its [node_of] call. *)
Ltac open_parser :=
  intros; repeat (inv_ok; simplify_eq; try case_match; try done);
  eapply node_of_parsed; [eassumption| | | |eassumption]; simpl; try done; try tauto;
  eauto using parse_u16_range, url_password_nonempty.

Section SchemeLemmas.
Context `{IdentityHash} `{ParserLib}.

Lemma parse_vless_parsed url sid ts n :
  parse_vless url sid ts = Ok n → parsed_node "vless" sid ts n.
Proof. unfold parse_vless. open_parser. Qed.

Lemma parse_vmess_parsed url sid ts n :
  parse_vmess url sid ts = Ok n → parsed_node "vmess" sid ts n.
Proof. unfold parse_vmess. open_parser. Qed.

Lemma parse_trojan_parsed url sid ts n :
  parse_trojan url sid ts = Ok n → parsed_node "trojan" sid ts n.
Proof. unfold parse_trojan. open_parser. Qed.

Lemma parse_shadowsocks_parsed url sid ts n :
  parse_shadowsocks url sid ts = Ok n → parsed_node "ss" sid ts n.
Proof. unfold parse_shadowsocks. open_parser. Qed.

Lemma parse_hysteria2_parsed url sid ts n s :
  (s = "hysteria2" ∨ s = "hy2") →
  parse_hysteria2 url sid ts = Ok n → parsed_node s sid ts n.
Proof. unfold parse_hysteria2. open_parser. Qed.

Lemma parse_tuic_parsed url sid ts n :
  parse_tuic url sid ts = Ok n → parsed_node "tuic" sid ts n.
Proof. unfold parse_tuic. open_parser. Qed.

Lemma parse_entry_parsed raw sid ts n :
  parse_entry raw sid ts = Ok n →
  ∃ url, Url_parse raw = Ok url ∧ parsed_node (url_scheme url) sid ts n.
Proof.
  unfold parse_entry. intros E. inv_ok. eexists. split; [done|].
  repeat match type of E with
  | context [String.eqb ?a ?b] =>
    destruct (String.eqb_spec a b) as [Es|]; [rewrite ?Es|]; simpl in E
  end; try done;
  eauto using parse_vless_parsed, parse_vmess_parsed, parse_trojan_parsed,
    parse_shadowsocks_parsed, parse_hysteria2_parsed, parse_tuic_parsed.
Qed.
End SchemeLemmas.

(** ** Properties *)

(** An accepted URI entry: the URL library parsed it, the protocol of the
    node is the one its scheme names, the node is canonical and carries the
    subscription, the timestamp and the country code of its own label, it has no
    multiplexing, only VLESS, VMess and Trojan carry a transport or TLS section,
    and no credential is empty or out of range. *)
Lemma parse_entry_sound `{IdentityHash} `{ParserLib} raw sid ts n :
  parse_entry raw sid ts = Ok n →
  ∃ url, Url_parse raw = Ok url ∧ parsed_node (url_scheme url) sid ts n.
Proof. apply parse_entry_parsed. Qed.

(** Endpoints: a host that is an IP literal becomes an IP endpoint with that
    address, any other accepted host becomes a canonical domain endpoint, the
    port is kept, and port zero is always refused. *)
Lemma endpoint_from_host_spec host port :
  match endpoint_from_host host port with
  | Ok (EpIp a) => Net.parse_ip host = Some (sa_ip a) ∧ sa_port a = port ∧ port ≠ 0
  | Ok (EpDomain h p) =>
      Net.parse_ip host = None ∧ normalize_host host = Ok h ∧ host_wf h ∧ p = port ∧ port ≠ 0
  | Err e => port = 0 ∨ (Net.parse_ip host = None ∧ is_err (normalize_host host) = true)
  end.
Proof.
  unfold endpoint_from_host, EndpointTarget_domain.
  destruct (Z.eqb_spec port 0) as [->|Hp]; [by left|].
  destruct (Net.parse_ip host) as [ip|]; [done|].
  destruct (normalize_host host) as [h|e] eqn:E; simpl.
  - eauto 10 using normalize_host_wf.
  - by right.
Qed.

(** *** Concrete instances *)

(** Libraries that know one link each. *)
Definition sample_url : Url :=
  {| url_scheme := "vless"; url_username := "00000000-0000-0000-0000-000000000000";
     url_password := None; url_host_str := Some "Example.com"; url_port := None;
     url_path := ""; url_fragment := Some "DE"; url_query_pairs := [("flow", "xtls-rprx-vision")] |}.
Definition sample_link : string :=
  "vless://00000000-0000-0000-0000-000000000000@Example.com?flow=xtls-rprx-vision#DE".
Definition sample_lib : ParserLib :=
  {| Url_parse s := if String.eqb s sample_link then Ok sample_url
                    else Err "relative URL without a base"%stdpp;
     percent_decode_str s := s;
     base64_decode _ _ := None;
     Uuid_parse_str s :=
       if String.eqb s "00000000-0000-0000-0000-000000000000" then Some 0 else None;
     vmess_from_slice _ := Err "unexpected"%stdpp;
     container_from_slice _ := None |}.

Definition sample_parsed : CanonicalNode :=
  {| hash := "id";
     meta := {| sub_id := 7; label := "DE"; country_code := "UN"; import_timestamp := 10 |};
     endpoint := EpDomain "example.com" 443; protocol := fi_protocol sample_identity;
     transport := Tcp; security := SecNone; mux := None |}.

Lemma parse_entry_sound_witness :
  ∃ url, @Url_parse sample_lib sample_link = Ok url ∧
         @parsed_node sample_hash (url_scheme url) 7 10 sample_parsed.
Proof.
  apply (@parse_entry_sound sample_hash sample_lib sample_link 7 10 sample_parsed).
  reflexivity.
Defined.
