(* ===== verification/Clash.v ===== *)
(** Clash YAML subscriptions ([crates/parser/src/clash.rs]).

    [serde_yaml] is a third-party crate: its document parser and its float
    printer are the fields of [YamlLib]; the value type and its accessors are
    the ones it documents ([as_*] look through tags). *)

From S2P Require Import Prelude RustStr Ir Metadata Uri.
From Stdlib Require Import SpecFloat.

Inductive YamlNumber := YPosInt (n : Z) | YNegInt (n : Z) | YFloat (f : spec_float).

Inductive Yaml :=
| YNull
| YBool (b : bool)
| YNumber (n : YamlNumber)
| YString (s : string)
| YSequence (l : list Yaml)
| YMapping (m : list (Yaml * Yaml))
| YTagged (tag : string) (v : Yaml).
Abbreviation Mapping := (list (Yaml * Yaml)).

Class YamlLib := {
  yaml_from_str : string → result string Yaml;
  yaml_float_to_string : spec_float → string
}.

(** ** Accessors of [serde_yaml::Value] *)

Fixpoint untag (v : Yaml) : Yaml :=
  match v with YTagged _ v => untag v | _ => v end.

Definition yaml_as_mapping (v : Yaml) : option Mapping :=
  match untag v with YMapping m => Some m | _ => None end.
Definition yaml_as_sequence (v : Yaml) : option (list Yaml) :=
  match untag v with YSequence l => Some l | _ => None end.
Definition yaml_as_str (v : Yaml) : option string :=
  match untag v with YString s => Some s | _ => None end.
Definition yaml_as_bool (v : Yaml) : option bool :=
  match untag v with YBool b => Some b | _ => None end.
Definition yaml_as_u64 (v : Yaml) : option Z :=
  match untag v with YNumber (YPosInt n) => Some n | _ => None end.

(** ** Helpers *)

(** [Mapping::get] with a string key. *)
Fixpoint mapping_get (m : Mapping) (key : string) : option Yaml :=
  match m with
  | [] => None
  | (YString k, v) :: m => if String.eqb k key then Some v else mapping_get m key
  | _ :: m => mapping_get m key
  end.

Definition map_get (item : Yaml) (key : string) : option Yaml :=
  m ← yaml_as_mapping item; mapping_get m key.
Definition value_at : Yaml → string → option Yaml := map_get.

Definition bool_at (item : Yaml) (key : string) : option bool :=
  map_get item key ≫= yaml_as_bool.

Section Clash.
Context `{IdentityHash} `{ParserLib} `{YamlLib}.

Definition string_value (v : Yaml) : string :=
  match v with
  | YString s => s
  | YNumber (YPosInt n) | YNumber (YNegInt n) => show_Z n
  | YNumber (YFloat f) => yaml_float_to_string f
  | YBool b => if b then "true" else "false"
  | _ => EmptyString
  end.

Definition string_at (item : Yaml) (key : string) : option string :=
  string_value <$> map_get item key.
Definition string_in : Yaml → string → option string := string_at.

Definition yaml_uint (v : Yaml) : option Z :=
  match yaml_as_u64 v with
  | Some n => Some n
  | None => s ← yaml_as_str v; parse_uint 64 s
  end.

Definition u16_at (item : Yaml) (key : string) : result ParseError (option Z) :=
  match map_get item key with
  | None => Ok None
  | Some v =>
    match yaml_uint v ≫= try_from_u 16 with
    | Some port => Ok (Some port)
    | None => Err (invalid key (string_value v))
    end
  end.

Definition numeric_at (item : Yaml) (key : string) : option Z :=
  map_get item key ≫= yaml_uint.

Definition alpn (item : Yaml) : list string :=
  match value_at item "alpn" ≫= yaml_as_sequence with
  | Some l => omap yaml_as_str l
  | None => []
  end.

Definition clash_endpoint (item : Yaml) : result ParseError EndpointTarget :=
  host ← ok_or (string_at item "server") (MissingField "server");
  p ← u16_at item "port";
  port ← ok_or p (MissingField "port");
  endpoint_from_host host port.

Definition label_of (item : Yaml) : result ParseError string :=
  ok_or (string_at item "name") (MissingField "name").

(** ** Transport and security *)

Definition clash_transport (item : Yaml) : result ParseError TransportSpec :=
  let network := default "tcp" (string_at item "network") in
  let ws_opts := value_at item "ws-opts" ≫= yaml_as_mapping in
  let opt key := string_value <$> (opts ← ws_opts; mapping_get opts key) in
  let path := match opt "path" with Some p => Some p | None => opt "serviceName" end in
  let host := string_value <$>
    (opts ← ws_opts; h ← mapping_get opts "headers"; headers ← yaml_as_mapping h;
     mapping_get headers "Host") in
  if String.eqb network "tcp" || String.eqb network "" then Ok Tcp
  else if String.eqb network "ws" then
    Ok (WebSocket {| ws_path := default "/" path; ws_host := host;
                     ws_max_early_data := 0; ws_early_data_header := None |})
  else if String.eqb network "grpc" then
    Ok (Grpc {| grpc_service_name := default EmptyString path; grpc_multi_mode := false |})
  else if String.eqb network "httpupgrade" then
    Ok (HttpUpgrade {| hu_path := default "/" path; hu_host := host |})
  else Err (invalid "network" network).

(** [a.or_else(|| b)]. *)
Definition or_else {A} (a b : option A) : option A :=
  match a with Some x => Some x | None => b end.

Definition clash_security (item : Yaml) (kind : string) : result ParseError SecuritySpec :=
  let servername := default EmptyString
    (or_else (string_at item "servername") (string_at item "sni")) in
  let fp := parse_fingerprint (string_at item "client-fingerprint") in
  match value_at item "reality-opts" with
  | Some reality =>
    public_key ← ok_or (or_else (string_in reality "public-key") (string_in reality "public_key"))
                   (MissingField "public-key");
    let short_id := default EmptyString
      (or_else (string_in reality "short-id") (string_in reality "short_id")) in
    let server_name := if bool_decide (servername = EmptyString)
                       then default EmptyString (string_at item "server") else servername in
    Ok (SecReality {|
      re_server_name := server_name; re_public_key := public_key; re_short_id := short_id;
      re_spider_x := or_else (string_in reality "spider-x") (string_in reality "spider_x");
      re_fingerprint := fp |})
  | None =>
    let tls_enabled := default (String.eqb kind "trojan") (bool_at item "tls")
                       || negb (bool_decide (servername = EmptyString)) in
    if tls_enabled then
      Ok (SecTls {| tls_server_name := servername; tls_alpn := alpn item;
                    tls_fingerprint := fp;
                    tls_allow_insecure := default false (bool_at item "allow-insecure") |})
    else Ok SecNone
  end.

Definition clash_vmess_security (item : Yaml) : SecuritySpec :=
  if negb (default false (bool_at item "tls")) then SecNone
  else SecTls {|
    tls_server_name := default EmptyString (string_at item "servername");
    tls_alpn := alpn item;
    tls_fingerprint := parse_fingerprint (string_at item "client-fingerprint");
    tls_allow_insecure := default false (bool_at item "allow-insecure") |}.

(** ** One parser per proxy type *)

Definition clash_metadata (item : Yaml) (sid ts : Z) : result ParseError NodeMetadata :=
  lbl ← label_of item; make_metadata sid lbl ts.

Definition clash_ss (item : Yaml) (sid ts : Z) : result ParseError CanonicalNode :=
  method ← parse_ss_method (default EmptyString (string_at item "cipher"));
  let password := default EmptyString (string_at item "password") in
  m ← clash_metadata item sid ts;
  ep ← clash_endpoint item;
  node_of m ep (Shadowsocks {| ss_method := method; ss_password := password;
                               ss_plugin := None; ss_plugin_opts := None |}) Tcp SecNone.

Definition clash_vmess_cipher (cipher : option string) : result ParseError VmessCipher :=
  let v := default "auto" cipher in
  if String.eqb v "auto" then Ok VmAuto
  else if String.eqb v "aes-128-gcm" then Ok VmAes128Gcm
  else if String.eqb v "chacha20-poly1305" then Ok VmChacha20Poly1305
  else if String.eqb v "none" then Ok VmNone
  else Err (invalid "cipher" v).

Definition clash_vmess (item : Yaml) (sid ts : Z) : result ParseError CanonicalNode :=
  uuid ← parse_uuid (default EmptyString (string_at item "uuid"));
  aid ← u16_at item "alterId";
  let alter_id := default 0 aid in
  cipher ← clash_vmess_cipher (string_at item "cipher");
  m ← clash_metadata item sid ts;
  ep ← clash_endpoint item;
  t ← clash_transport item;
  node_of m ep (Vmess {| vmess_uuid := uuid; vmess_alter_id := alter_id;
                         vmess_cipher := cipher |}) t (clash_vmess_security item).

Definition clash_password (item : Yaml) : result ParseError string :=
  let password := default EmptyString (string_at item "password") in
  if bool_decide (password = EmptyString) then Err (MissingField "password") else Ok password.

Definition clash_trojan (item : Yaml) (sid ts : Z) : result ParseError CanonicalNode :=
  password ← clash_password item;
  m ← clash_metadata item sid ts;
  ep ← clash_endpoint item;
  t ← clash_transport item;
  s ← clash_security item "trojan";
  node_of m ep (Trojan {| trojan_password := password |}) t s.

Definition clash_vless (item : Yaml) (sid ts : Z) : result ParseError CanonicalNode :=
  uuid ← parse_uuid (default EmptyString (string_at item "uuid"));
  flow ← parse_flow (string_at item "flow");
  m ← clash_metadata item sid ts;
  ep ← clash_endpoint item;
  t ← clash_transport item;
  s ← clash_security item "vless";
  node_of m ep (Vless {| vless_uuid := uuid; vless_flow := flow |}) t s.

Definition clash_hysteria2 (item : Yaml) (sid ts : Z) : result ParseError CanonicalNode :=
  password ← clash_password item;
  let obfs := (λ ty, {| obfs_type := ty;
                        obfs_password := default EmptyString (string_at item "obfs-password") |})
              <$> string_at item "obfs" in
  m ← clash_metadata item sid ts;
  ep ← clash_endpoint item;
  node_of m ep (Hysteria2 {|
    hy_password := password;
    hy_up_mbps := numeric_at item "up" ≫= try_from_u 32;
    hy_down_mbps := numeric_at item "down" ≫= try_from_u 32;
    hy_obfs := obfs;
    hy_port_hopping := string_at item "ports" |}) Tcp SecNone.

Definition clash_tuic (item : Yaml) (sid ts : Z) : result ParseError CanonicalNode :=
  uuid ← parse_uuid (default EmptyString (string_at item "uuid"));
  let password := default EmptyString (string_at item "password") in
  cc ← parse_congestion "congestion-controller" (string_at item "congestion-controller");
  relay ← parse_relay "udp-relay-mode" (string_at item "udp-relay-mode");
  m ← clash_metadata item sid ts;
  ep ← clash_endpoint item;
  node_of m ep (Tuic {|
    tuic_uuid := uuid; tuic_password := password; tuic_congestion_control := cc;
    tuic_udp_relay_mode := relay;
    tuic_zero_rtt_handshake := default false (bool_at item "zero-rtt-handshake") |}) Tcp SecNone.

Definition parse_proxy (item : Yaml) (sid ts : Z) : result ParseError CanonicalNode :=
  let name := default "Unnamed Proxy" (string_at item "name") in
  let ty := default EmptyString (string_at item "type") in
  if String.eqb ty "ss" then clash_ss item sid ts
  else if String.eqb ty "vmess" then clash_vmess item sid ts
  else if String.eqb ty "trojan" then clash_trojan item sid ts
  else if String.eqb ty "vless" then clash_vless item sid ts
  else if String.eqb ty "hysteria2" then clash_hysteria2 item sid ts
  else if String.eqb ty "tuic" then clash_tuic item sid ts
  else if String.eqb ty "" then Err (MissingField "type")
  else Err (UnsupportedFormat ("Clash proxy type `" +:+ ty +:+ "` (" +:+ name +:+
                               ") is not supported")).

Definition ingest_clash_yaml (raw : string) (sid ts : Z)
  : result ParseError (list (result ParseError CanonicalNode)) :=
  document ← map_err (λ e, JsonError ("Clash YAML: " +:+ e)) (yaml_from_str raw);
  proxies ← ok_or (map_get document "proxies" ≫= yaml_as_sequence) (MissingField "proxies");
  Ok (map (λ item, parse_proxy item sid ts) proxies).
End Clash.

(** ** Soundness of an accepted proxy *)

Section ClashLemmas.
Context `{IdentityHash} `{ParserLib} `{YamlLib}.

Lemma clash_password_nonempty item p : clash_password item = Ok p → p ≠ EmptyString.
Proof. unfold clash_password. case_bool_decide; [done|]. by intros [= <-]. Qed.

Lemma u16_at_range item key z : u16_at item key = Ok (Some z) → in_u 16 z.
Proof.
  unfold u16_at. repeat case_match; try done. intros. simplify_eq.
  match goal with E : _ ≫= _ = Some _ |- _ => apply bind_Some in E as (? & _ & E);
    apply try_from_u_Some in E end. naive_solver.
Qed.

Lemma u16_at_default item key o : u16_at item key = Ok o → in_u 16 (default 0 o).
Proof. destruct o; simpl; [apply u16_at_range|]. unfold in_u, umax. simpl. lia. Qed.

Lemma parse_proxy_parsed item sid ts n :
  parse_proxy item sid ts = Ok n →
  parsed_node (default EmptyString (string_at item "type")) sid ts n.
Proof.
  unfold parse_proxy. intros E.
  repeat match type of E with
  | context [String.eqb ?a ?b] =>
    destruct (String.eqb_spec a b) as [Es|]; [rewrite ?Es|]; simpl in E
  end; try done; clear Es; revert E.
  all: unfold clash_ss, clash_vmess, clash_trojan, clash_vless, clash_hysteria2, clash_tuic,
    clash_metadata.
  all: intros; inv_ok; eapply node_of_parsed; [eassumption| | | |eassumption]; simpl;
    try done; try tauto; eauto using clash_password_nonempty, u16_at_default.
Qed.
End ClashLemmas.

(** ** Properties *)

(** Every item of a Clash document is answered by its own result, in order,
    and an accepted item is a canonical node of the protocol its [type] names,
    with the metadata of its own [name]. *)
Lemma ingest_clash_yaml_sound `{IdentityHash} `{ParserLib} `{YamlLib} raw sid ts results :
  ingest_clash_yaml raw sid ts = Ok results →
  ∃ document proxies,
    yaml_from_str raw = Ok document ∧
    (map_get document "proxies" ≫= yaml_as_sequence) = Some proxies ∧
    length results = length proxies ∧
    ∀ i item n, proxies !! i = Some item → results !! i = Some (Ok n) →
      parsed_node (default EmptyString (string_at item "type")) sid ts n.
Proof.
  unfold ingest_clash_yaml. intros E. inv_ok. subst.
  do 2 eexists. split; [done|]. split; [done|]. split; [by rewrite length_map|].
  intros i item n Hi Hn. rewrite list_lookup_fmap, Hi in Hn. simpl in Hn. injection Hn as Hn.
  by apply parse_proxy_parsed.
Qed.

(** A gRPC transport takes its service name from [ws-opts] only: the [grpc-opts] that
    the format has for it are never read. *)
Lemma grpc_opts_ignored `{IdentityHash} `{ParserLib} `{YamlLib} opts :
  clash_transport (YMapping [(YString "network", YString "grpc"); (YString "grpc-opts", opts)]) =
  Ok (Grpc {| grpc_service_name := EmptyString; grpc_multi_mode := false |}).
Proof. reflexivity. Qed.

(** Certificates are verified unless [allow-insecure] says otherwise: the
    [skip-cert-verify] of the format is never read. *)
Lemma skip_cert_verify_ignored `{IdentityHash} `{ParserLib} `{YamlLib} b :
  clash_security (YMapping [(YString "skip-cert-verify", YBool b)]) "trojan" =
  Ok (SecTls {| tls_server_name := EmptyString; tls_alpn := []; tls_fingerprint := FpNone;
                tls_allow_insecure := false |}).
Proof. reflexivity. Qed.

Definition sample_yaml : Yaml :=
  YMapping [(YString "proxies", YSequence [
    YMapping [(YString "name", YString "edge"); (YString "type", YString "snell")];
    YMapping [(YString "name", YString "DE"); (YString "type", YString "vless");
              (YString "server", YString "example.com"); (YString "port", YNumber (YPosInt 443));
              (YString "uuid", YString "00000000-0000-0000-0000-000000000000");
              (YString "flow", YString "xtls-rprx-vision")]])].
Definition sample_yaml_lib : YamlLib :=
  {| yaml_from_str _ := Ok sample_yaml; yaml_float_to_string _ := "" |}.

Lemma ingest_clash_yaml_sound_witness :
  ∃ document proxies,
    @yaml_from_str sample_yaml_lib "proxies:" = Ok document ∧
    (map_get document "proxies" ≫= yaml_as_sequence) = Some proxies ∧
    length [Err (UnsupportedFormat "Clash proxy type `snell` (edge) is not supported");
            Ok sample_parsed] = length proxies ∧
    ∀ i item n, proxies !! i = Some item →
      [Err (UnsupportedFormat "Clash proxy type `snell` (edge) is not supported");
       Ok sample_parsed] !! i = Some (Ok n) →
      @parsed_node sample_hash
        (default EmptyString (@string_at sample_yaml_lib item "type")) 7 10 n.
Proof.
  apply (@ingest_clash_yaml_sound sample_hash sample_lib sample_yaml_lib "proxies:" 7 10).
  reflexivity.
Defined.
