(* ===== verification/Ingest.v ===== *)
(** Ingestion of a subscription ([crates/parser/src/lib.rs]): container
    detection, entry collection, parsing, deduplication and the report. *)

From S2P Require Import Prelude RustStr Ir Metadata Uri Clash.

Definition MAX_ENTRIES : Z := 100000.
Definition MAX_FAILURES : Z := 10000.
Definition MAX_SNIPPET_BYTES : Z := 160.

Definition safe_snippet (raw : string) : string :=
  let text := from_utf8_lossy raw in
  let scheme := default "entry" (scheme_of (trim text)) in
  of_chars (take (Z.to_nat MAX_SNIPPET_BYTES) (chars (scheme +:+ "://[redacted]"))).

Definition record_failure (report : IngestionReport) (idx line : Z) (raw : string)
    (why : ParseError) : IngestionReport :=
  if Z.of_nat (length (failed_entries report)) <? MAX_FAILURES then
    {| total_entries_scanned := total_entries_scanned report;
       successful_nodes := successful_nodes report;
       duplicates_omitted := duplicates_omitted report;
       failed_entries := failed_entries report ++
         [{| entry_index := idx; line_number := line; raw_snippet := safe_snippet raw;
             reason := why |}] |}
  else report.

(** The lines that are entries, each with its line number. *)
Definition entry_of (index : nat) (line : string) : option (Z * string) :=
  let line := trim line in
  if negb (bool_decide (line = EmptyString)) && negb (starts_with "#" line)
  then Some (Z.of_nat index + 1, line) else None.
Definition collect_entries (text : string) : list (Z * string) :=
  omap (λ il, entry_of il.1 il.2) (zip (seq 0 (length (lines text))) (lines text)).

Definition count_scanned (r : IngestionReport) : IngestionReport :=
  {| total_entries_scanned := total_entries_scanned r + 1;
     successful_nodes := successful_nodes r;
     duplicates_omitted := duplicates_omitted r; failed_entries := failed_entries r |}.
Definition push_node (r : IngestionReport) (n : CanonicalNode) : IngestionReport :=
  {| total_entries_scanned := total_entries_scanned r;
     successful_nodes := successful_nodes r ++ [n];
     duplicates_omitted := duplicates_omitted r; failed_entries := failed_entries r |}.
Definition omit_duplicate (r : IngestionReport) : IngestionReport :=
  {| total_entries_scanned := total_entries_scanned r;
     successful_nodes := successful_nodes r;
     duplicates_omitted := duplicates_omitted r + 1; failed_entries := failed_entries r |}.

(** One turn of the entry loop: the report, the hashes seen, and what parsing
    the entry gave. *)
Definition ingest_step (idx line : Z) (raw : string)
    (parsed : result ParseError CanonicalNode) (st : IngestionReport * gset string)
  : IngestionReport * gset string :=
  let '(report, seen) := st in
  let report := count_scanned report in
  match parsed with
  | Ok node =>
    if bool_decide (hash node ∈ seen) then (omit_duplicate report, seen)
    else (push_node report node, {[ hash node ]} ∪ seen)
  | Err why => (record_failure report idx line raw why, seen)
  end.

Section Ingest.
Context `{IdentityHash} `{ParserLib} `{YamlLib}.

Fixpoint ingest_entries (sid ts idx : Z) (entries : list (Z * string))
    (st : IngestionReport * gset string) : IngestionReport * gset string :=
  match entries with
  | [] => st
  | (line, entry) :: rest =>
    ingest_entries sid ts (idx + 1) rest
      (ingest_step idx line entry (parse_entry entry sid ts) st)
  end.

Fixpoint ingest_results (raw : string) (idx : Z) (results : list (result ParseError CanonicalNode))
    (st : IngestionReport * gset string) : IngestionReport * gset string :=
  match results with
  | [] => st
  | r :: rest => ingest_results raw (idx + 1) rest (ingest_step idx (idx + 1) raw r st)
  end.

Definition ingest_clash_document (report : IngestionReport) (raw text : string) (sid ts : Z)
  : IngestionReport :=
  match ingest_clash_yaml text sid ts with
  | Err why => record_failure report 0 1 raw why
  | Ok results => (ingest_results raw 0 (take (Z.to_nat MAX_ENTRIES) results) (report, ∅)).1
  end.

(** What the dispatch on the input decides: a finished report, or entries to
    parse with the report so far. *)
Inductive Dispatch :=
| Finished (r : IngestionReport)
| Entries (r : IngestionReport) (entries : list (Z * string)).

Definition singbox_message : string :=
  "sing-box JSON configuration is not supported; use proxy URI entries".
Definition bundle_message : string := "input is not a supported URI bundle".

Definition dispatch (raw text : string) (sid ts : Z) : Dispatch :=
  let report := IngestionReport_default in
  let fail := record_failure report 0 1 raw in
  let entries := collect_entries text in
  if bool_decide (entries ≠ []) && negb (existsb (λ e, is_supported_scheme e.2) entries) then
    match detect_container text with
    | Some ClashYaml => Finished (ingest_clash_document report raw text sid ts)
    | Some SingBoxJson => Finished (fail (UnsupportedFormat singbox_message))
    | None =>
      let joined := of_chars (List.filter (λ c, negb (is_whitespace c)) (chars text)) in
      match decode_bundle joined with
      | Ok decoded =>
        match from_utf8 decoded with
        | Ok decoded_text =>
          if looks_like_supported_entry decoded_text
          then Entries report (collect_entries decoded_text)
          else match detect_container decoded_text with
               | Some ClashYaml => Finished (ingest_clash_document report raw decoded_text sid ts)
               | Some SingBoxJson => Finished (fail (UnsupportedFormat singbox_message))
               | None => Entries (fail (UnsupportedFormat bundle_message)) entries
               end
        | Err _ => Entries (fail (UnsupportedFormat bundle_message)) entries
        end
      | Err e => Entries (fail (Base64Decode e)) entries
      end
    end
  else Entries report entries.

Definition ingest_with_timestamp (raw : string) (sid ts : Z) : IngestionReport :=
  match from_utf8 raw with
  | Err error => record_failure IngestionReport_default 0 1 raw (InvalidUri (show_utf8_error error))
  | Ok text =>
    match dispatch raw text sid ts with
    | Finished r => r
    | Entries r entries =>
      (ingest_entries sid ts 0 (take (Z.to_nat MAX_ENTRIES) entries) (r, ∅)).1
    end
  end.

(** [now] is the wall clock in seconds since the epoch. *)
Definition ingest_subscription (raw : string) (sid now : Z) : IngestionReport :=
  ingest_with_timestamp raw sid now.
End Ingest.

(** ** Specification *)

(** One attempt of the loop: its indices, the raw text a failure quotes, and
    what the parser said. *)
Record Attempt := { at_index : Z; at_line : Z; at_raw : string;
                    at_parsed : result ParseError CanonicalNode }.

(** Keeps the first node of every hash. *)
Fixpoint first_of_each (l : list CanonicalNode) : list CanonicalNode :=
  match l with
  | [] => []
  | n :: l => n :: List.filter (λ m, negb (bool_decide (hash m = hash n))) (first_of_each l)
  end.

Definition attempt_ok (a : Attempt) : option CanonicalNode := res_ok (at_parsed a).
Definition attempt_err (a : Attempt) : option ParseFailure :=
  match at_parsed a with
  | Ok _ => None
  | Err e => Some {| entry_index := at_index a; line_number := at_line a;
                     raw_snippet := safe_snippet (at_raw a); reason := e |}
  end.

Definition run_attempts (l : list Attempt) (st : IngestionReport * gset string)
  : IngestionReport * gset string :=
  foldl (λ st a, ingest_step (at_index a) (at_line a) (at_raw a) (at_parsed a) st) st l.

(** What the report of a sequence of attempts must say. *)
Definition report_of (pre : list ParseFailure) (l : list Attempt) : IngestionReport :=
  let nodes := omap attempt_ok l in
  {| total_entries_scanned := Z.of_nat (length l);
     successful_nodes := first_of_each nodes;
     duplicates_omitted := Z.of_nat (length nodes) - Z.of_nat (length (first_of_each nodes));
     failed_entries := take (Z.to_nat MAX_FAILURES) (pre ++ omap attempt_err l) |}.

(** ** Lemmas *)

Lemma take_snoc_cap {A} (k : nat) (l : list A) x :
  take k (l ++ [x]) = if (length (take k l) <? k)%nat then take k l ++ [x] else take k l.
Proof.
  destruct (Nat.ltb_spec (length (take k l)) k) as [Hlt|Hge]; rewrite length_take in *.
  - rewrite !take_ge by (rewrite ?length_app; simpl; lia). done.
  - by rewrite take_app_le by lia.
Qed.

Lemma elem_of_first_of_each n l : n ∈ first_of_each l → n ∈ l.
Proof.
  induction l as [|m l IH]; simpl; [done|]. rewrite !elem_of_cons.
  intros [->|Hn]; [by left|]. right. apply IH.
  apply list_elem_of_In, filter_In in Hn as [Hn _]. by apply list_elem_of_In.
Qed.

Lemma first_of_each_hashes h l : h ∈ (hash <$> first_of_each l) ↔ h ∈ (hash <$> l).
Proof.
  induction l as [|m l IH]; simpl; [done|]. rewrite !elem_of_cons.
  destruct (decide (h = hash m)) as [->|Hne]; [tauto|].
  rewrite <-IH, !list_elem_of_fmap. split.
  - intros [?|(n & -> & Hn)]; [done|]. right. exists n. split; [done|].
    apply list_elem_of_In, filter_In in Hn as [Hn _]. by apply list_elem_of_In.
  - intros [?|(n & -> & Hn)]; [done|]. right. exists n. split; [done|].
    apply list_elem_of_In, filter_In. split; [by apply list_elem_of_In|].
    by rewrite bool_decide_eq_false_2.
Qed.

Lemma first_of_each_NoDup l : NoDup (hash <$> first_of_each l).
Proof.
  induction l as [|m l IH]; simpl; [constructor|]. constructor.
  - rewrite list_elem_of_fmap. intros (n & E & Hn).
    apply list_elem_of_In, filter_In in Hn as [_ Hn].
    by rewrite bool_decide_eq_true_2 in Hn.
  - clear -IH. induction (first_of_each l) as [|n k IHk]; simpl in *; [constructor|].
    apply NoDup_cons in IH as [Hn Hk]. case_bool_decide; simpl; [by apply IHk|].
    constructor; [|by apply IHk]. rewrite list_elem_of_fmap in Hn |- *.
    intros (x & Ex & Hx). apply Hn. exists x. split; [done|].
    apply list_elem_of_In, filter_In in Hx as [Hx _]. by apply list_elem_of_In.
Qed.

Lemma first_of_each_length l : (length (first_of_each l) ≤ length l)%nat.
Proof.
  induction l as [|m l IH]; simpl; [lia|].
  pose proof (List.filter_length_le (λ n, negb (bool_decide (hash n = hash m))) (first_of_each l)). lia.
Qed.

Lemma attempts_split l :
  (length (omap attempt_ok l) + length (omap attempt_err l) = length l)%nat.
Proof.
  induction l as [|a l IH]; csimpl; [done|]. unfold attempt_ok at 1, attempt_err at 1.
  destruct (at_parsed a); csimpl; lia.
Qed.

Lemma first_of_each_app l k :
  first_of_each (l ++ k) =
  first_of_each l ++
  List.filter (λ m, negb (bool_decide (hash m ∈ (hash <$> l)))) (first_of_each k).
Proof.
  induction l as [|n l IH]; simpl.
  - induction (first_of_each k) as [|m ms IHm]; simpl; [done|]. by rewrite <-IHm at 1.
  - f_equal. rewrite IH, List.filter_app. f_equal. clear IH.
    change (list_fmap _ _ hash l) with (hash <$> l).
    induction (first_of_each k) as [|m ms IHm]; simpl; [done|].
    assert (bool_decide (hash m ∈ hash n :: (hash <$> l)) =
            bool_decide (hash m = hash n) || bool_decide (hash m ∈ (hash <$> l))) as ->.
    { rewrite <-bool_decide_or. apply bool_decide_ext. apply elem_of_cons. }
    destruct (bool_decide (hash m ∈ (hash <$> l))); simpl; [by rewrite orb_true_r|].
    rewrite orb_false_r. destruct (bool_decide (hash m = hash n)); simpl; by rewrite IHm.
Qed.

Lemma first_of_each_snoc l n :
  first_of_each (l ++ [n]) =
  if bool_decide (hash n ∈ (hash <$> l)) then first_of_each l else first_of_each l ++ [n].
Proof.
  rewrite first_of_each_app. simpl. case_bool_decide; simpl; [by rewrite app_nil_r|done].
Qed.

(** The loop implements [report_of]. *)
Lemma run_attempts_spec pre l :
  (length pre ≤ Z.to_nat MAX_FAILURES)%nat →
  let r0 := {| total_entries_scanned := 0; successful_nodes := []; duplicates_omitted := 0;
               failed_entries := pre |} in
  run_attempts l (r0, ∅) = (report_of pre l, list_to_set (hash <$> omap attempt_ok l)).
Proof.
  intros Hpre r0. induction l as [|a l IH] using rev_ind.
  { unfold report_of, run_attempts. simpl. by rewrite app_nil_r, take_ge by lia. }
  unfold run_attempts in *. rewrite foldl_snoc, IH. clear IH. unfold report_of.
  rewrite !omap_app, length_app.
  assert (omap attempt_ok [a] = match at_parsed a with Ok n => [n] | Err _ => [] end) as ->
    by (simpl; unfold attempt_ok; by destruct (at_parsed a)).
  assert (omap attempt_err [a] = match at_parsed a with
    | Ok _ => []
    | Err e => [{| entry_index := at_index a; line_number := at_line a;
                   raw_snippet := safe_snippet (at_raw a); reason := e |}] end) as ->
    by (simpl; unfold attempt_err; by destruct (at_parsed a)).
  unfold ingest_step. destruct (at_parsed a) as [n|e].
  - rewrite first_of_each_snoc, fmap_app, list_to_set_app_L, app_nil_r. simpl.
    rewrite (bool_decide_ext (hash n ∈ list_to_set _)
      (hash n ∈ (hash <$> omap attempt_ok l))) by by rewrite elem_of_list_to_set.
    case_bool_decide as Hin; unfold omit_duplicate, push_node, count_scanned; simpl.
    + f_equal; [f_equal; rewrite ?length_app; simpl; lia|].
      rewrite union_empty_r_L. apply leibniz_equiv. intros x.
      rewrite !elem_of_union, elem_of_list_to_set, elem_of_singleton.
      naive_solver.
    + f_equal; [f_equal; rewrite ?length_app; simpl; lia|]. set_solver.
  - rewrite !app_nil_r. unfold record_failure, count_scanned. simpl.
    rewrite app_assoc, take_snoc_cap.
    set (fs := take _ _).
    replace (Z.of_nat (length fs) <? MAX_FAILURES)
      with (length fs <? Z.to_nat MAX_FAILURES)%nat
      by (unfold MAX_FAILURES; destruct (Nat.ltb_spec (length fs) (Z.to_nat 10000)),
            (Z.ltb_spec (Z.of_nat (length fs)) 10000); try done; lia).
    case_match; f_equal; f_equal; lia.
Qed.

Section IngestLemmas.
Context `{IdentityHash} `{ParserLib} `{YamlLib}.

(** The attempts the URI loop and the Clash loop make. *)
Fixpoint entry_attempts (sid ts idx : Z) (entries : list (Z * string)) : list Attempt :=
  match entries with
  | [] => []
  | (line, entry) :: rest =>
    {| at_index := idx; at_line := line; at_raw := entry;
       at_parsed := parse_entry entry sid ts |} :: entry_attempts sid ts (idx + 1) rest
  end.
Fixpoint result_attempts (raw : string) (idx : Z)
    (results : list (result ParseError CanonicalNode)) : list Attempt :=
  match results with
  | [] => []
  | r :: rest =>
    {| at_index := idx; at_line := idx + 1; at_raw := raw; at_parsed := r |}
    :: result_attempts raw (idx + 1) rest
  end.

Lemma ingest_entries_run sid ts idx entries st :
  ingest_entries sid ts idx entries st = run_attempts (entry_attempts sid ts idx entries) st.
Proof.
  revert idx st. induction entries as [|[line entry] rest IH]; intros; simpl; [done|].
  by rewrite IH.
Qed.

Lemma ingest_results_run raw idx results st :
  ingest_results raw idx results st = run_attempts (result_attempts raw idx results) st.
Proof.
  revert idx st. induction results as [|r rest IH]; intros; simpl; [done|]. by rewrite IH.
Qed.

Lemma entry_attempts_length sid ts idx l : length (entry_attempts sid ts idx l) = length l.
Proof. revert idx. induction l as [|[] l IH]; intros; simpl; congruence. Qed.
Lemma result_attempts_length raw idx l : length (result_attempts raw idx l) = length l.
Proof. revert idx. induction l as [|r l IH]; intros; simpl; congruence. Qed.

(** A node that an attempt of this subscription produced. *)
Definition ingested_node (sid ts : Z) (n : CanonicalNode) : Prop :=
  node_wf n ∧ mux n = None ∧ make_metadata sid (label (meta n)) ts = Ok (meta n).

(** ... by one of the two parsers. *)
Definition parsed_from (sid ts : Z) (n : CanonicalNode) : Prop :=
  (∃ entry, parse_entry entry sid ts = Ok n) ∨ (∃ item, parse_proxy item sid ts = Ok n).

Lemma parsed_from_ingested sid ts n : parsed_from sid ts n → ingested_node sid ts n.
Proof.
  intros [[e E]|[item E]]; [apply parse_entry_parsed in E as (url & _ & P)|apply parse_proxy_parsed in E as P];
    split_and!; apply P.
Qed.

Lemma entry_attempts_nodes sid ts idx l n :
  n ∈ omap attempt_ok (entry_attempts sid ts idx l) → parsed_from sid ts n.
Proof.
  revert idx. induction l as [|[line e] l IH]; intros idx; simpl; [by intros ?%not_elem_of_nil|].
  unfold attempt_ok at 1. simpl.
  destruct (parse_entry e sid ts) as [m|] eqn:E; simpl; [|apply IH].
  rewrite elem_of_cons. intros [->|Hn]; [left; by exists e|by eapply IH].
Qed.

Lemma result_attempts_nodes raw idx l sid ts n :
  (∀ r m, r ∈ l → r = Ok m → parsed_from sid ts m) →
  n ∈ omap attempt_ok (result_attempts raw idx l) → parsed_from sid ts n.
Proof.
  revert idx. induction l as [|r l IH]; intros idx HP; simpl; [by intros ?%not_elem_of_nil|].
  assert (∀ r0 m, r0 ∈ l → r0 = Ok m → parsed_from sid ts m) as HP' by (intros; eapply HP; eauto; by right).
  unfold attempt_ok at 1. simpl. destruct r as [m|]; simpl; [|by apply IH].
  rewrite elem_of_cons. intros [->|Hn]; [|by eapply IH].
  eapply HP; [by left|done].
Qed.

Lemma clash_results_nodes text sid ts results r m :
  ingest_clash_yaml text sid ts = Ok results → r ∈ results → r = Ok m → parsed_from sid ts m.
Proof.
  unfold ingest_clash_yaml. intros E Hr ->. inv_ok. subst.
  apply list_elem_of_fmap in Hr as (item & E' & _). right. by exists item.
Qed.

Lemma record_failure_default idx line raw why :
  record_failure IngestionReport_default idx line raw why =
  report_of [{| entry_index := idx; line_number := line; raw_snippet := safe_snippet raw;
                reason := why |}] [].
Proof. reflexivity. Qed.

(** A report that some bounded sequence of attempts of this subscription
    explains, with at most one failure of the input as a whole before it. *)
Definition explained (sid ts : Z) (r : IngestionReport) : Prop :=
  ∃ pre l, r = report_of pre l ∧ (length pre ≤ 1)%nat ∧
    (length l ≤ Z.to_nat MAX_ENTRIES)%nat ∧
    ∀ n, n ∈ omap attempt_ok l → parsed_from sid ts n.

Lemma explained_failure sid ts f : explained sid ts (report_of [f] []).
Proof. exists [f], []. split_and!; simpl; try done; try lia. by intros ? ?%not_elem_of_nil. Qed.

Lemma explained_clash sid ts raw text :
  explained sid ts (ingest_clash_document IngestionReport_default raw text sid ts).
Proof.
  unfold ingest_clash_document.
  destruct (ingest_clash_yaml text sid ts) as [rs|why] eqn:E; [|apply explained_failure].
  rewrite ingest_results_run. unfold IngestionReport_default.
  rewrite (run_attempts_spec []) by (simpl; lia). eexists [], _. split; [done|].
  rewrite result_attempts_length, length_take. split_and!; [simpl; lia|lia|].
  intros n. apply result_attempts_nodes. intros r m Hr.
  eapply clash_results_nodes; [done|].
  rewrite <-(take_drop (Z.to_nat MAX_ENTRIES) rs), elem_of_app. by left.
Qed.

Lemma explained_entries sid ts pre entries :
  (length pre ≤ 1)%nat →
  explained sid ts
    (ingest_entries sid ts 0 (take (Z.to_nat MAX_ENTRIES) entries)
       ({| total_entries_scanned := 0; successful_nodes := []; duplicates_omitted := 0;
           failed_entries := pre |}, ∅)).1.
Proof.
  intros Hpre. rewrite ingest_entries_run.
  rewrite run_attempts_spec by (unfold MAX_FAILURES; lia). eexists pre, _. split; [done|].
  rewrite entry_attempts_length, length_take. split_and!; [done|lia|].
  intros n. apply entry_attempts_nodes.
Qed.

Lemma ingest_explained raw sid ts : explained sid ts (ingest_with_timestamp raw sid ts).
Proof.
  unfold ingest_with_timestamp.
  destruct (from_utf8 raw) as [text|]; [|apply explained_failure].
  unfold dispatch. case_match eqn:Ed; repeat case_match; simplify_eq;
    first [apply explained_clash|apply explained_failure|apply explained_entries; simpl; lia].
Qed.

Lemma ingested_nodes_parsed raw sid ts n :
  n ∈ successful_nodes (ingest_with_timestamp raw sid ts) → parsed_from sid ts n.
Proof.
  destruct (ingest_explained raw sid ts) as (pre & l & -> & _ & _ & Hn). simpl.
  intros ?%elem_of_first_of_each. by apply Hn.
Qed.
End IngestLemmas.

(** ** Properties *)

(** C24. Every report adds up. Whatever the input: no two reported nodes share a
    hash; each is canonical and carries this subscription's metadata; every scanned
    entry is a node, a duplicate or a failure; at most [MAX_ENTRIES] are scanned and
    at most [MAX_FAILURES] failures kept, none lost below that bound; and at most
    one further failure reports the input as a whole. *)
Theorem ingest_accounting `{IdentityHash} `{ParserLib} `{YamlLib} raw sid ts :
  let r := ingest_with_timestamp raw sid ts in
  let nodes := Z.of_nat (length (successful_nodes r)) in
  NoDup (hash <$> successful_nodes r) ∧
  Forall (ingested_node sid ts) (successful_nodes r) ∧
  0 ≤ duplicates_omitted r ∧
  nodes + duplicates_omitted r ≤ total_entries_scanned r ≤ MAX_ENTRIES ∧
  ∃ extra, 0 ≤ extra ≤ 1 ∧
    Z.of_nat (length (failed_entries r)) =
    Z.min MAX_FAILURES (extra + (total_entries_scanned r - nodes - duplicates_omitted r)).
Proof.
  destruct (ingest_explained raw sid ts) as (pre & l & -> & Hpre & Hl & Hn). simpl.
  split; [apply first_of_each_NoDup|]. split.
  { apply Forall_forall. intros n ?%elem_of_first_of_each. by apply parsed_from_ingested, Hn. }
  pose proof (first_of_each_length (omap attempt_ok l)) as Hfirst.
  pose proof (attempts_split l) as Hsplit. unfold MAX_ENTRIES in *.
  split; [lia|]. split; [lia|]. exists (Z.of_nat (length pre)). split; [lia|].
  rewrite length_take, length_app. unfold MAX_FAILURES. lia.
Qed.

(** A bundle with at least one line of a supported scheme is parsed line by
    line: blank lines and comments are skipped, a bad entry never hides another,
    and the nodes are the accepted ones, the first of every hash, in order. *)
Lemma ingest_bundle_spec `{IdentityHash} `{ParserLib} `{YamlLib} raw sid ts :
  from_utf8 raw = Ok raw →
  existsb (λ e, is_supported_scheme e.2) (collect_entries raw) = true →
  let entries := take (Z.to_nat MAX_ENTRIES) (collect_entries raw) in
  successful_nodes (ingest_with_timestamp raw sid ts) =
    first_of_each (omap (λ e, res_ok (parse_entry e.2 sid ts)) entries) ∧
  failed_entries (ingest_with_timestamp raw sid ts) =
    take (Z.to_nat MAX_FAILURES) (omap attempt_err (entry_attempts sid ts 0 entries)).
Proof.
  intros Hu Hs entries. unfold ingest_with_timestamp, dispatch. rewrite Hu, Hs, andb_false_r.
  unfold IngestionReport_default. fold entries.
  rewrite ingest_entries_run, (run_attempts_spec []) by (simpl; lia). simpl.
  split; [|done]. f_equal. generalize 0. generalize entries. clear.
  intros l. induction l as [|[line e] l IH]; intros i; csimpl; [done|].
  unfold attempt_ok at 1. simpl. destruct (parse_entry e sid ts); csimpl; by rewrite <-(IH (i + 1)).
Qed.

Definition sample_bundle : string :=
  "# nodes" +:+ String (char_of 10) (sample_link +:+ String (char_of 10)
    ("vless://broken" +:+ String (char_of 10) (" " +:+ sample_link))).

Lemma ingest_bundle_spec_witness :
  successful_nodes (@ingest_with_timestamp sample_hash sample_lib sample_yaml_lib sample_bundle 7 10)
    = [sample_parsed] ∧
  length (failed_entries
    (@ingest_with_timestamp sample_hash sample_lib sample_yaml_lib sample_bundle 7 10)) = 1%nat.
Proof.
  destruct (@ingest_bundle_spec sample_hash sample_lib sample_yaml_lib sample_bundle 7 10)
    as [E1 E2]; [reflexivity|reflexivity|].
  rewrite E1, E2. split; vm_compute; reflexivity.
Defined.
