(* ===== verification/Adapter.v ===== *)
(** The sing-box adapter ([crates/adapter/src/lib.rs]): outbounds, DNS section
    and full configuration as JSON values, and the default gateway read from the
    kernel's route table.

    Running the core's binary ([probe_capabilities], [validate_config]) is I/O
    and is not modelled here; the printer of [uuid] and
    the [Debug] quoting of strings are parameters. *)

From S2P Require Import Prelude RustStr Ir Json Metadata Uri.

Class AdapterLib := {
  Uuid_to_string : Uuid → string;
  str_debug : string → string        (** [{:?}] of a string *)
}.

(** ** Names *)

Definition flow_name (f : VlessFlow) : string :=
  match f with
  | XtlsRprxVision => "xtls-rprx-vision"
  | XtlsRprxVisionUdp443 => "xtls-rprx-vision-udp443"
  end.
Definition cipher_name (c : VmessCipher) : string :=
  match c with
  | VmAuto => "auto"
  | VmAes128Gcm => "aes-128-gcm"
  | VmChacha20Poly1305 => "chacha20-poly1305"
  | VmNone => "none"
  end.
Definition ss_method_name (m : ShadowsocksCipher) : string :=
  match m with
  | SsAes128Gcm => "aes-128-gcm"
  | SsAes256Gcm => "aes-256-gcm"
  | SsChacha20IetfPoly1305 => "chacha20-ietf-poly1305"
  | Ss2022Blake3Aes128Gcm => "2022-blake3-aes-128-gcm"
  | Ss2022Blake3Aes256Gcm => "2022-blake3-aes-256-gcm"
  | Ss2022Blake3Chacha20Poly1305 => "2022-blake3-chacha20-poly1305"
  end.
Definition congestion_name (c : TuicCongestion) : string :=
  match c with TcBbr => "bbr" | TcCubic => "cubic" | TcNewReno => "new_reno" end.
Definition relay_mode (r : TuicUdpRelay) : string :=
  match r with TrNative => "native" | TrQuic => "quic" end.
Definition mux_protocol_name (p : MuxProtocol) : string :=
  match p with Smux => "smux" | Yamux => "yamux" | H2Mux => "h2mux" end.
Definition xhttp_mode (m : XHttpMode) : string :=
  match m with StreamOne => "stream-one" | StreamUp => "stream-up" | PacketUp => "packet-up" end.
Definition fingerprint_name (f : UtlsFingerprint) : option string :=
  match f with
  | FpChrome => Some "chrome"
  | FpFirefox => Some "firefox"
  | FpSafari => Some "safari"
  | FpEdge => Some "edge"
  | FpRandomized => Some "randomized"
  | FpNone => None
  end.

(** ** The outbound builder *)

Definition JS (s : string) : Value := JString s.

(** [map.insert(key, value)] when the value is there. *)
Definition map_insert_opt (k : string) (v : option Value) (m : Map) : Map :=
  match v with Some v => map_insert k v m | None => m end.

Definition embed_mux (mx : option MuxSpec) (b : Map) : Map :=
  match mx with
  | Some v =>
    map_insert "multiplex" (json_object [
      ("enabled", JBool (mux_enabled v));
      ("protocol", JS (mux_protocol_name (mux_protocol v)));
      ("max_connections", json_uint (mux_concurrency v))]) b
  | None => b
  end.

(** [OutboundBuilder::new]. *)
Definition builder_new (n : CanonicalNode) : Map :=
  embed_mux (mux n) (map_insert "tag" (JS (label (meta n))) []).

Definition embed_utls (f : UtlsFingerprint) (tls : Map) : Map :=
  match fingerprint_name f with
  | None => tls
  | Some name =>
    map_insert "utls" (json_object [("enabled", JBool true); ("fingerprint", JS name)]) tls
  end.

Definition transport_value (t : TransportSpec) : option Value :=
  match t with
  | Tcp => None
  | WebSocket c =>
    let headers := match ws_host c with Some h => map_insert "Host" (JS h) [] | None => [] end in
    let ws := map_insert "path" (JS (ws_path c)) (map_insert "type" (JS "ws") []) in
    let ws := match headers with [] => ws | _ => map_insert "headers" (JObject headers) ws end in
    let ws := map_insert "max_early_data" (json_uint (ws_max_early_data c)) ws in
    Some (JObject (map_insert "early_data_header_name" (json_opt_str (ws_early_data_header c)) ws))
  | Grpc c =>
    Some (json_object [
      ("type", JS "grpc"); ("service_name", JS (grpc_service_name c));
      ("mode", JS (if grpc_multi_mode c then "multi" else "gun"))])
  | HttpUpgrade c =>
    let m := map_insert "type" (JS "httpupgrade") [] in
    let m := map_insert_opt "host" (JS <$> hu_host c) m in
    Some (JObject (map_insert "path" (JS (hu_path c)) m))
  | XHttp c =>
    Some (json_object [
      ("type", JS "xhttp"); ("mode", JS (xhttp_mode (xh_mode c))); ("path", JS (xh_path c))])
  end.
Definition embed_transport (t : TransportSpec) (b : Map) : Map :=
  map_insert_opt "transport" (transport_value t) b.

Definition security_value (s : SecuritySpec) : option Value :=
  match s with
  | SecNone => None
  | SecTls c =>
    let tls := map_insert "enabled" (JBool true) [] in
    let tls := map_insert "server_name" (JS (tls_server_name c)) tls in
    let tls := map_insert "insecure" (JBool (tls_allow_insecure c)) tls in
    let tls := match tls_alpn c with
               | [] => tls
               | l => map_insert "alpn" (JArray (map JS l)) tls
               end in
    Some (JObject (embed_utls (tls_fingerprint c) tls))
  | SecReality c =>
    let tls := map_insert "enabled" (JBool true) [] in
    let tls := map_insert "server_name" (JS (re_server_name c)) tls in
    let tls := embed_utls (re_fingerprint c) tls in
    let reality := map_insert "enabled" (JBool true) [] in
    let reality := map_insert "public_key" (JS (re_public_key c)) reality in
    let reality := map_insert "short_id" (JS (re_short_id c)) reality in
    let reality := map_insert_opt "spider_x" (JS <$> re_spider_x c) reality in
    Some (JObject (map_insert "reality" (JObject reality) tls))
  end.
Definition embed_security (s : SecuritySpec) (b : Map) : Map :=
  map_insert_opt "tls" (security_value s) b.

Definition embed_stream (n : CanonicalNode) (b : Map) : Map :=
  embed_mux (mux n) (embed_security (security n) (embed_transport (transport n) b)).

Section Outbound.
Context `{AdapterLib}.

Definition validate_server (server : string) : result Error () :=
  if bool_decide (server = EmptyString) || contains_whitespace server
  then bail ("invalid server address: " +:+ str_debug server) else Ok ().

Definition builder_server (server : string) (b : Map) : result Error Map :=
  _ ← validate_server server; Ok (map_insert "server" (JS server) b).

(** The protocol's part of [compile_outbound]. *)
Definition embed_protocol (n : CanonicalNode) (b : Map) : Map :=
  match protocol n with
  | Vless c =>
    let b := map_insert "type" (JS "vless") b in
    let b := map_insert "uuid" (JS (Uuid_to_string (vless_uuid c))) b in
    let b := map_insert_opt "flow" (JS ∘ flow_name <$> vless_flow c) b in
    embed_stream n (map_insert "packet_encoding" (JS "xudp") b)
  | Vmess c =>
    let b := map_insert "type" (JS "vmess") b in
    let b := map_insert "uuid" (JS (Uuid_to_string (vmess_uuid c))) b in
    let b := map_insert "alter_id" (json_uint (vmess_alter_id c)) b in
    embed_stream n (map_insert "security" (JS (cipher_name (vmess_cipher c))) b)
  | Trojan c =>
    let b := map_insert "type" (JS "trojan") b in
    embed_stream n (map_insert "password" (JS (trojan_password c)) b)
  | Shadowsocks c =>
    let b := map_insert "type" (JS "shadowsocks") b in
    let b := map_insert "method" (JS (ss_method_name (ss_method c))) b in
    let b := map_insert "password" (JS (ss_password c)) b in
    match ss_plugin c with
    | Some plugin => map_insert_opt "plugin_opts" (JS <$> ss_plugin_opts c)
                       (map_insert "plugin" (JS plugin) b)
    | None => b
    end
  | Hysteria2 c =>
    let b := map_insert "type" (JS "hysteria2") b in
    let b := map_insert "password" (JS (hy_password c)) b in
    let b := map_insert_opt "up_mbps" (json_uint <$> hy_up_mbps c) b in
    let b := map_insert_opt "down_mbps" (json_uint <$> hy_down_mbps c) b in
    let b := map_insert_opt "obfs" ((λ o, json_object [
               ("type", JS (obfs_type o)); ("password", JS (obfs_password o))]) <$> hy_obfs c) b in
    map_insert_opt "port_hopping" (JS <$> hy_port_hopping c) b
  | Tuic c =>
    let b := map_insert "type" (JS "tuic") b in
    let b := map_insert "uuid" (JS (Uuid_to_string (tuic_uuid c))) b in
    let b := map_insert "password" (JS (tuic_password c)) b in
    let b := map_insert "congestion_control" (JS (congestion_name (tuic_congestion_control c))) b in
    let b := map_insert "udp_relay_mode" (JS (relay_mode (tuic_udp_relay_mode c))) b in
    map_insert "zero_rtt_handshake" (JBool (tuic_zero_rtt_handshake c)) b
  | WireGuard c =>
    let b := map_insert "type" (JS "wireguard") b in
    let b := map_insert "private_key" (JS (wg_private_key c)) b in
    let b := map_insert "local_address" (JArray (map (JS ∘ Net.show_ip) (wg_local_address c))) b in
    let peer := map_insert "public_key" (JS (wg_peer_public_key c)) [] in
    let peer := map_insert_opt "preshared_key" (JS <$> wg_preshared_key c) peer in
    let b := map_insert "peers" (JArray [JObject peer]) b in
    let b := map_insert_opt "reserved"
               ((λ '(x, y, z), JArray [json_uint x; json_uint y; json_uint z]) <$> wg_reserved c) b in
    map_insert_opt "mtu" (json_uint <$> wg_mtu c) b
  end.

Definition endpoint_server (e : EndpointTarget) : string * Z :=
  match e with
  | EpIp address => (Net.show_ip (sa_ip address), sa_port address)
  | EpDomain host port => (host, port)
  end.

Definition compile_outbound (n : CanonicalNode) : result Error Value :=
  let '(server, port) := endpoint_server (endpoint n) in
  b ← builder_server server (builder_new n);
  let b := map_insert "tag" (JS (label (meta n))) (map_insert "server_port" (json_uint port) b) in
  Ok (JObject (embed_protocol n b)).
End Outbound.

(** ** The full configuration *)

Definition compile_tproxy_inbound (listen : string) (port : Z) : Value :=
  json_object [("type", JS "tproxy"); ("tag", JS "tproxy-in"); ("listen", JS listen);
               ("listen_port", json_uint port)].

Definition compile_routing (outbound_tag : string) (mark : Z) (auto_detect_interface : bool)
  : Value :=
  json_object [
    ("auto_detect_interface", JBool auto_detect_interface);
    ("default_mark", json_uint mark);
    ("rules", JArray [
       json_object [("action", JS "sniff"); ("override_destination", JBool true)];
       json_object [("action", JS "route"); ("outbound", JS outbound_tag)]])].

Inductive DnsProvider := Cloudflare | Quad9 | Google | AdGuard | Custom (host : string).
Definition dns_server (p : DnsProvider) : string :=
  match p with
  | Cloudflare => "1.1.1.1"
  | Quad9 => "dns.quad9.net"
  | Google => "dns.google"
  | AdGuard => "dns.adguard-dns.com"
  | Custom host => host
  end.

(** [LocalDns]: the IPv4 address, already an [IpAddr], and the port. *)
Record LocalDns := { ld_ipv4 : IpAddr; ld_port : Z }.

Definition compile_dns (proxy_outbound : string) (provider : DnsProvider)
    (local : option LocalDns) : Value :=
  let tunnel := json_object [("type", JS "https"); ("tag", JS "tunnel-dns");
                             ("server", JS (dns_server provider)); ("detour", JS proxy_outbound)] in
  let '(local_servers, local_rules) :=
    match local with
    | Some l =>
      ([json_object [("type", JS "udp"); ("tag", JS "local-dns");
                     ("server", JS (Net.show_ip (ld_ipv4 l))); ("server_port", json_uint (ld_port l));
                     ("detour", JS "direct")]],
       [json_object [("outbound", JArray [JS "direct"]); ("server", JS "local-dns")]])
    | None => ([], [])
    end in
  json_object [
    ("servers", JArray (tunnel :: local_servers));
    ("rules", JArray (local_rules ++ [json_object [("server", JS "tunnel-dns")]]));
    ("strategy", JS "ipv4_only");
    ("independent_cache", JBool false)].

Section FullConfig.
Context `{AdapterLib}.

Definition compile_full_config (n : CanonicalNode) (tproxy_port mark : Z)
    (dns_provider : DnsProvider) (local_dns : option LocalDns) : result Error Value :=
  outbound ← compile_outbound n;
  let outbound_tag := default "proxy" (value_get "tag" outbound ≫= as_str) in
  let direct := json_object [("type", JS "direct"); ("tag", JS "direct")] in
  Ok (json_object [
    ("log", json_object [("level", JS "info"); ("timestamp", JBool true)]);
    ("inbounds", JArray [compile_tproxy_inbound "::" tproxy_port]);
    ("outbounds", JArray [direct; outbound]);
    ("route", compile_routing outbound_tag mark true);
    ("dns", compile_dns outbound_tag dns_provider local_dns)]).
End FullConfig.

(** ** The default gateway *)

Fixpoint hex_value (acc : Z) (s : string) : option Z :=
  match s with
  | EmptyString => Some acc
  | String a s => d ← to_digit 16 a; hex_value (acc * 16 + d) s
  end.
(** [u32::from_str_radix(_, 16)]. *)
Definition parse_hex_u32 (s : string) : option Z :=
  let digits := match s with
    | String a rest => if byte_of a =? 43 then rest else s
    | EmptyString => s
    end in
  match digits with
  | EmptyString => None
  | _ => z ← hex_value 0 digits; if z <=? U32_MAX then Some z else None
  end.

(** [Ipv4Addr::from(hex.swap_bytes())]: the lowest byte is the first octet. *)
Definition ipv4_of_le (z : Z) : IpAddr :=
  V4 (z mod 256) (z / 256 mod 256) (z / 65536 mod 256) (z / 16777216 mod 256).

(** The outcome of one line: the function returns, or the loop goes on. *)
Definition route_line (line : string) : option (option IpAddr) :=
  match split_whitespace line with
  | _ :: destination :: rest =>
    if negb (String.eqb destination "00000000") then None
    else match rest with
         | gateway :: _ => Some (ipv4_of_le <$> parse_hex_u32 gateway)
         | [] => Some None
         end
  | _ => Some None
  end.

Fixpoint route_lines (l : list string) : option IpAddr :=
  match l with
  | [] => None
  | line :: l => match route_line line with Some r => r | None => route_lines l end
  end.
Definition parse_route_table (contents : string) : option IpAddr :=
  route_lines (drop 1 (lines contents)).

(** ** Lemmas *)

Lemma map_lookup_insert_if k k' v m :
  map_lookup k (map_insert k' v m) = if String.eqb k k' then Some v else map_lookup k m.
Proof.
  destruct (String.eqb_spec k k') as [->|Hne]; [apply map_lookup_insert|].
  by apply map_lookup_insert_ne.
Qed.

Lemma map_lookup_insert_opt k k' v m :
  map_lookup k (map_insert_opt k' v m) =
  match v with Some v => if String.eqb k k' then Some v else map_lookup k m | None => map_lookup k m end.
Proof. destruct v; [apply map_lookup_insert_if|done]. Qed.

Lemma map_insert_opt_sorted k v m : map_sorted m → map_sorted (map_insert_opt k v m).
Proof. destruct v; simpl; auto. Qed.
#[export] Hint Resolve map_insert_opt_sorted : core.

(** The multiplexing object of an outbound. *)
Definition mux_value (mx : option MuxSpec) : option Value :=
  (λ v, json_object [
     ("enabled", JBool (mux_enabled v)); ("protocol", JS (mux_protocol_name (mux_protocol v)));
     ("max_connections", json_uint (mux_concurrency v))]) <$> mx.

Lemma embed_mux_opt mx b : embed_mux mx b = map_insert_opt "multiplex" (mux_value mx) b.
Proof. by destruct mx. Qed.

Definition type_name (p : ProtocolSpec) : string :=
  match p with
  | Vless _ => "vless" | Vmess _ => "vmess" | Trojan _ => "trojan"
  | Shadowsocks _ => "shadowsocks" | Hysteria2 _ => "hysteria2" | Tuic _ => "tuic"
  | WireGuard _ => "wireguard"
  end.
Definition is_stream (p : ProtocolSpec) : bool :=
  match p with Vless _ | Vmess _ | Trojan _ => true | _ => false end.

(** Evaluates a lookup in a chain of insertions. *)
Ltac lookup_chain :=
  repeat first
    [ rewrite map_lookup_insert_if
    | rewrite map_lookup_insert_opt
    | match goal with |- context [String.eqb ?a ?b] =>
        let r := eval vm_compute in (String.eqb a b) in
        change (String.eqb a b) with r; cbv iota end ].

Section OutboundLemmas.
Context `{AdapterLib}.

(** What the protocol's part leaves of the map below it, by key. *)
Lemma embed_protocol_lookup n b :
  let m := embed_protocol n b in
  let keep k (v : option Value) := match v with Some _ => v | None => map_lookup k b end in
  map_lookup "type" m = Some (JS (type_name (protocol n))) ∧
  (∀ k, k ∈ ["tag"; "server"; "server_port"] → map_lookup k m = map_lookup k b) ∧
  map_lookup "tls" m =
    keep "tls" (if is_stream (protocol n) then security_value (security n) else None) ∧
  map_lookup "transport" m =
    keep "transport" (if is_stream (protocol n) then transport_value (transport n) else None) ∧
  map_lookup "multiplex" m =
    keep "multiplex" (if is_stream (protocol n) then mux_value (mux n) else None).
Proof.
  simpl. unfold embed_protocol, embed_stream, embed_transport, embed_security.
  destruct (protocol n) as [c|c|c|c|c|c|c]; [| | |destruct (ss_plugin c)| | |]; cbv zeta;
    rewrite ?embed_mux_opt; cbn [is_stream].
  all: split_and!; try (intros k Hk; rewrite !elem_of_cons in Hk;
    destruct Hk as [->|[->|[->|Hk%not_elem_of_nil]]]; [..|done]).
  all: lookup_chain; repeat case_match; done.
Qed.

Lemma embed_protocol_sorted n b : map_sorted b → map_sorted (embed_protocol n b).
Proof.
  intros Hb. unfold embed_protocol, embed_stream, embed_transport, embed_security.
  destruct (protocol n); cbv zeta; rewrite ?embed_mux_opt; repeat case_match; auto 12.
Qed.

Definition endpoint_typed (e : EndpointTarget) : Prop :=
  match e with EpIp a => ip_wf (sa_ip a) | EpDomain _ _ => True end.

Lemma endpoint_server_valid e :
  endpoint_wf e → endpoint_typed e → validate_server (endpoint_server e).1 = Ok ().
Proof.
  unfold validate_server. destruct e as [a|h p]; simpl.
  - intros _ Hip. rewrite bool_decide_eq_false_2 by by apply show_ip_nonempty.
    by rewrite graphic_no_whitespace by by apply graphic_show_ip.
  - intros (_ & Hne & _ & _ & Hws & _) _. by rewrite bool_decide_eq_false_2, Hws.
Qed.
End OutboundLemmas.

(** ** Properties *)

(** Compiling the outbound of a canonical node always succeeds, with an
    object in key order whose tag is the node's label, whose address is its
    endpoint, whose type is its protocol, and which carries a TLS or transport
    section exactly for a protocol over streams that has one, and a multiplexing
    section exactly when the node has one. *)
Lemma compile_outbound_total `{AdapterLib} n :
  endpoint_wf (endpoint n) → endpoint_typed (endpoint n) →
  ∃ m, compile_outbound n = Ok (JObject m) ∧ map_sorted m ∧
    map_lookup "tag" m = Some (JS (label (meta n))) ∧
    map_lookup "server" m = Some (JS (endpoint_server (endpoint n)).1) ∧
    map_lookup "server_port" m = Some (json_uint (endpoint_server (endpoint n)).2) ∧
    map_lookup "type" m = Some (JS (type_name (protocol n))) ∧
    map_lookup "tls" m = (if is_stream (protocol n) then security_value (security n) else None) ∧
    map_lookup "transport" m =
      (if is_stream (protocol n) then transport_value (transport n) else None) ∧
    map_lookup "multiplex" m = mux_value (mux n).
Proof.
  intros Hw Ht. pose proof (endpoint_server_valid _ Hw Ht) as Hv. unfold compile_outbound.
  destruct (endpoint_server (endpoint n)) as [server port]. simpl in *.
  unfold builder_server. rewrite Hv. simpl. eexists. split; [done|].
  unfold builder_new. rewrite embed_mux_opt. split.
  { apply embed_protocol_sorted. auto 10. }
  set (b := map_insert "tag" _ _).
  destruct (embed_protocol_lookup n b) as (E1 & E2 & E3 & E4 & E5).
  rewrite !E2 by set_solver. rewrite E1, E3, E4, E5. unfold b.
  split_and!; lookup_chain; repeat case_match; try done.
Qed.

(** Every name the adapter writes is a name the subscription parsers read
    back as the same value. *)
Lemma names_roundtrip :
  (∀ m, parse_ss_method (ss_method_name m) = Ok m) ∧
  (∀ f, parse_flow (Some (flow_name f)) = Ok (Some f)) ∧
  (∀ c, parse_vmess_cipher (Some (cipher_name c)) = Ok c) ∧
  (∀ c field, parse_congestion field (Some (congestion_name c)) = Ok c) ∧
  (∀ r field, parse_relay field (Some (relay_mode r)) = Ok r) ∧
  (∀ f, parse_fingerprint (fingerprint_name f) = f) ∧
  (∀ m, parse_xhttp_mode (Some (xhttp_mode m)) = m).
Proof. split_and!; intros []; try intros field; reflexivity. Qed.

(** The tags of the outbounds and of the DNS servers of a configuration. *)
Definition tags_at (k1 : string) (v : Value) : list string :=
  match value_get k1 v ≫= as_array with
  | Some l => omap (λ o, value_get "tag" o ≫= as_str) l
  | None => []
  end.

(** What a DNS server is dialled with, and what a DNS rule selects: the tags of the
    outbounds it is for, if it says, and the server it names. *)
Definition server_detour (s : Value) : option string * option string :=
  (value_get "tag" s ≫= as_str, value_get "detour" s ≫= as_str).
Definition rule_target (r : Value) : option (list Value) * option string :=
  (value_get "outbound" r ≫= as_array, value_get "server" r ≫= as_str).

Lemma compile_outbound_tag `{AdapterLib} n :
  endpoint_wf (endpoint n) → endpoint_typed (endpoint n) →
  ∃ m, compile_outbound n = Ok (JObject m) ∧ map_lookup "tag" m = Some (JS (label (meta n))).
Proof. intros Hw Ht. destruct (compile_outbound_total n Hw Ht) as (m & E & _ & Etag & _). eauto. Qed.


(** An address the way [/proc/net/route] prints it. *)
Definition gateway_field (a b c d : Z) : string := hex2 d +:+ hex2 c +:+ hex2 b +:+ hex2 a.

Lemma hex_value_hex2 acc z s :
  in_u 8 z → hex_value acc (hex2 z +:+ s) = hex_value (acc * 256 + z) s.
Proof.
  unfold in_u, umax. change (2 ^ 8 - 1) with 255. intros Hz. unfold hex2.
  rewrite !append_String, append_nil_l. cbn [hex_value].
  assert (0 ≤ z / 16 < 16 ∧ 0 ≤ z mod 16 < 16) as [H1 H2] by (Z.div_mod_to_equations; lia).
  rewrite !to_digit_hex_digit by done. cbn. f_equal. Z.div_mod_to_equations; lia.
Qed.

Lemma parse_hex_gateway a b c d :
  in_u 8 a → in_u 8 b → in_u 8 c → in_u 8 d →
  ipv4_of_le <$> parse_hex_u32 (gateway_field a b c d) = Some (V4 a b c d).
Proof.
  intros Ha Hb Hc Hd.
  assert (hex_value 0 (gateway_field a b c d) = Some (((d * 256 + c) * 256 + b) * 256 + a)) as E.
  { unfold gateway_field. rewrite !hex_value_hex2 by done.
    rewrite <-(append_empty_r (hex2 a)), hex_value_hex2 by done. done. }
  unfold parse_hex_u32.
  assert (∃ x s, gateway_field a b c d = String (hex_digit x) s ∧ 0 ≤ x < 16) as (x & s & Es & Hx).
  { unfold gateway_field, hex2. rewrite !append_String. do 2 eexists. split; [done|].
    revert Hd. unfold in_u, umax. change (2 ^ 8 - 1) with 255. Z.div_mod_to_equations; lia. }
  rewrite Es in *. rewrite hex_digit_not_plus by done. rewrite E. cbn.
  revert Ha Hb Hc Hd. unfold in_u, umax. change (2 ^ 8 - 1) with 255. intros.
  rewrite (proj2 (Z.leb_le _ _)) by lia. cbn. unfold ipv4_of_le.
  repeat f_equal; Z.div_mod_to_equations; lia.
Qed.

(** The default gateway: the first route to [00000000] decides, whatever
    routes to other destinations precede it, and its gateway column, the address
    in little-endian hexadecimal, gives that address back. *)
Lemma gateway_roundtrip header skipped iface line more rest a b c d :
  Forall (λ l, route_line l = None) skipped →
  in_u 8 a → in_u 8 b → in_u 8 c → in_u 8 d →
  split_whitespace line = iface :: "00000000" :: gateway_field a b c d :: more →
  route_lines (drop 1 (header :: skipped ++ line :: rest)) = Some (V4 a b c d).
Proof.
  intros Hsk Ha Hb Hc Hd Hl. simpl.
  induction Hsk as [|l ls Hs _ IH]; simpl; [|by rewrite Hs].
  unfold route_line. rewrite Hl. cbn [String.eqb]. simpl. by rewrite parse_hex_gateway.
Qed.

(** The outbound of a Hysteria2 or TUIC node never has the TLS section that the core
    requires of these types. *)
Lemma quic_outbounds_without_tls `{AdapterLib} n v :
  endpoint_wf (endpoint n) → endpoint_typed (endpoint n) →
  (∃ c, protocol n = Hysteria2 c) ∨ (∃ c, protocol n = Tuic c) →
  compile_outbound n = Ok v → value_get "tls" v = None.
Proof.
  intros Hw Ht Hp E. destruct (compile_outbound_total n Hw Ht) as (m & Em & _ & _ & _ & _ & _ & Htls & _).
  rewrite E in Em. injection Em as ->. simpl. rewrite Htls. by destruct Hp as [[c ->]|[c ->]].
Qed.

(** The host of an XHTTP transport is part of a node's identity but not of its
    outbound: nodes that differ only there compile alike. *)
Lemma xhttp_host_not_compiled m p h1 h2 :
  transport_value (XHttp {| xh_mode := m; xh_path := p; xh_host := h1 |}) =
  transport_value (XHttp {| xh_mode := m; xh_path := p; xh_host := h2 |}).
Proof. reflexivity. Qed.

(** *** Concrete instances *)

#[local] Instance sample_printer : AdapterLib :=
  {| Uuid_to_string _ := "00000000-0000-0000-0000-000000000000"; str_debug s := s |}.

Lemma compile_outbound_total_witness :
  ∃ m, compile_outbound (sample_node 1 "DE") = Ok (JObject m) ∧ map_sorted m ∧
    map_lookup "tag" m = Some (JS "DE") ∧
    map_lookup "server" m = Some (JS "example.com") ∧
    map_lookup "server_port" m = Some (json_uint 443) ∧
    map_lookup "type" m = Some (JS "vless") ∧
    map_lookup "tls" m = None ∧ map_lookup "transport" m = None ∧
    map_lookup "multiplex" m = None.
Proof.
  apply (compile_outbound_total (sample_node 1 "DE")); [|exact I].
  repeat split; try reflexivity; discriminate.
Defined.


Definition route_header : string := "Iface Destination Gateway Flags".
Lemma gateway_roundtrip_witness :
  route_lines (drop 1 (route_header :: ["eth0 0000A8C0 00000000 0001"] ++
    ["eth0 00000000 0100a8c0 0003"])) = Some (V4 192 168 0 1).
Proof.
  apply (gateway_roundtrip route_header ["eth0 0000A8C0 00000000 0001"] "eth0"
    "eth0 00000000 0100a8c0 0003" ["0003"] [] 192 168 0 1);
    [repeat constructor| | | | |reflexivity]; unfold in_u, umax; simpl; lia.
Defined.
