(* ===== verification/Typing.v ===== *)
(** Types from the subscription to the core: the widths and shapes that the Rust
    types of [crates/ir] give a node, that the two parsers respect, and that the JSON
    the adapter writes for it has.

    A value read from an untyped document (a URI query, a VMess or Clash object) is
    typed once it is in a node, and a typed node compiles to a configuration of the
    grammar below: for each section the fields the adapter may write, each with its
    kind of value and its integers within their width, and no others. *)

From S2P Require Import Prelude RustStr Ir Metadata Json Uri Clash Ingest Adapter.

(** ** Addresses that were parsed *)

Lemma to_digit_range radix a d : to_digit radix a = Some d → 0 ≤ d < radix.
Proof.
  unfold to_digit, in_range. intros E. repeat case_match; simplify_eq;
    repeat match goal with E : _ && _ = true |- _ => apply andb_prop in E as [? ?] end; lia.
Qed.

Lemma read_digits_range radix s : Forall (λ d, 0 ≤ d < radix) (Net.read_digits radix s).1.
Proof.
  induction s as [|a s IH]; simpl; [constructor|].
  destruct (to_digit radix a) as [d|] eqn:E; [|constructor].
  destruct (Net.read_digits radix s). constructor; [by eapply to_digit_range|exact IH].
Qed.

Lemma digits_of_nonneg radix ds : 0 ≤ radix → Forall (λ d, 0 ≤ d < radix) ds → 0 ≤ Net.digits_of radix ds.
Proof.
  intros Hr Hd. unfold Net.digits_of.
  assert (∀ acc, 0 ≤ acc → 0 ≤ foldl (λ acc d, acc * radix + d) acc ds) as Hacc; [|by apply Hacc].
  induction Hd as [|d ds Hd _ IH]; intros acc Hacc; simpl; [done|]. apply IH. nia.
Qed.

Lemma read_number_range radix k zeros bound s z r :
  0 ≤ radix → Net.read_number radix k zeros bound s = Some (z, r) → 0 ≤ z ≤ bound.
Proof.
  intros Hr. unfold Net.read_number. pose proof (read_digits_range radix s) as Hd.
  destruct (Net.read_digits radix s) as [ds rest]. repeat case_match; intros; simplify_eq.
  split; [by apply digits_of_nonneg|lia].
Qed.

Lemma read_separator_inv {A} sep i (inner : list ascii → option (A * list ascii)) s r :
  Net.read_separator sep i inner s = Some r → ∃ s', inner s' = Some r.
Proof. unfold Net.read_separator. destruct i; intros E; [by exists s|]. apply bind_Some in E as (s' & _ & E). by exists s'. Qed.

Lemma read_ipv4_range s a b c d r :
  Net.read_ipv4 s = Some ((a, b, c, d), r) → in_u 8 a ∧ in_u 8 b ∧ in_u 8 c ∧ in_u 8 d.
Proof.
  assert (∀ i s z r, Net.read_octet i s = Some (z, r) → in_u 8 z) as Ho.
  { intros i s' z r' E. apply read_separator_inv in E as [s'' E].
    apply read_number_range in E; [|done]. exact E. }
  unfold Net.read_ipv4. intros E.
  repeat (apply bind_Some in E as ([] & ? & E)). simplify_eq. by split_and!; eapply Ho.
Qed.

Lemma read_groups_range todo i s gs v4 r :
  Net.read_groups todo i s = (gs, v4, r) → Forall (in_u 16) gs ∧ (length gs ≤ todo)%nat.
Proof.
  revert i s gs v4 r. induction todo as [|todo IH]; intros i s gs v4 r E; simpl in E; [by simplify_eq|].
  assert (∀ gs v4 r,
    match Net.read_separator ":"%char i (Net.read_number 16 4 true U16_MAX) s with
    | Some (g, s') => let '(gs, v4, r) := Net.read_groups todo (S i) s' in (g :: gs, v4, r)
    | None => ([], false, s)
    end = (gs, v4, r) → Forall (in_u 16) gs ∧ (length gs ≤ S todo)%nat) as Hg.
  { clear E. intros gs' v4' r' E. case_match eqn:Es; [|simplify_eq; simpl; split; [constructor|lia]].
    destruct p as [g s']. apply read_separator_inv in Es as [s'' Es].
    apply read_number_range in Es; [|done]. destruct (Net.read_groups todo (S i) s') as [[gs2 v2] r2] eqn:Er.
    simplify_eq. destruct (IH _ _ _ _ _ Er) as [Hf Hl]. split; [constructor; [exact Es|done]|simpl; lia]. }
  destruct todo as [|todo]; [by eapply Hg|].
  destruct (Net.read_separator ":"%char i Net.read_ipv4 s) as [[[[[a b] c] d] s']|] eqn:Es; [|by eapply Hg].
  apply read_separator_inv in Es as [s'' Es]. apply read_ipv4_range in Es as (? & ? & ? & ?). simplify_eq.
  unfold in_u, umax in *. simpl in *. split; [|lia]. repeat constructor; lia.
Qed.

(** An address that was read is one its type allows. *)
Lemma parse_ip_wf s ip : Net.parse_ip s = Some ip → ip_wf ip.
Proof.
  unfold Net.parse_ip, Net.read_ip_addr. intros E.
  destruct (Net.read_ipv4 (bytes s)) as [[[[[a b] c] d] r]|] eqn:E4.
  { destruct r; simplify_eq. by eapply read_ipv4_range. }
  destruct (Net.read_ipv6 (bytes s)) as [[g r]|] eqn:E6; [|done]. destruct r; simplify_eq.
  unfold Net.read_ipv6 in E6. destruct (Net.read_groups 8 0 (bytes s)) as [[hd v4] s1] eqn:Eh.
  destruct (read_groups_range _ _ _ _ _ _ Eh) as [Hf Hl].
  destruct (length hd =? 8)%nat eqn:E8; [apply Nat.eqb_eq in E8; by simplify_eq|]. apply Nat.eqb_neq in E8.
  destruct v4; [done|]. apply bind_Some in E6 as (s2 & _ & E6). apply bind_Some in E6 as (s3 & _ & E6).
  destruct (Net.read_groups (8 - (length hd + 1)) 0 s3) as [[tl v'] s4] eqn:Et.
  destruct (read_groups_range _ _ _ _ _ _ Et) as [Hf' Hl']. simplify_eq. split.
  - rewrite !length_app, repeat_length. lia.
  - rewrite !Forall_app. split_and!; [done| |done]. apply Forall_forall. intros z Hz.
    apply list_elem_of_In, repeat_spec in Hz. subst. unfold in_u, umax. simpl. lia.
Qed.

(** ** Typed nodes *)

(** The integers of [protocol.rs] and [transport.rs] within their Rust types. *)
Definition protocol_typed (p : ProtocolSpec) : Prop :=
  match p with
  | Vmess c => in_u 16 (vmess_alter_id c)
  | Hysteria2 c => from_option (in_u 32) True (hy_up_mbps c) ∧ from_option (in_u 32) True (hy_down_mbps c)
  | WireGuard c =>
      Forall ip_wf (wg_local_address c) ∧ from_option (in_u 16) True (wg_mtu c) ∧
      from_option (λ '(x, y, z), in_u 8 x ∧ in_u 8 y ∧ in_u 8 z) True (wg_reserved c)
  | _ => True
  end.
Definition transport_typed (t : TransportSpec) : Prop :=
  match t with WebSocket c => in_u 32 (ws_max_early_data c) | _ => True end.
Definition port_typed (e : EndpointTarget) : Prop :=
  match e with EpIp a => in_u 16 (sa_port a) | EpDomain _ p => in_u 16 p end.

Record node_typed (n : CanonicalNode) : Prop := {
  nt_endpoint : endpoint_wf (endpoint n);
  nt_address : endpoint_typed (endpoint n);
  nt_port : port_typed (endpoint n);
  nt_protocol : protocol_typed (protocol n);
  nt_transport : transport_typed (transport n);
  nt_mux : from_option (λ m, in_u 16 (mux_concurrency m)) True (mux n)
}.

(** [Url::port] is an [Option<u16>]. *)
Class UrlLaws `{ParserLib} := {
  url_port_range raw url p : Url_parse raw = Ok url → url_port url = Some p → in_u 16 p
}.

Lemma endpoint_from_host_typed host port ep :
  in_u 16 port → endpoint_from_host host port = Ok ep → endpoint_typed ep ∧ port_typed ep.
Proof.
  intros Hp. unfold endpoint_from_host. case_match; [done|].
  destruct (Net.parse_ip host) as [ip|] eqn:Ei; intros E.
  - simplify_eq. split; [by eapply parse_ip_wf|done].
  - apply map_err_Ok in E. unfold EndpointTarget_domain in E. case_match; [done|]. inv_ok. by subst.
Qed.

Lemma normalize_typed e e' :
  EndpointTarget_normalize e = Ok e' → endpoint_typed e → port_typed e → endpoint_typed e' ∧ port_typed e'.
Proof.
  unfold EndpointTarget_normalize, EndpointTarget_domain. intros E. destruct e; case_match; try done; inv_ok; by subst.
Qed.

Lemma parse_uint_range w s z : parse_uint w s = Some z → in_u w z.
Proof.
  assert (∀ s acc z, 0 ≤ acc → digits_value acc s = Some z → 0 ≤ z) as Hd.
  { clear. induction s as [|a s IH]; intros acc z Hacc E; simpl in E; [by simplify_eq|].
    destruct (to_digit 10 a) as [d|] eqn:Ea; [|done]. apply to_digit_range in Ea.
    eapply IH; [|exact E]. lia. }
  unfold parse_uint. intros E. repeat case_match; simplify_eq; split; try lia;
    match goal with E : digits_value 0 _ = Some _ |- _ => by eapply Hd in E end.
Qed.

Lemma opt_uint_typed w (o : option string) : from_option (in_u w) True (v ← o; parse_uint w v).
Proof. destruct o as [v|]; [|done]. simpl. destruct (parse_uint w v) eqn:E; [by eapply parse_uint_range|done]. Qed.
Lemma opt_try_typed w (o : option Z) : from_option (in_u w) True (o ≫= try_from_u w).
Proof. destruct o as [v|]; [|done]. simpl. destruct (try_from_u w v) eqn:E; [|done]. apply try_from_u_Some in E. naive_solver. Qed.

Section Parsers.
Context `{IdentityHash} `{ParserLib}.

Lemma node_of_typed m e p t s n :
  endpoint_typed e → port_typed e → protocol_typed p → transport_typed t → node_of m e p t s = Ok n →
  node_typed n.
Proof.
  intros He Hp Hpr Ht Hn. unfold node_of in Hn. apply map_err_Ok in Hn.
  pose proof (try_new_node_wf _ _ _ _ _ _ _ Hn) as Hw. apply try_new_fields in Hn as (_ & Ep & Et & _ & Ee & Em).
  destruct (normalize_typed _ _ Ee He Hp). split; rewrite ?Ep, ?Et, ?Em; try done. apply Hw.
Qed.

Lemma parse_transport_typed q t : parse_transport q = Ok t → transport_typed t.
Proof.
  unfold parse_transport. intros E. repeat case_match; simplify_eq; simpl; try done.
  pose proof (opt_uint_typed 32 (query_get q "ed")) as Hu.
  by destruct (query_get q "ed" ≫= _).
Qed.

Lemma parse_vmess_transport_typed w : transport_typed (parse_vmess_transport w).
Proof. unfold parse_vmess_transport. by repeat case_match. Qed.

Context `{!UrlLaws}.

Lemma url_endpoint_typed raw url d ep :
  Url_parse raw = Ok url → in_u 16 d → url_endpoint url d = Ok ep → endpoint_typed ep ∧ port_typed ep.
Proof.
  intros Hu Hd. unfold url_endpoint. intros E. inv_ok.
  eapply endpoint_from_host_typed; [|eassumption].
  destruct (url_port url) eqn:Ep; simplify_eq; [by eapply url_port_range|]. by repeat case_match; simplify_eq.
Qed.

(** Opens a parser body down to its [node_of] call. *)
Ltac open_typed :=
  intros; repeat (inv_ok; simplify_eq; try case_match; try done);
  repeat match goal with
  | Hep : ∀ d ep, url_endpoint ?u d = Ok ep → _, E : url_endpoint ?u _ = Ok _ |- _ =>
      apply Hep in E as [? ?]; [|done]
  | E : endpoint_from_host _ _ = Ok _ |- _ =>
      apply endpoint_from_host_typed in E as [? ?]; [|by eapply parse_u16_range]
  end;
  eapply node_of_typed; [eassumption|eassumption| | |eassumption];
  try done; try (by eapply parse_u16_range); eauto using parse_transport_typed, parse_vmess_transport_typed.

Lemma parse_entry_typed raw sid ts n : parse_entry raw sid ts = Ok n → node_typed n.
Proof.
  unfold parse_entry. intros E. apply result_bind_Ok in E as (url & Hu & E). apply map_err_Ok in Hu.
  assert (∀ d ep, url_endpoint url d = Ok ep → in_u 16 d → endpoint_typed ep ∧ port_typed ep) as Hep
    by (intros; by eapply url_endpoint_typed).
  repeat match type of E with (if ?b then _ else _) = _ => destruct b end; [| | | | | |done]; revert E.
  - unfold parse_vless. open_typed.
  - unfold parse_vmess. open_typed.
  - unfold parse_trojan. open_typed.
  - unfold parse_shadowsocks. open_typed.
  - unfold parse_hysteria2. open_typed. split; apply opt_uint_typed.
  - unfold parse_tuic. open_typed.
Qed.
End Parsers.

Lemma clash_transport_typed `{YamlLib} item t : clash_transport item = Ok t → transport_typed t.
Proof. unfold clash_transport. intros E. by repeat case_match; simplify_eq. Qed.

Lemma clash_endpoint_typed `{YamlLib} item ep : clash_endpoint item = Ok ep → endpoint_typed ep ∧ port_typed ep.
Proof.
  unfold clash_endpoint. intros E. inv_ok. subst.
  eapply endpoint_from_host_typed; [|eassumption]. by eapply u16_at_range.
Qed.

Lemma parse_proxy_typed `{IdentityHash} `{ParserLib} `{YamlLib} item sid ts n :
  parse_proxy item sid ts = Ok n → node_typed n.
Proof.
  unfold parse_proxy. intros E.
  repeat match type of E with (if ?b then _ else _) = _ => destruct b end; try done; revert E.
  all: unfold clash_ss, clash_vmess, clash_trojan, clash_vless, clash_hysteria2, clash_tuic;
    intros; inv_ok; match goal with E : clash_endpoint _ = Ok _ |- _ => apply clash_endpoint_typed in E as [? ?] end;
    (eapply node_of_typed; [eassumption|eassumption| | |eassumption]); try done;
    try (by eapply u16_at_default); eauto using clash_transport_typed.
  split; apply opt_try_typed.
Qed.

(** Every node a subscription yields is typed, whatever the document said. *)
Lemma ingested_typed `{IdentityHash} `{UrlLaws} `{YamlLib} raw sid ts n :
  n ∈ successful_nodes (ingest_with_timestamp raw sid ts) → node_typed n.
Proof. intros [[e E]|[item E]]%ingested_nodes_parsed; [by eapply parse_entry_typed|by eapply parse_proxy_typed]. Qed.

(** ** Types of JSON values *)

Definition jtype := Value → bool.
Definition j_bool : jtype := λ v, match v with JBool _ => true | _ => false end.
Definition j_str : jtype := λ v, match v with JString _ => true | _ => false end.
Definition j_name (names : list string) : jtype := λ v,
  match v with JString s => existsb (String.eqb s) names | _ => false end.
Definition j_uint (w : Z) : jtype := λ v,
  match v with JNumber (PosInt n) => (0 <=? n) && (n <=? umax w) | _ => false end.
Definition j_list (t : jtype) : jtype := λ v, match v with JArray l => forallb t l | _ => false end.
Definition j_null_or (t : jtype) : jtype := λ v, match v with JNull => true | _ => t v end.
Definition j_any (ts : list jtype) : jtype := λ v, existsb (λ t, t v) ts.

(** A field: its key, whether it must be there, its type. *)
Definition field : Type := string * (bool * jtype).
Definition required (k : string) (t : jtype) : field := (k, (true, t)).
Definition optional (k : string) (t : jtype) : field := (k, (false, t)).
Fixpoint field_type (k : string) (fs : list field) : option (bool * jtype) :=
  match fs with
  | [] => None
  | (k', rt) :: fs => if String.eqb k k' then Some rt else field_type k fs
  end.

(** An object with the required fields and no others than the given ones. *)
Definition entry_ok (fs : list field) (kv : string * Value) : bool :=
  match field_type kv.1 fs with Some (_, t) => t kv.2 | None => false end.
Definition has_key (k : string) (m : Map) : bool :=
  match map_lookup k m with Some _ => true | None => false end.
Definition j_rec (fs : list field) : jtype := λ v,
  match v with
  | JObject m => forallb (entry_ok fs) m && forallb (λ f : field, negb f.2.1 || has_key f.1 m) fs
  | _ => false
  end.

(** ** The grammar of a configuration *)

Definition utls_t : jtype := j_rec [
  required "enabled" j_bool;
  required "fingerprint" (j_name ["chrome"; "firefox"; "safari"; "edge"; "randomized"])].
Definition reality_t : jtype := j_rec [
  required "enabled" j_bool; required "public_key" j_str; required "short_id" j_str;
  optional "spider_x" j_str].
Definition tls_fields : list field := [
  required "enabled" j_bool; required "server_name" j_str; optional "insecure" j_bool;
  optional "alpn" (j_list j_str); optional "utls" utls_t; optional "reality" reality_t].
Definition tls_t : jtype := j_rec tls_fields.

Definition transport_t : jtype := j_any [
  j_rec [required "type" (j_name ["ws"]); required "path" j_str;
         optional "headers" (j_rec [required "Host" j_str]);
         required "max_early_data" (j_uint 32);
         required "early_data_header_name" (j_null_or j_str)];
  j_rec [required "type" (j_name ["grpc"]); required "service_name" j_str;
         required "mode" (j_name ["multi"; "gun"])];
  j_rec [required "type" (j_name ["httpupgrade"]); optional "host" j_str; required "path" j_str];
  j_rec [required "type" (j_name ["xhttp"]); required "path" j_str;
         required "mode" (j_name ["stream-one"; "stream-up"; "packet-up"])]].

Definition multiplex_t : jtype := j_rec [
  required "enabled" j_bool; required "protocol" (j_name ["smux"; "yamux"; "h2mux"]);
  required "max_connections" (j_uint 16)].

(** The fields of an outbound of a type: those of all, then its own. *)
Definition common_fields (type : string) : list field := [
  required "type" (j_name [type]); required "tag" j_str; required "server" j_str;
  required "server_port" (j_uint 16); optional "multiplex" multiplex_t].
Definition stream_fields : list field := [optional "tls" tls_t; optional "transport" transport_t].
Definition outbound_fields (p : ProtocolSpec) : list field :=
  match p with
  | Vless _ => [required "uuid" j_str;
      optional "flow" (j_name ["xtls-rprx-vision"; "xtls-rprx-vision-udp443"]);
      required "packet_encoding" (j_name ["xudp"])] ++ stream_fields
  | Vmess _ => [required "uuid" j_str; required "alter_id" (j_uint 16);
      required "security" (j_name ["auto"; "aes-128-gcm"; "chacha20-poly1305"; "none"])] ++ stream_fields
  | Trojan _ => [required "password" j_str] ++ stream_fields
  | Shadowsocks _ => [
      required "method" (j_name ["aes-128-gcm"; "aes-256-gcm"; "chacha20-ietf-poly1305";
        "2022-blake3-aes-128-gcm"; "2022-blake3-aes-256-gcm"; "2022-blake3-chacha20-poly1305"]);
      required "password" j_str; optional "plugin" j_str; optional "plugin_opts" j_str]
  | Hysteria2 _ => [required "password" j_str; optional "up_mbps" (j_uint 32);
      optional "down_mbps" (j_uint 32);
      optional "obfs" (j_rec [required "type" j_str; required "password" j_str]);
      optional "port_hopping" j_str]
  | Tuic _ => [required "uuid" j_str; required "password" j_str;
      required "congestion_control" (j_name ["bbr"; "cubic"; "new_reno"]);
      required "udp_relay_mode" (j_name ["native"; "quic"]); required "zero_rtt_handshake" j_bool]
  | WireGuard _ => [required "private_key" j_str; required "local_address" (j_list j_str);
      required "peers" (j_list (j_rec [required "public_key" j_str; optional "preshared_key" j_str]));
      optional "reserved" (j_list (j_uint 8)); optional "mtu" (j_uint 16)]
  end.
Definition outbound_t (p : ProtocolSpec) : jtype := j_rec (common_fields (type_name p) ++ outbound_fields p).

Definition dns_server_t : jtype := j_any [
  j_rec [required "type" (j_name ["https"]); required "tag" j_str; required "server" j_str;
         required "detour" j_str];
  j_rec [required "type" (j_name ["udp"]); required "tag" j_str; required "server" j_str;
         required "server_port" (j_uint 16); required "detour" j_str]].
Definition dns_t : jtype := j_rec [
  required "servers" (j_list dns_server_t);
  required "rules" (j_list (j_rec [optional "outbound" (j_list j_str); required "server" j_str]));
  required "strategy" (j_name ["ipv4_only"]); required "independent_cache" j_bool].
Definition route_t : jtype := j_rec [
  required "auto_detect_interface" j_bool; required "default_mark" (j_uint 32);
  required "rules" (j_list (j_any [
    j_rec [required "action" (j_name ["sniff"]); required "override_destination" j_bool];
    j_rec [required "action" (j_name ["route"]); required "outbound" j_str]]))].
Definition inbound_t : jtype := j_rec [
  required "type" (j_name ["tproxy"]); required "tag" j_str; required "listen" j_str;
  required "listen_port" (j_uint 16)].
Definition direct_t : jtype := j_rec [required "type" (j_name ["direct"]); required "tag" j_str].

(** The configuration of a node of this protocol. *)
Definition config_t (p : ProtocolSpec) : jtype := j_rec [
  required "log" (j_rec [required "level" (j_name ["info"]); required "timestamp" j_bool]);
  required "inbounds" (j_list inbound_t);
  required "outbounds" (j_list (j_any [direct_t; outbound_t p]));
  required "route" route_t; required "dns" dns_t].

(** ** Building typed values *)

Lemma j_uint_ok w n : in_u w n → j_uint w (json_uint n) = true.
Proof. unfold in_u. intros Hn. simpl. apply andb_true_intro. lia. Qed.

Lemma j_list_map {A} (t : jtype) (f : A → Value) l : (∀ x, t (f x) = true) → j_list t (JArray (map f l)) = true.
Proof. intros Hf. simpl. induction l as [|x l IH]; simpl; [done|]. by rewrite Hf, IH. Qed.

Definition fields_ok (fs : list field) (m : Map) : Prop := forallb (entry_ok fs) m = true.

Lemma fields_ok_nil fs : fields_ok fs [].
Proof. reflexivity. Qed.
Lemma fields_ok_insert fs k v m :
  fields_ok fs m → entry_ok fs (k, v) = true → fields_ok fs (map_insert k v m).
Proof.
  unfold fields_ok. intros Hm Hv. induction m as [|[k' v'] m IH]; simpl in *; [by rewrite Hv|].
  apply andb_prop in Hm as [Hv' Hm]. destruct (String.compare k k'); simpl; by rewrite ?Hv, ?Hv', ?Hm, ?IH.
Qed.
Lemma fields_ok_insert_opt fs k v m :
  fields_ok fs m → (∀ x, v = Some x → entry_ok fs (k, x) = true) → fields_ok fs (map_insert_opt k v m).
Proof. destruct v; simpl; [|done]. intros Hm Hv. by apply fields_ok_insert, Hv. Qed.

Lemma has_key_here k v m : has_key k (map_insert k v m) = true.
Proof. unfold has_key. by rewrite map_lookup_insert. Qed.
Lemma has_key_there k k' v m : has_key k m = true → has_key k (map_insert k' v m) = true.
Proof. unfold has_key. rewrite map_lookup_insert_if. by destruct (String.eqb k k'). Qed.
Lemma has_key_opt k k' v m : has_key k m = true → has_key k (map_insert_opt k' v m) = true.
Proof. destruct v; [apply has_key_there|done]. Qed.

Create HintDb json_keys.
#[export] Hint Resolve has_key_here has_key_there has_key_opt : json_keys.

Lemma j_rec_intro fs m :
  fields_ok fs m → Forall (λ f : field, f.2.1 = true → has_key f.1 m = true) fs → j_rec fs (JObject m) = true.
Proof.
  intros Hm Hf. simpl. unfold fields_ok in Hm. rewrite Hm. simpl. apply forallb_forall. intros f Hin.
  rewrite Forall_forall in Hf. specialize (Hf f (proj2 (list_elem_of_In _ _) Hin)). destruct f.2.1; [by apply Hf|done].
Qed.

(** Objects written out: the fields in any order, none missing. *)
Lemma literal_has_key k (entries : list (string * Value)) :
  existsb (λ kv : string * Value, String.eqb k kv.1) entries = true →
  has_key k (foldl (λ m '(k, v), map_insert k v m) [] entries) = true.
Proof.
  induction entries as [|[k' v] entries IH] using rev_ind; [done|].
  rewrite existsb_app, foldl_app. simpl. destruct (String.eqb_spec k k') as [->|]; simpl.
  - intros _. apply has_key_here.
  - rewrite orb_false_r. intros E. by apply has_key_there, IH.
Qed.
Lemma literal_ok fs entries :
  forallb (entry_ok fs) entries = true →
  forallb (λ f : field, negb f.2.1 || existsb (λ kv : string * Value, String.eqb f.1 kv.1) entries) fs = true →
  j_rec fs (json_object entries) = true.
Proof.
  intros He Hf. apply j_rec_intro.
  - clear Hf. induction entries as [|[k v] entries IH] using rev_ind; [done|].
    rewrite forallb_app in He. apply andb_prop in He as [He Hv]. rewrite foldl_app. simpl in *.
    rewrite andb_true_r in Hv. by apply fields_ok_insert; [apply IH|].
  - apply Forall_forall. intros f Hin Hr. apply literal_has_key. rewrite forallb_forall in Hf.
    apply list_elem_of_In, Hf in Hin. by rewrite Hr in Hin.
Qed.

(** Goes through a chain of insertions, leaving the values to check. *)
Ltac check_fields :=
  repeat first [apply fields_ok_insert_opt|apply fields_ok_insert|apply fields_ok_nil];
  cbn [entry_ok field_type fst snd String.eqb Ascii.eqb Bool.eqb app].
Ltac opt_field :=
  intros ?; match goal with |- fmap _ ?o = Some _ → _ => destruct o; [intros [= <-]|done] end.
Ltac check_keys :=
  repeat first [apply Forall_nil_2|apply Forall_cons_2]; cbn [fst snd required optional]; intros; try done;
  auto 30 with json_keys.

(** ** The adapter's sections *)

Lemma mux_value_typed m v :
  from_option (λ m, in_u 16 (mux_concurrency m)) True m → mux_value m = Some v → multiplex_t v = true.
Proof.
  destruct m as [m|]; [|done]. intros Hm [= <-]. apply literal_ok; [|reflexivity].
  unfold entry_ok. cbn -[j_uint json_uint]. rewrite (j_uint_ok 16 _ Hm). by destruct (mux_protocol m).
Qed.

Lemma transport_value_typed t v : transport_typed t → transport_value t = Some v → transport_t v = true.
Proof.
  intros Ht E. destruct t as [|c|c|c|c]; cbn [transport_value] in E; simplify_eq; unfold transport_t, j_any, existsb.
  - apply orb_true_intro. left. pose proof (j_uint_ok 32 _ Ht) as Hu.
    destruct (ws_host c) as [h|];
      [change (map_insert "Host" (JS h) []) with [("Host", JS h)]; cbv iota|];
      (apply j_rec_intro; [check_fields|check_keys]); try done; by destruct (ws_early_data_header c).
  - by destruct (grpc_multi_mode c).
  - by destruct (hu_host c).
  - by destruct (xh_mode c).
Qed.

Lemma utls_typed f tls : fields_ok tls_fields tls → fields_ok tls_fields (embed_utls f tls).
Proof.
  unfold embed_utls. intros Hf. destruct f; cbn [fingerprint_name]; try done; by apply fields_ok_insert.
Qed.
Lemma has_key_utls k f tls : has_key k tls = true → has_key k (embed_utls f tls) = true.
Proof. unfold embed_utls. destruct (fingerprint_name f); [apply has_key_there|done]. Qed.

#[export] Hint Resolve has_key_utls : json_keys.

Lemma security_value_typed s v : security_value s = Some v → tls_t v = true.
Proof.
  intros E. destruct s as [|c|c]; cbn [security_value] in E; simplify_eq; apply j_rec_intro.
  - apply utls_typed. destruct (tls_alpn c) as [|a l]; check_fields; try done. by apply (j_list_map j_str JS (a :: l)).
  - destruct (tls_alpn c); check_keys.
  - apply fields_ok_insert; [apply utls_typed; by check_fields|].
    unfold entry_ok. cbn [fst snd]. change (reality_t ?v) with (reality_t v). apply j_rec_intro; [check_fields|check_keys]; try done.
    by opt_field.
  - check_keys.
Qed.

(** A field of an object that is inserted as it is. *)
Definition takes (fs : list field) (k : string) (t : jtype) : Prop := ∃ r, field_type k fs = Some (r, t).
Lemma takes_entry fs k t v : takes fs k t → t v = true → entry_ok fs (k, v) = true.
Proof. intros [r E] Hv. unfold entry_ok. cbn [fst snd]. by rewrite E. Qed.

Lemma embed_mux_typed fs m b :
  takes fs "multiplex" multiplex_t → from_option (λ m, in_u 16 (mux_concurrency m)) True m →
  fields_ok fs b → fields_ok fs (embed_mux m b).
Proof.
  intros Ht Hm Hb. rewrite embed_mux_opt. apply fields_ok_insert_opt; [done|]. intros v Hv.
  eapply takes_entry; [done|]. by eapply mux_value_typed.
Qed.

Lemma embed_stream_typed fs n b :
  node_typed n → takes fs "multiplex" multiplex_t → takes fs "tls" tls_t → takes fs "transport" transport_t →
  fields_ok fs b → fields_ok fs (embed_stream n b).
Proof.
  intros [_ _ _ _ Ht Hm] H1 H2 H3 Hb. unfold embed_stream, embed_security, embed_transport.
  apply embed_mux_typed; [done|done|]. repeat apply fields_ok_insert_opt; [done|..]; intros v Hv.
  - eapply takes_entry; [done|]. by eapply transport_value_typed.
  - eapply takes_entry; [done|]. by eapply security_value_typed.
Qed.

Lemma has_key_mux k m b : has_key k b = true → has_key k (embed_mux m b) = true.
Proof. rewrite embed_mux_opt. apply has_key_opt. Qed.
Lemma has_key_stream k n b : has_key k b = true → has_key k (embed_stream n b) = true.
Proof. intros Hk. unfold embed_stream. by apply has_key_mux, has_key_opt, has_key_opt. Qed.
#[export] Hint Resolve has_key_mux has_key_stream : json_keys.

Lemma opt_uint_field w (o : option Z) x :
  from_option (in_u w) True o → json_uint <$> o = Some x → j_uint w x = true.
Proof. destruct o; [|done]. intros Hu [= <-]. by apply j_uint_ok. Qed.

Section Outbound.
Context `{AdapterLib}.

Lemma embed_protocol_typed n b :
  let fs := common_fields (type_name (protocol n)) ++ outbound_fields (protocol n) in
  node_typed n → fields_ok fs b → fields_ok fs (embed_protocol n b).
Proof.
  intros fs Hn Hb. pose proof (nt_protocol n Hn) as Hp. revert fs Hb Hp. unfold embed_protocol.
  destruct (protocol n) as [c|c|c|c|c|c|c]; cbv zeta;
    cbn [type_name protocol_typed common_fields outbound_fields stream_fields app]; intros Hb Hp.
  1-3: apply embed_stream_typed; [done|by eexists..|].
  1-7: try (destruct (ss_plugin c)); repeat first [apply fields_ok_insert_opt|apply fields_ok_insert]; try done.
  all: cbn -[j_uint json_uint]; try by opt_field.
  - intros x. destruct (vless_flow c) as [[]|]; [intros [= <-]..|]; done.
  - by apply j_uint_ok.
  - by destruct (vmess_cipher c).
  - by destruct (ss_method c).
  - by destruct (ss_method c).
  - intros x. apply opt_uint_field, Hp.
  - intros x. apply opt_uint_field, Hp.
  - by destruct (tuic_congestion_control c).
  - by destruct (tuic_udp_relay_mode c).
  - by apply (j_list_map j_str).
  - by destruct (wg_preshared_key c).
  - destruct Hp as (_ & _ & Hr). intros x. destruct (wg_reserved c) as [[[y z] u]|]; [|done].
    intros [= <-]. destruct Hr as (Hy & Hz & Hu). cbn -[j_uint json_uint]. by rewrite !j_uint_ok.
  - intros x. apply opt_uint_field, Hp.
Qed.

Lemma embed_protocol_keys n k b : has_key k b = true → has_key k (embed_protocol n b) = true.
Proof. intros Hk. unfold embed_protocol. destruct (protocol n) as [c|c|c|c|c|c|c]; try destruct (ss_plugin c); auto 30 with json_keys. Qed.

Lemma embed_protocol_required n b :
  Forall (λ f : field, f.2.1 = true → has_key f.1 (embed_protocol n b) = true)
    (required "type" j_str :: outbound_fields (protocol n)).
Proof.
  unfold embed_protocol. destruct (protocol n) as [c|c|c|c|c|c|c]; cbn [outbound_fields stream_fields app];
    try destruct (ss_plugin c); check_keys.
Qed.

(** The outbound of a typed node is an outbound of its protocol. *)
Lemma compile_outbound_typed n :
  node_typed n → ∃ v, compile_outbound n = Ok v ∧ outbound_t (protocol n) v = true ∧
    value_get "tag" v = Some (JS (label (meta n))).
Proof.
  intros Hn. pose proof (endpoint_server_valid _ (nt_endpoint n Hn) (nt_address n Hn)) as Hv.
  pose proof (nt_port n Hn) as Hport. unfold compile_outbound.
  assert (in_u 16 (endpoint_server (endpoint n)).2) as Hu by (by destruct (endpoint n)).
  destruct (endpoint_server (endpoint n)) as [server port]. simpl in Hv, Hu.
  unfold builder_server. rewrite Hv. simpl. eexists. split; [done|]. split.
  - apply j_rec_intro.
    + apply embed_protocol_typed; [done|]. unfold builder_new.
      repeat apply fields_ok_insert; try done; [|by apply j_uint_ok].
      apply embed_mux_typed; [by eexists|apply Hn|]. by apply fields_ok_insert.
    + pose proof (embed_protocol_required n) as Hr.
      apply Forall_app. split; [|by apply (Forall_inv_tail (Hr _))].
      apply Forall_cons_2; [by apply (Forall_inv (Hr _))|].
      check_keys; apply embed_protocol_keys; unfold builder_new; auto 30 with json_keys.
  - simpl. rewrite (proj1 (proj2 (embed_protocol_lookup n _))) by set_solver. by lookup_chain.
Qed.

End Outbound.

(** ** The configuration *)

Lemma compile_tproxy_inbound_typed listen port :
  in_u 16 port → inbound_t (compile_tproxy_inbound listen port) = true.
Proof. intros Hp. apply literal_ok; [|reflexivity]. unfold entry_ok. cbn -[j_uint json_uint]. by rewrite j_uint_ok. Qed.

Lemma compile_routing_typed tag mark auto : in_u 32 mark → route_t (compile_routing tag mark auto) = true.
Proof. intros Hm. apply literal_ok; [|reflexivity]. unfold entry_ok. cbn -[j_uint json_uint]. by rewrite j_uint_ok. Qed.

Definition local_typed (l : option LocalDns) : Prop := from_option (λ l, in_u 16 (ld_port l)) True l.

Lemma compile_dns_typed tag provider l : local_typed l → dns_t (compile_dns tag provider l) = true.
Proof.
  intros Hl. unfold compile_dns. set (tunnel := json_object [("type", JS "https"); _; _; _]).
  assert (dns_server_t tunnel = true) as Ht.
  { unfold dns_server_t, j_any, existsb. apply orb_true_intro. left. by apply literal_ok. }
  destruct l as [l|].
  - set (direct := json_object [("type", JS "udp"); _; _; _; _]).
    assert (dns_server_t direct = true) as Hd.
    { unfold dns_server_t, j_any, existsb. apply orb_true_intro. right. apply orb_true_intro. left.
      apply literal_ok; [|reflexivity]. unfold entry_ok. cbn -[j_uint json_uint]. by rewrite (j_uint_ok 16 _ Hl). }
    clearbody tunnel direct. apply literal_ok; [|reflexivity]. unfold entry_ok. cbn -[dns_server_t].
    by rewrite Ht, Hd.
  - clearbody tunnel. apply literal_ok; [|reflexivity]. unfold entry_ok. cbn -[dns_server_t]. by rewrite Ht.
Qed.

Lemma compile_full_config_typed `{AdapterLib} n port mark provider local :
  node_typed n → in_u 16 port → in_u 32 mark → local_typed local →
  ∃ cfg, compile_full_config n port mark provider local = Ok cfg ∧ config_t (protocol n) cfg = true.
Proof.
  intros Hn Hp Hm Hl. destruct (compile_outbound_typed n Hn) as (v & Ev & Hv & Et).
  unfold compile_full_config. rewrite Ev. simpl. rewrite Et. eexists. split; [done|].
  apply literal_ok; [|reflexivity]. simpl. unfold entry_ok.
  cbn -[j_uint json_uint compile_dns dns_t compile_routing route_t outbound_t compile_tproxy_inbound inbound_t].
  rewrite Hv, compile_tproxy_inbound_typed, compile_routing_typed, compile_dns_typed by done.
  by rewrite !orb_true_r.
Qed.

(** C23. Types are sound from the subscription to the core.  Whatever a subscription
    says, each node an ingestion reports has a canonical endpoint of an address and a
    port its types allow, and integers within the widths of their fields; and under
    settings within theirs its full configuration compiles, to a document of the
    grammar: every required field, no unknown one, every value of its kind. *)
Theorem ingested_configs_typed `{IdentityHash} `{UrlLaws} `{YamlLib} `{AdapterLib}
    raw sid ts n port mark provider local :
  n ∈ successful_nodes (ingest_with_timestamp raw sid ts) →
  in_u 16 port → in_u 32 mark → local_typed local →
  node_typed n ∧
  ∃ cfg, compile_full_config n port mark provider local = Ok cfg ∧ config_t (protocol n) cfg = true.
Proof. intros Hn%ingested_typed Hp Hm Hl. split; [done|]. by apply compile_full_config_typed. Qed.

(** ** Witness *)

#[local] Existing Instances sample_hash sample_lib sample_yaml_lib Adapter.sample_printer.
#[local] Instance sample_url_laws : UrlLaws.
Proof. split. intros raw url p E Hp. cbn in E. case_match; [|done]. injection E as <-. discriminate Hp. Qed.

Lemma ingested_configs_typed_witness :
  (∃ cfg, compile_full_config sample_parsed 12345 1 Cloudflare (Some {| ld_ipv4 := V4 10 0 0 1; ld_port := 53 |}) = Ok cfg ∧
          config_t (protocol sample_parsed) cfg = true) ∧
  config_t (protocol sample_parsed) (JObject []) = false.
Proof.
  split; [|reflexivity].
  refine (proj2 (ingested_configs_typed sample_link 7 10 sample_parsed 12345 1 Cloudflare
    (Some {| ld_ipv4 := V4 10 0 0 1; ld_port := 53 |}) _ _ _ _)).
  - assert (successful_nodes (ingest_with_timestamp sample_link 7 10) = [sample_parsed]) as ->
      by (vm_compute; reflexivity). by left.
  - split; vm_compute; discriminate.
  - split; vm_compute; discriminate.
  - split; vm_compute; discriminate.
Defined.
