(* ===== verification/Repository.v ===== *)
(** The subscription database: the schema of [crates/storage/src/db.rs], the
    transactions of [repository.rs] and [subscription_service.rs].

    A table with an integer primary key is a finite map, a table of pairs a
    finite set; a statement is the function its SQL denotes, and a transaction
    that fails leaves the database as it was.  Which unused row id SQLite gives a
    new node is its own choice: [Sqlite] has the function and [SqliteLaws] its
    documented property.  [bincode] on whole nodes is the class [NodeCodec]. *)

From S2P Require Import Prelude RustStr Ir Metadata Uri Clash Ingest.
From Stdlib Require Import SpecFloat.

(** ** Schema *)

Record SubscriptionRow := {
  sr_uuid : string; sr_name : string; sr_url : string;
  sr_last_updated : Z; sr_auto_update_interval : Z; sr_etag : option string
}.
#[export] Instance SubscriptionRow_eq_dec : EqDecision SubscriptionRow.
Proof. solve_decision. Defined.

Record NodeRow := {
  nr_hash : string; nr_name : string; nr_country : string; nr_kind : Z; nr_payload : string
}.

Record DiagRow := {
  dr_last_tested : Z; dr_latency_ms : Z; dr_jitter_ms : Z; dr_packet_loss : spec_float;
  dr_health_score : Z; dr_is_operational : bool
}.
(** The column defaults. *)
Definition DiagRow_default : DiagRow :=
  {| dr_last_tested := 0; dr_latency_ms := 65535; dr_jitter_ms := 0;
     dr_packet_loss := S754_zero false; dr_health_score := 0; dr_is_operational := false |}.

Record Db := {
  subscriptions : gmap Z SubscriptionRow;
  nodes : gmap Z NodeRow;
  node_sources : gset (Z * Z);
  node_diagnostics : gmap Z DiagRow
}.
Definition Db_empty : Db :=
  {| subscriptions := ∅; nodes := ∅; node_sources := ∅; node_diagnostics := ∅ |}.

Class Sqlite := { next_rowid : gset Z → option Z }.
Class SqliteLaws `{Sqlite} := {
  next_rowid_fresh used i : next_rowid used = Some i → i ∉ used
}.

Class NodeCodec := {
  serialize_node : CanonicalNode → result Error string;
  deserialize_node : string → result Error CanonicalNode
}.

(** ** soa_store.rs: protocol kinds *)

Inductive ProtocolKind := KVless | KVmess | KTrojan | KShadowsocks | KHysteria2 | KTuic | KWireGuard.
#[export] Instance ProtocolKind_eq_dec : EqDecision ProtocolKind.
Proof. solve_decision. Defined.

Definition kind_label (k : ProtocolKind) : string :=
  match k with
  | KVless => "VLESS" | KVmess => "VMess" | KTrojan => "Trojan" | KShadowsocks => "SS"
  | KHysteria2 => "HY2" | KTuic => "TUIC" | KWireGuard => "WireGuard"
  end.
Definition discriminant (k : ProtocolKind) : Z :=
  match k with
  | KVless => 0 | KVmess => 1 | KTrojan => 2 | KShadowsocks => 3
  | KHysteria2 => 4 | KTuic => 5 | KWireGuard => 6
  end.
Definition from_discriminant (z : Z) : option ProtocolKind :=
  match z with
  | 0 => Some KVless | 1 => Some KVmess | 2 => Some KTrojan | 3 => Some KShadowsocks
  | 4 => Some KHysteria2 | 5 => Some KTuic | 6 => Some KWireGuard
  | _ => None
  end.
Definition kind_of (p : ProtocolSpec) : ProtocolKind :=
  match p with
  | Vless _ => KVless | Vmess _ => KVmess | Trojan _ => KTrojan | Shadowsocks _ => KShadowsocks
  | Hysteria2 _ => KHysteria2 | Tuic _ => KTuic | WireGuard _ => KWireGuard
  end.

(** ** Statements *)

Record SubscriptionRecord := { rec_id : Z; rec_row : SubscriptionRow }.

Definition with_nodes (db : Db) (ns : gmap Z NodeRow) : Db :=
  {| subscriptions := subscriptions db; nodes := ns; node_sources := node_sources db;
     node_diagnostics := node_diagnostics db |}.
Definition with_sources (db : Db) (s : gset (Z * Z)) : Db :=
  {| subscriptions := subscriptions db; nodes := nodes db; node_sources := s;
     node_diagnostics := node_diagnostics db |}.
Definition with_diagnostics (db : Db) (d : gmap Z DiagRow) : Db :=
  {| subscriptions := subscriptions db; nodes := nodes db; node_sources := node_sources db;
     node_diagnostics := d |}.
Definition with_subscriptions (db : Db) (s : gmap Z SubscriptionRow) : Db :=
  {| subscriptions := s; nodes := nodes db; node_sources := node_sources db;
     node_diagnostics := node_diagnostics db |}.

(** [INSERT INTO subscriptions ... ON CONFLICT(id) DO UPDATE]: another row with
    the same [uuid] violates its uniqueness. *)
Definition uuid_taken (db : Db) (r : SubscriptionRecord) : bool :=
  existsb (λ '(i, row), negb (i =? rec_id r) && String.eqb (sr_uuid row) (sr_uuid (rec_row r)))
    (map_to_list (subscriptions db)).
Definition I64_MAX : Z := 2 ^ 63 - 1.
(** A [u64] is bound as the [i64] of an SQL integer, if it is one. *)
Definition binds (r : SubscriptionRecord) : bool :=
  (sr_last_updated (rec_row r) <=? I64_MAX) && (sr_auto_update_interval (rec_row r) <=? I64_MAX).
Definition upsert_subscription_tx (db : Db) (r : SubscriptionRecord) : result Error Db :=
  if negb (binds r) then bail "out of range integral type conversion attempted"
  else if uuid_taken db r then bail "UNIQUE constraint failed: subscriptions.uuid"
  else Ok (with_subscriptions db (<[rec_id r := rec_row r]> (subscriptions db))).

(** [SELECT id FROM nodes WHERE hash = ?1]. *)
Definition find_node (h : string) (ns : gmap Z NodeRow) : option Z :=
  fst <$> head (List.filter (λ '(_, row), String.eqb (nr_hash row) h) (map_to_list ns)).

(** SQL's [length] of a text: its characters before the first NUL. *)
Definition sql_length (s : string) : nat :=
  length (chars (of_bytes (match take_until zero (bytes s) with Some l => l | None => bytes s end))).

(** [DELETE FROM node_sources WHERE sub_id = ?1]. *)
Definition unlink (sub : Z) (db : Db) : Db :=
  with_sources db (filter (λ p : Z * Z, p.2 ≠ sub) (node_sources db)).
(** [INSERT OR IGNORE INTO node_sources] for every id. *)
Definition link (sub : Z) (ids : list Z) (db : Db) : Db :=
  with_sources db (list_to_set (map (λ i, (i, sub)) ids) ∪ node_sources db).
(** [DELETE FROM nodes WHERE NOT EXISTS ...], with the cascade to the diagnostics. *)
Definition has_source_row (db : Db) (i : Z) : Prop := i ∈ set_map (D:=gset Z) fst (node_sources db).
#[export] Instance has_source_row_dec db i : Decision (has_source_row db i).
Proof. unfold has_source_row. apply _. Defined.
Definition remove_orphans (db : Db) : Db * Z :=
  let kept := filter (λ kv : Z * NodeRow, has_source_row db kv.1) (nodes db) in
  (with_diagnostics (with_nodes db kept)
     (filter (λ kv : Z * DiagRow, is_Some (kept !! kv.1)) (node_diagnostics db)),
   Z.of_nat (size (nodes db)) - Z.of_nat (size kept)).

Record SyncResult := { inserted_nodes : Z; linked_nodes : Z; removed_orphans : Z }.

Section Repository.
Context `{IdentityHash} `{Sqlite} `{NodeCodec}.

(** [INSERT INTO nodes ... ON CONFLICT(hash) DO NOTHING]: the table and whether a
    row was inserted. *)
Definition insert_node (row : NodeRow) (ns : gmap Z NodeRow) : result Error (gmap Z NodeRow * bool) :=
  if negb (String.length (nr_hash row) =? 32)%nat
  then bail "CHECK constraint failed: length(hash) = 32"
  else if negb (sql_length (nr_country row) =? 2)%nat
  then bail "CHECK constraint failed: length(country_code) = 2"
  else match find_node (nr_hash row) ns with
       | Some _ => Ok (ns, false)
       | None => i ← ok_or (next_rowid (dom ns)) ["database or disk is full"]%stdpp;
                 Ok (<[i := row]> ns, true)
       end.

(** [INSERT OR IGNORE INTO node_diagnostics (node_id)]. *)
Definition insert_diagnostics (i : Z) (d : gmap Z DiagRow) : gmap Z DiagRow :=
  match d !! i with Some _ => d | None => <[i := DiagRow_default]> d end.

Definition node_row (n : CanonicalNode) (payload : string) : NodeRow :=
  {| nr_hash := hash n; nr_name := label (meta n);
     nr_country := match from_utf8 (country_code (meta n)) with Ok s => s | Err _ => "UN" end;
     nr_kind := discriminant (kind_of (protocol n)); nr_payload := payload |}.

(** One node of [ensure_nodes]: the database, whether it is new, and its id. *)
Definition ensure_node (db : Db) (n : CanonicalNode) : result Error (Db * bool * Z) :=
  payload ← serialize_node n;
  '(ns, inserted) ← insert_node (node_row n payload) (nodes db);
  i ← ok_or (find_node (hash n) ns) ["Query returned no rows"]%stdpp;
  let db := with_diagnostics (with_nodes db ns) (insert_diagnostics i (node_diagnostics db)) in
  Ok (db, inserted, i).

Fixpoint ensure_nodes (db : Db) (seen : gset string) (l : list CanonicalNode)
  : result Error (Db * Z * list Z) :=
  match l with
  | [] => Ok (db, 0, [])
  | n :: l =>
    if bool_decide (hash n ∈ seen) then ensure_nodes db seen l
    else
      '(db, inserted, i) ← ensure_node db n;
      '(db, count, ids) ← ensure_nodes db ({[ hash n ]} ∪ seen) l;
      Ok (db, Z.b2z inserted + count, i :: ids)
  end.

(** The body of the transaction. *)
Definition sync_tx (db : Db) (r : SubscriptionRecord) (report : IngestionReport)
  : result Error (Db * SyncResult) :=
  db ← upsert_subscription_tx db r;
  '(db, inserted, ids) ← ensure_nodes db ∅ (successful_nodes report);
  let db := link (rec_id r) ids (unlink (rec_id r) db) in
  let '(db, removed) := remove_orphans db in
  Ok (db, {| inserted_nodes := inserted; linked_nodes := Z.of_nat (length ids);
             removed_orphans := removed |}).

(** The result and the database after it: the transaction is dropped on an error. *)
Definition sync_subscription (db : Db) (r : SubscriptionRecord) (report : IngestionReport)
    (allow_empty : bool) : result Error SyncResult * Db :=
  if bool_decide (successful_nodes report = []) && negb allow_empty
  then (bail "refusing to replace subscription with an empty or entirely invalid snapshot", db)
  else match sync_tx db r report with
       | Ok (db', res) => (Ok res, db')
       | Err e => (Err e, db)
       end.

Definition upsert_subscription (db : Db) (r : SubscriptionRecord) : result Error () * Db :=
  match upsert_subscription_tx db r with
  | Ok db' => (Ok (), db')
  | Err e => (Err e, db)
  end.

(** [bulk_insert_nodes], inside a transaction of the caller's. *)
Fixpoint bulk_insert_nodes (db : Db) (sub : Z) (l : list CanonicalNode) : result Error (Db * Z) :=
  match l with
  | [] => Ok (db, 0)
  | n :: l =>
    '(db, inserted, i) ← ensure_node db n;
    if negb (bool_decide (is_Some (subscriptions db !! sub)))
    then bail "FOREIGN KEY constraint failed"
    else
      '(db, count) ← bulk_insert_nodes (link sub [i] db) sub l;
      Ok (db, Z.b2z inserted + count)
  end.

(** [load_all_hashes]. *)
Definition load_all_hashes (db : Db) : result Error (gset string) :=
  foldr (λ '(_, row) acc,
      hs ← acc;
      if (String.length (nr_hash row) =? 32)%nat then Ok ({[ nr_hash row ]} ∪ hs)
      else bail ("database contains hash with " +:+ show_Z (str_len (nr_hash row)) +:+ " bytes"))
    (Ok ∅) (map_to_list (nodes db)).

Definition node_hash (n : CanonicalNode) : result Error string :=
  identity ← functional_identity_bytes n; Ok (sha256_digest identity).

Definition decode_node_payload (bs : string) : result Error CanonicalNode :=
  n ← deserialize_node bs;
  h ← node_hash n;
  if negb (String.eqb (hash n) h) then bail "stored node hash does not match its payload" else Ok n.

(** ** subscription_service.rs *)

Record SubscriptionRefresh := { rf_report : IngestionReport; rf_sync : SyncResult }.

Definition refresh `{ParserLib} `{YamlLib} (db : Db) (r : SubscriptionRecord) (raw : string)
    (allow_empty : bool) : result Error SubscriptionRefresh * Db :=
  let report := ingest_with_timestamp raw (rec_id r) (sr_last_updated (rec_row r)) in
  let '(res, db) := sync_subscription db r report allow_empty in
  ((λ s, {| rf_report := report; rf_sync := s |}) <$> res, db).
End Repository.

(** ** Invariant *)

(** The constraints of the schema. *)
Record db_wf (db : Db) : Prop := {
  wf_hash_unique i j r r' :
    nodes db !! i = Some r → nodes db !! j = Some r' → nr_hash r = nr_hash r' → i = j;
  wf_rows i r :
    nodes db !! i = Some r → String.length (nr_hash r) = 32%nat ∧ sql_length (nr_country r) = 2%nat;
  wf_sources i s :
    (i, s) ∈ node_sources db → is_Some (nodes db !! i) ∧ is_Some (subscriptions db !! s);
  wf_diagnostics i : is_Some (node_diagnostics db !! i) → is_Some (nodes db !! i);
  wf_uuid i j r r' :
    subscriptions db !! i = Some r → subscriptions db !! j = Some r' →
    sr_uuid r = sr_uuid r' → i = j
}.

(** Every node belongs to a subscription. *)
Definition no_orphans (db : Db) : Prop :=
  ∀ i, is_Some (nodes db !! i) → ∃ s, (i, s) ∈ node_sources db.

Lemma Db_empty_wf : db_wf Db_empty ∧ no_orphans Db_empty.
Proof.
  split; [split; simpl|intros i [r Hr]; simpl in Hr; by rewrite lookup_empty in Hr].
  - intros i j r r' Hr. by rewrite lookup_empty in Hr.
  - intros i r Hr. by rewrite lookup_empty in Hr.
  - set_solver.
  - intros i [? Hi]. by rewrite lookup_empty in Hi.
  - intros i j r r' Hr. by rewrite lookup_empty in Hr.
Qed.

(** ** Lemmas *)

Lemma find_node_Some h ns i :
  find_node h ns = Some i → ∃ r, ns !! i = Some r ∧ nr_hash r = h.
Proof.
  unfold find_node. destruct (List.filter _ _) as [|[j r] l] eqn:E; [done|]. intros [= <-].
  assert (In (j, r) (List.filter (λ '(_, row), String.eqb (nr_hash row) h) (map_to_list ns)))
    as Hin by (rewrite E; by left).
  apply filter_In in Hin as [Hin Heq]. apply list_elem_of_In, elem_of_map_to_list in Hin.
  apply String.eqb_eq in Heq. eauto.
Qed.

Lemma find_node_None h ns i r : find_node h ns = None → ns !! i = Some r → nr_hash r ≠ h.
Proof.
  unfold find_node. destruct (List.filter _ _) as [|x l] eqn:E; [|done]. intros _ Hi Hh.
  assert (In (i, r) (List.filter (λ '(_, row), String.eqb (nr_hash row) h) (map_to_list ns))) as Hin.
  { apply filter_In. split; [by apply list_elem_of_In, elem_of_map_to_list|].
    by apply String.eqb_eq. }
  by rewrite E in Hin.
Qed.

Lemma find_node_unique h ns i r :
  (∀ i j r r', ns !! i = Some r → ns !! j = Some r' → nr_hash r = nr_hash r' → i = j) →
  ns !! i = Some r → nr_hash r = h → find_node h ns = Some i.
Proof.
  intros Hu Hi Hh. destruct (find_node h ns) as [j|] eqn:E.
  - apply find_node_Some in E as (r' & Hj & Hr'). f_equal. eapply Hu; eauto. congruence.
  - by eapply find_node_None in E.
Qed.

(** [db'] has everything of [db], the same subscriptions and links, and new nodes
    only for the hashes [hs]. *)
Record extends (db db' : Db) (hs : list string) : Prop := {
  ex_nodes : nodes db ⊆ nodes db';
  ex_subs : subscriptions db' = subscriptions db;
  ex_sources : node_sources db' = node_sources db;
  ex_diag : node_diagnostics db ⊆ node_diagnostics db';
  ex_new i r : nodes db' !! i = Some r → nodes db !! i = Some r ∨ nr_hash r ∈ hs
}.

Lemma extends_refl db hs : extends db db hs.
Proof. split; auto. Qed.

Lemma extends_trans a b c hs ks :
  extends a b hs → extends b c ks → extends a c (hs ++ ks).
Proof.
  intros [] []. split; try congruence; try (by etrans).
  intros i r Hi. rewrite elem_of_app. naive_solver.
Qed.

Section RepositoryLemmas.
Context `{IdentityHash} `{SqliteLaws} `{NodeCodec}.

Lemma insert_node_spec row ns ns' ins :
  insert_node row ns = Ok (ns', ins) →
  String.length (nr_hash row) = 32%nat ∧ sql_length (nr_country row) = 2%nat ∧
  if ins then find_node (nr_hash row) ns = None ∧ ∃ i, ns !! i = None ∧ ns' = <[i := row]> ns
  else ns' = ns ∧ is_Some (find_node (nr_hash row) ns).
Proof.
  unfold insert_node. destruct (Nat.eqb_spec (String.length (nr_hash row)) 32); [|done].
  destruct (Nat.eqb_spec (sql_length (nr_country row)) 2); [|done]. simpl.
  destruct (find_node _ _) as [k|] eqn:E; intros Ho.
  - injection Ho as <- <-. eauto.
  - bind_inv Ho as i Hi. apply ok_or_Ok, next_rowid_fresh in Hi. rewrite not_elem_of_dom in Hi.
    injection Ho as <- <-. eauto 10.
Qed.

Lemma insert_diagnostics_spec i d :
  d ⊆ insert_diagnostics i d ∧ is_Some (insert_diagnostics i d !! i) ∧
  ∀ j, is_Some (insert_diagnostics i d !! j) → j = i ∨ is_Some (d !! j).
Proof.
  unfold insert_diagnostics. destruct (d !! i) as [r|] eqn:E; [naive_solver|].
  split; [by apply insert_subseteq|]. split; [rewrite lookup_insert_eq; eauto|].
  intros j Hj. destruct (decide (j = i)) as [->|]; [by left|].
  rewrite lookup_insert_ne in Hj by done. by right.
Qed.

(** Inserting a row that passes the checks keeps the node table's constraints. *)
Lemma insert_node_wf row ns ns' ins :
  (∀ i j r r', ns !! i = Some r → ns !! j = Some r' → nr_hash r = nr_hash r' → i = j) →
  insert_node row ns = Ok (ns', ins) →
  ns ⊆ ns' ∧ size ns' = (size ns + Nat.b2n ins)%nat ∧
  (∀ i j r r', ns' !! i = Some r → ns' !! j = Some r' → nr_hash r = nr_hash r' → i = j) ∧
  (∀ j r, ns' !! j = Some r → ns !! j = Some r ∨ r = row).
Proof.
  intros Hu Hins. apply insert_node_spec in Hins as (_ & _ & Hins). destruct ins.
  - destruct Hins as (Hf & k & Hk & ->).
    split; [by apply insert_subseteq|]. split; [rewrite map_size_insert_None by done; simpl; lia|].
    assert (∀ j r, <[k:=row]> ns !! j = Some r → j = k ∧ r = row ∨ ns !! j = Some r) as Hnew.
    { intros j r. rewrite lookup_insert_Some. naive_solver. }
    split; [|naive_solver]. intros i j r r' Hi Hj E.
    destruct (Hnew _ _ Hi) as [[-> ->]|Hi'], (Hnew _ _ Hj) as [[-> ->]|Hj']; eauto.
    + exfalso. by eapply (find_node_None _ _ _ _ Hf Hj').
    + exfalso. by eapply (find_node_None _ _ _ _ Hf Hi').
  - destruct Hins as [-> _]. simpl. split_and!; auto; lia.
Qed.

Lemma ensure_node_spec db n db' ins i :
  db_wf db → ensure_node db n = Ok (db', ins, i) →
  db_wf db' ∧ extends db db' [hash n] ∧
  (∃ r, nodes db' !! i = Some r ∧ nr_hash r = hash n) ∧ is_Some (node_diagnostics db' !! i) ∧
  size (nodes db') = (size (nodes db) + Nat.b2n ins)%nat.
Proof.
  intros [Hu Hr Hs Hd Hq] E. unfold ensure_node in E. bind_inv E as payload Hp.
  bind_inv E as [ns b] Hins. bind_inv E as k Hf. apply ok_or_Ok in Hf. injection E as <- <- <-.
  apply insert_node_spec in Hins as Hchk. destruct Hchk as (L1 & L2 & _).
  apply insert_node_wf in Hins as (Hsub & Hsize & Hu' & Hnew); [|done].
  destruct (insert_diagnostics_spec k (node_diagnostics db)) as (D1 & D2 & D3).
  apply find_node_Some in Hf as (r & Hi & Hh).
  split_and!; simpl; eauto.
  - split; simpl; try done.
    + intros j r' Hj. destruct (Hnew _ _ Hj) as [N| ->]; [by eapply Hr|done].
    + intros j s Hjs. destruct (Hs _ _ Hjs) as [Hj Hsub']. split; [|done].
      by eapply lookup_weaken_is_Some.
    + intros j Hj. destruct (D3 j Hj) as [->|Hj']; [by eexists|].
      eapply lookup_weaken_is_Some; [by apply Hd|done].
  - split; simpl; try done. intros j r' Hj.
    destruct (Hnew _ _ Hj) as [| ->]; [by left|right]. by rewrite list_elem_of_singleton.
Qed.
(** The hashes of a list that are not in [seen], each once. *)
Fixpoint distinct (seen : gset string) (l : list string) : list string :=
  match l with
  | [] => []
  | h :: l => if bool_decide (h ∈ seen) then distinct seen l
              else h :: distinct ({[ h ]} ∪ seen) l
  end.

Lemma elem_of_distinct seen l h : h ∈ distinct seen l ↔ h ∈ l ∧ h ∉ seen.
Proof.
  revert seen. induction l as [|k l IH]; intros seen; simpl; [set_solver|].
  case_bool_decide; rewrite ?elem_of_cons, IH; [|destruct (decide (h = k))]; set_solver.
Qed.

Lemma distinct_NoDup seen l : NoDup (distinct seen l).
Proof.
  revert seen. induction l as [|k l IH]; intros seen; simpl; [constructor|].
  case_bool_decide; [done|]. constructor; [|done]. rewrite elem_of_distinct. set_solver.
Qed.

Lemma distinct_length l :
  length (distinct ∅ l) = size (list_to_set l : gset string).
Proof.
  rewrite <-(size_list_to_set (C:=gset string) (distinct ∅ l)) by apply distinct_NoDup.
  f_equal. apply set_eq. intros h. rewrite !elem_of_list_to_set, elem_of_distinct. set_solver.
Qed.

(** The node of an id has a hash and a diagnostics row. *)
Definition node_at (db : Db) (i : Z) (h : string) : Prop :=
  ∃ r, nodes db !! i = Some r ∧ nr_hash r = h ∧ is_Some (node_diagnostics db !! i).

Lemma node_at_extends db db' hs i h : extends db db' hs → node_at db i h → node_at db' i h.
Proof.
  intros [Hn _ _ Hd _] (r & Hi & Hh & Hdi). exists r. split_and!; [|done|].
  - by eapply lookup_weaken.
  - by eapply lookup_weaken_is_Some.
Qed.

Lemma ensure_nodes_spec db seen l db' cnt ids :
  db_wf db → ensure_nodes db seen l = Ok (db', cnt, ids) →
  db_wf db' ∧ extends db db' (hash <$> l) ∧
  Forall2 (node_at db') ids (distinct seen (hash <$> l)) ∧
  Z.of_nat (size (nodes db')) = Z.of_nat (size (nodes db)) + cnt.
Proof.
  revert db seen cnt ids. induction l as [|n l IH]; intros db seen cnt ids Hw E; simpl in E.
  { injection E as <- <- <-. split_and!; [done|apply extends_refl|constructor|lia]. }
  rewrite fmap_cons. cbn [distinct]. case_bool_decide.
  { apply IH in E as (Hw' & Hex & HF & Hc); [|done]. split_and!; try done.
    destruct Hex. split; try done. intros i r Hi. rewrite elem_of_cons. naive_solver. }
  bind_inv E as [[db1 ins] i] E1. bind_inv E as [[db2 c] js] E2. injection E as <- <- <-.
  apply ensure_node_spec in E1 as (Hw1 & Hex1 & (r & Hi & Hh) & Hd & Hs); [|done].
  apply IH in E2 as (Hw2 & Hex2 & HF & Hc); [|done].
  split_and!; [done|exact (extends_trans db db1 db2 [hash n] _ Hex1 Hex2)| |].
  - constructor; [|done]. eapply node_at_extends; [exact Hex2|]. by exists r.
  - destruct ins; simpl in *; lia.
Qed.

(** A property of every node row and one of every diagnostics row. *)
Definition rows_hold (P : NodeRow → Prop) (Q : DiagRow → Prop) (db : Db) : Prop :=
  map_Forall (λ _, P) (nodes db) ∧ map_Forall (λ _, Q) (node_diagnostics db).

(** What every row made of a node has, every row written for it has. *)
Section RowsHold.
Context (P : NodeRow → Prop) (Q : DiagRow → Prop) (HQ : Q DiagRow_default).

Definition row_made (n : CanonicalNode) : Prop := ∀ payload, serialize_node n = Ok payload → P (node_row n payload).

Lemma ensure_node_rows db n db' ins i :
  row_made n → ensure_node db n = Ok (db', ins, i) → rows_hold P Q db → rows_hold P Q db'.
Proof.
  intros Hp E [Hn Hd]. unfold ensure_node in E. bind_inv E as payload Es.
  bind_inv E as [ns b] Hins. bind_inv E as k Hf. injection E as <- <- <-.
  apply insert_node_spec in Hins as (_ & _ & Hins). split; cbn [nodes node_diagnostics with_nodes with_diagnostics].
  - destruct b; [|by destruct Hins as [-> _]]. destruct Hins as (_ & j & _ & ->).
    apply map_Forall_insert_2; [by apply Hp|done].
  - unfold insert_diagnostics. destruct (_ !! k); [done|]. by apply map_Forall_insert_2.
Qed.

Lemma ensure_nodes_rows db seen l db' cnt ids :
  Forall row_made l → ensure_nodes db seen l = Ok (db', cnt, ids) → rows_hold P Q db → rows_hold P Q db'.
Proof.
  revert db seen cnt ids. induction l as [|n l IH]; intros db seen cnt ids Hl E Hk; simpl in E.
  { by injection E as <- <- <-. }
  apply Forall_cons in Hl as [Hn Hl]. case_bool_decide; [by eapply IH|].
  bind_inv E as [[db1 ins] i] E1. bind_inv E as [[db2 c] js] E2. injection E as <- <- <-.
  eapply IH; [done|exact E2|]. by eapply ensure_node_rows.
Qed.

Lemma remove_orphans_rows db : rows_hold P Q db → rows_hold P Q (remove_orphans db).1.
Proof. intros [Hn Hd]. split; intros i r Hi; simpl in Hi; apply map_lookup_filter_Some in Hi as [Hi _]; eauto. Qed.

Lemma sync_subscription_rows db r report allow :
  Forall row_made (successful_nodes report) → rows_hold P Q db →
  rows_hold P Q (sync_subscription db r report allow).2.
Proof.
  intros Hl Hk. unfold sync_subscription. destruct (bool_decide _ && negb allow); [done|].
  destruct (sync_tx db r report) as [[db' res]|e] eqn:E; [|done]. simpl.
  unfold sync_tx in E. bind_inv E as db1 E1. bind_inv E as [[db2 cnt] ids] E2.
  unfold upsert_subscription_tx in E1. destruct (negb (binds r)), (uuid_taken db r); try discriminate E1.
  injection E1 as <-.
  apply ensure_nodes_rows in E2; [|done|done].
  rewrite (surjective_pairing (remove_orphans _)) in E. injection E as <- _. exact (remove_orphans_rows (link (rec_id r) ids (unlink (rec_id r) db2)) E2).
Qed.
End RowsHold.

(** *** Links and orphans *)

Lemma elem_of_relinked sub ids db i s :
  (i, s) ∈ node_sources (link sub ids (unlink sub db)) ↔
  (s = sub ∧ i ∈ ids) ∨ (s ≠ sub ∧ (i, s) ∈ node_sources db).
Proof.
  unfold link, unlink. simpl. rewrite elem_of_union, elem_of_list_to_set, elem_of_filter. simpl.
  change (map (λ i, (i, sub)) ids) with ((λ i, (i, sub)) <$> ids).
  rewrite list_elem_of_fmap. split.
  - intros [(j & [= -> ->] & Hj)|[Hs Hin]]; auto.
  - intros [[-> Hi]|[Hs Hin]]; [left|right]; eauto.
Qed.

Lemma has_source_row_spec db i : has_source_row db i ↔ ∃ s, (i, s) ∈ node_sources db.
Proof.
  unfold has_source_row. rewrite elem_of_map. split.
  - intros ([j s] & -> & Hj). eauto.
  - intros [s Hs]. by exists (i, s).
Qed.

Lemma remove_orphans_lookup db i r :
  nodes (remove_orphans db).1 !! i = Some r ↔
  nodes db !! i = Some r ∧ ∃ s, (i, s) ∈ node_sources db.
Proof. simpl. by rewrite map_lookup_filter_Some, has_source_row_spec. Qed.

Lemma remove_orphans_count db :
  Z.of_nat (size (nodes (remove_orphans db).1)) =
  Z.of_nat (size (nodes db)) - (remove_orphans db).2.
Proof. unfold remove_orphans. cbn. lia. Qed.

Lemma remove_orphans_wf db : db_wf db → db_wf (remove_orphans db).1 ∧ no_orphans (remove_orphans db).1.
Proof.
  intros [Hu Hr Hs Hd Hq]. split; [split|].
  - intros i j r r' Hi Hj. apply remove_orphans_lookup in Hi as [Hi _], Hj as [Hj _]. by apply Hu.
  - intros i r Hi. apply remove_orphans_lookup in Hi as [Hi _]. by eapply Hr.
  - intros i s Hi. destruct (Hs i s Hi) as [[r Hr'] Hsub]. split; [|done].
    exists r. apply remove_orphans_lookup. eauto.
  - intros i [d Hd']. by apply map_lookup_filter_Some in Hd' as [_ Hd'].
  - done.
  - intros i [r Hi]. by apply remove_orphans_lookup in Hi as [_ Hi].
Qed.

Lemma remove_orphans_diag db i :
  is_Some (nodes (remove_orphans db).1 !! i) →
  node_diagnostics (remove_orphans db).1 !! i = node_diagnostics db !! i.
Proof.
  intros Hi. simpl in *. destruct (node_diagnostics db !! i) as [d|] eqn:E.
  - by apply map_lookup_filter_Some.
  - apply map_lookup_filter_None. by left.
Qed.

Lemma upsert_wf db r db' :
  db_wf db → upsert_subscription_tx db r = Ok db' →
  db_wf db' ∧ db' = with_subscriptions db (<[rec_id r := rec_row r]> (subscriptions db)).
Proof.
  unfold upsert_subscription_tx. intros [Hu Hr Hs Hd Hq]. case_match; [done|].
  case_match eqn:Et; [done|]. intros [= <-]. split; [|done]. split; simpl; try done.
  - intros i s Hi. destruct (Hs i s Hi) as [Hn Hsub]. split; [done|].
    rewrite lookup_insert. case_decide; [by eexists|done].
  - assert (∀ k row, k ≠ rec_id r → subscriptions db !! k = Some row →
              sr_uuid row ≠ sr_uuid (rec_row r)) as Hfree.
    { intros k row Hk Hrow Hu'. assert (uuid_taken db r = true); [|congruence].
      apply existsb_exists. exists (k, row). split.
      - by apply list_elem_of_In, elem_of_map_to_list.
      - rewrite (proj2 (Z.eqb_neq _ _) Hk). by apply String.eqb_eq. }
    intros i j ri rj. rewrite !lookup_insert. repeat case_decide; subst; try done.
    + intros [= <-] Hj E. exfalso. by eapply Hfree; [|exact Hj|].
    + intros Hi [= <-] E. exfalso. by eapply Hfree; [|exact Hi|].
    + apply Hq.
Qed.
End RepositoryLemmas.

(** ** Specification *)

(** The nodes a subscription is linked to, by hash. *)
Definition linked (db : Db) (sub : Z) (h : string) : Prop :=
  ∃ i r, (i, sub) ∈ node_sources db ∧ nodes db !! i = Some r ∧ nr_hash r = h.

(** What a successful synchronisation of the hashes [hs] into [sub] must do. *)
Record synced (db db' : Db) (r : SubscriptionRecord) (hs : list string) (res : SyncResult) : Prop := {
  sy_wf : db_wf db';
  sy_orphans : no_orphans db';
  sy_subs : subscriptions db' = <[rec_id r := rec_row r]> (subscriptions db);
  sy_links h : linked db' (rec_id r) h ↔ h ∈ hs;
  sy_others s i : s ≠ rec_id r → (i, s) ∈ node_sources db' ↔ (i, s) ∈ node_sources db;
  sy_kept i row : nodes db !! i = Some row →
    nodes db' !! i = Some row ∨
    (nodes db' !! i = None ∧ nr_hash row ∉ hs ∧ ∀ s, s ≠ rec_id r → (i, s) ∉ node_sources db);
  sy_new i row : nodes db' !! i = Some row → nodes db !! i = Some row ∨ nr_hash row ∈ hs;
  sy_diag i d : node_diagnostics db !! i = Some d → is_Some (nodes db' !! i) →
    node_diagnostics db' !! i = Some d;
  sy_linked : linked_nodes res = Z.of_nat (size (list_to_set hs : gset string));
  sy_counts : Z.of_nat (size (nodes db')) =
    Z.of_nat (size (nodes db)) + inserted_nodes res - removed_orphans res
}.

Section Sync.
Context `{IdentityHash} `{SqliteLaws} `{NodeCodec}.

Lemma link_wf db sub ids :
  db_wf db → is_Some (subscriptions db !! sub) → Forall (λ i, is_Some (nodes db !! i)) ids →
  db_wf (link sub ids (unlink sub db)).
Proof.
  intros [Hu Hr Hs Hd Hq] Hsub Hids. split; try done.
  intros i s. rewrite elem_of_relinked. intros [[-> Hi]|[_ Hi]]; [|by apply Hs].
  rewrite Forall_forall in Hids. auto.
Qed.

(** The links of the subscription lead exactly to the hashes of its ids. *)
Lemma relinked_hashes db sub ids hs h :
  db_wf db → Forall2 (node_at db) ids (distinct ∅ hs) →
  linked (remove_orphans (link sub ids (unlink sub db))).1 sub h ↔ h ∈ hs.
Proof.
  intros Hw HF. assert (h ∈ hs ↔ h ∈ distinct ∅ hs) as ->
    by (rewrite elem_of_distinct; set_solver).
  split.
  - intros (i & r & Hi & Hr & <-). apply remove_orphans_lookup in Hr as [Hr _].
    apply elem_of_relinked in Hi as [[_ Hi]|[? _]]; [|done].
    apply list_elem_of_lookup in Hi as [k Hk].
    eapply Forall2_lookup_l in HF as (h & Hh & r' & Hr' & <- & _); [|exact Hk].
    simpl in Hr. rewrite Hr in Hr'. simplify_eq. by eapply list_elem_of_lookup_2.
  - intros Hh. apply list_elem_of_lookup in Hh as [k Hk].
    eapply Forall2_lookup_r in HF as (i & Hi & r & Hr & Hh & _); [|exact Hk].
    assert ((i, sub) ∈ node_sources (link sub ids (unlink sub db))) as Hin.
    { apply elem_of_relinked. left. split; [done|]. by eapply list_elem_of_lookup_2. }
    exists i, r. split; [done|]. split; [|done]. apply remove_orphans_lookup. eauto.
Qed.

Lemma sync_tx_synced db r report db' res :
  db_wf db → sync_tx db r report = Ok (db', res) →
  synced db db' r (hash <$> successful_nodes report) res.
Proof.
  intros Hw E. unfold sync_tx in E. bind_inv E as db1 E1. bind_inv E as [[db2 cnt] ids] E2.
  apply upsert_wf in E1 as [Hw1 ->]; [|done].
  apply ensure_nodes_spec in E2 as (Hw2 & Hex & HF & Hc); [|done]. destruct Hex as [Hn Hs Hso Hd Hnew].
  simpl in Hn, Hs, Hso, Hd, Hnew, Hc. set (db3 := link (rec_id r) ids (unlink (rec_id r) db2)) in *.
  assert (Forall (λ i, is_Some (nodes db2 !! i)) ids) as Hids.
  { eapply Forall2_Forall_l; [exact HF|]. apply Forall_forall. intros h _ i (row & Hi & _). eauto. }
  assert (db_wf db3) as Hw3.
  { apply link_wf; [done| |done]. rewrite Hs, lookup_insert_eq. eauto. }
  destruct (remove_orphans_wf _ Hw3) as [Hw4 Ho].
  pose proof (relinked_hashes db2 (rec_id r) ids (hash <$> successful_nodes report)) as Hlinks.
  fold db3 in Hlinks. pose proof (remove_orphans_count db3) as Hcount.
  rewrite (surjective_pairing (remove_orphans db3)) in E.
  set (removed := (remove_orphans db3).2) in *. set (db4 := (remove_orphans db3).1) in *.
  assert (db' = db4) as -> by congruence.
  assert (res = {| inserted_nodes := cnt; linked_nodes := Z.of_nat (length ids);
                   removed_orphans := removed |}) as -> by congruence.
  assert (∀ i s, (i, s) ∈ node_sources db3 ↔
    (s = rec_id r ∧ i ∈ ids) ∨ (s ≠ rec_id r ∧ (i, s) ∈ node_sources db)) as Hrel
    by (intros; rewrite <-Hso; apply elem_of_relinked).
  split; try done.
  - intros h. by apply Hlinks.
  - intros s i Hne. change (node_sources db4) with (node_sources db3).
    rewrite Hrel. naive_solver.
  - intros i row Hi. assert (nodes db3 !! i = Some row) as Hi3 by by eapply lookup_weaken.
    destruct (decide (has_source_row db3 i)) as [Hsrc|Hno].
    + left. apply (remove_orphans_lookup db3). split; [done|]. by apply has_source_row_spec.
    + right. rewrite has_source_row_spec in Hno. split_and!.
      * apply eq_None_not_Some. intros [row' Hr']. by apply (remove_orphans_lookup db3) in Hr' as [_ ?].
      * intros Hin. apply (Hlinks _ Hw2 HF) in Hin as (j & rj & Hj & Hrj & Hh).
        apply (remove_orphans_lookup db3) in Hrj as [Hrj _]. apply Hno. exists (rec_id r).
        by rewrite (wf_hash_unique _ Hw2 i j row rj Hi3 Hrj (eq_sym Hh)).
      * intros s Hne Hin. apply Hno. exists s. rewrite Hrel. by right.
  - intros i row Hi. apply (remove_orphans_lookup db3) in Hi as [Hi _]. by apply Hnew.
  - intros i d Hdi Hi. rewrite (remove_orphans_diag db3) by done. by eapply lookup_weaken.
  - cbn [linked_nodes]. rewrite <-distinct_length. f_equal. by eapply Forall2_length.
  - cbn [inserted_nodes removed_orphans]. change (nodes db3) with (nodes db2) in Hcount. lia.
Qed.
End Sync.

(** ** Properties *)

Lemma sync_subscription_synced `{IdentityHash} `{SqliteLaws} `{NodeCodec} db r report allow :
  db_wf db →
  match sync_subscription db r report allow with
  | (Ok res, db') => synced db db' r (hash <$> successful_nodes report) res
  | (Err _, db') => db' = db
  end.
Proof.
  intros Hw. unfold sync_subscription. destruct (bool_decide _ && negb allow); [done|].
  destruct (sync_tx db r report) as [[db' res]|e] eqn:E; [|done].
  by eapply sync_tx_synced.
Qed.

(** C17. Synchronising a subscription is a transaction. On success the
    subscription's row is the given one, its links lead exactly to the nodes of
    the report, every other subscription keeps its links, a node disappears
    exactly when nothing links to it any more, nodes that stay keep their row and
    their diagnostics, the counts add up, and every constraint of the schema holds
    with no orphan left. On any error the database is unchanged. *)
Theorem sync_subscription_spec `{IdentityHash} `{SqliteLaws} `{NodeCodec} db r report allow :
  db_wf db →
  match sync_subscription db r report allow with
  | (Ok res, db') => synced db db' r (hash <$> successful_nodes report) res
  | (Err _, db') => db' = db
  end.
Proof. apply sync_subscription_synced. Qed.

(** An empty or entirely invalid payload never clears a subscription unless
    the caller asks for it, and allowing it unlinks the subscription from every
    node it had. *)
Lemma empty_refresh `{IdentityHash} `{SqliteLaws} `{NodeCodec} `{ParserLib} `{YamlLib} db r raw :
  db_wf db →
  successful_nodes (ingest_with_timestamp raw (rec_id r) (sr_last_updated (rec_row r))) = [] →
  is_err (refresh db r raw false).1 = true ∧ (refresh db r raw false).2 = db ∧
  (is_ok (refresh db r raw true).1 = true →
   ∀ i, (i, rec_id r) ∉ node_sources (refresh db r raw true).2).
Proof.
  intros Hw He. unfold refresh. set (report := ingest_with_timestamp _ _ _) in *.
  assert (sync_subscription db r report false = (bail
    "refusing to replace subscription with an empty or entirely invalid snapshot", db)) as ->.
  { unfold sync_subscription. by rewrite He. }
  split_and!; [done|done|]. pose proof (sync_subscription_synced db r report true Hw) as Hs.
  destruct (sync_subscription db r report true) as [[res|e] db']; simpl; [|done].
  intros _ i Hi. destruct (wf_sources _ (sy_wf _ _ _ _ _ Hs) _ _ Hi) as [[row Hrow] _].
  assert (nr_hash row ∈ (hash <$> successful_nodes report)) as Hin.
  { apply (sy_links _ _ _ _ _ Hs). by exists i, row. }
  rewrite He in Hin. by apply not_elem_of_nil in Hin.
Qed.

(** *** Concrete instances *)

#[local] Instance sample_sqlite : Sqlite :=
  {| next_rowid used := Some (1 + foldr Z.max 0 (elements used)) |}.
#[local] Instance sample_sqlite_laws : SqliteLaws.
Proof.
  split. simpl. intros used i [= <-] Hin. apply elem_of_elements in Hin.
  assert (∀ l x, x ∈ l → x ≤ foldr Z.max 0 l) as Hmax.
  { intros l x. induction l as [|y l IH]; simpl; [by intros ?%not_elem_of_nil|].
    rewrite elem_of_cons. intros [->|Hx]; [lia|]. specialize (IH Hx). lia. }
  specialize (Hmax _ _ Hin). lia.
Qed.
#[local] Instance sample_codec : NodeCodec :=
  {| serialize_node _ := Ok "payload"%stdpp; deserialize_node _ := bail "unexpected" |}.
#[local] Existing Instance sample_hash.

Definition stored_node (digit : ascii) (lbl : string) : CanonicalNode :=
  {| hash := of_bytes (repeat digit 32); meta := sample_meta 7 lbl;
     endpoint := EpDomain "example.com" 443; protocol := fi_protocol sample_identity;
     transport := Tcp; security := SecNone; mux := None |}.
Definition sample_record : SubscriptionRecord :=
  {| rec_id := 7; rec_row := {| sr_uuid := "u"; sr_name := "n"; sr_url := "https://example.com";
       sr_last_updated := 10; sr_auto_update_interval := 86400; sr_etag := None |} |}.
Definition sample_report : IngestionReport :=
  {| total_entries_scanned := 2;
     successful_nodes := [stored_node "a" "one"; stored_node "b" "two"];
     duplicates_omitted := 0; failed_entries := [] |}.

Lemma sync_subscription_spec_witness :
  is_ok (sync_subscription Db_empty sample_record sample_report false).1 = true ∧
  match sync_subscription Db_empty sample_record sample_report false with
  | (Ok res, db') => synced Db_empty db' sample_record
                       (hash <$> successful_nodes sample_report) res
  | (Err _, db') => db' = Db_empty
  end.
Proof.
  split; [vm_compute; reflexivity|].
  apply (sync_subscription_spec Db_empty sample_record sample_report false).
  exact (proj1 Db_empty_wf).
Defined.

Lemma empty_refresh_witness :
  is_err (@refresh _ _ _ sample_lib sample_yaml_lib
    (sync_subscription Db_empty sample_record sample_report false).2 sample_record
    "vless://broken" false).1 = true.
Proof.
  refine (proj1 (@empty_refresh _ _ _ _ sample_lib sample_yaml_lib
    (sync_subscription Db_empty sample_record sample_report false).2 sample_record
    "vless://broken" _ _)); [|vm_compute; reflexivity].
  pose proof (sync_tx_synced Db_empty sample_record sample_report) as Hs.
  unfold sync_subscription. simpl. destruct (sync_tx _ _ _) as [[db' res]|e] eqn:E; simpl;
    [|exact (proj1 Db_empty_wf)].
  exact (sy_wf _ _ _ _ _ (Hs _ _ (proj1 Db_empty_wf) eq_refl)).
Defined.
