(* ===== verification/Store.v ===== *)
(** The dense node store, its queries and its published snapshot
    ([crates/storage/src/soa_store.rs], [query_engine.rs], [snapshot.rs]).

    Columns are lists indexed by position, as the [Vec]s of the source are, and an
    index out of range is [None] where Rust would panic.  Unicode lower-casing is
    the operation of the class [Unicode]. *)

From S2P Require Import Prelude RustStr Ir Repository.

Class Unicode := { to_lowercase : string → string }.

Definition UNTESTED_LATENCY : Z := U16_MAX.

Record HotNodeRow := {
  hr_id : Z; hr_country_code : string; hr_latency_ms : Z; hr_health_score : Z;
  hr_name : string; hr_protocol : ProtocolKind; hr_source_sub_ids : list Z
}.

Record DenseNodeStore := {
  node_ids : list Z;
  country_codes : list string;
  latencies_ms : list Z;
  health_scores : list Z;
  protocol_kinds : list ProtocolKind;
  names : list string;
  name_lower : list string;
  source_offsets : list Z;
  source_sub_ids : list Z;
  id_to_index : gmap Z nat
}.
Definition DenseNodeStore_empty : DenseNodeStore :=
  {| node_ids := []; country_codes := []; latencies_ms := []; health_scores := [];
     protocol_kinds := []; names := []; name_lower := []; source_offsets := [];
     source_sub_ids := []; id_to_index := ∅ |}.

Section Build.
Context `{Unicode}.

(** One turn of the loop of [from_hot_rows]; lengths are cast to [u32]. *)
Definition push_row (s : DenseNodeStore) (r : HotNodeRow) : DenseNodeStore :=
  let sources := source_sub_ids s ++ hr_source_sub_ids r in
  {| node_ids := node_ids s ++ [hr_id r];
     country_codes := country_codes s ++ [hr_country_code r];
     latencies_ms := latencies_ms s ++ [hr_latency_ms r];
     health_scores := health_scores s ++ [Z.min (hr_health_score r) 100];
     protocol_kinds := protocol_kinds s ++ [hr_protocol r];
     names := names s ++ [hr_name r];
     name_lower := name_lower s ++ [to_lowercase (hr_name r)];
     source_offsets := source_offsets s ++ [wrap 32 (Z.of_nat (length sources))];
     source_sub_ids := sources;
     id_to_index := <[hr_id r := length (node_ids s)]> (id_to_index s) |}.

Definition first_offset (s : DenseNodeStore) : DenseNodeStore :=
  {| node_ids := node_ids s; country_codes := country_codes s; latencies_ms := latencies_ms s;
     health_scores := health_scores s; protocol_kinds := protocol_kinds s; names := names s;
     name_lower := name_lower s; source_offsets := source_offsets s ++ [0];
     source_sub_ids := source_sub_ids s; id_to_index := id_to_index s |}.

Definition from_hot_rows (rows : list HotNodeRow) : DenseNodeStore :=
  foldl push_row (first_offset DenseNodeStore_empty) rows.

(** *** From the database *)

(** [country_code] of a stored text. *)
Definition db_country_code (s : string) : string :=
  if (String.length s =? 2)%nat && forallb is_ascii_uppercase (bytes s) then s else "UN".

(** A row of the [LEFT JOIN]; a column that does not fit its type is an error. *)
Definition hydrate_row (db : Db) (row : Z * NodeRow) : result Error HotNodeRow :=
  let '(i, r) := row in
  id ← ok_or (try_from_u 32 i) ["Integer out of range at index 0"]%stdpp;
  kind ← ok_or (try_from_u 8 (nr_kind r)) ["Integer out of range at index 3"]%stdpp;
  let d := node_diagnostics db !! i in
  latency ← ok_or (try_from_u 16 (default 65535 (dr_latency_ms <$> d)))
              ["Integer out of range at index 4"]%stdpp;
  health ← ok_or (try_from_u 8 (default 0 (dr_health_score <$> d)))
             ["Integer out of range at index 5"]%stdpp;
  Ok {| hr_id := id; hr_country_code := db_country_code (nr_country r); hr_latency_ms := latency;
        hr_health_score := health; hr_name := nr_name r;
        hr_protocol := default KVless (from_discriminant kind);
        hr_source_sub_ids := [] |}.

Fixpoint mapR {A B} (f : A → result Error B) (l : list A) : result Error (list B) :=
  match l with
  | [] => Ok []
  | x :: l => y ← f x; ys ← mapR f l; Ok (y :: ys)
  end.

(** The rows of [node_sources] in the order of the query. *)
Definition source_rows (db : Db) : list (Z * Z) :=
  sort_by (cmp_then (cmp_on fst Z.compare) (cmp_on snd Z.compare)) (elements (node_sources db)).
Definition hydrate_source (p : Z * Z) : result Error (Z * Z) :=
  i ← ok_or (try_from_u 32 p.1) ["Integer out of range at index 0"]%stdpp;
  s ← ok_or (try_from_u 16 p.2) ["Integer out of range at index 1"]%stdpp;
  Ok (i, s).

(** The columns of [hydrate_from_db]'s first loop: unlike [push_row], the health
    score is stored as it is and no source is added. *)
Definition push_columns (s : DenseNodeStore) (r : HotNodeRow) : DenseNodeStore :=
  {| node_ids := node_ids s ++ [hr_id r];
     country_codes := country_codes s ++ [hr_country_code r];
     latencies_ms := latencies_ms s ++ [hr_latency_ms r];
     health_scores := health_scores s ++ [hr_health_score r];
     protocol_kinds := protocol_kinds s ++ [hr_protocol r];
     names := names s ++ [hr_name r];
     name_lower := name_lower s ++ [to_lowercase (hr_name r)];
     source_offsets := source_offsets s; source_sub_ids := source_sub_ids s;
     id_to_index := <[hr_id r := length (node_ids s)]> (id_to_index s) |}.

(** The bucket of every index, then the offsets. *)
Definition push_bucket (s : DenseNodeStore) (ids : list Z) : DenseNodeStore :=
  let sources := source_sub_ids s ++ ids in
  {| node_ids := node_ids s; country_codes := country_codes s; latencies_ms := latencies_ms s;
     health_scores := health_scores s; protocol_kinds := protocol_kinds s; names := names s;
     name_lower := name_lower s;
     source_offsets := source_offsets s ++ [wrap 32 (Z.of_nat (length sources))];
     source_sub_ids := sources; id_to_index := id_to_index s |}.

Definition add_source (idx : gmap Z nat) (buckets : list (list Z)) (p : Z * Z) : list (list Z) :=
  match idx !! p.1 with
  | Some i => alter (λ l, l ++ [p.2]) i buckets
  | None => buckets
  end.

Definition node_rows (db : Db) : list (Z * NodeRow) :=
  sort_by (cmp_on fst Z.compare) (map_to_list (nodes db)).

Definition hydrate_from_db (db : Db) : result Error DenseNodeStore :=
  rows ← mapR (hydrate_row db) (node_rows db);
  let store := foldl push_columns DenseNodeStore_empty rows in
  pairs ← mapR hydrate_source (source_rows db);
  let buckets := foldl (add_source (id_to_index store))
                   (repeat [] (length (node_ids store))) pairs in
  Ok (foldl push_bucket (first_offset store) buckets).
End Build.

Definition store_len (s : DenseNodeStore) : nat := length (node_ids s).

Definition update_metrics (s : DenseNodeStore) (node_id latency_ms health_score : Z)
  : DenseNodeStore :=
  match id_to_index s !! node_id with
  | Some i =>
    {| node_ids := node_ids s; country_codes := country_codes s;
       latencies_ms := <[i := latency_ms]> (latencies_ms s);
       health_scores := <[i := Z.min health_score 100]> (health_scores s);
       protocol_kinds := protocol_kinds s; names := names s; name_lower := name_lower s;
       source_offsets := source_offsets s; source_sub_ids := source_sub_ids s;
       id_to_index := id_to_index s |}
  | None => s
  end.

Definition index_of (s : DenseNodeStore) (node_id : Z) : option nat := id_to_index s !! node_id.

(** [None] is an index or a slice out of range. *)
Definition slice {A} (l : list A) (start stop : Z) : option (list A) :=
  if (0 <=? start) && (start <=? stop) && (stop <=? Z.of_nat (length l))
  then Some (take (Z.to_nat (stop - start)) (drop (Z.to_nat start) l)) else None.
Definition has_source (s : DenseNodeStore) (index : nat) (sub : Z) : option bool :=
  start ← source_offsets s !! index;
  stop ← source_offsets s !! (S index);
  l ← slice (source_sub_ids s) start stop;
  Some (bool_decide (sub ∈ l)).

(** ** MetricsArena *)

Record MetricsArena := {
  ma_latencies_ms : list Z;
  ma_health_scores : list Z;
  ma_jitter_ms : list Z;
  ma_packet_loss : list Z;
  ma_last_tested : list Z;
  ma_is_operational : list bool;
  ma_verified : list bool
}.
Definition from_store (s : DenseNodeStore) : MetricsArena :=
  let n := store_len s in
  {| ma_latencies_ms := latencies_ms s; ma_health_scores := health_scores s;
     ma_jitter_ms := repeat 0 n; ma_packet_loss := repeat 0 n; ma_last_tested := repeat 0 n;
     ma_is_operational := repeat false n; ma_verified := repeat false n |}.

Definition arena_len (m : MetricsArena) : nat := length (ma_latencies_ms m).

Definition apply_update (m : MetricsArena) (index : nat) (latency health : Z) (verified : bool)
  : MetricsArena :=
  if (arena_len m <=? index)%nat then m
  else {| ma_latencies_ms := <[index := latency]> (ma_latencies_ms m);
          ma_health_scores := <[index := Z.min health 100]> (ma_health_scores m);
          ma_jitter_ms := ma_jitter_ms m; ma_packet_loss := ma_packet_loss m;
          ma_last_tested := ma_last_tested m; ma_is_operational := ma_is_operational m;
          ma_verified := <[index := verified]> (ma_verified m) |}.

Definition is_verified (m : MetricsArena) (index : nat) : bool :=
  default false (ma_verified m !! index).

(** ** Queries *)

Inductive SortCriteria := LatencyAsc | LatencyDesc | CountryAsc | NameAsc | HealthScoreDesc.

Definition latency_order (l r : Z) : comparison :=
  match l =? UNTESTED_LATENCY, r =? UNTESTED_LATENCY with
  | true, true => Eq
  | true, false => Gt
  | false, true => Lt
  | false, false => Z.compare l r
  end.

Section Query.
Context `{Unicode}.

(** The filter of one index; [None] where the source indexes out of range. *)
Definition row_matches (s : DenseNodeStore) (search : string) (country : option string)
    (sub : option Z) (i : nat) : option bool :=
  by_sub ← match sub with None => Some true | Some q => has_source s i q end;
  if negb by_sub then Some false else
  by_country ← match country with
               | None => Some true
               | Some c => code ← country_codes s !! i; Some (String.eqb code c)
               end;
  if negb by_country then Some false else
  if String.eqb search EmptyString then Some true
  else name ← name_lower s !! i; Some (str_contains search name).

Fixpoint filter_indices (p : nat → option bool) (l : list nat) : option (list nat) :=
  match l with
  | [] => Some []
  | i :: l => b ← p i; rest ← filter_indices p l; Some (if b : bool then i :: rest else rest)
  end.

(** The comparator, with the id as the tie breaker. A metric is read with a
    default where the arena is shorter; the columns of the store are indexed. *)
Definition row_order (s : DenseNodeStore) (latency health : nat → Z) (sort : SortCriteria)
  : nat → nat → comparison :=
  cmp_then
    match sort with
    | LatencyAsc => cmp_on latency latency_order
    | LatencyDesc => cmp_rev (cmp_on latency latency_order)
    | CountryAsc => cmp_on (λ i, default EmptyString (country_codes s !! i)) String.compare
    | NameAsc => cmp_on (λ i, default EmptyString (names s !! i)) String.compare
    | HealthScoreDesc => cmp_rev (cmp_on health Z.compare)
    end
    (cmp_on (λ i, default 0 (node_ids s !! i)) Z.compare).

Definition run_query (s : DenseNodeStore) (search_term : string) (country : option string)
    (sub : option Z) (sort : SortCriteria) (latency health : nat → Z) : option (list nat) :=
  let search := to_lowercase search_term in
  indices ← filter_indices (row_matches s search country sub) (seq 0 (store_len s));
  Some (sort_by (row_order s latency health sort) indices).

Definition query (s : DenseNodeStore) (search_term : string) (country : option string)
    (sub : option Z) (sort : SortCriteria) : option (list nat) :=
  run_query s search_term country sub sort
    (λ i, default 0 (latencies_ms s !! i)) (λ i, default 0 (health_scores s !! i)).

Definition query_with_metrics (s : DenseNodeStore) (m : MetricsArena) (search_term : string)
    (country : option string) (sub : option Z) (sort : SortCriteria) : option (list nat) :=
  run_query s search_term country sub sort
    (λ i, default UNTESTED_LATENCY (ma_latencies_ms m !! i))
    (λ i, default 0 (ma_health_scores m !! i)).
End Query.

(** ** Snapshot *)

Record MetricUpdate := { mu_node_id : Z; mu_latency_ms : Z; mu_health_score : Z; mu_verified : bool }.

(** Two cells, each swapped atomically. *)
Record StoreSnapshot := { ss_store : DenseNodeStore; ss_metrics : MetricsArena }.

Definition snapshot_new (s : DenseNodeStore) : StoreSnapshot :=
  {| ss_store := s; ss_metrics := from_store s |}.

(** The new arena [publish_metrics] computes from what it loaded. *)
Definition apply_updates (s : DenseNodeStore) (updates : list MetricUpdate) (m : MetricsArena)
  : MetricsArena :=
  foldl (λ m u, match index_of s (mu_node_id u) with
                | Some i => apply_update m i (mu_latency_ms u) (mu_health_score u) (mu_verified u)
                | None => m
                end) m updates.

(** The atomic steps of the operations: loads and stores of the two cells. *)
Definition store_store (s : DenseNodeStore) (x : StoreSnapshot) : StoreSnapshot :=
  {| ss_store := s; ss_metrics := ss_metrics x |}.
Definition store_metrics (m : MetricsArena) (x : StoreSnapshot) : StoreSnapshot :=
  {| ss_store := ss_store x; ss_metrics := m |}.

Definition snapshot_replace (s : DenseNodeStore) (x : StoreSnapshot) : StoreSnapshot :=
  store_metrics (from_store s) (store_store s x).
Definition publish_metrics (updates : list MetricUpdate) (x : StoreSnapshot) : StoreSnapshot :=
  store_metrics (apply_updates (ss_store x) updates (ss_metrics x)) x.
Definition update_metrics_batch (updates : list MetricUpdate) (x : StoreSnapshot) : StoreSnapshot :=
  snapshot_replace
    (foldl (λ s u, update_metrics s (mu_node_id u) (mu_latency_ms u) (mu_health_score u))
       (ss_store x) updates) x.
Definition replace_from_db `{Unicode} (db : Db) (x : StoreSnapshot) : result Error StoreSnapshot :=
  s ← hydrate_from_db db; Ok (snapshot_replace s x).

(** ** Invariants *)

(** Every column has one entry per node, the offsets delimit consecutive slices
    of the sources, and the index maps every id it knows to its position. *)
Record store_wf (s : DenseNodeStore) : Prop := {
  sw_country : length (country_codes s) = store_len s;
  sw_latency : length (latencies_ms s) = store_len s;
  sw_health : length (health_scores s) = store_len s;
  sw_kinds : length (protocol_kinds s) = store_len s;
  sw_names : length (names s) = store_len s;
  sw_lower : length (name_lower s) = store_len s;
  sw_index i k : id_to_index s !! i = Some k → node_ids s !! k = Some i;
  sw_known i : i ∈ node_ids s → is_Some (id_to_index s !! i)
}.

(** The sources of every row, as the offsets delimit them. *)
Definition sources_are (s : DenseNodeStore) (groups : list (list Z)) : Prop :=
  length groups = store_len s ∧
  source_sub_ids s = concat groups ∧
  source_offsets s =
    map (λ k, Z.of_nat (length (concat (take k groups)))) (seq 0 (S (length groups))).

Definition arena_wf (s : DenseNodeStore) (m : MetricsArena) : Prop :=
  let n := store_len s in
  length (ma_latencies_ms m) = n ∧ length (ma_health_scores m) = n ∧
  length (ma_jitter_ms m) = n ∧ length (ma_packet_loss m) = n ∧ length (ma_last_tested m) = n ∧
  length (ma_is_operational m) = n ∧ length (ma_verified m) = n.

Definition snapshot_wf (x : StoreSnapshot) : Prop :=
  store_wf (ss_store x) ∧ arena_wf (ss_store x) (ss_metrics x).

(** ** Lemmas *)

Lemma has_source_spec s groups i q :
  sources_are s groups → (i < store_len s)%nat →
  has_source s i q = Some (bool_decide (q ∈ default [] (groups !! i))).
Proof.
  intros (Hl & Hs & Ho) Hi. unfold has_source. rewrite Ho, Hs.
  rewrite <-Hl in Hi.
  assert (∀ k, (k ≤ length groups)%nat →
    map (λ k, Z.of_nat (length (concat (take k groups)))) (seq 0 (S (length groups))) !! k
    = Some (Z.of_nat (length (concat (take k groups))))) as Hk.
  { intros k Hk. change (map ?f ?l) with (f <$> l). rewrite list_lookup_fmap.
    rewrite lookup_seq_lt by lia. done. }
  rewrite !Hk by lia. simpl.
  destruct (lookup_lt_is_Some_2 groups i Hi) as [g Hg].
  rewrite (take_S_r _ _ g), concat_app by done. simpl. rewrite app_nil_r, length_app.
  unfold slice. rewrite !Nat2Z.inj_add.
  assert (concat groups = concat (take i groups) ++ g ++ concat (drop (S i) groups)) as E.
  { rewrite <-(take_drop_middle groups i g) at 1 by done. by rewrite concat_app. }
  rewrite E, !length_app.
  rewrite (proj2 (andb_true_iff _ _)) by (split; [apply andb_true_iff; split|]; apply Z.leb_le; lia).
  simpl. rewrite Hg. simpl. do 2 f_equal.
  replace (Z.to_nat (Z.of_nat (length (concat (take i groups))) + Z.of_nat (length g)
    - Z.of_nat (length (concat (take i groups))))) with (length g) by lia.
  rewrite Nat2Z.id, drop_app_length, take_app_length. done.
Qed.

Lemma filter_indices_Some p l :
  (∀ i, i ∈ l → is_Some (p i)) →
  filter_indices p l = Some (List.filter (λ i, default false (p i)) l).
Proof.
  induction l as [|i l IH]; intros Hp; simpl; [done|].
  destruct (Hp i) as [b Hb]; [by left|]. rewrite Hb. simpl.
  rewrite IH by (intros; apply Hp; by right). simpl. by destruct b.
Qed.

#[export] Instance latency_order_order : CmpOrder latency_order.
Proof.
  unfold latency_order. split.
  - intros x y. destruct (x =? UNTESTED_LATENCY), (y =? UNTESTED_LATENCY); try done.
    apply Z.compare_antisym.
  - intros x y z.
    destruct (x =? UNTESTED_LATENCY), (y =? UNTESTED_LATENCY), (z =? UNTESTED_LATENCY); try done.
    rewrite !Z.compare_le_iff. lia.
Qed.

#[export] Instance row_order_order s latency health sort : CmpOrder (row_order s latency health sort).
Proof. unfold row_order. destruct sort; apply _. Qed.

(** Rows that compare equal are the same row. *)
Lemma row_order_inj s latency health sort i j :
  NoDup (node_ids s) → (i < store_len s)%nat → (j < store_len s)%nat →
  row_order s latency health sort i j = Eq → i = j.
Proof.
  intros Hnd Hi Hj. unfold row_order, cmp_then, then_with. case_match; [|done..]. unfold cmp_on.
  destruct (lookup_lt_is_Some_2 (node_ids s) i Hi) as [x Hx].
  destruct (lookup_lt_is_Some_2 (node_ids s) j Hj) as [y Hy].
  rewrite Hx, Hy. simpl. intros ->%Z.compare_eq. by eapply NoDup_lookup.
Qed.

Section StoreLemmas.
Context `{Unicode}.

Lemma mapR_Ok {A B} (f : A → result Error B) l ys :
  mapR f l = Ok ys → Forall2 (λ x y, f x = Ok y) l ys.
Proof.
  revert ys. induction l as [|x l IH]; intros ys E; simpl in E; [by injection E as <-|].
  bind_inv E as y Ey. bind_inv E as zs Ezs. injection E as <-. constructor; auto.
Qed.

(** *** Index maps *)

Definition index_wf (ids : list Z) (m : gmap Z nat) : Prop :=
  (∀ i k, m !! i = Some k → ids !! k = Some i) ∧ (∀ i, i ∈ ids → is_Some (m !! i)).

Lemma index_wf_nil : index_wf [] ∅.
Proof. split; [intros i k Hk; by rewrite lookup_empty in Hk|set_solver]. Qed.

Lemma index_wf_snoc ids m i : index_wf ids m → index_wf (ids ++ [i]) (<[i := length ids]> m).
Proof.
  intros [H1 H2]. split.
  - intros j k. rewrite lookup_insert_Some. intros [[<- <-]|[_ Hk]].
    + by rewrite lookup_app_r, Nat.sub_diag by lia.
    + rewrite lookup_app_l; [by apply H1|]. by eapply lookup_lt_Some, H1.
  - intros j. rewrite elem_of_app, list_elem_of_singleton, lookup_insert.
    case_decide as Hj; [by eexists|]. naive_solver.
Qed.

Lemma index_wf_lookup ids m i k :
  NoDup ids → index_wf ids m → ids !! k = Some i → m !! i = Some k.
Proof.
  intros Hnd [H1 H2] Hk. destruct (H2 i) as [k' Hk']; [by eapply list_elem_of_lookup_2|].
  rewrite Hk'. f_equal. eapply NoDup_lookup; [exact Hnd|by apply H1|done].
Qed.

(** *** Offsets *)

Definition offsets_of (groups : list (list Z)) : list Z :=
  map (λ k, Z.of_nat (length (concat (take k groups)))) (seq 0 (S (length groups))).

Lemma offsets_of_snoc groups g :
  offsets_of (groups ++ [g]) =
  offsets_of groups ++ [Z.of_nat (length (concat groups ++ g))].
Proof.
  unfold offsets_of. rewrite length_app. simpl length. rewrite Nat.add_1_r, (seq_S (S (length groups))).
  rewrite map_app. f_equal.
  - apply map_ext_in. intros k Hk. apply in_seq in Hk. by rewrite take_app_le by lia.
  - simpl. rewrite take_ge by (rewrite length_app; simpl; lia). rewrite concat_app. simpl.
    by rewrite app_nil_r.
Qed.

Lemma concat_length_mono (groups : list (list Z)) g :
  (length (concat groups) ≤ length (concat (groups ++ [g])))%nat.
Proof. rewrite concat_app, length_app. lia. Qed.

(** *** The two constructors in closed form *)

Lemma from_hot_rows_closed rows :
  Z.of_nat (length (concat (map hr_source_sub_ids rows))) ≤ U32_MAX →
  let s := from_hot_rows rows in
  node_ids s = map hr_id rows ∧ country_codes s = map hr_country_code rows ∧
  latencies_ms s = map hr_latency_ms rows ∧
  health_scores s = map (λ r, Z.min (hr_health_score r) 100) rows ∧
  protocol_kinds s = map hr_protocol rows ∧ names s = map hr_name rows ∧
  name_lower s = map (λ r, to_lowercase (hr_name r)) rows ∧
  source_sub_ids s = concat (map hr_source_sub_ids rows) ∧
  source_offsets s = offsets_of (map hr_source_sub_ids rows) ∧
  index_wf (node_ids s) (id_to_index s).
Proof.
  induction rows as [|r rows IH] using rev_ind; intros Hsz.
  { split_and!; try done. apply index_wf_nil. }
  rewrite !map_app in *. simpl map in *.
  pose proof (concat_length_mono (map hr_source_sub_ids rows) (hr_source_sub_ids r)) as Hm.
  destruct IH as (E1 & E2 & E3 & E4 & E5 & E6 & E7 & E8 & E9 & E10); [lia|].
  unfold from_hot_rows in *. rewrite foldl_snoc.
  set (s := foldl push_row (first_offset DenseNodeStore_empty) rows) in *.
  unfold push_row. cbn [node_ids country_codes latencies_ms health_scores protocol_kinds names
    name_lower source_sub_ids source_offsets id_to_index].
  rewrite offsets_of_snoc, concat_app in *. simpl concat in *. rewrite app_nil_r in *.
  rewrite E8. split_and!; try congruence.
  - rewrite E9. do 2 f_equal. apply wrap_small. lia.
  - by apply index_wf_snoc.
Qed.

Lemma push_columns_closed rows :
  let s := foldl push_columns DenseNodeStore_empty rows in
  node_ids s = map hr_id rows ∧ country_codes s = map hr_country_code rows ∧
  latencies_ms s = map hr_latency_ms rows ∧ health_scores s = map hr_health_score rows ∧
  protocol_kinds s = map hr_protocol rows ∧ names s = map hr_name rows ∧
  name_lower s = map (λ r, to_lowercase (hr_name r)) rows ∧
  source_sub_ids s = [] ∧ source_offsets s = [] ∧ index_wf (node_ids s) (id_to_index s).
Proof.
  induction rows as [|r rows IH] using rev_ind.
  { split_and!; try done. apply index_wf_nil. }
  cbn zeta. rewrite foldl_snoc. destruct IH as (E1 & E2 & E3 & E4 & E5 & E6 & E7 & E8 & E9 & E10).
  rewrite !map_app. unfold push_columns at 1 3 5 7 9 11 13 15 17 19 20 21. cbn.
  split_and!; try congruence. by apply index_wf_snoc.
Qed.

(** The fields that the bucket loop leaves alone. *)
Definition same_columns (a b : DenseNodeStore) : Prop :=
  node_ids a = node_ids b ∧ country_codes a = country_codes b ∧
  latencies_ms a = latencies_ms b ∧ health_scores a = health_scores b ∧
  protocol_kinds a = protocol_kinds b ∧ names a = names b ∧ name_lower a = name_lower b ∧
  id_to_index a = id_to_index b.

Lemma push_buckets_closed s buckets :
  source_sub_ids s = [] → source_offsets s = [] →
  Z.of_nat (length (concat buckets)) ≤ U32_MAX →
  let t := foldl push_bucket (first_offset s) buckets in
  same_columns t s ∧ source_sub_ids t = concat buckets ∧ source_offsets t = offsets_of buckets.
Proof.
  intros Hs Ho. induction buckets as [|g buckets IH] using rev_ind; intros Hsz.
  { simpl. rewrite Ho. split_and!; done. }
  pose proof (concat_length_mono buckets g) as Hm.
  destruct IH as (E1 & E2 & E3); [lia|]. cbn zeta. rewrite foldl_snoc.
  set (t := foldl push_bucket (first_offset s) buckets) in *.
  rewrite offsets_of_snoc, concat_app in *. simpl concat in *. rewrite app_nil_r in *.
  unfold push_bucket. cbn [source_sub_ids source_offsets].
  split; [exact E1|]. rewrite E2. split; [done|]. rewrite E3. do 2 f_equal.
  apply wrap_small. lia.
Qed.

(** *** Buckets *)

Lemma buckets_lookup ids idx pairs k i :
  NoDup ids → index_wf ids idx → ids !! k = Some i →
  foldl (add_source idx) (repeat [] (length ids)) pairs !! k =
  Some (map snd (List.filter (λ p, p.1 =? i) pairs)).
Proof.
  intros Hnd Hw Hk. induction pairs as [|[j q] pairs IH] using rev_ind; simpl.
  { apply lookup_repeat_lt. by eapply lookup_lt_Some. }
  rewrite foldl_snoc, List.filter_app, map_app. cbn [List.filter map]. unfold add_source at 1.
  cbn [fst snd]. destruct (Z.eqb_spec j i) as [->|Hne].
  - rewrite (index_wf_lookup ids idx i k) by done.
    rewrite list_lookup_alter_eq, IH. done.
  - rewrite app_nil_r. destruct (idx !! j) as [k'|] eqn:Ej; [|done].
    rewrite list_lookup_alter_ne; [done|]. intros ->.
    apply Hw in Ej. congruence.
Qed.

Lemma buckets_length idx n pairs :
  length (foldl (add_source idx) (repeat [] n) pairs) = n.
Proof.
  induction pairs as [|p pairs IH] using rev_ind; simpl; [apply repeat_length|].
  rewrite foldl_snoc. unfold add_source at 1. case_match; [|done]. by rewrite length_alter.
Qed.

Lemma buckets_concat_length idx n pairs :
  (length (concat (foldl (add_source idx) (repeat [] n) pairs)) ≤ length pairs)%nat.
Proof.
  induction pairs as [|[j q] pairs IH] using rev_ind; simpl.
  { by induction n. }
  rewrite foldl_snoc, length_app. unfold add_source at 1. cbn [fst snd length].
  destruct (idx !! j) as [k|]; [|lia].
  set (b := foldl (add_source idx) (repeat [] n) pairs) in *.
  assert (∀ (b : list (list Z)) k, length (concat (alter (λ l, l ++ [q]) k b)) ≤ length (concat b) + 1)%nat
    as Ha.
  { clear. unfold alter. intros b. induction b as [|x b IHb]; intros [|k]; simpl;
      rewrite ?length_app; simpl; try lia.
    specialize (IHb k). lia. }
  specialize (Ha b k). lia.
Qed.
End StoreLemmas.

(** ** Hydration *)

(** A text column of the row as the store shows it. *)
Definition shown_kind (r : NodeRow) : ProtocolKind := default KVless (from_discriminant (nr_kind r)).

(** What the dense store must say of the database, position by position. *)
Record hydrated (db : Db) (s : DenseNodeStore) : Prop := {
  hy_wf : store_wf s;
  hy_ids : node_ids s = map fst (node_rows db);
  hy_NoDup : NoDup (node_ids s);
  hy_row k i : node_ids s !! k = Some i → ∃ r, nodes db !! i = Some r ∧
    names s !! k = Some (nr_name r) ∧
    country_codes s !! k = Some (db_country_code (nr_country r)) ∧
    protocol_kinds s !! k = Some (shown_kind r) ∧
    latencies_ms s !! k = Some (default 65535 (dr_latency_ms <$> node_diagnostics db !! i)) ∧
    health_scores s !! k = Some (default 0 (dr_health_score <$> node_diagnostics db !! i));
  hy_sources k i q : node_ids s !! k = Some i →
    has_source s k q = Some (bool_decide ((i, q) ∈ node_sources db))
}.

Section Hydrate.
Context `{Unicode}.

Lemma hydrate_row_fields db i r h :
  hydrate_row db (i, r) = Ok h →
  hr_id h = i ∧ hr_name h = nr_name r ∧ hr_country_code h = db_country_code (nr_country r) ∧
  hr_protocol h = shown_kind r ∧
  hr_latency_ms h = default 65535 (dr_latency_ms <$> node_diagnostics db !! i) ∧
  hr_health_score h = default 0 (dr_health_score <$> node_diagnostics db !! i).
Proof.
  unfold hydrate_row. intros E. inv_ok. subst h. simpl.
  repeat match goal with Ht : try_from_u _ _ = Some _ |- _ =>
    apply try_from_u_Some in Ht as [-> _] end.
  done.
Qed.

Lemma hydrate_sources_id l ys : mapR hydrate_source l = Ok ys → ys = l.
Proof.
  intros HF%mapR_Ok. induction HF as [|[i q] y l ys E _ IH]; [done|]. f_equal; [|done].
  unfold hydrate_source in E. inv_ok. simpl in *.
  repeat match goal with Ht : try_from_u _ _ = Some _ |- _ =>
    apply try_from_u_Some in Ht as [-> _] end. done.
Qed.

Lemma node_rows_elem db i r : (i, r) ∈ node_rows db ↔ nodes db !! i = Some r.
Proof. unfold node_rows. by rewrite elem_of_sort_by, elem_of_map_to_list. Qed.

Lemma node_rows_NoDup db : NoDup (map fst (node_rows db)).
Proof.
  change (map fst (node_rows db)) with (fst <$> node_rows db).
  unfold node_rows. rewrite (sort_by_perm _ (map_to_list _)). apply NoDup_fst_map_to_list.
Qed.

Lemma source_rows_elem db p : p ∈ source_rows db ↔ p ∈ node_sources db.
Proof. unfold source_rows. by rewrite elem_of_sort_by, elem_of_elements. Qed.

Lemma Forall2_map_eq {A B C} (f : A → C) (g : B → C) (P : A → B → Prop) l k :
  (∀ x y, P x y → g y = f x) → Forall2 P l k → map g k = map f l.
Proof. intros HP. induction 1; simpl; f_equal; auto. Qed.

Lemma lookup_map_Some {A B} (f : A → B) l k x : l !! k = Some x → map f l !! k = Some (f x).
Proof. intros Hk. change (map f l) with (f <$> l). by rewrite list_lookup_fmap, Hk. Qed.

Lemma lookup_map_inv {A B} (f : A → B) l k y :
  map f l !! k = Some y → ∃ x, l !! k = Some x ∧ y = f x.
Proof. change (map f l) with (f <$> l). rewrite list_lookup_fmap. destruct (l !! k); naive_solver. Qed.

(** The bucket of a position holds the links of its node. *)
Lemma bucket_links db ids idx k i q :
  NoDup ids → index_wf ids idx → ids !! k = Some i →
  q ∈ default [] (foldl (add_source idx) (repeat [] (length ids)) (source_rows db) !! k) ↔
  (i, q) ∈ node_sources db.
Proof.
  intros Hnd Hw Hk. rewrite (buckets_lookup ids idx _ k i) by done. simpl.
  rewrite <-source_rows_elem, !list_elem_of_In, in_map_iff. split.
  - intros ([i' q'] & <- & Hin). apply filter_In in Hin as [Hin Hi]. simpl in *.
    apply Z.eqb_eq in Hi as ->. done.
  - intros Hin. exists (i, q). split; [done|]. apply filter_In. by rewrite Z.eqb_refl.
Qed.

(** The rows read from the query, position by position. *)
Lemma hydrated_rows db rows k i :
  Forall2 (λ x y, hydrate_row db x = Ok y) (node_rows db) rows →
  map fst (node_rows db) !! k = Some i →
  ∃ r h, nodes db !! i = Some r ∧ rows !! k = Some h ∧ hydrate_row db (i, r) = Ok h.
Proof.
  intros Hrows Hk. apply lookup_map_inv in Hk as ([i' r] & Ek & ->). simpl.
  eapply Forall2_lookup_l in Hrows as (h & Hh & Hrow); [|exact Ek].
  exists r, h. split; [|done]. apply node_rows_elem. by eapply list_elem_of_lookup_2.
Qed.

Lemma store_wf_closed s (rows : list HotNodeRow) :
  node_ids s = map hr_id rows → length (country_codes s) = length rows →
  length (latencies_ms s) = length rows → length (health_scores s) = length rows →
  length (protocol_kinds s) = length rows → length (names s) = length rows →
  length (name_lower s) = length rows → index_wf (node_ids s) (id_to_index s) → store_wf s.
Proof.
  intros E L1 L2 L3 L4 L5 L6 [I1 I2].
  assert (store_len s = length rows) as L by (unfold store_len; by rewrite E, length_map).
  split; rewrite ?L; auto.
Qed.
End Hydrate.

Lemma push_buckets_ids s buckets : node_ids (foldl push_bucket s buckets) = node_ids s.
Proof. revert s. induction buckets as [|b l IH]; intros s; simpl; [done|]. by rewrite IH. Qed.

(** What hydration says about the ids. *)
Lemma hydrate_ids `{Unicode} db s : hydrate_from_db db = Ok s → node_ids s = map fst (node_rows db).
Proof.
  intros E. unfold hydrate_from_db in E.
  bind_inv E as rows Hrows. bind_inv E as pairs Hpairs. injection E as <-. apply mapR_Ok in Hrows.
  destruct (push_columns_closed rows) as (E1 & _).
  rewrite push_buckets_ids. simpl. rewrite E1. eapply Forall2_map_eq; [|exact Hrows].
  intros [i r] h Hh. by apply hydrate_row_fields in Hh as [-> _].
Qed.

Lemma hydrate_small_ids `{Unicode} db s :
  hydrate_from_db db = Ok s → Forall (λ row : Z * NodeRow, in_u 32 row.1) (node_rows db).
Proof.
  intros E. unfold hydrate_from_db in E. bind_inv E as rows Hrows. clear E. apply mapR_Ok in Hrows.
  apply Forall_forall. intros [i r] Hin. apply list_elem_of_lookup in Hin as [k Hk].
  eapply Forall2_lookup_l in Hrows as (h & _ & Eh); [|exact Hk]. unfold hydrate_row in Eh.
  bind_inv Eh as id Ei. apply ok_or_Ok, try_from_u_Some in Ei as [-> Hi]. done.
Qed.

Lemma hydrate_from_db_spec `{Unicode} db s :
  hydrate_from_db db = Ok s →
  Z.of_nat (size (node_sources db)) ≤ U32_MAX →
  hydrated db s ∧ ∃ groups, sources_are s groups.
Proof.
  intros E Hsz. unfold hydrate_from_db in E.
  bind_inv E as rows Hrows. bind_inv E as pairs Hpairs. injection E as <-.
  apply hydrate_sources_id in Hpairs as ->. apply mapR_Ok in Hrows.
  destruct (push_columns_closed rows) as (E1 & E2 & E3 & E4 & E5 & E6 & E7 & E8 & E9 & E10).
  set (cols := foldl push_columns DenseNodeStore_empty rows) in *.
  pose proof (buckets_concat_length (id_to_index cols) (length (node_ids cols)) (source_rows db)) as Hb.
  assert (length (source_rows db) = size (node_sources db)) as Hlen
    by (unfold source_rows; by rewrite sort_by_length).
  set (buckets := foldl (add_source (id_to_index cols)) _ _) in *.
  destruct (push_buckets_closed cols buckets E8 E9) as (Hsame & S1 & S2); [lia|].
  set (t := foldl push_bucket (first_offset cols) buckets) in *.
  destruct Hsame as (C1 & C2 & C3 & C4 & C5 & C6 & C7 & C8).
  assert (node_ids t = map fst (node_rows db)) as Hids.
  { rewrite C1, E1. eapply Forall2_map_eq; [|exact Hrows]. intros [i r] h Hh.
    by apply hydrate_row_fields in Hh as [-> _]. }
  assert (NoDup (node_ids t)) as Hnd by (rewrite Hids; apply node_rows_NoDup).
  assert (sources_are t buckets) as Hsrc.
  { split; [|done]. unfold buckets. rewrite buckets_length. unfold store_len. by rewrite C1. }
  split; [|by exists buckets]. split; try done.
  - apply (store_wf_closed t rows); rewrite ?C1, ?C2, ?C3, ?C4, ?C5, ?C6, ?C7, ?C8,
      ?E2, ?E3, ?E4, ?E5, ?E6, ?E7, ?length_map; try done.
  - intros k i Hk. rewrite Hids in Hk.
    destruct (hydrated_rows db rows k i Hrows Hk) as (r & h & Hr & Hh & Hrow).
    exists r. split; [done|]. apply hydrate_row_fields in Hrow as (_ & <- & <- & <- & <- & <-).
    rewrite C2, C3, C4, C5, C6, E2, E3, E4, E5, E6. split_and!; by apply lookup_map_Some.
  - intros k i q Hk. rewrite (has_source_spec t buckets); [|done|by eapply lookup_lt_Some].
    f_equal. apply bool_decide_ext. rewrite C1 in Hk, Hnd. by apply bucket_links.
Qed.

(** C18. Hydration refines the database. The store lists every node once, in
    increasing id order; each position shows its node's own name, country, protocol
    and diagnostics; and [has_source] answers, without ever indexing out of range,
    exactly whether the database links the node to the subscription. *)
Theorem hydrate_refines_db `{Unicode} db s :
  hydrate_from_db db = Ok s →
  Z.of_nat (size (node_sources db)) ≤ U32_MAX →
  hydrated db s.
Proof. apply hydrate_from_db_spec. Qed.

(** ** Query properties *)

(** The rows a query selects. *)
Definition selected `{Unicode} (s : DenseNodeStore) (groups : list (list Z)) (search_term : string)
    (country : option string) (sub : option Z) (i : nat) : Prop :=
  (i < store_len s)%nat ∧
  (∀ q, sub = Some q → q ∈ default [] (groups !! i)) ∧
  (∀ c, country = Some c → country_codes s !! i = Some c) ∧
  (to_lowercase search_term = EmptyString ∨
   ∃ name, name_lower s !! i = Some name ∧ str_contains (to_lowercase search_term) name = true).

Section QueryLemmas.
Context `{Unicode}.

Lemma row_matches_spec s groups search_term country sub i :
  store_wf s → sources_are s groups → (i < store_len s)%nat →
  ∃ b, row_matches s (to_lowercase search_term) country sub i = Some b ∧
       (b = true ↔ selected s groups search_term country sub i).
Proof.
  intros Hw Hs Hi. unfold row_matches, selected.
  destruct (lookup_lt_is_Some_2 (country_codes s) i) as [code Hc]; [by rewrite sw_country|].
  destruct (lookup_lt_is_Some_2 (name_lower s) i) as [name Hn]; [by rewrite sw_lower|].
  assert (∃ b, match sub with None => Some true | Some q => has_source s i q end = Some b ∧
    (b = true ↔ ∀ q, sub = Some q → q ∈ default [] (groups !! i))) as (b1 & -> & B1).
  { destruct sub as [q|]; [|exists true; naive_solver]. rewrite (has_source_spec s groups) by done.
    eexists. split; [done|]. rewrite bool_decide_eq_true. naive_solver. }
  assert (∃ b, match country with None => Some true
      | Some c => code ← country_codes s !! i; Some (String.eqb code c) end = Some b ∧
    (b = true ↔ ∀ c, country = Some c → country_codes s !! i = Some c)) as (b2 & E2 & B2).
  { destruct country as [c|]; [|exists true; naive_solver]. rewrite Hc. simpl.
    eexists. split; [done|]. rewrite String.eqb_eq. naive_solver. }
  simpl. destruct b1; simpl; [|exists false; naive_solver]. rewrite E2. simpl.
  destruct b2; simpl; [|exists false; naive_solver].
  destruct (String.eqb_spec (to_lowercase search_term) EmptyString) as [->|Hne].
  - exists true. naive_solver.
  - rewrite Hn. simpl. eexists. split; [done|]. naive_solver.
Qed.

Lemma run_query_indices s groups search_term country sub sort latency health :
  store_wf s → sources_are s groups →
  ∃ idx, run_query s search_term country sub sort latency health =
           Some (sort_by (row_order s latency health sort) idx) ∧
    NoDup idx ∧ ∀ i, i ∈ idx ↔ selected s groups search_term country sub i.
Proof.
  intros Hw Hs. unfold run_query.
  assert (∀ i, i ∈ seq 0 (store_len s) ↔ (i < store_len s)%nat) as Hseq.
  { intros i. rewrite list_elem_of_In, in_seq. lia. }
  rewrite filter_indices_Some.
  2:{ intros i Hi%Hseq. destruct (row_matches_spec s groups search_term country sub i) as (b & -> & _);
        [done..|by eexists]. }
  simpl. eexists. split; [done|]. split.
  - apply NoDup_ListNoDup, List.NoDup_filter, seq_NoDup.
  - intros i. rewrite list_elem_of_In, filter_In, <-list_elem_of_In, Hseq. split.
    + intros [Hi Hb]. destruct (row_matches_spec s groups search_term country sub i) as (b & E & HB);
        [done..|]. rewrite E in Hb. by apply HB.
    + intros Hsel. destruct (row_matches_spec s groups search_term country sub i) as (b & -> & HB);
        [done..|apply Hsel|]. split; [apply Hsel|]. by apply HB.
Qed.
End QueryLemmas.

(** C35. A query never panics on a well-formed store: it returns exactly the
    selected rows, each once, in the order of the criterion with the node id as tie
    breaker; and no other arrangement of those rows is in that order, so the
    unstable sort of the source is deterministic. This holds for the metrics of the
    store and for any metric arena, whatever its length. *)
Theorem query_spec `{Unicode} s groups search_term country sub sort latency health :
  store_wf s → sources_are s groups → NoDup (node_ids s) →
  ∃ l, run_query s search_term country sub sort latency health = Some l ∧
    NoDup l ∧ (∀ i, i ∈ l ↔ selected s groups search_term country sub i) ∧
    StronglySorted (λ i j, row_order s latency health sort i j ≠ Gt) l ∧
    (∀ k, k ≡ₚ l → StronglySorted (λ i j, row_order s latency health sort i j ≠ Gt) k → k = l).
Proof.
  intros Hw Hs Hnd.
  destruct (run_query_indices s groups search_term country sub sort latency health)
    as (idx & -> & Hdup & Hidx); [done..|].
  eexists. split; [done|]. split; [by rewrite sort_by_perm|].
  split; [intros i; by rewrite elem_of_sort_by|]. split; [by apply sort_by_sorted, _|].
  intros k Hk Hsort. apply sort_by_unique; [apply _| |by rewrite Hk, sort_by_perm|done].
  intros i j Hi%Hidx Hj%Hidx. apply row_order_inj; [done|apply Hi|apply Hj].
Qed.

(** Sorted by increasing latency, a row that was never tested comes after
    every tested one, and the tested rows appear by increasing latency; sorted by
    decreasing latency the untested rows come first instead. *)
Lemma untested_last `{Unicode} s groups search_term country sub latency health l i j a b :
  store_wf s → sources_are s groups →
  (run_query s search_term country sub LatencyAsc latency health = Some l →
   l !! i = Some a → l !! j = Some b → (i < j)%nat →
   latency a = UNTESTED_LATENCY → latency b = UNTESTED_LATENCY) ∧
  (run_query s search_term country sub LatencyAsc latency health = Some l →
   l !! i = Some a → l !! j = Some b → (i < j)%nat →
   latency b ≠ UNTESTED_LATENCY → latency a ≤ latency b) ∧
  (run_query s search_term country sub LatencyDesc latency health = Some l →
   l !! i = Some a → l !! j = Some b → (i < j)%nat →
   latency b = UNTESTED_LATENCY → latency a = UNTESTED_LATENCY).
Proof.
  intros Hw Hs.
  assert (∀ sort, run_query s search_term country sub sort latency health = Some l →
    l !! i = Some a → l !! j = Some b → (i < j)%nat →
    row_order s latency health sort a b ≠ Gt) as Hord.
  { intros sort Hq Ha Hb Hij.
    destruct (run_query_indices s groups search_term country sub sort latency health)
      as (idx & Hr & _); [done..|]. rewrite Hr in Hq. injection Hq as <-.
    pose proof (sort_by_sorted (row_order s latency health sort) idx) as HS.
    by eapply (StronglySorted_lookup_lt _ _ _ _ _ _ HS Ha Hb Hij). }
  split_and!; intros Hq Ha Hb Hij; specialize (Hord _ Hq Ha Hb Hij); revert Hord;
    unfold row_order, cmp_then, cmp_rev, cmp_on, latency_order, then_with;
    destruct (Z.eqb_spec (latency a) UNTESTED_LATENCY), (Z.eqb_spec (latency b) UNTESTED_LATENCY);
    try done; intros Hne Hb'; try done.
  destruct (Z.compare_spec (latency a) (latency b)); lia || done.
Qed.

(** ** Snapshot properties *)

(** The last update of a node in a batch. *)
Definition last_update (id : Z) (updates : list MetricUpdate) : option MetricUpdate :=
  List.find (λ u, mu_node_id u =? id) (rev updates).

Lemma last_update_snoc id us u :
  last_update id (us ++ [u]) = if mu_node_id u =? id then Some u else last_update id us.
Proof. unfold last_update. rewrite rev_app_distr. done. Qed.

Lemma apply_update_wf s m k l h v : arena_wf s m → arena_wf s (apply_update m k l h v).
Proof.
  unfold arena_wf, apply_update. intros Hm. case_match; [done|]. simpl.
  rewrite !length_insert. done.
Qed.

Lemma apply_updates_wf s us m : arena_wf s m → arena_wf s (apply_updates s us m).
Proof.
  revert m. induction us as [|u us IH]; intros m Hm; simpl; [done|].
  apply IH. case_match; [by apply apply_update_wf|done].
Qed.

Lemma from_store_wf s : store_wf s → arena_wf s (from_store s).
Proof.
  intros Hw. unfold arena_wf, from_store. simpl. rewrite !repeat_length.
  split_and!; try done; apply Hw.
Qed.

Lemma update_metrics_wf s i l h : store_wf s → store_wf (update_metrics s i l h).
Proof.
  intros [H1 H2 H3 H4 H5 H6 H7 H8]. unfold update_metrics. case_match; [|done].
  split; simpl; rewrite ?length_insert; done.
Qed.

(** What a batch leaves at one position. *)
Definition metric_at (m : MetricsArena) (k : nat) : option Z * option Z * option bool :=
  (ma_latencies_ms m !! k, ma_health_scores m !! k, ma_verified m !! k).

Lemma metric_at_update s m j k l h v :
  arena_wf s m → (j < store_len s)%nat →
  metric_at (apply_update m j l h v) k =
  if decide (k = j) then (Some l, Some (Z.min h 100), Some v) else metric_at m k.
Proof.
  intros (L1 & L2 & _ & _ & _ & _ & L7) Hj. unfold metric_at, apply_update, arena_len.
  rewrite L1. rewrite (proj2 (Nat.leb_gt _ _)) by done. simpl. case_decide as Hk.
  - subst. rewrite !list_lookup_insert_eq by lia. done.
  - by rewrite !list_lookup_insert_ne by done.
Qed.

(** Publishing a batch of metrics keeps the snapshot aligned, leaves the node
    store alone, and changes exactly the positions of the nodes it names, to the
    last update of each, with the health score capped at 100 and its provenance
    recorded; updates for unknown nodes are ignored. *)
Lemma publish_metrics_spec x updates :
  snapshot_wf x → NoDup (node_ids (ss_store x)) →
  let x' := publish_metrics updates x in
  snapshot_wf x' ∧ ss_store x' = ss_store x ∧
  ∀ k i, node_ids (ss_store x) !! k = Some i →
    metric_at (ss_metrics x') k =
    match last_update i updates with
    | Some u => (Some (mu_latency_ms u), Some (Z.min (mu_health_score u) 100), Some (mu_verified u))
    | None => metric_at (ss_metrics x) k
    end.
Proof.
  intros [Hw Hm] Hnd. simpl. split; [split; [done|by apply apply_updates_wf]|]. split; [done|].
  intros k i Hk.
  assert (index_wf (node_ids (ss_store x)) (id_to_index (ss_store x))) as Hi
    by (split; apply Hw).
  induction updates as [|u us IH] using rev_ind; [done|].
  rewrite last_update_snoc. unfold apply_updates in *. rewrite foldl_snoc. unfold index_of.
  set (m := foldl _ (ss_metrics x) us) in *.
  assert (arena_wf (ss_store x) m) as Hm' by (apply (apply_updates_wf _ us _ Hm)).
  destruct (Z.eqb_spec (mu_node_id u) i) as [->|Hne].
  - rewrite (index_wf_lookup _ _ i k Hnd Hi Hk).
    rewrite (metric_at_update (ss_store x)) by (done || by eapply lookup_lt_Some).
    by rewrite decide_True.
  - destruct (id_to_index (ss_store x) !! mu_node_id u) as [j|] eqn:Ej; [|done].
    apply Hi in Ej. rewrite (metric_at_update (ss_store x)) by (done || by eapply lookup_lt_Some).
    rewrite decide_False; [done|]. intros ->. congruence.
Qed.

(** Replacing the store realigns the arena whatever it was. *)
Lemma snapshot_replace_wf s x : store_wf s → snapshot_wf (snapshot_replace s x).
Proof. intros Hw. split; [done|]. by apply from_store_wf. Qed.

Lemma update_metrics_batch_wf us x : snapshot_wf x → snapshot_wf (update_metrics_batch us x).
Proof.
  intros [Hw _]. apply snapshot_replace_wf. revert Hw. generalize (ss_store x).
  induction us as [|u us IH]; intros s Hw; simpl; [done|]. by apply IH, update_metrics_wf.
Qed.

Lemma from_hot_rows_wf `{Unicode} rows :
  Z.of_nat (length (concat (map hr_source_sub_ids rows))) ≤ U32_MAX →
  store_wf (from_hot_rows rows) ∧
  sources_are (from_hot_rows rows) (map hr_source_sub_ids rows).
Proof.
  intros Hsz. destruct (from_hot_rows_closed rows Hsz) as (E1 & E2 & E3 & E4 & E5 & E6 & E7 & E8 & E9 & E10).
  split.
  - apply (store_wf_closed _ rows); rewrite ?E2, ?E3, ?E4, ?E5, ?E6, ?E7, ?length_map; try done.
  - split; [|done]. unfold store_len. by rewrite E1, !length_map.
Qed.

(** *** Concrete instances *)

#[local] Instance sample_unicode : Unicode := {| to_lowercase := to_ascii_lowercase |}.

Definition sample_row (i latency : Z) (name : string) (subs : list Z) : HotNodeRow :=
  {| hr_id := i; hr_country_code := "DE"; hr_latency_ms := latency; hr_health_score := 50;
     hr_name := name; hr_protocol := KVless; hr_source_sub_ids := subs |}.
Definition sample_rows : list HotNodeRow :=
  [sample_row 4 65535 "Berlin" [1]; sample_row 9 80 "Bonn" [1; 2]; sample_row 11 30 "Ulm" []].
Definition sample_store : DenseNodeStore := from_hot_rows sample_rows.

Lemma sample_store_wf :
  store_wf sample_store ∧ sources_are sample_store [[1]; [1; 2]; []] ∧ NoDup (node_ids sample_store).
Proof.
  destruct (from_hot_rows_wf sample_rows) as [Hw Hs]; [simpl; lia|].
  split; [exact Hw|]. split; [exact Hs|]. apply (bool_decide_unpack _). by vm_compute.
Qed.

Definition sample_db : Db :=
  {| subscriptions := {[ 7 := rec_row sample_record ]};
     nodes := {[ 3 := node_row (stored_node "a" "one") "p"; 5 := node_row (stored_node "b" "two") "q" ]};
     node_sources := {[ (3, 7); (5, 7) ]};
     node_diagnostics := {[ 3 := DiagRow_default ]} |}.
Definition sample_hydrated : DenseNodeStore :=
  match hydrate_from_db sample_db with Ok s => s | Err _ => DenseNodeStore_empty end.

Lemma hydrate_refines_db_witness : hydrated sample_db sample_hydrated.
Proof. apply (hydrate_refines_db sample_db); vm_compute; [reflexivity|discriminate]. Defined.

Lemma query_spec_witness :
  ∃ l, query sample_store "B" (Some "DE"%stdpp) (Some 1) LatencyAsc = Some l ∧ NoDup l.
Proof.
  destruct sample_store_wf as (Hw & Hs & Hnd).
  destruct (query_spec sample_store _ "B" (Some "DE"%stdpp) (Some 1) LatencyAsc
    (λ i, default 0 (latencies_ms sample_store !! i))
    (λ i, default 0 (health_scores sample_store !! i)) Hw Hs Hnd) as (l & E & Hl & _).
  exists l. exact (conj E Hl).
Defined.

Lemma untested_last_witness :
  query sample_store "" None None LatencyAsc = Some [2%nat; 1%nat; 0%nat] ∧
  default 0 (latencies_ms sample_store !! 2%nat) ≤ default 0 (latencies_ms sample_store !! 1%nat).
Proof.
  split; [vm_compute; reflexivity|].
  destruct sample_store_wf as (Hw & Hs & _).
  refine (proj1 (proj2 (untested_last sample_store _ "" None None
    (λ i, default 0 (latencies_ms sample_store !! i))
    (λ i, default 0 (health_scores sample_store !! i)) [2%nat; 1%nat; 0%nat] 0 1 2 1 Hw Hs))
    _ _ _ _ _);
    [vm_compute; reflexivity|reflexivity|reflexivity|lia|vm_compute; discriminate].
Defined.

Lemma publish_metrics_spec_witness :
  metric_at (ss_metrics (publish_metrics
    [{| mu_node_id := 9; mu_latency_ms := 70; mu_health_score := 250; mu_verified := true |}]
    (snapshot_new sample_store))) 1 = (Some 70, Some 100, Some true).
Proof.
  destruct sample_store_wf as (Hw & _ & Hnd).
  exact (proj2 (proj2 (publish_metrics_spec (snapshot_new sample_store)
    [{| mu_node_id := 9; mu_latency_ms := 70; mu_health_score := 250; mu_verified := true |}]
    (conj Hw (from_store_wf _ Hw)) Hnd)) 1%nat 9 eq_refl).
Defined.

(** A publication that loaded the arena before a replacement and stores after it
    leaves an arena of the wrong length: the two cells are swapped separately. *)
Lemma publish_replace_race :
  let x := snapshot_new sample_store in
  let loaded := ss_metrics x in
  let replaced := snapshot_replace (from_hot_rows [sample_row 1 20 "Kiel" [1]]) x in
  let stored := store_metrics (apply_updates (ss_store replaced) [] loaded) replaced in
  snapshot_wf x ∧ snapshot_wf replaced ∧ ¬ snapshot_wf stored.
Proof.
  simpl. destruct sample_store_wf as (Hw & _).
  split; [split; [done|by apply from_store_wf]|]. split.
  - apply snapshot_replace_wf, from_hot_rows_wf. simpl. lia.
  - intros [_ [Hlen _]]. vm_compute in Hlen. discriminate.
Qed.
