(* ===== verification/Storage.v ===== *)
(** Opening the database and publishing from it: [crates/storage/src/db.rs] with its
    migration of databases older than the [protocol_kind] column, and the refresh that
    publishes ([subscription_service.rs]).

    A file is the tables it has; every statement of the opening commits on its own, so
    a fault leaves what the statements before it did. *)

From S2P Require Import Prelude RustStr Ir Metadata Uri Clash Ingest Repository Store.

(** ** db.rs *)

(** A row of a node table without the column. *)
Record LegacyRow := { lr_hash : string; lr_name : string; lr_country : string; lr_payload : string }.
Inductive NodeTable := Legacy (rows : gmap Z LegacyRow) | Current (rows : gmap Z NodeRow).

Record DbFile := {
  df_subscriptions : option (gmap Z SubscriptionRow);
  df_nodes : option NodeTable;
  df_sources : option (gset (Z * Z));
  df_diagnostics : option (gmap Z DiagRow)
}.
Definition DbFile_empty : DbFile :=
  {| df_subscriptions := None; df_nodes := None; df_sources := None; df_diagnostics := None |}.
Definition with_table (t : NodeTable) (f : DbFile) : DbFile :=
  {| df_subscriptions := df_subscriptions f; df_nodes := Some t; df_sources := df_sources f;
     df_diagnostics := df_diagnostics f |}.

(** The database of a file whose tables are all there and current. *)
Definition db_of (f : DbFile) : Db :=
  {| subscriptions := default ∅ (df_subscriptions f);
     nodes := match df_nodes f with Some (Current rows) => rows | _ => ∅ end;
     node_sources := default ∅ (df_sources f);
     node_diagnostics := default ∅ (df_diagnostics f) |}.

(** The faults of an opening: SQLite refuses the file, a pragma fails, the batch of
    tables stops after some of them, the column cannot be added, or the loop over the
    rows fails at one of them. *)
Record OpenIo := {
  op_open : option string; op_pragma : string → option string;
  op_tables : option (nat * string); op_alter : option string; op_row : nat → option string
}.
Definition op_fine : OpenIo :=
  {| op_open := None; op_pragma _ := None; op_tables := None; op_alter := None; op_row _ := None |}.

Definition sql_fault (o : option string) : result Error () :=
  match o with Some msg => Err [msg] | None => Ok () end.

(** The pragmas, in order; the first that fails ends the opening. *)
Definition PRAGMAS : list (string * string) :=
  [("foreign_keys", "ON"); ("journal_mode", "WAL"); ("synchronous", "NORMAL");
   ("mmap_size", "268435456"); ("temp_store", "MEMORY"); ("cache_size", "-64000")]%stdpp.
Definition configure_connection (io : OpenIo) : result Error () :=
  foldr (λ p k, _ ← sql_fault (op_pragma io p.1); k) (Ok ()) PRAGMAS.

(** [CREATE TABLE IF NOT EXISTS], the first [k] of the four. *)
Definition created {A} (n k : nat) (empty : A) (t : option A) : option A :=
  match t with Some _ => t | None => if (n <? k)%nat then Some empty else None end.
Definition create_tables (k : nat) (f : DbFile) : DbFile :=
  {| df_subscriptions := created 0 k ∅ (df_subscriptions f);
     df_nodes := created 1 k (Current ∅) (df_nodes f);
     df_sources := created 2 k ∅ (df_sources f);
     df_diagnostics := created 3 k ∅ (df_diagnostics f) |}.

(** [ALTER TABLE nodes ADD COLUMN protocol_kind INTEGER NOT NULL DEFAULT 0]. *)
Definition add_column (r : LegacyRow) : NodeRow :=
  {| nr_hash := lr_hash r; nr_name := lr_name r; nr_country := lr_country r; nr_kind := 0;
     nr_payload := lr_payload r |}.
(** [UPDATE nodes SET protocol_kind = ?2 WHERE id = ?1]. *)
Definition set_kind (k : Z) (r : NodeRow) : NodeRow :=
  {| nr_hash := nr_hash r; nr_name := nr_name r; nr_country := nr_country r; nr_kind := k;
     nr_payload := nr_payload r |}.

(** [SELECT id, raw_payload FROM nodes], in the order of the ids. *)
Definition payload_rows (rows : gmap Z NodeRow) : list (Z * string) :=
  map (λ p : Z * NodeRow, (p.1, nr_payload p.2)) (sort_by (cmp_on fst Z.compare) (map_to_list rows)).

Section Migration.
Context `{NodeCodec}.

(** The loop over the rows, from the [k]-th: a payload that does not decode is
    passed over. *)
Fixpoint backfill (fault : nat → option string) (k : nat) (l : list (Z * string))
    (rows : gmap Z NodeRow) : result Error () * gmap Z NodeRow :=
  match l with
  | [] => (Ok (), rows)
  | (i, payload) :: l =>
    match fault k with
    | Some msg => (Err [msg], rows)
    | None =>
      match deserialize_node payload with
      | Err _ => backfill fault (S k) l rows
      | Ok n => backfill fault (S k) l (alter (set_kind (discriminant (kind_of (protocol n)))) i rows)
      end
    end
  end.

Definition ensure_protocol_kind_column (io : OpenIo) (f : DbFile) : result Error () * DbFile :=
  match df_nodes f with
  | Some (Legacy rows) =>
    match sql_fault (op_alter io) with
    | Err e => (Err e, f)
    | Ok _ =>
      let rows := add_column <$> rows in
      let '(r, rows) := backfill (op_row io) 0 (payload_rows rows) rows in
      (r, with_table (Current rows) f)
    end
  | _ => (Ok (), f)
  end.

Definition initialize_schema (io : OpenIo) (f : DbFile) : result Error () * DbFile :=
  match op_tables io with
  | Some (k, msg) => (Err [msg], create_tables k f)
  | None => ensure_protocol_kind_column io (create_tables 4 f)
  end.

(** The connection stands for the file. *)
Definition open_database (io : OpenIo) (f : DbFile) : result Error () * DbFile :=
  match (_ ← context "failed to open SQLite database" (sql_fault (op_open io));
         configure_connection io) with
  | Err e => (Err e, f)
  | Ok _ => initialize_schema io f
  end.

Definition open_memory_database (io : OpenIo) : result Error () * DbFile :=
  match (_ ← context "failed to open in-memory database" (sql_fault (op_open io));
         configure_connection io) with
  | Err e => (Err e, DbFile_empty)
  | Ok _ => initialize_schema io DbFile_empty
  end.

(** ** Lemmas *)

(** The kind of a payload; zero, the kind of VLESS, when it does not decode. *)
Definition payload_kind (payload : string) : Z :=
  match deserialize_node payload with
  | Ok n => discriminant (kind_of (protocol n))
  | Err _ => 0
  end.
Definition migrate_row (r : LegacyRow) : NodeRow := set_kind (payload_kind (lr_payload r)) (add_column r).

Lemma elem_of_payload_rows rows i p :
  (i, p) ∈ payload_rows rows ↔ ∃ r, rows !! i = Some r ∧ p = nr_payload r.
Proof.
  unfold payload_rows. rewrite list_elem_of_fmap. setoid_rewrite elem_of_sort_by. split.
  - intros ([j r] & [= -> ->] & Hin%elem_of_map_to_list). eauto.
  - intros (r & Hr & ->). exists (i, r). by rewrite elem_of_map_to_list.
Qed.

Lemma NoDup_payload_rows rows : NoDup (payload_rows rows).*1.
Proof.
  unfold payload_rows. rewrite <-list_fmap_compose.
  change (NoDup (fst <$> sort_by (cmp_on fst Z.compare) (map_to_list rows))).
  rewrite sort_by_perm. apply NoDup_fst_map_to_list.
Qed.

(** The loop in parts: a fault stops it before its row. *)
Lemma backfill_lookup fault k l rows j :
  NoDup l.*1 →
  (∀ i p, (i, p) ∈ l → ∃ r, rows !! i = Some r ∧ p = nr_payload r ∧ nr_kind r = 0) →
  let '(res, rows') := backfill fault k l rows in
  (res = Ok () → ∀ i, fault (k + i)%nat = None ∨ (length l ≤ i)%nat) ∧
  ((∀ i, fault i = None) → res = Ok ()) ∧
  ∃ m, (m ≤ length l)%nat ∧ (res = Ok () → m = length l) ∧
    rows' !! j = if decide (j ∈ (take m l).*1)
                 then (λ r, set_kind (payload_kind (nr_payload r)) r) <$> rows !! j
                 else rows !! j.
Proof.
  revert k rows. induction l as [|[i p] l IH]; intros k rows Hd Hl; cbn [backfill length].
  { split_and!; [intros _ i; right; lia|done|]. exists O. split_and!; [lia|done|].
    case_decide as Hin; [by apply not_elem_of_nil in Hin|done]. }
  apply NoDup_cons in Hd as [Hi Hd].
  destruct (fault k) as [msg|] eqn:Ef.
  { split_and!; [done|intros Hn; by rewrite Hn in Ef|]. exists O. split_and!; [lia|done|].
    case_decide as Hin; [by apply not_elem_of_nil in Hin|done]. }
  destruct (Hl i p) as (r & Hr & -> & Hk); [left|].
  set (rows1 := alter (set_kind (payload_kind (nr_payload r))) i rows).
  assert (rows1 !! i = Some (set_kind (payload_kind (nr_payload r)) r)) as Hri
    by (unfold rows1; by rewrite lookup_alter_eq, Hr).
  assert (match deserialize_node (nr_payload r) with
          | Err _ => backfill fault (S k) l rows
          | Ok n => backfill fault (S k) l (alter (set_kind (discriminant (kind_of (protocol n)))) i rows)
          end = backfill fault (S k) l rows1) as ->.
  { unfold rows1, payload_kind. destruct (deserialize_node _) as [n|e]; [done|].
    f_equal. symmetry. apply map_eq. intros x. destruct (decide (x = i)) as [->|Hx].
    - rewrite lookup_alter_eq, Hr. simpl. f_equal. destruct r; simpl in *. by rewrite Hk.
    - by rewrite lookup_alter_ne. }
  specialize (IH (S k) rows1 Hd). destruct (backfill fault (S k) l rows1) as [res rows'].
  destruct IH as (Hok & Hfine & m & Hm & Hmk & Hj).
  { intros x q Hx. assert (x ≠ i) as Hne by (intros ->; apply Hi; by apply (list_elem_of_fmap_2 fst _ (i, q))).
    unfold rows1. rewrite lookup_alter_ne by done. apply Hl. by right. }
  split_and!; [|done|].
  { intros Hres [|x]; [left; by rewrite Nat.add_0_r|]. destruct (Hok Hres x) as [?|?]; [left|right; lia].
    by rewrite Nat.add_succ_r. }
  exists (S m). split_and!; [lia|intros Hres; by rewrite (Hmk Hres)|]. rewrite Hj. simpl.
  destruct (decide (j = i)) as [->|Hne].
  - rewrite decide_False.
    2: { intros Hin. apply Hi. eapply elem_of_submseteq; [exact Hin|]. by apply fmap_submseteq, submseteq_take. }
    rewrite decide_True by left. by rewrite Hri, Hr.
  - unfold rows1. rewrite lookup_alter_ne by done.
    case_decide as Ha; case_decide as Hb; try done; exfalso; rewrite elem_of_cons in Hb;
      naive_solver.
Qed.

(** Every row in the table is migrated when nothing fails, and a fault leaves each
    row migrated or with the default. *)
Lemma backfill_table fault (rows : gmap Z LegacyRow) :
  let '(res, rows') := backfill fault 0 (payload_rows (add_column <$> rows)) (add_column <$> rows) in
  ((∀ k, fault k = None) → res = Ok ()) ∧
  (res = Ok () → rows' = migrate_row <$> rows) ∧
  ∀ i, rows' !! i = migrate_row <$> rows !! i ∨ rows' !! i = add_column <$> rows !! i.
Proof.
  set (l := payload_rows (add_column <$> rows)).
  pose proof (λ j, backfill_lookup fault 0 l (add_column <$> rows) j (NoDup_payload_rows _)) as Hb.
  assert (∀ i p, (i, p) ∈ l → ∃ r, (add_column <$> rows) !! i = Some r ∧ p = nr_payload r ∧ nr_kind r = 0) as Hl.
  { intros i p (r & Hr & ->)%elem_of_payload_rows. exists r. split_and!; [done|done|].
    rewrite lookup_fmap in Hr. destruct (rows !! i); by simplify_eq/=. }
  destruct (backfill fault 0 l _) as [res rows'].
  assert (∀ i, (λ r, set_kind (payload_kind (nr_payload r)) r) <$> (add_column <$> rows) !! i =
               migrate_row <$> rows !! i) as Hm by (intros i; rewrite lookup_fmap; by destruct (rows !! i)).
  split_and!.
  - intros Hn. by apply (Hb 0).
  - intros Hres. apply map_eq. intros i. destruct (Hb i Hl) as (_ & _ & m & _ & Hmk & ->).
    rewrite (lookup_fmap migrate_row), (Hmk Hres), firstn_all. case_decide as Hi; [apply Hm|].
    rewrite lookup_fmap. destruct (rows !! i) as [r|] eqn:E; [exfalso; apply Hi|done].
    apply (list_elem_of_fmap_2 fst l (i, lr_payload r)), elem_of_payload_rows.
    exists (add_column r). by rewrite lookup_fmap, E.
  - intros i. destruct (Hb i Hl) as (_ & _ & m & _ & _ & ->). case_decide; [left; apply Hm|right].
    by rewrite lookup_fmap.
Qed.

(** *** Kinds *)

(** Every stored kind is the one of its payload. *)
Definition kinds_true (db : Db) : Prop := map_Forall (λ _ r, nr_kind r = payload_kind (nr_payload r)) (nodes db).

(** The file of a database, and the one a version without the column would have. *)
Definition file_of (db : Db) : DbFile :=
  {| df_subscriptions := Some (subscriptions db); df_nodes := Some (Current (nodes db));
     df_sources := Some (node_sources db); df_diagnostics := Some (node_diagnostics db) |}.
Definition drop_column (r : NodeRow) : LegacyRow :=
  {| lr_hash := nr_hash r; lr_name := nr_name r; lr_country := nr_country r; lr_payload := nr_payload r |}.
Definition legacy_file (db : Db) : DbFile := with_table (Legacy (drop_column <$> nodes db)) (file_of db).

Lemma db_of_file db : db_of (file_of db) = db.
Proof. by destruct db. Qed.

Lemma migrate_dropped db : kinds_true db → migrate_row <$> (drop_column <$> nodes db) = nodes db.
Proof.
  intros Hk. apply map_eq. intros i. rewrite !lookup_fmap. destruct (nodes db !! i) as [r|] eqn:E; [|done].
  simpl. f_equal. apply Hk in E. destruct r; simpl in *. unfold migrate_row, set_kind, add_column. simpl.
  by rewrite E.
Qed.

Lemma open_current db : open_database op_fine (file_of db) = (Ok (), file_of db).
Proof. done. Qed.

Lemma open_legacy db : kinds_true db → open_database op_fine (legacy_file db) = (Ok (), file_of db).
Proof.
  intros Hk. unfold open_database, initialize_schema, ensure_protocol_kind_column. cbn -[backfill].
  pose proof (backfill_table (λ _, None) (drop_column <$> nodes db)) as Hb.
  destruct (backfill _ _ _ _) as [res rows]. destruct Hb as (Hres & Hrows & _).
  rewrite Hres by done. rewrite (Hrows (Hres ltac:(done))). by rewrite (migrate_dropped db Hk).
Qed.

(** An opening that stops in the middle of the rows leaves the column behind, so no
    later opening fills in the rest. *)
Lemma interrupted_migration io rows f e f' :
  df_nodes f = Some (Legacy rows) → op_tables io = None → op_alter io = None →
  initialize_schema io f = (Err e, f') →
  (∃ rows', df_nodes f' = Some (Current rows') ∧
     ∀ i, rows' !! i = migrate_row <$> rows !! i ∨ rows' !! i = add_column <$> rows !! i) ∧
  ∀ io', op_tables io' = None → (initialize_schema io' f') = (Ok (), create_tables 4 f').
Proof.
  intros Hn Ht Ha. unfold initialize_schema. rewrite Ht. unfold ensure_protocol_kind_column.
  cbn -[backfill]. rewrite Hn. cbn -[backfill]. rewrite Ha. cbn -[backfill].
  pose proof (backfill_table (op_row io) rows) as Hb.
  destruct (backfill _ _ _ _) as [res rows']. destruct Hb as (_ & _ & Hrows).
  intros [= -> <-]. split; [by exists rows'|]. intros io' Ht'. by rewrite Ht'.
Qed.
End Migration.

(** What bincode writes it reads back. *)
Class NodeCodecLaws `{NodeCodec} : Prop := {
  codec_roundtrip n payload : serialize_node n = Ok payload → deserialize_node payload = Ok n
}.

Section Kinds.
Context `{IdentityHash} `{SqliteLaws} `{NodeCodecLaws}.

Lemma sync_kinds db r report allow :
  kinds_true db → kinds_true (sync_subscription db r report allow).2.
Proof.
  intros Hk. refine (proj1 (sync_subscription_rows _ (λ _, True) I db r report allow _ _)); [|by split].
  apply Forall_true. intros n payload E. unfold payload_kind. simpl. by rewrite (codec_roundtrip n payload E).
Qed.

(** The databases this version writes, from an empty one. *)
Definition writes (db db' : Db) : Prop :=
  ∃ r report allow, db' = (sync_subscription db r report allow).2.

Lemma written_kinds db : rtc writes Db_empty db → kinds_true db.
Proof.
  intros Hr. eapply (rtc_preserves writes kinds_true); [|exact Hr|apply map_Forall_empty].
  intros a b (r & report & allow & ->). apply sync_kinds.
Qed.
End Kinds.

(** ** subscription_service.rs and snapshot.rs *)

Definition load (x : StoreSnapshot) : DenseNodeStore := ss_store x.
Definition load_metrics (x : StoreSnapshot) : MetricsArena := ss_metrics x.

Section Publish.
Context `{IdentityHash} `{SqliteLaws} `{NodeCodec} `{ParserLib} `{YamlLib} `{Unicode}.

(** The result, the database and the snapshot after it. *)
Definition refresh_and_publish (db : Db) (x : StoreSnapshot) (r : SubscriptionRecord) (raw : string)
    (allow_empty : bool) : result Error SubscriptionRefresh * Db * StoreSnapshot :=
  match refresh db r raw allow_empty with
  | (Err e, db) => (Err e, db, x)
  | (Ok rf, db) =>
    match replace_from_db db x with
    | Err e => (Err e, db, x)
    | Ok x => (Ok rf, db, x)
    end
  end.

(** A refresh that reports success shows exactly the database it committed, with
    fresh metrics; one that fails never changes what readers see, and has committed
    nothing unless the new database could not be hydrated. *)
Lemma refresh_and_publish_spec (db : Db) (x : StoreSnapshot) (r : SubscriptionRecord) (raw : string)
    (allow_empty : bool) :
  db_wf db →
  let report := ingest_with_timestamp raw (rec_id r) (sr_last_updated (rec_row r)) in
  let '(res, db', x') := refresh_and_publish db x r raw allow_empty in
  match res with
  | Ok rf => rf_report rf = report ∧
      synced db db' r (hash <$> successful_nodes report) (rf_sync rf) ∧
      hydrate_from_db db' = Ok (load x') ∧ load_metrics x' = from_store (load x')
  | Err e => x' = x ∧ (db' = db ∨ hydrate_from_db db' = Err e)
  end.
Proof.
  intros Hw report. unfold refresh_and_publish, refresh. fold report.
  pose proof (sync_subscription_synced db r report allow_empty Hw) as Hs.
  destruct (sync_subscription db r report allow_empty) as [[res|e] db']; simpl; [|by split; [|left]].
  unfold replace_from_db. destruct (hydrate_from_db db') as [s|e] eqn:Eh; simpl; [|by split; [|right]].
  by split_and!.
Qed.
End Publish.

(** ** Theorems *)

(** C20. The migration loses nothing and guesses nothing.  Any database this program
    wrote, put back into the form without the kind column, opens to exactly itself,
    the kind of every node filled in from its payload; opening the current form, at
    once or again, changes nothing. *)
Theorem migration_roundtrip `{IdentityHash} `{SqliteLaws} `{NodeCodecLaws} (db : Db) :
  rtc writes Db_empty db →
  open_database op_fine (legacy_file db) = (Ok (), file_of db) ∧
  open_database op_fine (file_of db) = (Ok (), file_of db) ∧ db_of (file_of db) = db.
Proof.
  intros Hr. split; [by apply open_legacy, written_kinds|]. split; [apply open_current|apply db_of_file].
Qed.

(** ** Witnesses *)

(** A codec that knows two nodes by their hash. *)
Definition alpha : CanonicalNode := stored_node "a" "one".
Definition beta : CanonicalNode := stored_node "b" "two".
#[local] Instance two_nodes : NodeCodec :=
  {| serialize_node n := if bool_decide (n = alpha) then Ok "A"%stdpp
                         else if bool_decide (n = beta) then Ok "B"%stdpp else bail "unexpected";
     deserialize_node p := if String.eqb p "A" then Ok alpha
                           else if String.eqb p "B" then Ok beta else bail "unexpected" |}.
#[local] Instance two_nodes_laws : NodeCodecLaws.
Proof.
  split. intros n payload. simpl. case_bool_decide; [intros [= <-]; by subst|].
  case_bool_decide; [intros [= <-]; by subst|discriminate].
Qed.
#[local] Existing Instance sample_hash.
#[local] Existing Instance sample_sqlite.
#[local] Existing Instance sample_sqlite_laws.

Lemma migration_roundtrip_witness :
  let db := (sync_subscription Db_empty sample_record sample_report false).2 in
  map_size (nodes db) = 2%nat ∧ df_nodes (legacy_file db) ≠ df_nodes (file_of db) ∧
  open_database op_fine (legacy_file db) = (Ok (), file_of db).
Proof.
  cbv zeta. split; [vm_compute; reflexivity|]. split; [discriminate|].
  refine (proj1 (migration_roundtrip (sync_subscription Db_empty sample_record sample_report false).2 _)).
  apply rtc_once. exists sample_record, sample_report, false. reflexivity.
Defined.
