(* ===== verification/ViewModel.v ===== *)
(** The list of nodes on the screen ([crates/gui/src/view_state.rs],
    [virtual_model.rs]): the view asked for, the model that shows a projection of
    the store, and the worker that computes projections in the background.

    An [Arc] of a store is an allocation number and its contents, which is what
    [Arc::ptr_eq] tells apart.  The UI thread runs the model's methods one at a time;
    importing a catalog takes it three steps, since other threads can see the two
    cells of the snapshot change one after the other.  The worker, the UI and the
    publication of metrics interleave as the step relation [gui_step] says. *)

From S2P Require Import Prelude RustStr Ir Repository Store.

(** ** The view *)

Record ViewState := {
  vs_search_text : string; vs_country_filter : option string;
  vs_subscription_filter : option Z; vs_sort : SortCriteria
}.
Definition ViewState_default : ViewState :=
  {| vs_search_text := ""; vs_country_filter := None; vs_subscription_filter := None; vs_sort := LatencyAsc |}.

Definition sort_named (name : string) : SortCriteria :=
  if String.eqb name "country" then CountryAsc
  else if String.eqb name "name" then NameAsc
  else if String.eqb name "health" then HealthScoreDesc
  else LatencyAsc.
Definition set_sort_name (name : string) (v : ViewState) : ViewState :=
  {| vs_search_text := vs_search_text v; vs_country_filter := vs_country_filter v;
     vs_subscription_filter := vs_subscription_filter v; vs_sort := sort_named name |}.
Definition sort_is_metric_dependent (v : ViewState) : bool :=
  match vs_sort v with LatencyAsc | LatencyDesc | HealthScoreDesc => true | _ => false end.

Definition projection `{Unicode} (v : ViewState) (s : DenseNodeStore) (m : MetricsArena) : option (list nat) :=
  query_with_metrics s m (vs_search_text v) (vs_country_filter v) (vs_subscription_filter v) (vs_sort v).

(** ** Rendering *)

Definition Color : Type := (Z * Z * Z).

Definition latency_display (latency : Z) (verified : bool) : string * Color :=
  if latency =? UNTESTED_LATENCY then ("—", (113, 113, 122))
  else if negb verified then ("~" +:+ show_Z latency +:+ " ms", (125, 132, 148))
  else if latency <? 150 then (show_Z latency +:+ " ms", (70, 167, 88))
  else if latency <? 350 then (show_Z latency +:+ " ms", (245, 166, 35))
  else (show_Z latency +:+ " ms", (229, 72, 77)).

Definition provenance_badge (latency : Z) (verified : bool) : string * Color :=
  if latency =? UNTESTED_LATENCY then ("", (63, 63, 70))
  else if verified then ("✓", (70, 167, 88))
  else ("≈", (125, 132, 148)).

(** [node_id as i32], and [node_id as u32] of what the UI gives back. *)
Definition as_i32 (z : Z) : Z := let z := wrap 32 z in if z <? 2147483648 then z else z - 4294967296.
Definition as_u32 (z : Z) : Z := wrap 32 z.

Record NodeRowData := {
  rd_id : Z; rd_name : string; rd_country : string; rd_protocol : string;
  rd_latency : string * Color; rd_is_active : bool; rd_badge : string * Color
}.

(** ** The model *)

Definition POINT_UPDATE_LIMIT : nat := 2048.

(** An [Arc<DenseNodeStore>]. *)
Record ArcStore := { as_ptr : nat; as_store : DenseNodeStore }.
Record Projection := { pj_store : ArcStore; pj_indices : list nat }.

Record VirtualNodeModel := {
  vm_projection : Projection;
  vm_reverse : gmap Z nat;
  vm_active_node_id : option Z;
  vm_active_name : string;
  vm_desired_view : ViewState
}.

(** What the model tells the list on the screen. *)
Inductive Notification := Reset | RowChanged (row : nat).

(** The rows of the node ids; an index beyond the store is skipped. *)
Definition reverse_insert (s : DenseNodeStore) (reverse : gmap Z nat) (entry : nat * nat) : gmap Z nat :=
  match node_ids s !! entry.2 with
  | Some id => <[id := entry.1]> reverse
  | None => reverse
  end.
Definition rebuild_reverse (p : Projection) : gmap Z nat :=
  foldl (reverse_insert (as_store (pj_store p))) ∅ (imap pair (pj_indices p)).

(** [VirtualNodeModel::new]; its projection and its index into the ids can panic. *)
Definition model_new `{Unicode} (store : ArcStore) (metrics : MetricsArena) (v : ViewState)
  : option VirtualNodeModel :=
  indices ← projection v (as_store store) metrics;
  _ ← mapM (λ k, node_ids (as_store store) !! k) indices;
  let p := {| pj_store := store; pj_indices := indices |} in
  Some {| vm_projection := p; vm_reverse := rebuild_reverse p; vm_active_node_id := None;
          vm_active_name := "No node selected"; vm_desired_view := v |}.

(** The rows to repaint after a change of metrics. *)
Definition notify_metrics (m : VirtualNodeModel) (ids : list Z) : list Notification :=
  let rows := omap (λ id, vm_reverse m !! id) ids in
  if (POINT_UPDATE_LIMIT <? length rows)%nat then [Reset] else map RowChanged rows.

Definition name_of (p : Projection) (node_id : Z) : string :=
  let s := as_store (pj_store p) in
  match List.find (λ k, bool_decide (node_ids s !! k = Some node_id)) (pj_indices p) with
  | Some k => default EmptyString (names s !! k)
  | None => "No node selected"
  end.

Definition select_node (m : VirtualNodeModel) (node_id : Z) : VirtualNodeModel * list Notification :=
  let changed := option_list (vm_active_node_id m) ++ [node_id] in
  ({| vm_projection := vm_projection m; vm_reverse := vm_reverse m; vm_active_node_id := Some node_id;
      vm_active_name := name_of (vm_projection m) node_id; vm_desired_view := vm_desired_view m |},
   map RowChanged (omap (λ id, vm_reverse m !! id) changed)).

Definition row_count (m : VirtualNodeModel) : nat := length (pj_indices (vm_projection m)).

(** [row_data]: the columns of the projection's store, the metrics of the current
    snapshot.  Where a column is shorter than the ids, which no well-formed store's
    is, the source would panic instead of answering [None]. *)
Definition row_data (m : VirtualNodeModel) (metrics : MetricsArena) (row : nat) : option NodeRowData :=
  k ← pj_indices (vm_projection m) !! row;
  let s := as_store (pj_store (vm_projection m)) in
  node_id ← node_ids s !! k;
  let latency := default UNTESTED_LATENCY (ma_latencies_ms metrics !! k) in
  let verified := is_verified metrics k in
  name ← names s !! k;
  country ← country_codes s !! k;
  kind ← protocol_kinds s !! k;
  Some {| rd_id := as_i32 node_id; rd_name := name;
          rd_country := match from_utf8 country with Ok c => c | Err _ => "UN" end;
          rd_protocol := kind_label kind; rd_latency := latency_display latency verified;
          rd_is_active := bool_decide (vm_active_node_id m = Some node_id);
          rd_badge := provenance_badge latency verified |}.

(** ** The threads *)

Inductive ProjectionWorker :=
| WkIdle                                         (** waiting for a request *)
| WkView (v : ViewState)                         (** the newest request was taken *)
| WkStore (v : ViewState) (s : ArcStore)         (** the store was loaded *)
| WkProjected (p : Projection).                  (** ready to send *)

(** Where the UI thread is: between two events, or importing a catalog. *)
Inductive UiThread := UiIdle | UiMetrics (m : MetricsArena) | UiRefresh.

Record GuiWorld := {
  wd_ptr : nat; wd_snapshot : StoreSnapshot;
  wd_model : VirtualNodeModel; wd_ui : UiThread;
  wd_worker : ProjectionWorker; wd_requests : list ViewState; wd_results : list Projection
}.

(** [load_full]. *)
Definition current (w : GuiWorld) : ArcStore := {| as_ptr := wd_ptr w; as_store := ss_store (wd_snapshot w) |}.

Definition RESULTS_CAPACITY : nat := 4.

Definition with_model (m : VirtualNodeModel) (w : GuiWorld) : GuiWorld :=
  {| wd_ptr := wd_ptr w; wd_snapshot := wd_snapshot w; wd_model := m; wd_ui := wd_ui w;
     wd_worker := wd_worker w; wd_requests := wd_requests w; wd_results := wd_results w |}.
Definition with_ui (u : UiThread) (w : GuiWorld) : GuiWorld :=
  {| wd_ptr := wd_ptr w; wd_snapshot := wd_snapshot w; wd_model := wd_model w; wd_ui := u;
     wd_worker := wd_worker w; wd_requests := wd_requests w; wd_results := wd_results w |}.
Definition with_worker (k : ProjectionWorker) (w : GuiWorld) : GuiWorld :=
  {| wd_ptr := wd_ptr w; wd_snapshot := wd_snapshot w; wd_model := wd_model w; wd_ui := wd_ui w;
     wd_worker := k; wd_requests := wd_requests w; wd_results := wd_results w |}.
Definition with_requests (r : list ViewState) (w : GuiWorld) : GuiWorld :=
  {| wd_ptr := wd_ptr w; wd_snapshot := wd_snapshot w; wd_model := wd_model w; wd_ui := wd_ui w;
     wd_worker := wd_worker w; wd_requests := r; wd_results := wd_results w |}.
Definition with_results (r : list Projection) (w : GuiWorld) : GuiWorld :=
  {| wd_ptr := wd_ptr w; wd_snapshot := wd_snapshot w; wd_model := wd_model w; wd_ui := wd_ui w;
     wd_worker := wd_worker w; wd_requests := wd_requests w; wd_results := r |}.
Definition with_snapshot (ptr : nat) (x : StoreSnapshot) (w : GuiWorld) : GuiWorld :=
  {| wd_ptr := ptr; wd_snapshot := x; wd_model := wd_model w; wd_ui := wd_ui w;
     wd_worker := wd_worker w; wd_requests := wd_requests w; wd_results := wd_results w |}.

Definition request_latest (w : GuiWorld) : GuiWorld :=
  with_requests (wd_requests w ++ [vm_desired_view (wd_model w)]) w.

Definition refresh_view (v : ViewState) (w : GuiWorld) : GuiWorld :=
  let m := wd_model w in
  request_latest (with_model {| vm_projection := vm_projection m; vm_reverse := vm_reverse m;
                                vm_active_node_id := vm_active_node_id m;
                                vm_active_name := vm_active_name m; vm_desired_view := v |} w).

Definition install (p : Projection) (m : VirtualNodeModel) : VirtualNodeModel :=
  {| vm_projection := p; vm_reverse := rebuild_reverse p; vm_active_node_id := vm_active_node_id m;
     vm_active_name := vm_active_name m; vm_desired_view := vm_desired_view m |}.

(** With what it notifies and returns. *)
Definition apply_completed_projection (w : GuiWorld) : GuiWorld * list Notification * bool :=
  let w' := with_results [] w in
  match last (wd_results w) with
  | None => (w', [], false)
  | Some p =>
    if bool_decide (as_ptr (pj_store p) = wd_ptr w)
    then (with_model (install p (wd_model w)) w', [Reset], true)
    else (request_latest w', [], false)
  end.

Section Steps.
Context `{Unicode}.

(** The worker's turns and the timer's: what happens without the user. *)
Inductive quiet_step : GuiWorld → GuiWorld → Prop :=
| step_recv w v :
    wd_worker w = WkIdle → last (wd_requests w) = Some v →
    quiet_step w (with_worker (WkView v) (with_requests [] w))
| step_load w v :
    wd_worker w = WkView v → quiet_step w (with_worker (WkStore v (current w)) w)
| step_project w v s indices :
    wd_worker w = WkStore v s → projection v (as_store s) (ss_metrics (wd_snapshot w)) = Some indices →
    quiet_step w (with_worker (WkProjected {| pj_store := s; pj_indices := indices |}) w)
| step_send w p :
    wd_worker w = WkProjected p → (length (wd_results w) < RESULTS_CAPACITY)%nat →
    quiet_step w (with_worker WkIdle (with_results (wd_results w ++ [p]) w))
| step_apply w :
    wd_ui w = UiIdle → wd_results w ≠ [] → quiet_step w (apply_completed_projection w).1.1.

(** Any store a catalog can be imported as. *)
Definition store_ok (s : DenseNodeStore) : Prop :=
  store_wf s ∧ (∃ groups, sources_are s groups) ∧ NoDup (node_ids s).

(** And the user's and the metric worker's: a new view, a selection, the
    publication of any arena, an import, which changes the store, then the metrics,
    then asks for the view again. *)
Inductive gui_step : GuiWorld → GuiWorld → Prop :=
| step_quiet w w' : quiet_step w w' → gui_step w w'
| step_refresh w v : wd_ui w = UiIdle → gui_step w (refresh_view v w)
| step_select w id : wd_ui w = UiIdle → gui_step w (with_model (select_node (wd_model w) id).1 w)
| step_publish w m : gui_step w (with_snapshot (wd_ptr w) (store_metrics m (wd_snapshot w)) w)
| step_import w s :
    wd_ui w = UiIdle → store_ok s →
    gui_step w (with_ui (UiMetrics (from_store s))
                  (with_snapshot (S (wd_ptr w)) (store_store s (wd_snapshot w)) w))
| step_import_metrics w m :
    wd_ui w = UiMetrics m →
    gui_step w (with_ui UiRefresh (with_snapshot (wd_ptr w) (store_metrics m (wd_snapshot w)) w))
| step_import_refresh w v :
    wd_ui w = UiRefresh → gui_step w (with_ui UiIdle (refresh_view v w)).

(** The world once the model is built. *)
Definition starts (w : GuiWorld) : Prop :=
  store_ok (ss_store (wd_snapshot w)) ∧ wd_ui w = UiIdle ∧ wd_worker w = WkIdle ∧
  wd_requests w = [] ∧ wd_results w = [] ∧
  ∃ v, model_new (current w) (ss_metrics (wd_snapshot w)) v = Some (wd_model w).
End Steps.

(** ** What a projection shows *)

Section Shown.
Context `{Unicode}.

Lemma projection_total v s m :
  store_ok s → ∃ l, projection v s m = Some l ∧ NoDup l ∧ Forall (λ k, (k < store_len s)%nat) l.
Proof.
  intros (Hw & [groups Hg] & _). unfold projection, query_with_metrics.
  destruct (run_query_indices s groups (vs_search_text v) (vs_country_filter v) (vs_subscription_filter v)
    (vs_sort v) (λ i, default UNTESTED_LATENCY (ma_latencies_ms m !! i)) (λ i, default 0 (ma_health_scores m !! i)))
    as (idx & E & Hd & Hi); [done..|].
  eexists. split; [exact E|]. split; [by rewrite sort_by_perm|].
  apply Forall_forall. intros k Hk. rewrite elem_of_sort_by in Hk. by apply Hi in Hk as [? _].
Qed.

(** A projection of this view, with whatever metrics there were. *)
Definition computed (v : ViewState) (p : Projection) : Prop :=
  ∃ m, projection v (as_store (pj_store p)) m = Some (pj_indices p).

Lemma computed_rows v p :
  store_ok (as_store (pj_store p)) → computed v p →
  NoDup (pj_indices p) ∧ Forall (λ k, (k < store_len (as_store (pj_store p)))%nat) (pj_indices p).
Proof.
  intros Hs [m E]. destruct (projection_total v _ m Hs) as (l & E' & Hl). rewrite E in E'. by injection E' as <-.
Qed.

(** A row shows a node. *)
Definition shows (p : Projection) (row : nat) (id : Z) : Prop :=
  ∃ k, pj_indices p !! row = Some k ∧ node_ids (as_store (pj_store p)) !! k = Some id.

Lemma imap_pair_snoc {A} (l : list A) x : imap pair (l ++ [x]) = imap pair l ++ [(length l, x)].
Proof. rewrite imap_app. simpl. by rewrite Nat.add_0_r. Qed.

Lemma rebuild_reverse_spec p :
  NoDup (node_ids (as_store (pj_store p))) → NoDup (pj_indices p) →
  Forall (λ k, (k < store_len (as_store (pj_store p)))%nat) (pj_indices p) →
  ∀ id row, rebuild_reverse p !! id = Some row ↔ shows p row id.
Proof.
  unfold rebuild_reverse, shows. destruct p as [[ptr s] l]. cbn [pj_store as_store pj_indices]. intros Hn.
  induction l as [|x l IH] using rev_ind; intros Hd Hl id row.
  { simpl. rewrite lookup_empty. split; [done|]. by intros (k & Hk & _). }
  apply NoDup_app in Hd as (Hd & Hx & _). apply Forall_app in Hl as [Hl Hlx]. apply Forall_inv in Hlx.
  specialize (IH Hd Hl). rewrite imap_pair_snoc, foldl_snoc. unfold reverse_insert at 1. cbn [fst snd].
  destruct (lookup_lt_is_Some_2 (node_ids s) x Hlx) as [xid Ex]. rewrite Ex.
  assert (∀ k i, node_ids s !! k = Some i → node_ids s !! x = Some i → k = x) as Hinj
    by (intros k i Hk Hx'; exact (NoDup_lookup _ _ _ _ Hn Hk Hx')).
  destruct (decide (id = xid)) as [->|Hne].
  - rewrite lookup_insert_eq. split.
    + intros [= <-]. exists x. split; [|done]. by rewrite lookup_app_r, Nat.sub_diag by done.
    + intros (k & Hk & Hid). rewrite (Hinj k xid Hid Ex) in Hk.
      apply lookup_app_Some in Hk as [Hk|[Hle Hk]].
      * exfalso. apply (Hx x); [by eapply list_elem_of_lookup_2|by left].
      * apply list_lookup_singleton_Some in Hk as [Hk _]. f_equal. lia.
  - rewrite lookup_insert_ne by done. rewrite IH. split.
    + intros (k & Hk & Hid). exists k. split; [by apply lookup_app_l_Some|done].
    + intros (k & Hk & Hid). apply lookup_app_Some in Hk as [Hk|[_ Hk]]; [by exists k|].
      apply list_lookup_singleton_Some in Hk as [_ ->]. congruence.
Qed.

Lemma row_data_some p m metrics row :
  store_ok (as_store (pj_store p)) → vm_projection m = p →
  Forall (λ k, (k < store_len (as_store (pj_store p)))%nat) (pj_indices p) →
  is_Some (row_data m metrics row) ↔ (row < row_count m)%nat.
Proof.
  intros (Hw & _) Hp Hl. unfold row_data, row_count. rewrite Hp. split.
  - intros [d Hd]. destruct (pj_indices p !! row) eqn:E; [by apply lookup_lt_Some in E|done].
  - intros [k Hk]%lookup_lt_is_Some. rewrite Forall_lookup in Hl. specialize (Hl row k Hk). rewrite Hk. simpl.
    destruct (lookup_lt_is_Some_2 (node_ids (as_store (pj_store p))) k Hl) as [i ->]. simpl.
    destruct (lookup_lt_is_Some_2 (names (as_store (pj_store p))) k) as [n ->]; [by rewrite sw_names|]. simpl.
    destruct (lookup_lt_is_Some_2 (country_codes (as_store (pj_store p))) k) as [c ->]; [by rewrite sw_country|]. simpl.
    destruct (lookup_lt_is_Some_2 (protocol_kinds (as_store (pj_store p))) k) as [j ->]; [by rewrite sw_kinds|]. by eexists.
Qed.

(** ** The invariant *)

(** Stores on the way are well formed, and those of the current allocation are the
    current store. *)
Definition arc_ok (w : GuiWorld) (a : ArcStore) : Prop :=
  store_ok (as_store a) ∧ (as_ptr a ≤ wd_ptr w)%nat ∧
  (as_ptr a = wd_ptr w → as_store a = ss_store (wd_snapshot w)).
Definition proj_ok (w : GuiWorld) (p : Projection) : Prop := arc_ok w (pj_store p) ∧ ∃ v, computed v p.
Definition worker_ok (w : GuiWorld) (k : ProjectionWorker) : Prop :=
  match k with
  | WkIdle | WkView _ => True
  | WkStore _ s => arc_ok w s
  | WkProjected p => proj_ok w p
  end.

Definition safe (w : GuiWorld) : Prop :=
  store_ok (ss_store (wd_snapshot w)) ∧ proj_ok w (vm_projection (wd_model w)) ∧
  vm_reverse (wd_model w) = rebuild_reverse (vm_projection (wd_model w)) ∧
  worker_ok w (wd_worker w) ∧ Forall (proj_ok w) (wd_results w).

(** The rows are those of the view asked for, on the current store. *)
Definition settled (w : GuiWorld) : Prop :=
  as_ptr (pj_store (vm_projection (wd_model w))) = wd_ptr w ∧
  computed (vm_desired_view (wd_model w)) (vm_projection (wd_model w)).

(** What was asked last is the view wanted: the newest request, or what the worker
    holds, or the newest result, or what is shown. *)
Definition latest (w : GuiWorld) : Prop :=
  let v := vm_desired_view (wd_model w) in
  match last (wd_requests w), wd_worker w, last (wd_results w) with
  | Some v', _, _ => v' = v
  | None, WkView v', _ | None, WkStore v' _, _ => v' = v
  | None, WkProjected p, _ => computed v p
  | None, WkIdle, Some p => computed v p
  | None, WkIdle, None => wd_ui w = UiIdle → settled w
  end.

Definition gui_inv (w : GuiWorld) : Prop := safe w ∧ latest w.

Lemma current_ok w : store_ok (ss_store (wd_snapshot w)) → arc_ok w (current w).
Proof. by intros Hs. Qed.

(** Nothing on the way is spoilt by steps that keep the current store, nor by one
    that allocates a new one. *)
Definition extends (w w' : GuiWorld) : Prop :=
  (wd_ptr w' = wd_ptr w ∧ ss_store (wd_snapshot w') = ss_store (wd_snapshot w)) ∨ wd_ptr w' = S (wd_ptr w).

Lemma arc_ok_extends w w' a : extends w w' → arc_ok w a → arc_ok w' a.
Proof.
  intros [[Ep Es]|Ep] (Hs & Hle & Heq); unfold arc_ok; rewrite Ep.
  - by rewrite Es.
  - split_and!; [done|lia|lia].
Qed.

Lemma proj_ok_extends w w' p : extends w w' → proj_ok w p → proj_ok w' p.
Proof. intros He [Ha Hc]. split; [by eapply arc_ok_extends|done]. Qed.

Lemma worker_ok_extends w w' k : extends w w' → worker_ok w k → worker_ok w' k.
Proof. intros He. destruct k; simpl; [done|done|by apply arc_ok_extends|by apply proj_ok_extends]. Qed.

(** The safe part, for a step that only touches some of the cells. *)
Lemma safe_extends w w' :
  extends w w' → store_ok (ss_store (wd_snapshot w')) →
  vm_projection (wd_model w') = vm_projection (wd_model w) →
  vm_reverse (wd_model w') = vm_reverse (wd_model w) →
  worker_ok w' (wd_worker w') → Forall (proj_ok w') (wd_results w') →
  safe w → safe w'.
Proof.
  intros He Hs Hp Hr Hk Hres (_ & Hpo & Hrev & _ & _).
  split_and!; [done|rewrite Hp; by eapply proj_ok_extends|by rewrite Hr, Hrev, Hp|done|done].
Qed.

Lemma same_extends w w' :
  wd_ptr w' = wd_ptr w → ss_store (wd_snapshot w') = ss_store (wd_snapshot w) → extends w w'.
Proof. intros ? ?. by left. Qed.

Ltac safe_step w := apply (safe_extends w);
  [first [by apply same_extends | by right]|try done|done|done|try done|try done|done].

Lemma apply_cases w p :
  last (wd_results w) = Some p →
  (as_ptr (pj_store p) = wd_ptr w ∧
     (apply_completed_projection w).1.1 = with_model (install p (wd_model w)) (with_results [] w)) ∨
  (as_ptr (pj_store p) ≠ wd_ptr w ∧
     (apply_completed_projection w).1.1 = request_latest (with_results [] w)).
Proof. intros E. unfold apply_completed_projection. rewrite E. case_bool_decide; [by left|by right]. Qed.

Lemma last_is_some {A} (l : list A) : l ≠ [] → is_Some (last l).
Proof. intros Hn. by apply last_is_Some. Qed.

Lemma last_elem {A} (l : list A) x : last l = Some x → x ∈ l.
Proof. intros (l' & ->)%last_Some. apply elem_of_app. right. by left. Qed.

Lemma quiet_safe w w' : quiet_step w w' → safe w → safe w'.
Proof.
  intros Hstep Hsafe. pose proof Hsafe as (Hs & Hp & Hr & Hk & Hres).
  destruct Hstep as [w v Ew El|w v Ew|w v st indices Ew Ei|w p Ew Hl|w Eu Hn].
  - safe_step w.
  - safe_step w.
  - rewrite Ew in Hk. safe_step w. split; [done|]. exists v. by exists (ss_metrics (wd_snapshot w)).
  - rewrite Ew in Hk. safe_step w. apply Forall_app. split; [done|]. by apply Forall_singleton.
  - destruct (last_is_some _ Hn) as [p El].
    destruct (apply_cases w p El) as [[Eptr ->]|[_ ->]]; [|safe_step w; constructor].
    assert (proj_ok w p) as Hpo by (rewrite Forall_forall in Hres; by apply Hres, last_elem).
    split_and!; [done|exact Hpo|done|done|constructor].
Qed.

Lemma quiet_latest w w' : quiet_step w w' → safe w → latest w → latest w'.
Proof.
  intros Hstep (Hs & Hp & Hr & Hk & Hres) Hlat. unfold latest in *.
  destruct Hstep as [w v Ew El|w v Ew|w v st indices Ew Ei|w p Ew Hl|w Eu Hn]; cbn.
  - by rewrite El in Hlat.
  - rewrite Ew in Hlat. by destruct (last (wd_requests w)).
  - rewrite Ew in Hlat. destruct (last (wd_requests w)); [done|]. subst. by exists (ss_metrics (wd_snapshot w)).
  - rewrite Ew in Hlat. rewrite last_snoc. by destruct (last (wd_requests w)).
  - destruct (last_is_some _ Hn) as [p El].
    destruct (apply_cases w p El) as [[Eptr ->]|[_ ->]]; cbn; [|by rewrite last_snoc].
    rewrite El in Hlat. destruct (last (wd_requests w)); [done|].
    destruct (wd_worker w); try done.
Qed.

Lemma gui_step_inv w w' : gui_step w w' → gui_inv w → gui_inv w'.
Proof.
  intros Hstep [Hsafe Hlat]. pose proof Hsafe as (Hs & Hp & Hr & Hk & Hres).
  destruct Hstep as [w w' Hq|w v Eu|w id Eu|w m|w s Eu Hok|w m Eu|w v Eu].
  - split; [by eapply quiet_safe|by eapply quiet_latest].
  - split; [safe_step w|]. unfold latest. cbn. by rewrite last_snoc.
  - split; [safe_step w|]. exact Hlat.
  - split; [safe_step w|]. exact Hlat.
  - set (w' := with_ui _ _). assert (extends w w') as He by by right. split.
    + safe_step w; [by eapply worker_ok_extends|]. eapply Forall_impl; [exact Hres|]. intros p. by apply proj_ok_extends.
    + unfold latest in *. cbn. destruct (last (wd_requests w)); [done|].
      destruct (wd_worker w); try done. by destruct (last (wd_results w)).
  - split; [safe_step w|]. unfold latest in *. cbn. destruct (last (wd_requests w)); [done|].
    destruct (wd_worker w); try done. by destruct (last (wd_results w)).
  - split; [safe_step w|]. unfold latest. cbn. by rewrite last_snoc.
Qed.

Lemma starts_inv w : starts w → gui_inv w.
Proof.
  intros (Hs & Eu & Ew & Er & El & v & Em). unfold model_new in Em. simpl in Em.
  destruct (projection v _ _) as [indices|] eqn:Ei; simpl in Em; [|done].
  destruct (mapM _ indices); simpl in Em; [|done]. injection Em as Em.
  unfold gui_inv, safe, latest, settled. rewrite Ew, Er, El, <-Em. cbn.
  assert (computed v {| pj_store := current w; pj_indices := indices |}) as Hc by by exists (ss_metrics (wd_snapshot w)).
  split; [split_and!; [done|split; [by apply current_ok|by exists v]|done|done|constructor]|].
  by intros _.
Qed.

Lemma gui_reachable_inv w0 w : starts w0 → rtc gui_step w0 w → gui_inv w.
Proof. intros H0 Hr. eapply (rtc_preserves _ _ gui_step_inv); [exact Hr|by apply starts_inv]. Qed.

(** ** What is on the screen *)

Lemma safe_rows w : safe w →
  let p := vm_projection (wd_model w) in
  NoDup (pj_indices p) ∧ Forall (λ k, (k < store_len (as_store (pj_store p)))%nat) (pj_indices p) ∧
  NoDup (node_ids (as_store (pj_store p))) ∧
  ∀ id row, vm_reverse (wd_model w) !! id = Some row ↔ shows p row id.
Proof.
  intros (_ & ((Hs & _ & _) & v & Hc) & Hr & _). cbv zeta.
  destruct (computed_rows v _ Hs Hc) as [Hd Hl]. pose proof Hs as (_ & _ & Hn).
  split_and!; try done. rewrite Hr. by apply rebuild_reverse_spec.
Qed.

(** A row is repainted only when it shows one of the nodes that changed, and every
    row that does is, unless all are. *)
Lemma notify_metrics_spec w ids : safe w →
  notify_metrics (wd_model w) ids = [Reset] ∨
  ∀ row, RowChanged row ∈ notify_metrics (wd_model w) ids ↔
         ∃ id, id ∈ ids ∧ shows (vm_projection (wd_model w)) row id.
Proof.
  intros Hs. destruct (safe_rows w Hs) as (_ & _ & _ & Hr). unfold notify_metrics.
  destruct (_ <? _)%nat; [by left|right]. intros row. split.
  - intros (r & [= ->] & Hin)%list_elem_of_fmap. apply list_elem_of_omap in Hin as (id & Hid & E).
    exists id. split; [done|]. by apply Hr.
  - intros (id & Hid & Hsh). apply list_elem_of_fmap. exists row. split; [done|].
    apply list_elem_of_omap. exists id. split; [done|]. by apply Hr.
Qed.

(** C22. The list shows what it says in every interleaving of the user, the worker,
    imports and the publication of metrics.  Every row below the count has data and
    none beyond; no node has two rows; the rows are exactly the nodes some view
    selects; the map from node ids to rows is exact, so that a change of metrics
    repaints the rows of the nodes that changed and no other; and a projection is
    only installed if it is of the current store. *)
Theorem shown_rows_sound (w0 w : GuiWorld) :
  starts w0 → rtc gui_step w0 w →
  let m := wd_model w in let p := vm_projection m in let s := as_store (pj_store p) in
  (∀ metrics row, is_Some (row_data m metrics row) ↔ (row < row_count m)%nat) ∧
  (∀ row row' id, shows p row id → shows p row' id → row = row') ∧
  (∃ v, ∀ groups k, sources_are s groups →
     k ∈ pj_indices p ↔ selected s groups (vs_search_text v) (vs_country_filter v) (vs_subscription_filter v) k) ∧
  (∀ id row, vm_reverse m !! id = Some row ↔ shows p row id) ∧
  (∀ ids, notify_metrics m ids = [Reset] ∨
     ∀ row, RowChanged row ∈ notify_metrics m ids ↔ ∃ id, id ∈ ids ∧ shows p row id) ∧
  ((apply_completed_projection w).2 = true →
   as_store (pj_store (vm_projection (wd_model (apply_completed_projection w).1.1))) = ss_store (wd_snapshot w)).
Proof.
  intros H0 Hr. destruct (gui_reachable_inv w0 w H0 Hr) as [Hs _]. cbv zeta.
  destruct (safe_rows w Hs) as (Hd & Hl & Hn & Hrev). pose proof Hs as (_ & ((Hso & _) & v & Hc) & _ & _ & Hres).
  split_and!; [| | |done|by intros ids; apply notify_metrics_spec|].
  - intros metrics row. by eapply row_data_some.
  - intros row row' id (k & Hk & Hi) (k' & Hk' & Hi').
    assert (k = k') as <- by exact (NoDup_lookup _ _ _ _ Hn Hi Hi'). exact (NoDup_lookup _ _ _ _ Hd Hk Hk').
  - exists v. intros groups k Hg. destruct Hc as [m Hm]. unfold projection, query_with_metrics in Hm.
    destruct (run_query_indices _ groups (vs_search_text v) (vs_country_filter v) (vs_subscription_filter v)
      (vs_sort v) (λ i, default UNTESTED_LATENCY (ma_latencies_ms m !! i))
      (λ i, default 0 (ma_health_scores m !! i)) (proj1 Hso) Hg) as (idx & E & _ & Hi).
    rewrite E in Hm. injection Hm as <-. by rewrite elem_of_sort_by.
  - unfold apply_completed_projection. destruct (last (wd_results w)) as [p|] eqn:El; [|done].
    case_bool_decide as Ep; [|done]. intros _. cbn. rewrite Forall_forall in Hres.
    destruct (Hres p (last_elem _ _ El)) as [(_ & _ & Heq) _]. by apply Heq.
Qed.

(** ** The list catches up *)

(** Turns left: a request costs five, a worker with the current store few, and
    what is of an older store costs a new request. *)
Definition result_turns (w : GuiWorld) (p : Projection) : nat :=
  if bool_decide (as_ptr (pj_store p) = wd_ptr w) then 1 else 7.
Definition worker_turns (w : GuiWorld) : nat :=
  match wd_worker w with
  | WkIdle => 0
  | WkView _ => 4
  | WkStore _ s => if bool_decide (as_ptr s = wd_ptr w) then 3 else 9
  | WkProjected p => S (result_turns w p)
  end.
Definition quiet_turns (w : GuiWorld) : nat :=
  (5 * length (wd_requests w) + worker_turns w + sum_list_with (result_turns w) (wd_results w))%nat.

Lemma result_turns_pos w p : (1 ≤ result_turns w p)%nat.
Proof. unfold result_turns. case_bool_decide; lia. Qed.

Lemma quiet_step_turns w w' : quiet_step w w' → (quiet_turns w' < quiet_turns w)%nat.
Proof.
  unfold quiet_turns, worker_turns.
  destruct 1 as [w v Ew El|w v Ew|w v st indices Ew Ei|w p Ew Hl|w Eu Hn]; cbn.
  - rewrite Ew. destruct (wd_requests w); [done|]. cbn. unfold result_turns. cbn. lia.
  - rewrite Ew, bool_decide_true by done. unfold result_turns. cbn. lia.
  - rewrite Ew. unfold result_turns. cbn. case_bool_decide; lia.
  - rewrite Ew, sum_list_with_app. unfold result_turns. cbn. lia.
  - destruct (last_is_some _ Hn) as [p El]. apply last_Some in El as [l El].
    destruct (apply_cases w p) as [[_ ->]|[Ep ->]]; [by rewrite El, last_snoc| |]; cbn;
      rewrite El, sum_list_with_app; cbn.
    + pose proof (result_turns_pos w p). unfold result_turns in *. cbn in *. destruct (wd_worker w); cbn; lia.
    + rewrite length_app. assert (result_turns w p = 7%nat) as Ht by (unfold result_turns; by rewrite bool_decide_false).
      unfold result_turns in *. cbn in *. rewrite Ht. destruct (wd_worker w); cbn; lia.
Qed.

Lemma quiet_runs_are_short n w w' : nsteps quiet_step n w w' → (n + quiet_turns w' ≤ quiet_turns w)%nat.
Proof. apply measured_runs, quiet_step_turns. Qed.

Lemma quiet_ui w w' : quiet_step w w' → wd_ui w' = wd_ui w.
Proof.
  destruct 1 as [| | | |w Eu Hn]; [done..|]. destruct (last_is_some _ Hn) as [p El].
  by destruct (apply_cases w p El) as [[_ ->]|[_ ->]].
Qed.

(** Nothing blocks: a full channel of results is what the timer empties. *)
Lemma quiet_progress w : wd_ui w = UiIdle → gui_inv w → (∃ w', quiet_step w w') ∨ settled w.
Proof.
  intros Eu [Hs Hl]. destruct (decide (wd_results w = [])) as [Er|Er]; [|left; eexists; by apply step_apply].
  destruct (wd_worker w) as [|v|v s|p] eqn:Ew.
  - destruct (last (wd_requests w)) as [v|] eqn:El; [left; eexists; by eapply step_recv|].
    right. unfold latest in Hl. rewrite El, Ew, Er in Hl. by apply Hl.
  - left. eexists. by eapply step_load.
  - left. destruct Hs as (_ & _ & _ & Hk & _). rewrite Ew in Hk. destruct Hk as (Hok & _).
    destruct (projection_total v (as_store s) (ss_metrics (wd_snapshot w)) Hok) as (l & E & _).
    eexists. by eapply step_project.
  - left. eexists. eapply step_send; [done|]. rewrite Er. cbn. unfold RESULTS_CAPACITY. lia.
Qed.

Lemma catches_up (w : GuiWorld) :
  gui_inv w → wd_ui w = UiIdle →
  (∀ n w', nsteps quiet_step n w w' → (n ≤ quiet_turns w)%nat) ∧
  ∀ w', rtc quiet_step w w' →
    (∃ w'', quiet_step w' w'') ∨
    (settled w' ∧ as_store (pj_store (vm_projection (wd_model w'))) = ss_store (wd_snapshot w')).
Proof.
  intros Hi Hu. split.
  - intros n w' Hn%quiet_runs_are_short. lia.
  - intros w' Hq.
    assert (wd_ui w' = UiIdle ∧ gui_inv w') as [Hu' Hi'].
    { apply (rtc_preserves quiet_step (λ w, wd_ui w = UiIdle ∧ gui_inv w)) in Hq; [done| |done].
      intros x y Hxy [Ex Ix]. split; [by rewrite (quiet_ui _ _ Hxy)|]. by eapply gui_step_inv; [apply step_quiet|]. }
    destruct (quiet_progress w' Hu' Hi') as [?|Hset]; [by left|right]. split; [done|].
    destruct Hi' as [(_ & ((_ & _ & Heq) & _) & _) _]. apply Heq, Hset.
Qed.

(** The list catches up.  From any world the program can reach with no import
    under way, if the user pauses, the turns of the worker and the timer come to an
    end, within a bound that counts what is under way; they are never blocked
    before; and then the rows are those of the view the user asked for last, on the
    current store. *)
Lemma view_catches_up (w0 w : GuiWorld) :
  starts w0 → rtc gui_step w0 w → wd_ui w = UiIdle →
  (∀ n w', nsteps quiet_step n w w' → (n ≤ quiet_turns w)%nat) ∧
  ∀ w', rtc quiet_step w w' →
    (∃ w'', quiet_step w' w'') ∨
    (settled w' ∧ as_store (pj_store (vm_projection (wd_model w'))) = ss_store (wd_snapshot w')).
Proof. intros H0 Hr. apply catches_up. by eapply gui_reachable_inv. Qed.

End Shown.

(** ** Honest rows *)

(** A number is shown only for a latency that was measured, the mark of a verified
    node only on a verified measurement, and every other number carries the sign of
    an approximation. *)
Lemma latency_display_honest latency verified :
  let text := (latency_display latency verified).1 in
  let badge := (provenance_badge latency verified).1 in
  (latency = UNTESTED_LATENCY → text = "—" ∧ badge = "") ∧
  (latency ≠ UNTESTED_LATENCY → verified = false → text = "~" +:+ show_Z latency +:+ " ms" ∧ badge = "≈") ∧
  (latency ≠ UNTESTED_LATENCY → verified = true → text = show_Z latency +:+ " ms" ∧ badge = "✓").
Proof.
  cbv zeta. unfold latency_display, provenance_badge. destruct (Z.eqb_spec latency UNTESTED_LATENCY); [by split_and!|].
  destruct verified; simpl; [|by split_and!]. destruct (latency <? 150), (latency <? 350); by split_and!.
Qed.

(** The id a row carries through the UI's signed integers comes back. *)
Lemma row_id_roundtrip id : in_u 32 id → as_u32 (as_i32 id) = id.
Proof.
  unfold in_u, as_u32, as_i32, wrap, umax. intros Hid. rewrite (Z.mod_small id) by lia.
  destruct (Z.ltb_spec id 2147483648); [by apply Z.mod_small; lia|].
  replace (id - 4294967296) with (id + (-1) * 2 ^ 32) by lia. rewrite Z.mod_add by lia. apply Z.mod_small. lia.
Qed.

(** ** Witnesses *)

#[local] Existing Instance sample_unicode.

Definition sample_model : VirtualNodeModel :=
  default {| vm_projection := {| pj_store := {| as_ptr := 0; as_store := sample_store |}; pj_indices := [] |};
             vm_reverse := ∅; vm_active_node_id := None; vm_active_name := ""; vm_desired_view := ViewState_default |}
    (model_new {| as_ptr := 0; as_store := sample_store |} (from_store sample_store) ViewState_default).
Definition sample_world : GuiWorld :=
  {| wd_ptr := 0; wd_snapshot := snapshot_new sample_store; wd_model := sample_model; wd_ui := UiIdle;
     wd_worker := WkIdle; wd_requests := []; wd_results := [] |}.

Lemma sample_starts : starts sample_world.
Proof.
  destruct sample_store_wf as (Hw & Hs & Hnd). split; [by split_and!; [|eexists|]|].
  split_and!; try done. exists ViewState_default. vm_compute. reflexivity.
Qed.

Lemma shown_rows_sound_witness :
  vm_reverse sample_model !! 11 = Some 0%nat ∧ shows (vm_projection sample_model) 0 11.
Proof.
  split; [vm_compute; reflexivity|].
  destruct (shown_rows_sound sample_world sample_world sample_starts (rtc_refl _ _)) as (_ & _ & _ & Hr & _).
  apply (Hr 11 0%nat). vm_compute. reflexivity.
Defined.

(** The user asked for another order and paused. *)
Definition asked_world : GuiWorld := refresh_view (set_sort_name "name" ViewState_default) sample_world.

Lemma view_catches_up_witness :
  quiet_turns asked_world = 5%nat ∧
  ((∃ w, quiet_step asked_world w) ∨
   (settled asked_world ∧
    as_store (pj_store (vm_projection (wd_model asked_world))) = ss_store (wd_snapshot asked_world))).
Proof.
  split; [reflexivity|]. apply (view_catches_up sample_world asked_world sample_starts);
    [apply rtc_once; apply (step_refresh sample_world); reflexivity|reflexivity|apply rtc_refl].
Defined.

(** Between an import and the next projection, the rows are still those of the old
    store but their metrics are read from the new arena at the old positions: the
    row of node 11, last measured at 30 ms, shows the 500 ms of node 9. *)
Definition imported_store : DenseNodeStore :=
  from_hot_rows [sample_row 1 20 "Kiel" [1]; sample_row 4 60 "Berlin" [1]; sample_row 9 500 "Bonn" [1; 2];
                 sample_row 11 30 "Ulm" []].

Lemma imported_store_ok : store_ok imported_store.
Proof.
  destruct (from_hot_rows_wf [sample_row 1 20 "Kiel" [1]; sample_row 4 60 "Berlin" [1];
    sample_row 9 500 "Bonn" [1; 2]; sample_row 11 30 "Ulm" []]) as [Hw Hs]; [simpl; lia|].
  split_and!; [exact Hw|by eexists|]. apply (bool_decide_unpack _). by vm_compute.
Qed.

Lemma old_rows_new_metrics :
  ∃ w d, rtc gui_step sample_world w ∧ wd_ui w = UiIdle ∧
    row_data (wd_model w) (ss_metrics (wd_snapshot w)) 0 = Some d ∧
    rd_id d = 11 ∧ rd_name d = "Ulm" ∧ (rd_latency d).1 = "~500 ms" ∧
    latencies_ms sample_store !! 2%nat = Some 30 ∧ node_ids imported_store !! 2%nat = Some 9.
Proof.
  pose (w1 := with_ui (UiMetrics (from_store imported_store))
                (with_snapshot 1 (store_store imported_store (wd_snapshot sample_world)) sample_world)).
  pose (w2 := with_ui UiRefresh (with_snapshot 1 (store_metrics (from_store imported_store) (wd_snapshot w1)) w1)).
  exists (with_ui UiIdle (refresh_view ViewState_default w2)). eexists. split.
  - eapply rtc_l; [apply (step_import sample_world imported_store); [reflexivity|apply imported_store_ok]|].
    eapply rtc_l; [apply (step_import_metrics w1); reflexivity|]. apply rtc_once. apply (step_import_refresh w2). reflexivity.
  - split; [reflexivity|]. split; [vm_compute; reflexivity|]. by vm_compute.
Qed.
