(* ===== verification/Dispatcher.v ===== *)
(** The stream of measurements to the screen ([crates/gui/src/dispatcher.rs]): a
    bounded queue of results that drops what does not fit, a worker that keeps the
    last result of each node and publishes them at a fixed cadence, and a timer that
    repaints the rows that changed.

    A [HashMap] is drained in an order of its own, an argument here, and so is what
    [slint::Weak::upgrade] answers: whether a thread that holds a weak handle of the
    window gets the window. *)

From S2P Require Import Prelude RustStr Ir Repository Store ViewModel.

Definition DISPATCH_INTERVAL : Z := 33 * MILLI.
Definition METRIC_PUBLISH_INTERVAL : Z := 150 * MILLI.
Definition RESORT_INTERVAL : Z := 1000 * MILLI.
Definition CHANGED_CAPACITY : nat := 64.

Record ProbeResult := { pr_node_id : Z; pr_latency_ms : Z; pr_health_score : Z; pr_verified : bool }.

(** The dispatcher's queue and counter, whether the metric worker still runs, its
    locals, the queue of changed ids, and the snapshot they publish to. *)
Record DispatchState := {
  dp_capacity : nat; dp_queue : list ProbeResult; dp_dropped : Z;
  dp_running : bool; dp_accumulation : gmap Z MetricUpdate; dp_next_publish : Z;
  dp_changed : list (list Z); dp_snapshot : StoreSnapshot
}.

(** [UiDispatcher::new] and [start], at a time. *)
Definition dispatcher_new (capacity : nat) (now : Z) (x : StoreSnapshot) : DispatchState :=
  {| dp_capacity := capacity; dp_queue := []; dp_dropped := 0; dp_running := true; dp_accumulation := ∅;
     dp_next_publish := now + METRIC_PUBLISH_INTERVAL; dp_changed := []; dp_snapshot := x |}.

Definition fits (d : DispatchState) : bool := (length (dp_queue d) <? dp_capacity d)%nat.

Definition enqueue (r : ProbeResult) (d : DispatchState) : DispatchState :=
  {| dp_capacity := dp_capacity d;
     dp_queue := if fits d then dp_queue d ++ [r] else dp_queue d;
     dp_dropped := if fits d then dp_dropped d else wrapping_add 64 (dp_dropped d) 1;
     dp_running := dp_running d; dp_accumulation := dp_accumulation d;
     dp_next_publish := dp_next_publish d;
     dp_changed := dp_changed d; dp_snapshot := dp_snapshot d |}.

Definition update_of (r : ProbeResult) : MetricUpdate :=
  {| mu_node_id := pr_node_id r; mu_latency_ms := pr_latency_ms r;
     mu_health_score := pr_health_score r; mu_verified := pr_verified r |}.

Definition accumulate (acc : gmap Z MetricUpdate) (r : ProbeResult) : gmap Z MetricUpdate :=
  <[pr_node_id r := update_of r]> acc.

(** [push] on a full queue fails, and the failure is ignored. *)
Definition push_changed (ids : list Z) (changed : list (list Z)) : list (list Z) :=
  if (length changed <? CHANGED_CAPACITY)%nat then changed ++ [ids] else changed.

Definition publish_now (d : DispatchState) (acc : gmap Z MetricUpdate) (now : Z) : bool :=
  negb (bool_decide (acc = ∅)) && (dp_next_publish d <=? now).

(** The body of the metric worker's loop: the queue is drained into the accumulation,
    and the accumulation published when it is time. *)
Definition metric_body (drain : list MetricUpdate → list MetricUpdate) (now : Z) (upgraded : bool) (d : DispatchState)
  : DispatchState :=
  let acc := foldl accumulate (dp_accumulation d) (dp_queue d) in
  if publish_now d acc now then
    let updates := drain (map snd (map_to_list acc)) in
    {| dp_capacity := dp_capacity d; dp_queue := []; dp_dropped := dp_dropped d; dp_running := upgraded;
       dp_accumulation := ∅; dp_next_publish := now + METRIC_PUBLISH_INTERVAL;
       dp_changed := push_changed (map mu_node_id updates) (dp_changed d);
       dp_snapshot := publish_metrics updates (dp_snapshot d) |}
  else
    {| dp_capacity := dp_capacity d; dp_queue := []; dp_dropped := dp_dropped d; dp_running := upgraded;
       dp_accumulation := acc; dp_next_publish := dp_next_publish d;
       dp_changed := dp_changed d; dp_snapshot := dp_snapshot d |}.

(** One turn of the loop, which the worker leaves at its end when its handle does not
    give it the window. *)
Definition metric_turn (drain : list MetricUpdate → list MetricUpdate) (now : Z) (upgraded : bool) (d : DispatchState)
  : DispatchState :=
  if dp_running d then metric_body drain now upgraded d else d.

(** What the timer asks of the model. *)
Inductive UiCall := Apply | Notify (ids : list Z) | ResortWith (v : ViewState).

(** One turn of the timer, given the view, the time since the last re-sort and the
    counter; and the status text it sets, if any. *)
Definition timer_turn (view : ViewState) (since_resort : Z) (d : DispatchState)
  : DispatchState * list UiCall * option string :=
  let ids := concat (dp_changed d) in
  ({| dp_capacity := dp_capacity d; dp_queue := dp_queue d; dp_dropped := dp_dropped d;
      dp_running := dp_running d; dp_accumulation := dp_accumulation d;
      dp_next_publish := dp_next_publish d; dp_changed := []; dp_snapshot := dp_snapshot d |},
   [Apply] ++ match ids with [] => [] | _ => [Notify ids] end ++
   (if (RESORT_INTERVAL <=? since_resort) && sort_is_metric_dependent view then [ResortWith view] else []),
   if dp_dropped d =? 0 then None else Some (show_Z (dp_dropped d) +:+ " demo updates dropped")).

(** ** Events *)

Inductive Event := Enqueued (r : ProbeResult) | Turned (now : Z) (upgraded : bool) | Timed.

Section Events.
Context (drain : list MetricUpdate → list MetricUpdate) (view : ViewState).

Definition on_event (d : DispatchState) (e : Event) : DispatchState :=
  match e with
  | Enqueued r => enqueue r d
  | Turned now upgraded => metric_turn drain now upgraded d
  | Timed => (timer_turn view 0 d).1.1
  end.
Definition run (d : DispatchState) (es : list Event) : DispatchState := foldl on_event d es.

(** The results a run accepted, in order. *)
Fixpoint accepted (d : DispatchState) (es : list Event) : list ProbeResult :=
  match es with
  | [] => []
  | e :: es =>
    match e with Enqueued r => if fits d then [r] else [] | _ => [] end ++ accepted (on_event d e) es
  end.
End Events.

(** ** The accumulation keeps the last result of each node *)

Definition or_else {A} (a b : option A) : option A := match a with Some _ => a | None => b end.

Lemma or_else_assoc {A} (a b c : option A) : or_else (or_else a b) c = or_else a (or_else b c).
Proof. by destruct a. Qed.

Lemma last_update_app id us vs : last_update id (us ++ vs) = or_else (last_update id vs) (last_update id us).
Proof.
  induction vs as [|v vs IH] using rev_ind; [by rewrite app_nil_r|].
  rewrite app_assoc, !last_update_snoc. by destruct (_ =? id).
Qed.

Lemma accumulate_lookup l acc id :
  foldl accumulate acc l !! id = or_else (last_update id (map update_of l)) (acc !! id).
Proof.
  induction l as [|r l IH] using rev_ind; [done|]. rewrite foldl_snoc, map_app. cbn [map].
  rewrite last_update_snoc. unfold accumulate at 1. cbn [update_of mu_node_id].
  destruct (Z.eqb_spec (pr_node_id r) id) as [->|Hne]; [by rewrite lookup_insert_eq|by rewrite lookup_insert_ne].
Qed.

Definition keyed (acc : gmap Z MetricUpdate) : Prop := ∀ id u, acc !! id = Some u → mu_node_id u = id.

Lemma accumulate_keyed l acc : keyed acc → keyed (foldl accumulate acc l).
Proof.
  intros Hk. induction l as [|r l IH] using rev_ind; [done|]. rewrite foldl_snoc. intros id u.
  unfold accumulate at 1. rewrite lookup_insert_Some. intros [[<- <-]|[_ Hu]]; [done|by apply IH].
Qed.

Lemma last_update_elem id us u : last_update id us = Some u → u ∈ us ∧ mu_node_id u = id.
Proof.
  unfold last_update. intros [Hin Hid]%List.find_some. apply Z.eqb_eq in Hid.
  split; [|done]. by apply list_elem_of_In, in_rev.
Qed.

(** Whatever the order the map is drained in, a batch says what the map holds. *)
Lemma drained_batch acc us id :
  keyed acc → us ≡ₚ map snd (map_to_list acc) → last_update id us = acc !! id.
Proof.
  intros Hk Hp.
  assert (∀ u, u ∈ us ↔ acc !! mu_node_id u = Some u) as Hus.
  { intros u. rewrite Hp, list_elem_of_fmap. split.
    - intros ([i u'] & -> & Hin%elem_of_map_to_list). cbn in *. by rewrite (Hk i u' Hin).
    - intros Hu. exists (mu_node_id u, u). split; [done|]. by apply elem_of_map_to_list. }
  destruct (last_update id us) as [u|] eqn:E.
  - apply last_update_elem in E as [Hin <-]. symmetry. by apply Hus.
  - destruct (acc !! id) as [u|] eqn:Ea; [|done]. exfalso.
    assert (u ∈ us) as Hin by (apply Hus; by rewrite (Hk id u Ea)).
    unfold last_update in E. apply list_elem_of_In, in_rev in Hin.
    pose proof (List.find_none _ _ E u Hin) as Hf. cbn in Hf. rewrite (Hk id u Ea), Z.eqb_refl in Hf. done.
Qed.

(** ** The pipeline *)

(** The arena is the initial one with these updates. *)
Definition arena_after (x : StoreSnapshot) (published : list MetricUpdate) (m : MetricsArena) : Prop :=
  ∀ k i, node_ids (ss_store x) !! k = Some i →
    metric_at m k =
    match last_update i published with
    | Some u => (Some (mu_latency_ms u), Some (Z.min (mu_health_score u) 100), Some (mu_verified u))
    | None => metric_at (ss_metrics x) k
    end.

Section Pipeline.
Context (drain : list MetricUpdate → list MetricUpdate) (view : ViewState) (x : StoreSnapshot).
Context (Hdrain : ∀ l, drain l ≡ₚ l) (Hwf : snapshot_wf x) (Hids : NoDup (node_ids (ss_store x))).

(** What was accepted so far is what waits in the queue, else in the accumulation,
    else what was published. *)
Definition pipe_inv (d : DispatchState) (sofar : list ProbeResult) : Prop :=
  ss_store (dp_snapshot d) = ss_store x ∧ snapshot_wf (dp_snapshot d) ∧ keyed (dp_accumulation d) ∧
  ∃ published, arena_after x published (ss_metrics (dp_snapshot d)) ∧
    ∀ id, last_update id (map update_of sofar) =
          or_else (last_update id (map update_of (dp_queue d)))
            (or_else (dp_accumulation d !! id) (last_update id published)).

Lemma metric_body_inv now up d sofar : pipe_inv d sofar → pipe_inv (metric_body drain now up d) sofar.
Proof.
  intros (Hs & Hw & Hk & published & Ha & Hl). unfold metric_body.
  set (acc := foldl accumulate (dp_accumulation d) (dp_queue d)).
  assert (keyed acc) as Hka by by apply accumulate_keyed.
  assert (∀ id, last_update id (map update_of sofar) = or_else (acc !! id) (last_update id published)) as Hl'.
  { intros id. unfold acc. by rewrite accumulate_lookup, or_else_assoc. }
  destruct (publish_now d acc now).
  - set (us := drain (map snd (map_to_list acc))).
    assert (∀ id, last_update id us = acc !! id) as Hus by (intros id; apply drained_batch; [done|apply Hdrain]).
    destruct (publish_metrics_spec (dp_snapshot d) us) as (Hw' & Hs' & Hm); [done|by rewrite Hs|].
    split_and!; cbn; [exact Hs|exact Hw'|done|].
    exists (published ++ us). split.
    + intros k i Hi. rewrite last_update_app. specialize (Hm k i). rewrite Hs in Hm. specialize (Hm Hi).
      cbn in Hm. rewrite Hm. destruct (last_update i us); [done|]. cbn. by apply Ha.
    + intros id. rewrite Hl', last_update_app, Hus. by rewrite lookup_empty.
  - split_and!; cbn; [done|done|done|]. by exists published.
Qed.

Lemma metric_turn_inv now up d sofar : pipe_inv d sofar → pipe_inv (metric_turn drain now up d) sofar.
Proof. unfold metric_turn. destruct (dp_running d); [apply metric_body_inv|done]. Qed.

Lemma enqueue_inv r d sofar :
  pipe_inv d sofar → pipe_inv (enqueue r d) (sofar ++ (if fits d then [r] else [])).
Proof.
  intros (Hs & Hw & Hk & published & Ha & Hl). unfold enqueue.
  destruct (fits d); [|rewrite app_nil_r]; (split_and!; cbn -[last_update]; [done|done|done|]); exists published; (split; [done|]);
    [|done]. intros id. rewrite !map_app, !last_update_app, Hl. by rewrite or_else_assoc.
Qed.

Lemma run_inv es d sofar : pipe_inv d sofar → pipe_inv (run drain view d es) (sofar ++ accepted drain view d es).
Proof.
  revert d sofar. induction es as [|e es IH]; intros d sofar Hi; cbn [run accepted foldl]; [by rewrite app_nil_r|].
  rewrite app_assoc. apply IH. destruct e; cbn [on_event].
  - by apply enqueue_inv.
  - rewrite app_nil_r. by apply metric_turn_inv.
  - rewrite app_nil_r. exact Hi.
Qed.
Lemma run_snoc es d e : run drain view d (es ++ [e]) = on_event drain view (run drain view d es) e.
Proof. unfold run. by rewrite foldl_snoc. Qed.

Lemma dispatcher_new_inv cap t0 : pipe_inv (dispatcher_new cap t0 x) [].
Proof. split_and!; cbn; [done|done|done|]. by exists []. Qed.

(** Nothing is lost without being counted. *)
Definition is_enqueued (e : Event) : bool := match e with Enqueued _ => true | _ => false end.

Lemma run_counts es d :
  (length (dp_queue d) ≤ dp_capacity d)%nat →
  let d' := run drain view d es in
  dp_capacity d' = dp_capacity d ∧ (length (dp_queue d') ≤ dp_capacity d)%nat ∧
  (in_u 64 (dp_dropped d) → dp_dropped d' =
   wrap 64 (dp_dropped d + Z.of_nat (length (List.filter is_enqueued es)) -
            Z.of_nat (length (accepted drain view d es)))).
Proof.
  unfold in_u, umax, wrap. revert d.
  induction es as [|e es IH]; intros d Hq; cbn [run foldl accepted List.filter].
  { split_and!; [done|done|]. intros Hd. rewrite Z.mod_small by (simpl; lia). simpl. lia. }
  assert (dp_capacity (on_event drain view d e) = dp_capacity d) as Ec.
  { destruct e as [r|now up|]; cbn; [done| |done]. unfold metric_turn, metric_body.
    by destruct (dp_running d); [destruct (publish_now d _ now)|]. }
  assert (length (dp_queue (on_event drain view d e)) ≤ dp_capacity d)%nat as Eq.
  { destruct e as [r|now up|]; cbn [on_event enqueue dp_queue]; [| |done].
    - unfold fits. destruct (Nat.ltb_spec (length (dp_queue d)) (dp_capacity d)); [rewrite length_app; cbn [length]; lia|done].
    - unfold metric_turn, metric_body. destruct (dp_running d); [destruct (publish_now d _ now); cbn; lia|done]. }
  destruct (IH (on_event drain view d e)) as (Hc & Hl & Hd); [by rewrite Ec|].
  rewrite Ec in Hc, Hl. split_and!; [done|done|]. intros Hr. unfold run in *. rewrite length_app.
  destruct e as [r|now up|]; cbn [is_enqueued on_event] in *.
  - set (n := length (List.filter is_enqueued es)) in *. set (m := length (accepted _ _ _ es)) in *.
    change (length (Enqueued r :: List.filter is_enqueued es)) with (S n). rewrite Hd;
      unfold enqueue; cbn [dp_dropped]; destruct (fits d); cbn [length]; unfold wrapping_add, wrap.
    + f_equal. lia.
    + rewrite <-Z.add_sub_assoc, Zplus_mod_idemp_l. f_equal. lia.
    + done.
    + pose proof (Z.mod_pos_bound (dp_dropped d + 1) (2 ^ 64)). lia.
  - assert (dp_dropped (metric_turn drain now up d) = dp_dropped d) as Ed
      by (unfold metric_turn, metric_body; by destruct (dp_running d); [destruct (publish_now d _ now)|]).
    rewrite Hd; rewrite Ed; [f_equal; cbn; lia|done].
  - rewrite Hd; [f_equal; cbn; lia|done].
Qed.

(** Measurements reach the screen's arena.  The queue never grows beyond its
    capacity, and what does not fit is counted.  Whatever the interleaving of
    producers, worker and timer and whatever order maps are drained in, a turn of
    a running worker at the time of publication leaves at every node the last result
    accepted for it, health capped at 100 and its provenance with it, and the
    original metrics at the nodes that had none; before that time, or once the worker
    has ended, nothing is published. *)
Lemma metrics_pipeline (cap : nat) (t0 : Z) (es : list Event) (now : Z) (up : bool) :
  let d0 := dispatcher_new cap t0 x in
  let d := run drain view d0 es in
  (length (dp_queue d) ≤ cap)%nat ∧
  dp_dropped d = wrap 64 (Z.of_nat (length (List.filter is_enqueued es)) -
                          Z.of_nat (length (accepted drain view d0 es))) ∧
  (dp_running d = true → dp_next_publish d ≤ now →
   arena_after x (map update_of (accepted drain view d0 es))
     (ss_metrics (dp_snapshot (metric_turn drain now up d)))) ∧
  (dp_running d = false ∨ now < dp_next_publish d → dp_snapshot (metric_turn drain now up d) = dp_snapshot d).
Proof.
  cbv zeta. destruct (run_counts es (dispatcher_new cap t0 x)) as (_ & Hl & Hd); [cbn; lia|].
  split_and!; [exact Hl|apply Hd; done| |].
  - intros Hrun Hnow. pose proof (run_inv es _ _ (dispatcher_new_inv cap t0)) as Hi. rewrite app_nil_l in Hi.
    apply (metric_turn_inv now up) in Hi as (_ & _ & _ & published & Ha & Hp).
    set (d := run drain view (dispatcher_new cap t0 x) es) in *.
    assert (dp_queue (metric_turn drain now up d) = [] ∧ dp_accumulation (metric_turn drain now up d) = ∅) as [Eq Ea].
    { unfold metric_turn, metric_body, publish_now. rewrite Hrun, (proj2 (Z.leb_le _ _) Hnow), andb_true_r.
      case_bool_decide as Ee; cbn; by split. }
    intros k i Hk. rewrite (Ha k i Hk), Hp, Eq, Ea, lookup_empty. done.
  - intros Hor. unfold metric_turn. destruct (dp_running _) eqn:Er; [|done]. destruct Hor as [?|Hnow]; [done|].
    unfold metric_body, publish_now. rewrite (proj2 (Z.leb_gt _ _) Hnow), andb_false_r. done.
Qed.
End Pipeline.

(** With sixty-four batches waiting for the timer, a publication changes the arena
    but the ids that changed are forgotten: their rows are not repainted. *)
Lemma full_queue_forgets_rows drain now up d :
  length (dp_changed d) = CHANGED_CAPACITY → dp_changed (metric_turn drain now up d) = dp_changed d.
Proof.
  intros Hl. unfold metric_turn, metric_body, push_changed. rewrite Hl. destruct (dp_running d); [|done].
  cbn. by destruct (publish_now d _ now).
Qed.

(** Once a result was dropped, every turn of the timer sets the status to say so,
    over whatever it said. *)
Lemma drop_status_sticks view since d :
  dp_dropped d ≠ 0 →
  (timer_turn view since d).2 = Some (show_Z (dp_dropped d) +:+ " demo updates dropped") ∧
  dp_dropped (timer_turn view since d).1.1 = dp_dropped d.
Proof. intros Hd. cbn. by rewrite (proj2 (Z.eqb_neq _ _) Hd). Qed.

Lemma ended_worker_publishes_nothing drain view es d :
  dp_running d = false →
  dp_running (run drain view d es) = false ∧ dp_snapshot (run drain view d es) = dp_snapshot d.
Proof.
  revert d. induction es as [|e es IH]; intros d Hd; [done|]. cbn [run foldl].
  assert (dp_running (on_event drain view d e) = false ∧ dp_snapshot (on_event drain view d e) = dp_snapshot d) as [Hr Hs].
  { destruct e; cbn; [done| |done]. unfold metric_turn. by rewrite Hd. }
  destruct (IH _ Hr) as [Hr' Hs']. split; [exact Hr'|by etrans].
Qed.

(** Before the worker's first turn. *)
Definition not_turned (e : Event) : Prop := match e with Turned _ _ => False | _ => True end.

(** Where the weak handle does not give the window to the worker's thread, as slint
    documents of every thread but the one that made it, the worker ends after its
    first turn: unless that one comes later than the first publication, no
    measurement ever reaches the arena. *)
Lemma off_thread_worker_publishes_nothing drain view x cap t0 before now after :
  Forall not_turned before →
  now < t0 + METRIC_PUBLISH_INTERVAL →
  let d := run drain view (dispatcher_new cap t0 x) (before ++ Turned now false :: after) in
  dp_running d = false ∧ dp_snapshot d = x.
Proof.
  intros Hb Hnow. unfold run. rewrite foldl_app. cbn [foldl]. cbv zeta.
  set (d := foldl (on_event drain view) (dispatcher_new cap t0 x) before).
  assert (dp_running d = true ∧ dp_next_publish d = t0 + METRIC_PUBLISH_INTERVAL ∧ dp_snapshot d = x) as (Hr & Hn & Hs).
  { unfold d. clear d after.
    assert (∀ d0, dp_running d0 = true ∧ dp_next_publish d0 = t0 + METRIC_PUBLISH_INTERVAL ∧ dp_snapshot d0 = x →
      let d := foldl (on_event drain view) d0 before in
      dp_running d = true ∧ dp_next_publish d = t0 + METRIC_PUBLISH_INTERVAL ∧ dp_snapshot d = x) as Hgen; [|by apply Hgen].
    induction Hb as [|e l He _ IH]; intros d0 Hd0; [done|]. cbn [foldl]. apply IH. by destruct e. }
  destruct (ended_worker_publishes_nothing drain view after (on_event drain view d (Turned now false))) as [Hr' Hs'].
  - cbn [on_event]. unfold metric_turn, metric_body. rewrite Hr. by destruct (publish_now d _ now).
  - split; [exact Hr'|]. etrans; [exact Hs'|]. cbn [on_event]. unfold metric_turn, metric_body, publish_now.
    rewrite Hr, Hn, (proj2 (Z.leb_gt _ _) Hnow), andb_false_r. exact Hs.
Qed.

(** ** Witness *)

Definition sample_result (id latency : Z) : ProbeResult :=
  {| pr_node_id := id; pr_latency_ms := latency; pr_health_score := 55; pr_verified := false |}.

(** Two results for node 9 and one for node 11, on a queue of two: the last is
    dropped. *)
Definition sample_events : list Event :=
  [Enqueued (sample_result 9 70); Enqueued (sample_result 9 90); Enqueued (sample_result 11 20); Timed].

Lemma metrics_pipeline_witness :
  let d0 := dispatcher_new 2 0 (snapshot_new sample_store) in
  let d := metric_turn (λ l, l) METRIC_PUBLISH_INTERVAL true (run (λ l, l) ViewState_default d0 sample_events) in
  metric_at (ss_metrics (dp_snapshot d)) 1 = (Some 90, Some 55, Some false).
Proof.
  destruct sample_store_wf as (Hw & _ & Hnd).
  destruct (metrics_pipeline (λ l, l) ViewState_default (snapshot_new sample_store) (λ l, reflexivity l)
    (conj Hw (from_store_wf _ Hw)) Hnd 2 0 sample_events METRIC_PUBLISH_INTERVAL true) as (_ & _ & Ha & _).
  refine (Ha eq_refl _ 1%nat 9 _); [vm_compute; discriminate|vm_compute; reflexivity].
Defined.
