(* ===== verification/Egress.v ===== *)
(** Egress validation ([crates/adapter/src/egress.rs]): the target tables, the
    sampling of a trial, the scatter and its verdict, the HTTP and SOCKS5
    exchanges.

    The network is data: a dial is the outcome of each of its steps, a read is an
    event with the time elapsed when it returned.  TLS itself and the clock are outside,
    the testbed's process is [Testbed]'s; times are nanoseconds. *)

From S2P Require Import Prelude RustStr Ir Json Adapter.
From Stdlib Require Import Znumtheory Zpow_facts.

Class EgressLib := { duration_debug : Z → string }.      (** [{:?}] of a [Duration] *)

(** ** Targets *)

Record EgressTarget := {
  et_tag : string; et_host : string; et_path : string; et_port : Z; et_tls : bool;
  et_expect_status : Z; et_expect_body_contains : option string; et_quorum : bool
}.
Definition target (tag host path : string) (port : Z) (tls : bool) (status : Z)
    (body : option string) (quorum : bool) : EgressTarget :=
  {| et_tag := tag; et_host := host; et_path := path; et_port := port; et_tls := tls;
     et_expect_status := status; et_expect_body_contains := body; et_quorum := quorum |}.

Definition EGRESS_TARGET : string := "www.gstatic.com:80".
Definition EGRESS_TARGETS : list EgressTarget :=
  [target "cloudflare" "cp.cloudflare.com" "/generate_204" 80 false 204 (None) true;
   target "google" "www.gstatic.com" "/generate_204" 80 false 204 (None) true;
   target "microsoft" "www.msftconnecttest.com" "/connecttest.txt" 80 false 200 (Some "Microsoft Connect Test") true;
   target "ubuntu" "connectivity-check.ubuntu.com" "/" 80 false 204 (None) true;
   target "debian" "network-test.debian.org" "/nm" 80 false 200 (Some "NetworkManager is online") true;
   target "gnome" "nmcheck.gnome.org" "/check_network_status.txt" 80 false 200 (Some "NetworkManager is online") true;
   target "apple" "captive.apple.com" "/hotspot-detect.html" 80 false 200 (Some "Success") true;
   target "xiaomi" "connect.rom.miui.com" "/generate_204" 80 false 204 (None) true;
   target "firefox" "detectportal.firefox.com" "/success.txt" 443 true 200 (Some "success") true].
Definition REAL_SITE_TARGETS : list EgressTarget :=
  [target "wikipedia" "www.wikipedia.org" "/" 443 true 200 (None) false;
   target "github" "github.com" "/" 443 true 200 (None) false;
   target "rust-lang" "www.rust-lang.org" "/" 443 true 200 (None) false;
   target "mozilla" "www.mozilla.org" "/" 443 true 200 (None) false;
   target "python" "www.python.org" "/" 443 true 200 (None) false;
   target "kernel" "www.kernel.org" "/" 443 true 200 (None) false;
   target "archlinux" "archlinux.org" "/" 443 true 200 (None) false;
   target "nginx" "www.nginx.org" "/" 443 true 200 (None) false].

Definition requires_body (t : EgressTarget) : bool :=
  bool_decide (is_Some (et_expect_body_contains t)).

Record ScatterConfig := {
  sc_operators : list EgressTarget;
  sc_real_sites : list EgressTarget;
  sc_real_count : nat;
  sc_min_verified : nat;
  sc_timeout : Z;
  sc_max_concurrency : nat
}.
Definition SECOND : Z := 1000000000.
Definition ScatterConfig_default : ScatterConfig :=
  {| sc_operators := EGRESS_TARGETS; sc_real_sites := REAL_SITE_TARGETS; sc_real_count := 2;
     sc_min_verified := 2; sc_timeout := 10 * SECOND; sc_max_concurrency := 8 |}.

(** ** Sampling *)

Definition xorshift64_star (state : Z) : Z :=
  let state := Z.lxor state (wrap 64 (Z.shiftl state 12)) in
  let state := Z.lxor state (Z.shiftr state 25) in
  let state := Z.lxor state (wrap 64 (Z.shiftl state 27)) in
  wrapping_mul 64 state 2685821657736338717.

(** [indices.swap(i, j)]. *)
Definition swap (l : list nat) (i j : nat) : list nat :=
  match l !! i, l !! j with
  | Some a, Some b => <[j := a]> (<[i := b]> l)
  | _, _ => l
  end.

(** The loop of [shuffle_indices], [todo] turns from index [i]. *)
Fixpoint shuffle_loop (todo i len : nat) (seed : Z) (indices : list nat) : list nat :=
  match todo with
  | O => indices
  | S todo =>
    let seed := xorshift64_star seed in
    let j := (i + Z.to_nat (seed mod Z.of_nat (len - i)))%nat in
    shuffle_loop todo (S i) len seed (swap indices i j)
  end.

Definition shuffle_indices (len count : nat) (seed : Z) : list nat :=
  if (count =? 0)%nat || (len =? 0)%nat then []
  else
    let seed := if seed =? 0 then 11400714819323198485 else seed in
    let count := Nat.min count len in
    take count (shuffle_loop count 0 len seed (seq 0 len)).

(** [seed] is the clock xor the process id. *)
Definition sample_sites (sites : list EgressTarget) (count : nat) (seed : Z) : list EgressTarget :=
  omap (λ i, sites !! i) (shuffle_indices (length sites) count seed).

Definition sample_targets (cfg : ScatterConfig) (seed : Z) : list EgressTarget :=
  sc_operators cfg ++ sample_sites (sc_real_sites cfg) (sc_real_count cfg) seed.

(** ** Testbed configurations *)

Definition mixed_inbound (socks5_port : Z) : Value :=
  json_object [("type", JS "mixed"); ("tag", JS "mixed-in"); ("listen", JS "127.0.0.1");
               ("listen_port", json_uint socks5_port)].
Definition direct_outbound : Value := json_object [("type", JS "direct"); ("tag", JS "direct")].
Definition warn_log : Value := json_object [("level", JS "warn"); ("timestamp", JBool true)].

Definition compile_testbed_config `{AdapterLib} (n : CanonicalNode) (socks5_port : Z)
  : result Error Value :=
  outbound ← compile_outbound n;
  let tag := default "proxy" (value_get "tag" outbound ≫= as_str) in
  Ok (json_object [
    ("log", warn_log);
    ("inbounds", JArray [mixed_inbound socks5_port]);
    ("outbounds", JArray [direct_outbound; outbound]);
    ("route", compile_routing tag 0 false)]).

Definition compile_direct_testbed_config (socks5_port : Z) : Value :=
  json_object [
    ("log", warn_log);
    ("inbounds", JArray [mixed_inbound socks5_port]);
    ("outbounds", JArray [direct_outbound]);
    ("route", compile_routing "direct" 0 false)].

(** ** The HTTP exchange *)

Inductive ReadEvent :=
| RBytes (s : string)          (** [Ok(n)]; no byte is the end of the stream *)
| RRetry                       (** [WouldBlock] or [TimedOut] *)
| RInterrupted
| RError (msg : string).

Record HttpExchange := { he_status : Z; he_body : string }.

Definition CRLFCRLF : string :=
  of_bytes [char_of 13; char_of 10; char_of 13; char_of 10].
Definition MAX_RESPONSE : Z := 64 * 1024.

Section Http.
Context `{EgressLib}.

(** The checks at the end of every turn of the read loop. *)
Definition read_limits (response : string) (elapsed timeout : Z) : result Error () :=
  if MAX_RESPONSE <? str_len response
  then bail ("egress response unexpectedly large (" +:+ show_Z (str_len response) +:+ " bytes)")
  else if timeout <? elapsed
  then bail ("egress round trip timed out after " +:+ duration_debug timeout
             +:+ " waiting for headers")
  else Ok ().

(** The read loop over the events of the stream; each carries the time elapsed
    since the dial when it returned. *)
Fixpoint read_headers (timeout : Z) (response : string) (events : list (ReadEvent * Z))
  : result Error string :=
  if str_contains CRLFCRLF response then Ok response
  else match events with
       | [] => Ok response
       | (RError msg, _) :: _ => bail ("egress read failed: " +:+ msg)
       | (RBytes EmptyString, _) :: _ => Ok response
       | (RBytes s, elapsed) :: events =>
         let response := response +:+ s in
         _ ← read_limits response elapsed timeout;
         read_headers timeout response events
       | (RRetry, elapsed) :: events | (RInterrupted, elapsed) :: events =>
         _ ← read_limits response elapsed timeout;
         read_headers timeout response events
       end.

Definition http_status (text : string) : Z :=
  let status_line := default EmptyString (head (lines text)) in
  default 0 (code ← split_whitespace status_line !! 1%nat; parse_uint 16 code).
Definition http_body (text : string) : string :=
  match split_once CRLFCRLF text with Some (_, body) => body | None => EmptyString end.

Definition read_http_exchange (timeout : Z) (events : list (ReadEvent * Z))
  : result Error HttpExchange :=
  response ← read_headers timeout EmptyString events;
  let text := from_utf8_lossy response in
  Ok {| he_status := http_status text; he_body := http_body text |}.
End Http.

(** ** SOCKS5 *)

Definition parse_v4 (s : string) : option (list Z) :=
  match Net.read_ipv4 (bytes s) with
  | Some ((a, b, c, d), []) => Some [a; b; c; d]
  | _ => None
  end.
Definition parse_v6 (s : string) : option (list Z) :=
  match Net.read_ipv6 (bytes s) with
  | Some (g, []) => Some (concat (map (λ z, [z / 256; z mod 256]) g))
  | _ => None
  end.

Definition str_bytes (s : string) : list Z := map (λ a, byte_of a) (bytes s).
Definition be16 (z : Z) : list Z := [z / 256; z mod 256].

(** The CONNECT request: the length of a domain is cast to [u8]. *)
Definition socks5_address (host : string) : list Z :=
  match parse_v4 host with
  | Some octets => 1 :: octets
  | None =>
    match parse_v6 host with
    | Some octets => 4 :: octets
    | None => 3 :: wrap 8 (str_len host) :: str_bytes host
    end
  end.
Definition socks5_request (host : string) (port : Z) : list Z :=
  [5; 1; 0] ++ socks5_address host ++ be16 port.

Definition read_exact (n : nat) (s : list Z) : result Error (list Z * list Z) :=
  if (length s <? n)%nat then Err ["short read during socks5 handshake"; "failed to fill whole buffer"]%stdpp else Ok (take n s, drop n s).

#[global] Arguments read_exact : simpl never.

Definition hex_list (l : list Z) : string := "[" +:+ str_join ", " (map hex2 l) +:+ "]".

(** The client's reading of the answer to its greeting, and of the answer to its
    request; what is left belongs to the tunnel. *)
Definition socks5_greeted (reply : list Z) : result Error (list Z) :=
  '(greeting, s) ← read_exact 2 reply;
  if negb (bool_decide (greeting = [5; 0]))
  then bail ("socks5 greeting rejected: " +:+ hex_list greeting) else Ok s.
Definition socks5_answered (s : list Z) : result Error (list Z) :=
  '(header, s) ← read_exact 4 s;
  let code := default 0 (header !! 1%nat) in
  if negb (code =? 0) then bail ("socks5 CONNECT failed with reply " +:+ show_Z code) else
  s ← match default 0 (header !! 3%nat) with
      | 1 => '(_, s) ← read_exact 4 s; Ok s
      | 4 => '(_, s) ← read_exact 16 s; Ok s
      | 3 => '(len, s) ← read_exact 1 s;
             '(_, s) ← read_exact (Z.to_nat (default 0 (head len))) s; Ok s
      | other => bail ("socks5 reply with unknown address type " +:+ show_Z other)
      end;
  '(_, s) ← read_exact 2 s;
  Ok s.

(** The conversation: an error of either write, if any, and what the proxy answers. *)
Record SocksIo := { so_greet : option string; so_request : option string; so_reply : list Z }.
Definition GREETING : list Z := [5; 1; 0].

(** Its outcome, and what was written. *)
Definition socks5_connect (io : SocksIo) (host : string) (port : Z) : result Error (list Z) * list Z :=
  match so_greet io with
  | Some e => (Err [e], [])
  | None =>
    match socks5_greeted (so_reply io) with
    | Err e => (Err e, GREETING)
    | Ok s =>
      match so_request io with
      | Some e => (Err [e], GREETING)
      | None => (socks5_answered s, GREETING ++ socks5_request host port)
      end
    end
  end.

Section Target.
Context `{AdapterLib} `{EgressLib}.

Definition split_target (t : string) : result Error (string * Z) :=
  let rest := default t (strip_prefix "https://" t) in
  '(host, port) ← match rsplit_once ":"%char rest with
    | Some (host, port) =>
      port ← ok_or (parse_uint 16 port)
                ["invalid target port in " +:+ str_debug t; parse_int_error port]%stdpp;
      Ok (trim_end_matches "]"%char (trim_start_matches "["%char host), port)
    | None => bail ("target " +:+ str_debug t +:+ " must be host:port")
    end;
  if bool_decide (host = EmptyString) then bail ("target " +:+ str_debug t +:+ " has an empty host")
  else Ok (host, port).

(** ** One target *)

Record TargetCheck := {
  tc_tag : string; tc_verified : bool; tc_latency : Z; tc_status : Z; tc_detail : string
}.

(** What happens on the network during one check, in order, and its duration. *)
Record Dial := {
  dl_connect : option string;            (** an error opening the proxy, if any *)
  dl_socks : SocksIo;                    (** the conversation with the proxy *)
  dl_tls : option Error;                 (** an error setting TLS up, if any *)
  dl_write : option string;              (** an error writing the request, if any *)
  dl_events : list (ReadEvent * Z);      (** the reads *)
  dl_latency : Z
}.

Definition failed_check (t : EgressTarget) (d : Dial) (detail : string) : TargetCheck :=
  {| tc_tag := et_tag t; tc_verified := false; tc_latency := dl_latency d; tc_status := 0;
     tc_detail := detail |}.

Definition matches_target (t : EgressTarget) (x : HttpExchange) : bool :=
  (he_status x =? et_expect_status t) &&
  match et_expect_body_contains t with
  | Some needle => str_contains needle (he_body x)
  | None => true
  end.

Definition option_debug (o : option string) : string :=
  match o with Some s => "Some(" +:+ str_debug s +:+ ")" | None => "None" end.

Definition check_target (timeout : Z) (t : EgressTarget) (d : Dial) : TargetCheck :=
  match dl_connect d with
  | Some e => failed_check t d ("socks5 testbed unreachable: " +:+ e)
  | None =>
    match (socks5_connect (dl_socks d) (et_host t) (et_port t)).1 with
    | Err e => failed_check t d ("socks5 CONNECT failed: " +:+ error_alternate e)
    | Ok _ =>
      match (if et_tls t then dl_tls d else None) with
      | Some e => failed_check t d ("TLS setup failed: " +:+ error_alternate e)
      | None =>
        match dl_write d with
        | Some e => failed_check t d ("write failed: " +:+ e)
        | None =>
          match read_http_exchange timeout (dl_events d) with
          | Err e => failed_check t d (error_to_string e)
          | Ok exchange =>
            let status := he_status exchange in
            let verified := matches_target t exchange in
            let detail :=
              if verified then "ok"
              else if negb (status =? et_expect_status t)
              then "expected status " +:+ show_Z (et_expect_status t) +:+ ", got " +:+ show_Z status
              else "expected body containing " +:+ option_debug (et_expect_body_contains t) in
            {| tc_tag := et_tag t; tc_verified := verified; tc_latency := dl_latency d;
               tc_status := status; tc_detail := detail |}
          end
        end
      end
    end
  end.
End Target.

(** ** The scatter *)

Record ScatterReport := {
  sr_checks : list TargetCheck;
  sr_verified : nat;
  sr_total : nat;
  sr_quorum_verified : nat;
  sr_passes : bool
}.

(** [ordered[i] = Some(check)] for every message, in the order of arrival; a slot
    that stays empty is a panic. *)
Definition place (ordered : list (option TargetCheck)) (msg : nat * TargetCheck)
  : list (option TargetCheck) := <[msg.1 := Some msg.2]> ordered.

Definition fold_report (work : list EgressTarget) (min_verified : nat) (checks : list TargetCheck)
  : ScatterReport :=
  let quorum := length (List.filter (λ wc : EgressTarget * TargetCheck,
                          et_quorum wc.1 && tc_verified wc.2) (zip work checks)) in
  {| sr_checks := checks;
     sr_verified := length (List.filter tc_verified checks);
     sr_total := length work;
     sr_quorum_verified := quorum;
     sr_passes := (min_verified <=? quorum)%nat |}.

Definition scatter_report (work : list EgressTarget) (min_verified : nat)
    (arrivals : list (nat * TargetCheck)) : option ScatterReport :=
  let ordered := foldl place (repeat None (length work)) arrivals in
  checks ← mapM id ordered;
  Some (fold_report work min_verified checks).

(** *** The workers *)

(** A worker is about to claim, holds the index it claimed, or has left its loop.
    [fetch_add] and [send] are the atomic steps. *)
Inductive Worker := Claiming | Checking (i : nat) | Finished.
#[export] Instance Worker_eq_dec : EqDecision Worker.
Proof. solve_decision. Defined.
Record Pool := { pl_next : nat; pl_workers : list Worker; pl_sent : list nat }.

Inductive pool_step (n : nat) : Pool → Pool → Prop :=
| step_claim p w :
    pl_workers p !! w = Some Claiming → (pl_next p < n)%nat →
    pool_step n p {| pl_next := S (pl_next p);
                     pl_workers := <[w := Checking (pl_next p)]> (pl_workers p);
                     pl_sent := pl_sent p |}
| step_exhausted p w :
    pl_workers p !! w = Some Claiming → (n ≤ pl_next p)%nat →
    pool_step n p {| pl_next := S (pl_next p);
                     pl_workers := <[w := Finished]> (pl_workers p);
                     pl_sent := pl_sent p |}
| step_send p w i :
    pl_workers p !! w = Some (Checking i) →
    pool_step n p {| pl_next := pl_next p;
                     pl_workers := <[w := Claiming]> (pl_workers p);
                     pl_sent := pl_sent p ++ [i] |}.

(** [work.len().clamp(1, max_concurrency)], which panics when the bound is zero. *)
Definition worker_count (n max_concurrency : nat) : option nat :=
  if (max_concurrency <? 1)%nat then None else Some (Nat.max 1 (Nat.min n max_concurrency)).

Definition pool_start (workers : nat) : Pool :=
  {| pl_next := 0; pl_workers := repeat Claiming workers; pl_sent := [] |}.

(** ** Lemmas: sampling *)

(** Swapping two positions is reading through a transposition. *)
Definition transpose (i j k : nat) : nat :=
  if decide (k = j) then i else if decide (k = i) then j else k.

Lemma transpose_inj i j k k' : transpose i j k = transpose i j k' → k = k'.
Proof. unfold transpose. repeat case_decide; lia. Qed.

Lemma swap_lookup l i j k :
  (i < length l)%nat → (j < length l)%nat → swap l i j !! k = l !! transpose i j k.
Proof.
  intros Hi Hj. unfold swap, transpose.
  destruct (lookup_lt_is_Some_2 l i Hi) as [a Ha], (lookup_lt_is_Some_2 l j Hj) as [b Hb].
  rewrite Ha, Hb. repeat case_decide; subst.
  - rewrite list_lookup_insert_eq by (by rewrite length_insert). done.
  - rewrite list_lookup_insert_ne by done. rewrite list_lookup_insert_eq by done. done.
  - by rewrite !list_lookup_insert_ne by done.
Qed.

Lemma length_swap l i j : length (swap l i j) = length l.
Proof. unfold swap. repeat case_match; by rewrite ?length_insert. Qed.

(** A list that holds every index below [len] once. *)
Definition is_permutation (len : nat) (l : list nat) : Prop :=
  length l = len ∧ NoDup l ∧ ∀ x, x ∈ l → (x < len)%nat.

Lemma swap_permutation len l i j :
  is_permutation len l → (i < len)%nat → (j < len)%nat → is_permutation len (swap l i j).
Proof.
  intros (Hl & Hd & Hx) Hi Hj. rewrite <-Hl in Hi, Hj. rewrite NoDup_alt in Hd. split_and!.
  - by rewrite length_swap.
  - apply NoDup_alt. intros k k' x. rewrite !swap_lookup by done.
    intros Hk Hk'. apply (transpose_inj i j). by eapply Hd.
  - intros x [k Hk]%list_elem_of_lookup. rewrite swap_lookup in Hk by done.
    apply Hx. by eapply list_elem_of_lookup_2.
Qed.

Lemma shuffle_loop_permutation todo i len seed l :
  is_permutation len l → (i + todo ≤ len)%nat →
  is_permutation len (shuffle_loop todo i len seed l).
Proof.
  revert i seed l. induction todo as [|todo IH]; intros i seed l Hp Hle; simpl; [done|].
  apply IH; [|lia]. apply swap_permutation; [done|lia|].
  pose proof (Z.mod_pos_bound (xorshift64_star seed) (Z.of_nat (len - i))). lia.
Qed.

(** *** The generator never reaches zero *)

Lemma mul_odd_nonzero x m :
  0 < x < 2 ^ 64 → Z.gcd m (2 ^ 64) = 1 → wrap 64 (x * m) ≠ 0.
Proof.
  intros Hx Hm E. unfold wrap in E. apply Z.mod_divide in E; [|lia].
  rewrite Z.mul_comm in E. apply Z.gauss in E; [|by rewrite Z.gcd_comm].
  apply Z.divide_pos_le in E; lia.
Qed.

Lemma shl_xor_nonzero x k :
  0 < x < 2 ^ 64 → 0 < k < 64 → Z.lxor x (wrap 64 (Z.shiftl x k)) ≠ 0.
Proof.
  intros Hx Hk E. apply Z.lxor_eq in E. unfold wrap in E. rewrite Z.shiftl_mul_pow2 in E by lia.
  assert ((2 ^ 64 | x * (2 ^ k - 1))) as D.
  { pose proof (Z.div_mod (x * 2 ^ k) (2 ^ 64)) as Hdm. rewrite <-E in Hdm.
    exists (x * 2 ^ k / 2 ^ 64). lia. }
  rewrite Z.mul_comm in D. apply Z.gauss in D.
  - apply Z.divide_pos_le in D; lia.
  - apply Zgcd_1_rel_prime, rel_prime_sym. apply rel_prime_Zpower_r; [lia|].
    assert (2 ^ k = 2 * 2 ^ (k - 1)) as -> by (rewrite <-Z.pow_succ_r by lia; f_equal; lia).
    apply bezout_rel_prime. apply Bezout_intro with (-1) (2 ^ (k - 1)). lia.
Qed.

Lemma shr_xor_nonzero x k : 0 < x → 0 < k → Z.lxor x (Z.shiftr x k) ≠ 0.
Proof.
  intros Hx Hk E. apply Z.lxor_eq in E. rewrite Z.shiftr_div_pow2 in E by lia.
  assert (x / 2 ^ k < x); [|lia]. apply Z.div_lt; [done|]. apply Z.pow_gt_1; lia.
Qed.

Lemma lxor_u64 a b : 0 ≤ a < 2 ^ 64 → 0 ≤ b < 2 ^ 64 → 0 ≤ Z.lxor a b < 2 ^ 64.
Proof.
  intros Ha Hb. assert (0 ≤ Z.lxor a b) as H0 by (apply Z.lxor_nonneg; lia). split; [done|].
  destruct (Z.eq_dec (Z.lxor a b) 0) as [->|Hne]; [lia|].
  apply Z.log2_lt_pow2; [lia|].
  pose proof (Z.log2_lxor a b ltac:(lia) ltac:(lia)) as Hl.
  assert (∀ c, 0 ≤ c < 2 ^ 64 → Z.log2 c < 64) as Hlog.
  { intros c Hc. destruct (Z.eq_dec c 0) as [->|]; [simpl; lia|]. apply Z.log2_lt_pow2; lia. }
  pose proof (Hlog a Ha). pose proof (Hlog b Hb). lia.
Qed.

Lemma xorshift64_star_nonzero x : 0 < x < 2 ^ 64 → 0 < xorshift64_star x < 2 ^ 64.
Proof.
  intros Hx. unfold xorshift64_star.
  assert (∀ y k, 0 < y < 2 ^ 64 → 0 < k < 64 → 0 < Z.lxor y (wrap 64 (Z.shiftl y k)) < 2 ^ 64) as Hl.
  { intros y k Hy Hk. pose proof (shl_xor_nonzero y k Hy Hk).
    pose proof (lxor_u64 y (wrap 64 (Z.shiftl y k)) ltac:(lia) (wrap_range 64 _ ltac:(lia))). lia. }
  assert (∀ y k, 0 < y < 2 ^ 64 → 0 < k → 0 < Z.lxor y (Z.shiftr y k) < 2 ^ 64) as Hr.
  { intros y k Hy Hk. pose proof (shr_xor_nonzero y k ltac:(lia) Hk).
    assert (0 ≤ Z.shiftr y k < 2 ^ 64).
    { rewrite Z.shiftr_div_pow2 by lia. split; [apply Z.div_pos; lia|].
      apply Z.le_lt_trans with y; [|lia]. apply Z.div_le_upper_bound; [lia|]. nia. }
    pose proof (lxor_u64 y (Z.shiftr y k) ltac:(lia) ltac:(done)). lia. }
  pose proof (Hl x 12 Hx ltac:(lia)) as H1. set (a := Z.lxor x _) in *.
  pose proof (Hr a 25 H1 ltac:(lia)) as H2. set (b := Z.lxor a _) in *.
  pose proof (Hl b 27 H2 ltac:(lia)) as H3. set (c := Z.lxor b _) in *.
  unfold wrapping_mul. pose proof (wrap_range 64 (c * 2685821657736338717) ltac:(lia)).
  pose proof (mul_odd_nonzero c 2685821657736338717 H3 eq_refl). lia.
Qed.

Lemma omap_lookup_seq {A} (l : list A) : omap (λ i, l !! i) (seq 0 (length l)) = l.
Proof.
  enough (∀ k : list A, omap (λ i, (k ++ l) !! i) (seq (length k) (length l)) = l) as H0 by exact (H0 []).
  induction l as [|x l IH]; intros k; [done|]. cbn [length seq].
  csimpl. rewrite list_lookup_middle by done. f_equal.
  specialize (IH (k ++ [x])). rewrite length_app, <-app_assoc in IH. cbn in IH.
  by rewrite Nat.add_1_r in IH.
Qed.

Lemma omap_submseteq {A B} (f : A → option B) l k : l ⊆+ k → omap f l ⊆+ omap f k.
Proof.
  induction 1 as [|x l k H IH|x y l|x l k H IH|l1 l2 l3 H1 IH1 H2 IH2]; csimpl.
  - done.
  - destruct (f x); [by constructor|done].
  - destruct (f x), (f y); first [apply submseteq_swap|done].
  - destruct (f x); [by constructor|done].
  - by transitivity (omap f l2).
Qed.

Lemma omap_lookup_length {A} (l : list A) (ks : list nat) :
  (∀ i, i ∈ ks → (i < length l)%nat) → length (omap (λ i, l !! i) ks) = length ks.
Proof.
  induction ks as [|i k IH]; intros Hlt; [done|]. csimpl.
  destruct (lookup_lt_is_Some_2 l i) as [x ->]; [apply Hlt; left|].
  cbn [length]. f_equal. apply IH. intros j Hj. apply Hlt. by right.
Qed.

Lemma shuffle_indices_spec len count seed :
  length (shuffle_indices len count seed) = Nat.min count len ∧
  NoDup (shuffle_indices len count seed) ∧
  ∀ i, i ∈ shuffle_indices len count seed → (i < len)%nat.
Proof.
  unfold shuffle_indices.
  destruct ((count =? 0)%nat || (len =? 0)%nat) eqn:E.
  { apply orb_true_iff in E. rewrite !Nat.eqb_eq in E. split_and!; [simpl; lia|constructor|].
    intros i Hi. inversion Hi. }
  set (s := if seed =? 0 then _ else _).
  destruct (shuffle_loop_permutation (Nat.min count len) 0 len s (seq 0 len)) as (Hl & Hd & Hx).
  - split_and!; [apply length_seq|apply NoDup_seq|]. intros x Hx%elem_of_seq. lia.
  - lia.
  - set (l := shuffle_loop _ _ _ _ _) in *. split_and!.
    + rewrite length_take. lia.
    + rewrite <-(take_drop (Nat.min count len) l), NoDup_app in Hd. tauto.
    + intros i Hi. apply Hx. eapply subseteq_take; exact Hi.
Qed.

(** ** Theorems: sampling *)

(** Every trial asks every operator, in order, and then a sample of the real
    sites: exactly as many as configured (or all of them), each site of the
    configured list at most once, whatever the seed. *)
Lemma sample_targets_spec (cfg : ScatterConfig) (seed : Z) :
  ∃ sites, sample_targets cfg seed = sc_operators cfg ++ sites ∧
    sites ⊆+ sc_real_sites cfg ∧
    length sites = Nat.min (sc_real_count cfg) (length (sc_real_sites cfg)).
Proof.
  exists (sample_sites (sc_real_sites cfg) (sc_real_count cfg) seed). split; [done|].
  unfold sample_sites.
  destruct (shuffle_indices_spec (length (sc_real_sites cfg)) (sc_real_count cfg) seed)
    as (Hl & Hd & Hx). split.
  - transitivity (omap (λ i, sc_real_sites cfg !! i) (seq 0 (length (sc_real_sites cfg))));
      [|by rewrite omap_lookup_seq]. apply omap_submseteq.
    apply NoDup_submseteq; [done|]. intros i Hi. apply elem_of_seq. specialize (Hx i Hi). lia.
  - rewrite omap_lookup_length by done. exact Hl.
Qed.

(** The generator of the sample: a state that is not zero never becomes zero,
    and stays 64 bits wide; zero is a fixed point of it, so the replacement of a
    zero seed is what keeps the sample from being constant. *)
Lemma xorshift64_star_zero : xorshift64_star 0 = 0.
Proof. reflexivity. Qed.

(** ** Lemmas: the workers *)

Definition worker_holds (w : Worker) : option nat :=
  match w with Checking i => Some i | _ => None end.
Definition pool_held (p : Pool) : list nat := omap worker_holds (pl_workers p).

Lemma omap_insert {A B} (f : A → option B) (l : list A) (w : nat) (x y : A) :
  l !! w = Some x →
  option_list (f x) ++ omap f (<[w := y]> l) ≡ₚ option_list (f y) ++ omap f l.
Proof.
  intros Hw. pose proof (lookup_lt_Some _ _ _ Hw).
  rewrite insert_take_drop by done. rewrite <-(take_drop_middle l w x Hw) at 3.
  rewrite !omap_app. csimpl. destruct (f x), (f y); csimpl; solve_Permutation.
Qed.

Definition pool_inv (n : nat) (p : Pool) : Prop :=
  pl_sent p ++ pool_held p ≡ₚ seq 0 (Nat.min (pl_next p) n).

Lemma pool_step_inv n p q : pool_step n p q → pool_inv n p → pool_inv n q.
Proof.
  unfold pool_inv, pool_held. intros H; destruct H as [p w Hw Hn|p w Hw Hn|p w i Hw]; cbn [pl_sent pl_next pl_workers].
  - pose proof (omap_insert worker_holds _ w _ (Checking (pl_next p)) Hw) as Hins. simpl in Hins.
    rewrite Hins, <-Permutation_middle. intros ->.
    rewrite !Nat.min_l by lia. rewrite seq_S. apply Permutation_cons_append.
  - pose proof (omap_insert worker_holds _ w _ Finished Hw) as Hins. simpl in Hins. rewrite Hins. by rewrite !Nat.min_r by lia.
  - pose proof (omap_insert worker_holds _ w _ Claiming Hw) as Hins. simpl in Hins. rewrite <-app_assoc. simpl. by rewrite Hins.
Qed.

Lemma pool_start_inv n k : pool_inv n (pool_start k).
Proof.
  unfold pool_inv, pool_held. simpl. induction k as [|k IH]; simpl; [done|exact IH].
Qed.

Lemma pool_reachable_inv n k p : rtc (pool_step n) (pool_start k) p → pool_inv n p.
Proof.
  intros H. eapply (rtc_preserves _ (pool_inv n)); [apply pool_step_inv|done|apply pool_start_inv].
Qed.

(** A worker leaves its loop only after the last index was claimed. *)
Definition exhausted (n : nat) (p : Pool) : Prop := Finished ∈ pl_workers p → (n ≤ pl_next p)%nat.

Lemma pool_start_exhausted n k : exhausted n (pool_start k).
Proof. intros H%list_elem_of_In%repeat_spec. discriminate. Qed.

Lemma pool_step_exhausted n p q : pool_step n p q → exhausted n p → exhausted n q.
Proof.
  unfold exhausted. intros H; destruct H as [p w Hw Hn|p w Hw Hn|p w i Hw]; simpl; [| lia |];
    intros He [Hx|Hx]%elem_of_insert_inv; try discriminate; auto with lia.
Qed.

Lemma pool_step_length n k p q :
  pool_step n p q → length (pl_workers p) = k → length (pl_workers q) = k.
Proof. destruct 1; simpl; by rewrite length_insert. Qed.

(** Turns left: two per index to claim, one per index held, one per loop to leave. *)
Definition worker_turns (w : Worker) : nat :=
  match w with Claiming => 1 | Checking _ => 2 | Finished => 0 end.
Definition pool_turns (n : nat) (p : Pool) : nat :=
  (2 * (n - pl_next p) + sum_list_with worker_turns (pl_workers p))%nat.

Lemma pool_step_turns n p q : pool_step n p q → (pool_turns n q < pool_turns n p)%nat.
Proof.
  unfold pool_turns. intros H; destruct H as [p w Hw Hn|p w Hw Hn|p w i Hw]; simpl;
    [pose proof (sum_insert worker_turns _ w _ (Checking (pl_next p)) Hw) as Hs
    |pose proof (sum_insert worker_turns _ w _ Finished Hw) as Hs
    |pose proof (sum_insert worker_turns _ w _ Claiming Hw) as Hs];
    simpl in Hs; lia.
Qed.

Lemma pool_runs_are_short n p q k : nsteps (pool_step n) k p q → (k + pool_turns n q ≤ pool_turns n p)%nat.
Proof. apply measured_runs, pool_step_turns. Qed.

Lemma pool_start_turns n k : pool_turns n (pool_start k) = (2 * n + k)%nat.
Proof.
  unfold pool_turns. simpl. assert (sum_list_with worker_turns (repeat Claiming k) = k) as ->; [|lia].
  induction k; simpl; lia.
Qed.

Lemma pool_progress n p :
  (∃ q, pool_step n p q) ∨ Forall (eq Finished) (pl_workers p).
Proof.
  destruct (decide (Exists (λ w, Finished ≠ w) (pl_workers p))) as [E|E].
  - left. apply Exists_exists in E as (w & [i Hi]%list_elem_of_lookup & Hw).
    destruct w; [|eexists; by eapply step_send|done].
    destruct (decide (pl_next p < n)%nat); eexists;
      [by eapply step_claim|eapply step_exhausted; [done|lia]].
  - right. apply not_Exists_Forall in E; [|apply _]. eapply Forall_impl; [exact E|].
    intros w Hw. by apply dec_stable.
Qed.

(** ** Theorems: the scatter *)

Lemma place_length acc arrivals : length (foldl place acc arrivals) = length acc.
Proof.
  revert acc. induction arrivals as [|m arrivals IH]; intros acc; simpl; [done|].
  rewrite IH. apply length_insert.
Qed.

Lemma place_other acc arrivals k :
  k ∉ map fst arrivals → foldl place acc arrivals !! k = acc !! k.
Proof.
  revert acc. induction arrivals as [|m arrivals IH]; intros acc; csimpl; [done|].
  rewrite not_elem_of_cons. intros [Hne Hk]. rewrite IH by done.
  unfold place. by apply list_lookup_insert_ne.
Qed.

Lemma place_found acc arrivals k c :
  NoDup (map fst arrivals) → (k, c) ∈ arrivals → (k < length acc)%nat →
  foldl place acc arrivals !! k = Some (Some c).
Proof.
  revert acc. induction arrivals as [|m arrivals IH]; intros acc; csimpl.
  - intros _ Hk. inversion Hk.
  - rewrite NoDup_cons, elem_of_cons. intros [Hm Hd] [<-|Hk] Hlt.
    + rewrite place_other by done. unfold place. by apply list_lookup_insert_eq.
    + apply IH; [done|done|]. unfold place. by rewrite length_insert.
Qed.

Lemma mapM_Some_id {A} (l : list A) : mapM id (map Some l) = Some l.
Proof. induction l as [|x l IH]; [done|]. simpl in *. by rewrite IH. Qed.

(** Any arrival order of one message per index gives the same report. *)
Lemma scatter_report_order work min_verified (check : nat → TargetCheck) sent :
  sent ≡ₚ seq 0 (length work) →
  scatter_report work min_verified (map (λ i, (i, check i)) sent) =
  Some (fold_report work min_verified (map check (seq 0 (length work)))).
Proof.
  intros Hp. unfold scatter_report.
  assert (foldl place (repeat None (length work)) (map (λ i, (i, check i)) sent) =
          map Some (map check (seq 0 (length work)))) as ->; [|cbv zeta; by rewrite mapM_Some_id].
  set (arrivals := map _ sent).
  assert (map fst arrivals = sent) as Hf.
  { unfold arrivals. rewrite map_map. apply map_id. }
  assert (length (foldl place (repeat None (length work)) arrivals) = length work) as Hl
    by by rewrite place_length, repeat_length.
  apply list_eq. intros k. destruct (decide (k < length work)%nat) as [Hk|Hk].
  - rewrite !list_lookup_fmap, lookup_seq_lt by done. simpl. apply place_found.
    + rewrite Hf, Hp. apply NoDup_seq.
    + unfold arrivals. apply list_elem_of_fmap. exists k. split; [done|].
      rewrite Hp. apply elem_of_seq. lia.
    + by rewrite repeat_length.
  - rewrite !lookup_ge_None_2; [done|..]; rewrite ?length_map, ?length_seq; lia.
Qed.

(** When every worker has left its loop, every index was sent once. *)
Lemma pool_drained n max_concurrency k p :
  worker_count n max_concurrency = Some k → rtc (pool_step n) (pool_start k) p →
  Forall (eq Finished) (pl_workers p) → pl_sent p ≡ₚ seq 0 n.
Proof.
  intros Hk Hp Hq. pose proof (pool_reachable_inv _ _ _ Hp) as Hi.
  pose proof (rtc_preserves _ (exhausted n) (pool_step_exhausted n) _ _ Hp
                (pool_start_exhausted n k)) as He.
  pose proof (rtc_preserves _ (λ p, length (pl_workers p) = k)
                (pool_step_length n k) _ _ Hp (repeat_length _ _)) as Hl.
  unfold worker_count in Hk. case_match; simplify_eq. unfold pool_inv in Hi.
  assert (pool_held p = []) as Hh.
  { unfold pool_held. clear -Hq. induction Hq; by simplify_eq/=. }
  rewrite Hh, app_nil_r in Hi. rewrite Hi, Nat.min_r; [done|]. apply He.
  destruct (pl_workers p) as [|w l]; [simpl in Hl; lia|]. inversion Hq; subst. left.
Qed.

(** C26. The workers of a scatter always end, after at most two turns per target
    and one per worker, and however their turns interleave the report is the one
    of checking the targets one after another, in their order. *)
Theorem scatter_concurrent (work : list EgressTarget) (min_verified max_concurrency k : nat)
    (check : nat → TargetCheck) :
  worker_count (length work) max_concurrency = Some k →
  (∀ m p, nsteps (pool_step (length work)) m (pool_start k) p → (m ≤ 2 * length work + k)%nat) ∧
  (∀ p, rtc (pool_step (length work)) (pool_start k) p →
    (∃ q, pool_step (length work) p q) ∨
    scatter_report work min_verified (map (λ i, (i, check i)) (pl_sent p)) =
    Some (fold_report work min_verified (map check (seq 0 (length work))))).
Proof.
  intros Hk. set (n := length work) in *. split.
  - intros m p Hm%pool_runs_are_short. rewrite pool_start_turns in Hm. lia.
  - intros p Hp. destruct (pool_progress n p) as [Hq|Hq]; [by left|right].
    apply scatter_report_order. by eapply pool_drained.
Qed.

(** The real sites are noise: when operators count for the quorum and sites do
    not, the verdict is that enough operators verified, whatever the sites did. *)
Lemma scatter_noise_irrelevant (ops sites : list EgressTarget) (min_verified : nat)
    (cs ns : list TargetCheck) :
  Forall (λ t, et_quorum t = true) ops → Forall (λ t, et_quorum t = false) sites →
  length cs = length ops → length ns = length sites →
  sr_passes (fold_report (ops ++ sites) min_verified (cs ++ ns)) =
  (min_verified <=? length (List.filter tc_verified cs))%nat.
Proof.
  intros Hops Hsites Hcs Hns. unfold fold_report. simpl. f_equal.
  rewrite zip_with_app by done. rewrite List.filter_app, length_app.
  assert (∀ (l : list EgressTarget) (k : list TargetCheck) b, Forall (λ t, et_quorum t = b) l →
    length k = length l →
    length (List.filter (λ wc : EgressTarget * TargetCheck, et_quorum wc.1 && tc_verified wc.2)
                        (zip l k)) = if b then length (List.filter tc_verified k) else O) as Hc.
  { intros l. induction l as [|t l IH]; intros [|c k] b Hb Hl; try discriminate Hl; [by destruct b|].
    apply Forall_cons in Hb as [Ht Hb]. injection Hl as Hl. specialize (IH k b Hb Hl).
    simpl. rewrite Ht. destruct b; simpl; [destruct (tc_verified c); simpl|]; by rewrite IH. }
  rewrite (Hc ops cs true), (Hc sites ns false) by done. lia.
Qed.

(** ** Theorems: the exchange *)

Lemma append_assoc (s t u : string) : s +:+ (t +:+ u) = (s +:+ t) +:+ u.
Proof. apply bytes_inj. by rewrite !bytes_app, app_assoc. Qed.

Definition event_bytes (e : ReadEvent * Z) : string :=
  match e.1 with RBytes s => s | _ => EmptyString end.
Definition payload (events : list (ReadEvent * Z)) : string :=
  foldr (λ e s, event_bytes e +:+ s) EmptyString events.
(** The reads after which the loop goes on, unless a limit stops it. *)
Definition goes_on (e : ReadEvent * Z) : bool :=
  match e.1 with RBytes EmptyString | RError _ => false | _ => true end.
Definition end_of_stream (events : list (ReadEvent * Z)) : bool :=
  match events with [] => true | (RBytes EmptyString, _) :: _ => true | _ => false end.

Section Exchange.
Context `{EgressLib}.

Lemma read_limits_Ok r elapsed timeout u :
  read_limits r elapsed timeout = Ok u ↔ str_len r ≤ MAX_RESPONSE ∧ elapsed ≤ timeout.
Proof.
  unfold read_limits. destruct u. destruct (MAX_RESPONSE <? str_len r) eqn:E1; [split; [done|lia]|].
  destruct (timeout <? elapsed) eqn:E2; split; intros; try done; lia.
Qed.

Lemma read_headers_cons timeout r e events :
  str_contains CRLFCRLF r = false → goes_on e = true →
  read_headers timeout r (e :: events) =
  (_ ← read_limits (r +:+ event_bytes e) e.2 timeout;
   read_headers timeout (r +:+ event_bytes e) events).
Proof.
  intros Hc Hg. destruct e as [[[|a s]| | |msg] elapsed]; try discriminate Hg;
    cbn [read_headers]; rewrite Hc; unfold event_bytes; cbn [fst snd];
    rewrite ?append_empty_r; reflexivity.
Qed.

Lemma read_headers_stop timeout r events :
  str_contains CRLFCRLF r = true ∨ end_of_stream events = true →
  read_headers timeout r events = Ok r.
Proof.
  intros Hs. destruct events as [|[[[|a s]| | |msg] elapsed] events]; cbn [read_headers];
    destruct (str_contains CRLFCRLF r); destruct Hs; try discriminate; reflexivity.
Qed.

Definition shorter {A} (k l : list A) : Prop := ∃ x m, l = k ++ x :: m.

(** A run of the loop from [r]: [pre] is read, [post] is not. *)
Definition read_run (timeout : Z) (r : string) (pre post : list (ReadEvent * Z)) : Prop :=
  Forall (λ e, goes_on e = true ∧ e.2 ≤ timeout) pre ∧
  (∀ k, shorter k pre → str_contains CRLFCRLF (r +:+ payload k) = false) ∧
  (pre = [] ∨ str_len (r +:+ payload pre) ≤ MAX_RESPONSE) ∧
  (str_contains CRLFCRLF (r +:+ payload pre) = true ∨ end_of_stream post = true).

Lemma read_run_nil timeout r events :
  str_contains CRLFCRLF r = true ∨ end_of_stream events = true → read_run timeout r [] events.
Proof.
  intros Hs. unfold read_run. simpl. rewrite append_empty_r. split_and!; [constructor| |by left|done].
  intros k (x & m & E). destruct k; discriminate E.
Qed.

Lemma read_run_cons timeout r e pre post :
  read_run timeout r (e :: pre) post ↔
  str_contains CRLFCRLF r = false ∧ goes_on e = true ∧ e.2 ≤ timeout ∧
  str_len (r +:+ event_bytes e) ≤ MAX_RESPONSE ∧ read_run timeout (r +:+ event_bytes e) pre post.
Proof.
  unfold read_run. cbn [payload foldr]. fold (payload pre).
  rewrite Forall_cons, append_assoc. split.
  - intros ([[Hg Ht] Hf] & Hk & [?|Hm] & Hs); [discriminate|].
    pose proof (Hk [] ltac:(by exists e, pre)) as H0. cbn in H0. rewrite append_empty_r in H0.
    split_and!; try done.
    + unfold str_len in *. rewrite append_length in Hm. lia.
    + intros k (x & m & ->). specialize (Hk (e :: k) ltac:(by exists x, m)).
      cbn [payload foldr] in Hk. by rewrite append_assoc in Hk.
    + by right.
  - intros (Hc & Hg & Ht & Hl & Hf & Hk & Hm & Hs). split_and!; try done.
    + intros k (x & m & E). destruct k as [|e' k]; [cbn; by rewrite append_empty_r|].
      injection E as -> E. cbn [payload foldr]. rewrite append_assoc. apply Hk. by exists x, m.
    + right. destruct Hm as [->|Hm]; [cbn; by rewrite append_empty_r|done].
Qed.

Lemma read_headers_runs timeout events r r' :
  read_headers timeout r events = Ok r' ↔
  ∃ pre post, events = pre ++ post ∧ r' = r +:+ payload pre ∧ read_run timeout r pre post.
Proof.
  revert r. induction events as [|e events IH]; intros r.
  - rewrite read_headers_stop by by right. split.
    + intros [= <-]. exists [], []. split_and!; [done|by rewrite append_empty_r|].
      apply read_run_nil. by right.
    + intros (pre & post & E & -> & _). destruct pre; [by rewrite append_empty_r|discriminate E].
  - destruct (decide (str_contains CRLFCRLF r = true ∨ end_of_stream (e :: events) = true)) as [Hs|Hs].
    + rewrite read_headers_stop by done. split.
      * intros [= <-]. exists [], (e :: events). split_and!; [done|by rewrite append_empty_r|].
        by apply read_run_nil.
      * intros (pre & post & E & -> & Hr). destruct pre as [|e' pre]; [by rewrite append_empty_r|].
        injection E as -> ->. apply read_run_cons in Hr as (Hc & Hg & _).
        exfalso. destruct Hs as [Hs|Hs]; [congruence|].
        destruct e' as [[[|a s]| | |msg] elapsed]; discriminate.
    + assert (str_contains CRLFCRLF r = false) as Hc
        by (destruct (str_contains CRLFCRLF r); tauto).
      destruct (goes_on e) eqn:Hg.
      * rewrite read_headers_cons by done. rewrite result_bind_Ok. setoid_rewrite read_limits_Ok.
        setoid_rewrite IH. split.
        -- intros (_ & [Hl Ht] & pre & post & -> & -> & Hr). exists (e :: pre), post.
           split_and!; [done|by cbn [payload foldr]; rewrite append_assoc|]. by apply read_run_cons.
        -- intros (pre & post & E & -> & Hr). destruct pre as [|e' pre].
           { exfalso. destruct Hr as (_ & _ & _ & Hr). simpl in E. subst post.
             cbn in Hr. rewrite append_empty_r in Hr. tauto. }
           injection E as -> ->. apply read_run_cons in Hr as (_ & _ & Ht & Hl & Hr).
           exists tt. split; [done|]. exists pre, post. cbn [payload foldr].
           by rewrite append_assoc.
      * split.
        -- destruct e as [[[|a s]| | |msg] elapsed]; try discriminate Hg; cbn [read_headers]; rewrite Hc; [|done].
           exfalso. apply Hs. by right.
        -- intros (pre & post & E & -> & Hr). destruct pre as [|e' pre].
           { exfalso. destruct Hr as (_ & _ & _ & Hr). simpl in E. subst post.
             cbn in Hr. rewrite append_empty_r in Hr. tauto. }
           injection E as -> ->. apply read_run_cons in Hr as (_ & Hg' & _). congruence.
Qed.

(** What an exchange answers is read from a prefix of the stream: the reads up
    to the first that completes a header block, or up to the end of the stream,
    all within the deadline and the size limit; the reads after it are never
    looked at, and every other stream is an error. *)
Lemma read_http_exchange_spec (timeout : Z) (events : list (ReadEvent * Z)) (x : HttpExchange) :
  read_http_exchange timeout events = Ok x ↔
  ∃ pre post, events = pre ++ post ∧
    he_status x = http_status (from_utf8_lossy (payload pre)) ∧
    he_body x = http_body (from_utf8_lossy (payload pre)) ∧
    Forall (λ e, goes_on e = true ∧ e.2 ≤ timeout) pre ∧
    str_len (payload pre) ≤ MAX_RESPONSE ∧
    (∀ k, shorter k pre → str_contains CRLFCRLF (payload k) = false) ∧
    (str_contains CRLFCRLF (payload pre) = true ∨ end_of_stream post = true).
Proof.
  unfold read_http_exchange. rewrite result_bind_Ok. setoid_rewrite read_headers_runs.
  unfold read_run. setoid_rewrite append_nil_l. split.
  - intros (r & (pre & post & -> & -> & Hf & Hk & Hm & Hs) & [= <-]). exists pre, post.
    split_and!; try done. by destruct Hm as [->|Hm].
  - intros (pre & post & -> & Hst & Hb & Hf & Hl & Hk & Hs). exists (payload pre).
    split; [exists pre, post; split_and!; auto|].
    destruct x; simpl in *; congruence.
Qed.
End Exchange.

Section Verdict.
Context `{AdapterLib} `{EgressLib}.

(** The proxy was asked for exactly this host and port and opened the tunnel. *)
Definition tunnel_asked (io : SocksIo) (host : string) (port : Z) : Prop :=
  ∃ rest, socks5_connect io host port = (Ok rest, GREETING ++ socks5_request host port).

Lemma socks5_connect_cases io host port :
  match (socks5_connect io host port).1 with
  | Ok _ => tunnel_asked io host port
  | Err _ => ¬ tunnel_asked io host port
  end.
Proof.
  unfold tunnel_asked, socks5_connect. destruct (so_greet io); [naive_solver|].
  destruct (socks5_greeted _) as [s|e]; [|naive_solver]. destruct (so_request io); [naive_solver|].
  destruct (socks5_answered s) as [rest|e]; [by exists rest|naive_solver].
Qed.

(** A target is verified exactly when the proxy was reached, it opened the
    tunnel, TLS came up where the target wants it, the request was written, and
    the answer read has the expected status and, where the target demands one,
    the expected text in its body.  Whatever happened, the check carries the
    target's tag and the time it took, and the status it reports is the one
    read, zero when none was. *)
Lemma check_target_spec (timeout : Z) (t : EgressTarget) (d : Dial) :
  let c := check_target timeout t d in
  tc_tag c = et_tag t ∧ tc_latency c = dl_latency d ∧
  (tc_verified c = true ↔
    dl_connect d = None ∧ tunnel_asked (dl_socks d) (et_host t) (et_port t) ∧
    (et_tls t = true → dl_tls d = None) ∧ dl_write d = None ∧
    ∃ x, read_http_exchange timeout (dl_events d) = Ok x ∧ he_status x = et_expect_status t ∧
      ∀ needle, et_expect_body_contains t = Some needle → str_contains needle (he_body x) = true) ∧
  (tc_verified c = true → tc_status c = et_expect_status t ∧ tc_detail c = "ok"%string) ∧
  (tc_status c ≠ 0 → ∃ x, read_http_exchange timeout (dl_events d) = Ok x ∧ tc_status c = he_status x).
Proof.
  intros c.
  assert (∀ x, matches_target t x = true ↔ he_status x = et_expect_status t ∧
    ∀ needle, et_expect_body_contains t = Some needle → str_contains needle (he_body x) = true) as Hm.
  { intros x. unfold matches_target. rewrite andb_true_iff, Z.eqb_eq.
    destruct (et_expect_body_contains t); naive_solver. }
  subst c. unfold check_target, failed_check.
  destruct (dl_connect d); simpl; [by split_and!; naive_solver|].
  pose proof (socks5_connect_cases (dl_socks d) (et_host t) (et_port t)) as Hs.
  destruct (socks5_connect (dl_socks d) (et_host t) (et_port t)).1 as [rest|e]; simpl; [|by split_and!; naive_solver].
  destruct (if et_tls t then dl_tls d else None) eqn:Et; simpl.
  { assert (et_tls t = true ∧ dl_tls d ≠ None) as [? ?] by (destruct (et_tls t); naive_solver).
    by split_and!; naive_solver. }
  destruct (dl_write d); simpl; [by split_and!; naive_solver|].
  destruct (read_http_exchange timeout (dl_events d)) as [x|e]; simpl; [|by split_and!; naive_solver].
  split_and!; [done|done| | |naive_solver].
  - rewrite Hm. destruct (et_tls t); naive_solver.
  - intros Hv. rewrite Hv. by apply Hm in Hv as [-> _].
Qed.
End Verdict.

(** ** Theorems: SOCKS5 *)

(** A server's reading of a CONNECT request (RFC 1928, section 4). *)
Inductive SocksAddress := SocksV4 (octets : list Z) | SocksV6 (octets : list Z) | SocksDomain (name : list Z).
Definition take_exact (n : nat) (s : list Z) : option (list Z * list Z) :=
  if (length s <? n)%nat then None else Some (take n s, drop n s).
Definition decode_connect (s : list Z) : option (SocksAddress * Z * list Z) :=
  match s with
  | 5 :: 1 :: 0 :: atyp :: s =>
    '(a, s) ← match atyp with
              | 1 => '(o, s) ← take_exact 4 s; Some (SocksV4 o, s)
              | 4 => '(o, s) ← take_exact 16 s; Some (SocksV6 o, s)
              | 3 => match s with
                     | len :: s => '(o, s) ← take_exact (Z.to_nat len) s; Some (SocksDomain o, s)
                     | [] => None
                     end
              | _ => None
              end;
    match s with
    | hi :: lo :: s => Some (a, hi * 256 + lo, s)
    | _ => None
    end
  | _ => None
  end.
Definition address_of_host (host : string) : SocksAddress :=
  match parse_v4 host with
  | Some o => SocksV4 o
  | None => match parse_v6 host with Some o => SocksV6 o | None => SocksDomain (str_bytes host) end
  end.

Lemma take_exact_app n a s : length a = n → take_exact n (a ++ s) = Some (a, s).
Proof.
  intros <-. unfold take_exact. rewrite length_app, take_app_length, drop_app_length.
  destruct (_ <? _)%nat eqn:E; [apply Nat.ltb_lt in E; lia|done].
Qed.

Lemma read_exact_app n a s : length a = n → read_exact n (a ++ s) = Ok (a, s).
Proof.
  intros <-. unfold read_exact. rewrite length_app, take_app_length, drop_app_length.
  destruct (_ <? _)%nat eqn:E; [apply Nat.ltb_lt in E; lia|done].
Qed.

Lemma be16_decode port : be16 port = [port / 256; port mod 256] ∧ port / 256 * 256 + port mod 256 = port.
Proof. split; [done|]. pose proof (Z.div_mod port 256). lia. Qed.

Lemma length_str_bytes host : length (str_bytes host) = String.length host.
Proof. unfold str_bytes. by rewrite length_map, length_bytes. Qed.

Lemma parse_v4_length host o : parse_v4 host = Some o → length o = 4%nat.
Proof. unfold parse_v4. intros E. case_in E. done. Qed.

Lemma read_groups_length todo i s : (length (Net.read_groups todo i s).1.1 ≤ todo)%nat.
Proof.
  revert i s. induction todo as [|todo IH]; intros i s; [done|]. cbn [Net.read_groups].
  set (embedded := match todo with O => None | S _ => _ end).
  destruct embedded as [[[[[a b] c] d] s']|] eqn:E; simpl.
  - unfold embedded in E. destruct todo; [discriminate|lia].
  - clear E embedded. destruct (Net.read_separator _ _ _ s) as [[g s']|]; simpl; [|lia].
    specialize (IH (S i) s'). destruct (Net.read_groups todo (S i) s') as [[gs v4] r]. simpl in *. lia.
Qed.

Lemma parse_v6_length host o : parse_v6 host = Some o → length o = 16%nat.
Proof.
  unfold parse_v6, Net.read_ipv6. intros E.
  pose proof (read_groups_length 8 0 (bytes host)) as H1.
  destruct (Net.read_groups 8 0 (bytes host)) as [[hd v4] s1]. simpl in H1.
  assert (∀ g : list Z, length (concat (map (λ z, [z / 256; z mod 256]) g)) = (2 * length g)%nat) as Hg.
  { induction g as [|z g IH]; [done|]. simpl in *. lia. }
  destruct (length hd =? 8)%nat eqn:E8.
  { apply Nat.eqb_eq in E8. case_in E. rewrite Hg. lia. }
  apply Nat.eqb_neq in E8. destruct v4; [discriminate|].
  destruct (Net.read_given_char _ s1) as [s2|]; [|discriminate]. simpl in E.
  destruct (Net.read_given_char _ s2) as [s3|]; [|discriminate]. simpl in E.
  pose proof (read_groups_length (8 - (length hd + 1)) 0 s3) as H2.
  destruct (Net.read_groups _ 0 s3) as [[tl v] s4]. simpl in H2.
  case_in E. rewrite Hg, !length_app, repeat_length. lia.
Qed.

(** A server that follows RFC 1928 reads the CONNECT request as the address of
    the host and its port, and leaves what the client sends after it, if the host
    is an IP literal or a name of at most 255 bytes; the length of a longer name
    is truncated, and no server reads that request as the host. *)
Lemma socks5_request_roundtrip (host : string) (port : Z) (rest : list Z) :
  decode_connect (socks5_request host port ++ rest) = Some (address_of_host host, port, rest) ↔
  is_Some (parse_v4 host) ∨ is_Some (parse_v6 host) ∨ str_len host ≤ 255.
Proof.
  unfold socks5_request, socks5_address, address_of_host.
  destruct (be16_decode port) as [-> Hp]. rewrite <-!app_assoc.
  destruct (parse_v4 host) as [o|] eqn:E4.
  { cbn -[take_exact]. rewrite (take_exact_app 4) by by apply (parse_v4_length host). simpl.
    rewrite Hp. split; [naive_solver|done]. }
  destruct (parse_v6 host) as [o|] eqn:E6.
  { cbn -[take_exact]. rewrite (take_exact_app 16) by by apply (parse_v6_length host). simpl.
    rewrite Hp. split; [naive_solver|done]. }
  destruct (decide (str_len host ≤ 255)) as [Hl|Hl].
  - cbn -[take_exact wrap str_len]. rewrite wrap_small by (unfold str_len in *; lia).
    rewrite (take_exact_app _ (str_bytes host)) by (rewrite length_str_bytes; unfold str_len; lia).
    simpl. rewrite Hp. split; [auto|done].
  - split; [|intros [[]|[[]|]]; done]. cbn -[take_exact wrap str_len]. intros Hd. exfalso.
    unfold take_exact in Hd. case_match; [discriminate|]. simpl in Hd. case_in Hd.
    match goal with E : take _ _ = str_bytes host |- _ => apply (f_equal length) in E as El end.
    rewrite length_take, length_str_bytes in El.
    pose proof (wrap_range 8 (str_len host) ltac:(lia)). unfold str_len in *. lia.
Qed.

(** The bound address of a reply. *)
Inductive bound_address : list Z → Prop :=
| bound_v4 o : length o = 4%nat → bound_address (1 :: o)
| bound_v6 o : length o = 16%nat → bound_address (4 :: o)
| bound_domain len o : length o = Z.to_nat len → bound_address (3 :: len :: o).

Lemma read_exact_Ok n s a r : read_exact n s = Ok (a, r) ↔ s = a ++ r ∧ length a = n.
Proof.
  split.
  - unfold read_exact. intros E. case_in E. rewrite take_drop, length_take.
    match goal with E : (_ <? _)%nat = false |- _ => apply Nat.ltb_ge in E end. split; [done|lia].
  - intros [-> <-]. by apply read_exact_app.
Qed.

(** What the proxy has to answer. *)
Lemma socks5_reply_spec (reply rest : list Z) :
  (∃ s, socks5_greeted reply = Ok s ∧ socks5_answered s = Ok rest) ↔
  ∃ version reserved address port, reply = [5; 0; version; 0; reserved] ++ address ++ port ++ rest ∧
    bound_address address ∧ length port = 2%nat.
Proof.
  split.
  - unfold socks5_greeted, socks5_answered. intros (s0 & E0 & E). bind_inv E0 as [g s] Eg.
    apply read_exact_Ok in Eg as [-> Hg].
    case_bool_decide as Hge; [|discriminate]. simpl in E0. injection E0 as <-. subst g.
    bind_inv E as [h s'] Eh. apply read_exact_Ok in Eh as [-> Hh].
    destruct h as [|v [|c [|r [|t [|]]]]]; try discriminate Hh. simpl in E.
    destruct (Z.eqb_spec c 0) as [->|]; [|discriminate]. simpl in E.
    bind_inv E as s'' Ea. bind_inv E as [p s3] Ep. apply read_exact_Ok in Ep as [-> Hp].
    injection E as ->.
    assert (∃ addr, t :: s' = addr ++ p ++ rest ∧ bound_address addr) as (addr & Ht & Hb).
    { case_in Ea.
      - bind_inv Ea as [l q] El. apply read_exact_Ok in El as [-> Hl]. bind_inv Ea as [o q'] Eo.
        apply read_exact_Ok in Eo as [-> Ho]. injection Ea as ->.
        destruct l as [|l [|]]; try discriminate Hl. exists (3 :: l :: o). split; [done|by constructor].
      - bind_inv Ea as [o q] Eo. apply read_exact_Ok in Eo as [-> Ho]. injection Ea as ->.
        exists (4 :: o). split; [done|by constructor].
      - bind_inv Ea as [o q] Eo. apply read_exact_Ok in Eo as [-> Ho]. injection Ea as ->.
        exists (1 :: o). split; [done|by constructor]. }
    exists v, r, addr, p. split; [|done]. simpl. by rewrite <-Ht.
  - intros (v & r & addr & p & -> & Hb & Hp). exists ([v; 0; r] ++ addr ++ p ++ rest).
    unfold socks5_greeted, socks5_answered.
    change ([5; 0; v; 0; r] ++ addr ++ p ++ rest) with ([5; 0] ++ [v; 0; r] ++ addr ++ p ++ rest).
    rewrite (read_exact_app 2) by done. cbn [mbind result_bind]. rewrite bool_decide_eq_true_2 by done.
    cbn [negb]. split; [done|]. destruct Hb as [o Ho|o Ho|len o Ho].
    + change ([v; 0; r] ++ (1 :: o) ++ p ++ rest) with ([v; 0; r; 1] ++ o ++ p ++ rest).
      rewrite (read_exact_app 4) by done. simpl. rewrite (read_exact_app 4) by done. simpl.
      by rewrite (read_exact_app 2).
    + change ([v; 0; r] ++ (4 :: o) ++ p ++ rest) with ([v; 0; r; 4] ++ o ++ p ++ rest).
      rewrite (read_exact_app 4) by done. simpl. rewrite (read_exact_app 16) by done. simpl.
      by rewrite (read_exact_app 2).
    + change ([v; 0; r] ++ (3 :: len :: o) ++ p ++ rest) with ([v; 0; r; 3] ++ [len] ++ o ++ p ++ rest).
      rewrite (read_exact_app 4) by done. simpl.
      rewrite drop_0. rewrite (read_exact_app (Z.to_nat len)) by done. simpl.
      by rewrite (read_exact_app 2).
Qed.

(** The client opens the tunnel exactly when both writes succeed and the proxy
    chooses no authentication and then reports success with a bound address of a known
    kind; it consumes exactly that answer, so the tunnel starts at its first byte, and
    it has written its greeting and the request for this host and port. *)
Lemma socks5_connect_spec (io : SocksIo) (host : string) (port : Z) (rest : list Z) :
  socks5_connect io host port = (Ok rest, GREETING ++ socks5_request host port) ↔
  so_greet io = None ∧ so_request io = None ∧
  ∃ version reserved address bound_port,
    so_reply io = [5; 0; version; 0; reserved] ++ address ++ bound_port ++ rest ∧
    bound_address address ∧ length bound_port = 2%nat.
Proof.
  rewrite <-socks5_reply_spec. unfold socks5_connect. destruct (so_greet io); [naive_solver|].
  destruct (socks5_greeted _) as [s|e]; [|naive_solver]. destruct (so_request io); [naive_solver|].
  split; [intros E; apply (f_equal fst) in E; simpl in E; eauto 10|].
  intros (_ & _ & s0 & Es & Ea). injection Es as <-. by rewrite Ea.
Qed.

(** ** Witnesses *)

Lemma scatter_concurrent_witness :
  (∀ m p, nsteps (pool_step 9) m (pool_start 8) p → (m ≤ 2 * 9 + 8)%nat) ∧
  worker_count 9 8 = Some 8%nat.
Proof.
  split; [|reflexivity].
  exact (proj1 (scatter_concurrent EGRESS_TARGETS 2 8 8
    (λ i, {| tc_tag := ""; tc_verified := false; tc_latency := 0; tc_status := 0; tc_detail := "" |})
    eq_refl)).
Defined.

(** The default configuration: its operators are the quorum, its sites the noise. *)
Definition sample_check (verified : bool) : TargetCheck :=
  {| tc_tag := ""; tc_verified := verified; tc_latency := 0; tc_status := 204; tc_detail := "ok" |}.
Lemma scatter_noise_irrelevant_witness :
  sr_passes (fold_report (EGRESS_TARGETS ++ take 2 REAL_SITE_TARGETS) 2
    (map sample_check [true; false; false; true; false; false; false; false; false] ++
     map sample_check [false; false])) = true.
Proof.
  rewrite (scatter_noise_irrelevant EGRESS_TARGETS (take 2 REAL_SITE_TARGETS) 2);
    [reflexivity|by repeat constructor|by repeat constructor|reflexivity|reflexivity].
Defined.

(** A target whose body arrives in a segment after its headers is not verified:
    the exchange stops at the headers. *)
Definition sample_socks : SocksIo :=
  {| so_greet := None; so_request := None; so_reply := [5; 0; 5; 0; 0; 1; 0; 0; 0; 0; 0; 0] |}.
Definition split_dial : Dial :=
  {| dl_connect := None; dl_socks := sample_socks; dl_tls := None;
     dl_write := None;
     dl_events := [(RBytes ("HTTP/1.1 200 OK" +:+ CRLFCRLF), 1); (RBytes "Microsoft Connect Test", 2);
                   (RBytes "", 3)];
     dl_latency := 4 |}.
Definition joined_dial : Dial :=
  {| dl_connect := None; dl_socks := sample_socks; dl_tls := None;
     dl_write := None;
     dl_events := [(RBytes ("HTTP/1.1 200 OK" +:+ CRLFCRLF +:+ "Microsoft Connect Test"), 1);
                   (RBytes "", 3)];
     dl_latency := 4 |}.
Lemma body_after_headers_lost `{AdapterLib} `{EgressLib} :
  let t := target "microsoft" "www.msftconnecttest.com" "/connecttest.txt" 80 false 200
             (Some "Microsoft Connect Test"%string) true in
  payload (dl_events split_dial) = payload (dl_events joined_dial) ∧
  tc_verified (check_target 10 t split_dial) = false ∧
  tc_verified (check_target 10 t joined_dial) = true.
Proof. by split_and!; vm_compute. Qed.
