(* ===== verification/Probe.v ===== *)
(** The socket probe ([crates/probe/src/lib.rs]): what one address answers, the
    verdict of a node, and the batch that probes a whole catalog at once.

    The network is an environment: what a host name resolves to, and for every
    address how its dial or its datagram ends and after how long.  A deadline is
    applied to these as [tokio::time::timeout] does.  A batch is first the list of
    its verdicts in the order of the nodes, then a step relation of tasks that
    share the permits of the engine's semaphore, whose every complete run yields
    that list. *)

From S2P Require Import Prelude RustStr Ir.

(** ** Verdicts *)

Inductive ProbeDepth := L4Ping | ProtocolHandshake | FullEgress204.

Inductive ProbeFailure := PfRefused | PfTimedOut | PfUnresolvable | PfNoReply | PfIo.
#[export] Instance ProbeFailure_eq_dec : EqDecision ProbeFailure.
Proof. solve_decision. Defined.

Inductive ProbeConfidence := Confirmed | SocketReachable | Unconfirmed | Unreachable.
#[export] Instance ProbeConfidence_eq_dec : EqDecision ProbeConfidence.
Proof. solve_decision. Defined.

Definition rank (c : ProbeConfidence) : Z :=
  match c with Confirmed => 3 | SocketReachable => 2 | Unconfirmed => 1 | Unreachable => 0 end.

Record ProbeOutcome := {
  po_label : string;
  po_country_code : string;
  po_protocol : string;
  po_latency_ms : option Z;
  po_confidence : ProbeConfidence;
  po_failure : option ProbeFailure
}.

Definition ProbeOutcome_alive (o : ProbeOutcome) : bool :=
  match po_confidence o with Confirmed | SocketReachable => true | _ => false end.
Definition is_dead (o : ProbeOutcome) : bool := bool_decide (po_confidence o = Unreachable).
Definition is_unknown (o : ProbeOutcome) : bool := bool_decide (po_confidence o = Unconfirmed).

Record ProbeConfig := {
  pc_concurrency_limit : nat; pc_connect_timeout : Z; pc_udp_reply_window : Z
}.
Definition ProbeConfig_default : ProbeConfig :=
  {| pc_concurrency_limit := 512; pc_connect_timeout := 800 * MILLI; pc_udp_reply_window := 300 * MILLI |}.

(** The engine: the permits of its semaphore, whether that was closed (nothing in
    the crate closes it), and its configuration. *)
Record ProbeEngine := { pe_permits : nat; pe_closed : bool; pe_config : ProbeConfig }.
Definition ProbeEngine_new (config : ProbeConfig) : ProbeEngine :=
  {| pe_permits := Nat.max (pc_concurrency_limit config) 1; pe_closed := false; pe_config := config |}.

(** ** The network *)

Inductive ErrorKind := ConnectionRefused | HostUnreachable | NetworkUnreachable | OtherError.

(** A future: the nanoseconds it takes and its value, or never. *)
Definition Future (A : Type) : Type := option (Z * A).

(** [timeout]: the future is polled before the deadline is looked at. *)
Definition timeout {A} (deadline : Z) (f : Future A) : Future A :=
  r ← f; if r.1 <=? deadline then Some r else None.

Record Network := {
  nw_lookup_host : string → Z → option (list SocketAddr);
  nw_tcp_connect : SocketAddr → Future (result ErrorKind ());
  nw_udp_bind : result ErrorKind ();
  nw_udp_connect : SocketAddr → result ErrorKind ();
  nw_udp_recv : SocketAddr → Future (result ErrorKind Z)
}.

(** ** One address *)

Record AddressProbe := {
  ap_latency_ms : option Z; ap_confidence : ProbeConfidence; ap_failure : option ProbeFailure
}.
Definition reachable_in (ms : Z) : AddressProbe :=
  {| ap_latency_ms := Some ms; ap_confidence := SocketReachable; ap_failure := None |}.
Definition unreachable (f : ProbeFailure) : AddressProbe :=
  {| ap_latency_ms := None; ap_confidence := Unreachable; ap_failure := Some f |}.
Definition unconfirmed (f : ProbeFailure) : AddressProbe :=
  {| ap_latency_ms := None; ap_confidence := Unconfirmed; ap_failure := Some f |}.

(** [u16::try_from(elapsed.as_millis()).unwrap_or(u16::MAX / 2)]. *)
Definition ms_elapsed (elapsed : Z) : Z := default (U16_MAX / 2) (try_from_u 16 (as_millis elapsed)).

Section Engine.
Context (engine : ProbeEngine) (net : Network).

Definition tcp_connect (address : SocketAddr) : result ProbeFailure Z :=
  match timeout (pc_connect_timeout (pe_config engine)) (nw_tcp_connect net address) with
  | Some (elapsed, Ok _) => Ok (ms_elapsed elapsed)
  | Some (_, Err ConnectionRefused) => Err PfRefused
  | Some (_, Err _) => Err PfIo
  | None => Err PfTimedOut
  end.

Definition udp_reach (address : SocketAddr) : result ProbeFailure (option Z) :=
  _ ← map_err (λ _, PfIo) (nw_udp_bind net);
  _ ← map_err (λ _, PfIo) (nw_udp_connect net address);
  match timeout (pc_udp_reply_window (pe_config engine)) (nw_udp_recv net address) with
  | Some (elapsed, Ok _) => Ok (Some (ms_elapsed elapsed))
  | Some (_, Err (ConnectionRefused | HostUnreachable | NetworkUnreachable)) => Err PfRefused
  | Some (_, Err _) => Ok None
  | None => Ok None
  end.

Definition uses_tcp (p : ProtocolSpec) : bool :=
  match p with
  | Shadowsocks _ | Vless _ | Vmess _ | Trojan _ => true
  | Hysteria2 _ | Tuic _ | WireGuard _ => false
  end.

Definition probe_addr (protocol : ProtocolSpec) (address : SocketAddr) : AddressProbe :=
  if pe_closed engine then unreachable PfIo else
  if uses_tcp protocol
  then match tcp_connect address with
       | Ok rtt => reachable_in rtt
       | Err failure => unreachable failure
       end
  else match udp_reach address with
       | Ok (Some rtt) => reachable_in rtt
       | Ok None => unconfirmed PfNoReply
       | Err failure => unreachable failure
       end.

(** *** A node *)

(** The two accumulators of the loop over the addresses: [best] and
    [first_failure]. *)
Record PingState := { ps_best : option AddressProbe; ps_first_failure : option ProbeFailure }.
Definition ping_start : PingState := {| ps_best := None; ps_first_failure := None |}.

(** One turn of the loop. *)
Definition ping_turn (s : PingState) (candidate : AddressProbe) : PingState :=
  let dead := bool_decide (ap_confidence candidate = Unreachable) in
  let better := match ps_best s with
                | None => true
                | Some current => rank (ap_confidence current) <? rank (ap_confidence candidate)
                end in
  {| ps_best := if better then Some candidate else ps_best s;
     ps_first_failure := match ps_first_failure s with
                         | None => if dead then ap_failure candidate else None
                         | f => f
                         end |}.

Definition ping_end (s : PingState) : AddressProbe :=
  match ps_best s with
  | Some probe => probe
  | None => {| ap_latency_ms := None; ap_confidence := Unreachable;
               ap_failure := match ps_first_failure s with None => Some PfRefused | f => f end |}
  end.

(** The addresses of an endpoint; none when it does not resolve. *)
Definition addresses_of (endpoint : EndpointTarget) : list SocketAddr :=
  match endpoint with
  | EpIp address => [address]
  | EpDomain host port => default [] (nw_lookup_host net host port)
  end.

Definition ping (endpoint : EndpointTarget) (protocol : ProtocolSpec) : AddressProbe :=
  match endpoint with
  | EpIp address => probe_addr protocol address
  | EpDomain host port =>
    match nw_lookup_host net host port with
    | None => unreachable PfUnresolvable
    | Some [] => unreachable PfUnresolvable
    | Some addresses =>
      ping_end (foldl (λ s address, ping_turn s (probe_addr protocol address)) ping_start addresses)
    end
  end.

Definition protocol_name (p : ProtocolSpec) : string :=
  match p with
  | Vless _ => "vless" | Vmess _ => "vmess" | Trojan _ => "trojan" | Shadowsocks _ => "ss"
  | Hysteria2 _ => "hysteria2" | Tuic _ => "tuic" | WireGuard _ => "wireguard"
  end.

Definition build_outcome (node : CanonicalNode) (ping : AddressProbe) : ProbeOutcome :=
  {| po_label := label (meta node); po_country_code := country_code (meta node);
     po_protocol := protocol_name (protocol node); po_latency_ms := ap_latency_ms ping;
     po_confidence := ap_confidence ping; po_failure := ap_failure ping |}.

Definition probe (node : CanonicalNode) (depth : ProbeDepth) : ProbeOutcome :=
  match depth with
  | L4Ping => build_outcome node (ping (endpoint node) (protocol node))
  | _ => build_outcome node (unconfirmed PfIo)
  end.
End Engine.

(** ** The batch *)

Section Batch.
(** Every task sees the network on its own. *)
Context (engine : ProbeEngine) (nets : nat → Network).

Definition outcome_at (depth : ProbeDepth) (i : nat) (node : CanonicalNode) : ProbeOutcome :=
  probe engine (nets i) node depth.

(** The outcomes in the order of the handles; a task that did not join, because it
    panicked or was cancelled, is left out. *)
Definition probe_batch (joined : nat → bool) (nodes : list CanonicalNode) (depth : ProbeDepth)
  : list ProbeOutcome :=
  omap id (imap (λ i node, if joined i then Some (outcome_at depth i node) else None) nodes).

(** *** Its tasks *)

(** A spawned task: not started, before its next address, holding a permit on one,
    or ended with its outcome. *)
Inductive ProbeTask :=
| Spawned
| Waiting (rest : list SocketAddr) (s : PingState)
| Dialing (address : SocketAddr) (rest : list SocketAddr) (s : PingState)
| Ended (o : ProbeOutcome).

Record Tasks := { tk_free : nat; tk_tasks : list ProbeTask }.

Definition spawn_all (nodes : list CanonicalNode) : Tasks :=
  {| tk_free := pe_permits engine; tk_tasks := map (λ _, Spawned) nodes |}.

Definition with_task (w : nat) (t : ProbeTask) (p : Tasks) : Tasks :=
  {| tk_free := tk_free p; tk_tasks := <[w := t]> (tk_tasks p) |}.
Definition with_free (n : nat) (p : Tasks) : Tasks := {| tk_free := n; tk_tasks := tk_tasks p |}.

(** What a task does first: the deeper tiers and an endpoint without an address
    end at once. *)
Definition begin_task (depth : ProbeDepth) (i : nat) (node : CanonicalNode) : ProbeTask :=
  match depth, addresses_of (nets i) (endpoint node) with
  | L4Ping, (_ :: _) as addresses => Waiting addresses ping_start
  | _, _ => Ended (outcome_at depth i node)
  end.

(** The interleavings: any task may move, but a dial starts only with a permit,
    which it gives back when it ends. *)
Inductive task_step (depth : ProbeDepth) (nodes : list CanonicalNode) : Tasks → Tasks → Prop :=
| step_begin p w node :
    tk_tasks p !! w = Some Spawned → nodes !! w = Some node →
    task_step depth nodes p (with_task w (begin_task depth w node) p)
| step_acquire p w address rest s :
    tk_tasks p !! w = Some (Waiting (address :: rest) s) → (0 < tk_free p)%nat →
    task_step depth nodes p (with_task w (Dialing address rest s) (with_free (tk_free p - 1) p))
| step_release p w address rest s node :
    tk_tasks p !! w = Some (Dialing address rest s) → nodes !! w = Some node →
    task_step depth nodes p
      (with_task w (Waiting rest (ping_turn s (probe_addr engine (nets w) (protocol node) address)))
         (with_free (S (tk_free p)) p))
| step_end p w s node :
    tk_tasks p !! w = Some (Waiting [] s) → nodes !! w = Some node →
    task_step depth nodes p (with_task w (Ended (build_outcome node (ping_end s))) p).

(** What the handles give. *)
Definition outcome_of (t : ProbeTask) : option ProbeOutcome := match t with Ended o => Some o | _ => None end.
Definition is_dialing (t : ProbeTask) : bool := match t with Dialing _ _ _ => true | _ => false end.
Definition dialing (p : Tasks) : nat := length (List.filter is_dialing (tk_tasks p)).
End Batch.

(** ** What an address shows *)

Section Shows.
Context (engine : ProbeEngine) (net : Network) (p : ProtocolSpec).
Let config := pe_config engine.

(** The address answers, after so many nanoseconds and within the deadline. *)
Definition reached (a : SocketAddr) (t : Z) : Prop :=
  if uses_tcp p then nw_tcp_connect net a = Some (t, Ok ()) ∧ t ≤ pc_connect_timeout config
  else is_ok (nw_udp_bind net) = true ∧ is_ok (nw_udp_connect net a) = true ∧
       (∃ n, nw_udp_recv net a = Some (t, Ok n)) ∧ t ≤ pc_udp_reply_window config.

(** A datagram that is neither answered nor refused within the window. *)
Definition silent (a : SocketAddr) : Prop :=
  uses_tcp p = false ∧ is_ok (nw_udp_bind net) = true ∧ is_ok (nw_udp_connect net a) = true ∧
  (∀ t n, nw_udp_recv net a = Some (t, Ok n) → pc_udp_reply_window config < t) ∧
  (∀ t e, nw_udp_recv net a = Some (t, Err e) → e ≠ OtherError → pc_udp_reply_window config < t).

Lemma timeout_Some {A} d (f : Future A) r : timeout d f = Some r ↔ f = Some r ∧ r.1 ≤ d.
Proof.
  unfold timeout. destruct f as [[t a]|]; simpl; [|naive_solver].
  destruct (Z.leb_spec t d); naive_solver lia.
Qed.

Lemma timeout_None {A} d (f : Future A) : timeout d f = None ↔ ∀ t a, f = Some (t, a) → d < t.
Proof.
  unfold timeout. destruct f as [[t a]|]; simpl; [|naive_solver].
  destruct (Z.leb_spec t d); naive_solver lia.
Qed.

(** Every address is in exactly one of three cases. *)
Variant shown (a : SocketAddr) : AddressProbe → Prop :=
| ShownReached t : reached a t → shown a (reachable_in (ms_elapsed t))
| ShownSilent : silent a → (∀ t, ¬ reached a t) → shown a (unconfirmed PfNoReply)
| ShownDead f : ¬ silent a → (∀ t, ¬ reached a t) → shown a (unreachable f).

Ltac future_case E :=
  first [apply timeout_Some in E as [E Hd]; simpl in Hd | pose proof (proj1 (timeout_None _ _) E) as Hd].

Lemma probe_addr_shown a : pe_closed engine = false → shown a (probe_addr engine net p a).
Proof.
  intros Hc. unfold probe_addr. rewrite Hc. destruct (uses_tcp p) eqn:Et.
  - assert (¬ silent a) as Hns by (intros [? _]; congruence). unfold tcp_connect.
    destruct (timeout _ _) as [[t [[]|k]]|] eqn:E; future_case E.
    + constructor. unfold reached. by rewrite Et.
    + assert (∀ t, ¬ reached a t) as Hn.
      { intros t'. unfold reached. rewrite Et. intros [Ht _]. congruence. }
      by destruct k; constructor.
    + constructor; [done|]. intros t. unfold reached. rewrite Et. intros [Ht Hle]. apply Hd in Ht. fold config in Ht. lia.
  - unfold udp_reach. destruct (nw_udp_bind net) as [[]|eb] eqn:Eb; simpl.
    2: { constructor; [intros (_ & Hb & _)|intros t; unfold reached; rewrite Et; intros [Hb _]]; by rewrite Eb in Hb. }
    destruct (nw_udp_connect net a) as [[]|ec] eqn:Ec; simpl.
    2: { constructor; [intros (_ & _ & Hb & _)|intros t; unfold reached; rewrite Et; intros (_ & Hb & _)];
         by rewrite Ec in Hb. }
    destruct (timeout _ _) as [[t [n|k]]|] eqn:E; future_case E.
    + constructor. unfold reached. rewrite Et, Eb, Ec. split_and!; [done|done|by eexists|done].
    + assert (∀ t', ¬ reached a t') as Hn.
      { intros t'. unfold reached. rewrite Et. intros (_ & _ & [n Hr] & _). congruence. }
      assert (k ≠ OtherError → ¬ silent a) as Hs.
      { intros Hk (_ & _ & _ & _ & Hsil). specialize (Hsil _ _ E Hk). fold config in Hd. lia. }
      destruct k; constructor; try done; try (by apply Hs). unfold silent. rewrite Eb, Ec.
      split_and!; try done; intros; by simplify_eq.
    + assert (∀ t', ¬ reached a t') as Hn.
      { intros t'. unfold reached. rewrite Et. intros (_ & _ & [n Hr] & Hle). apply Hd in Hr. fold config in Hr. lia. }
      constructor; [|done]. unfold silent. rewrite Eb, Ec. split_and!; try done; intros ? ? Hr; intros; by eapply Hd.
Qed.
End Shows.

(** ** The loop keeps the first of the best verdicts *)

Lemma foldl_ping_best l : l ≠ [] →
  ∃ before p after, l = before ++ p :: after ∧
    ps_best (foldl ping_turn ping_start l) = Some p ∧
    Forall (λ q, rank (ap_confidence q) < rank (ap_confidence p)) before ∧
    Forall (λ q, rank (ap_confidence q) ≤ rank (ap_confidence p)) after.
Proof.
  induction l as [|x l IH] using rev_ind; [done|]. intros _. rewrite foldl_snoc.
  destruct (decide (l = [])) as [->|Hl].
  { exists [], x, []. by split_and!. }
  destruct (IH Hl) as (before & p & after & -> & Hp & Hb & Ha). unfold ping_turn at 1. cbn [ps_best]. rewrite Hp.
  destruct (Z.ltb_spec (rank (ap_confidence p)) (rank (ap_confidence x))) as [Hlt|Hge].
  - exists (before ++ p :: after), x, []. split_and!; [done|done| |done].
    rewrite Forall_app, Forall_cons. split_and!; [|done|].
    + eapply Forall_impl; [exact Hb|]. simpl. lia.
    + eapply Forall_impl; [exact Ha|]. simpl. lia.
  - exists before, p, (after ++ [x]). split_and!; [by rewrite <-app_assoc|done|done|].
    apply Forall_app. split; [done|]. by repeat constructor.
Qed.

(** So the fallback after the loop is never taken, and the verdict of a node is one
    of its addresses'. *)
Lemma ping_first_best engine net endpoint protocol :
  let verdicts := map (probe_addr engine net protocol) (addresses_of net endpoint) in
  verdicts = [] ∧ ping engine net endpoint protocol = unreachable PfUnresolvable ∨
  ∃ before after, verdicts = before ++ ping engine net endpoint protocol :: after ∧
    Forall (λ q, rank (ap_confidence q) < rank (ap_confidence (ping engine net endpoint protocol))) before ∧
    Forall (λ q, rank (ap_confidence q) ≤ rank (ap_confidence (ping engine net endpoint protocol))) after.
Proof.
  destruct endpoint as [a|host port]; cbn [addresses_of ping].
  { right. by exists [], []. }
  destruct (nw_lookup_host net host port) as [[|a l]|]; cbn [default from_option id]; [by left| |by left]. right.
  set (l' := a :: l).
  assert (foldl (λ s b, ping_turn s (probe_addr engine net protocol b)) ping_start l' =
          foldl ping_turn ping_start (map (probe_addr engine net protocol) l')) as ->.
  { generalize ping_start. induction l' as [|b l' IH]; intros s; simpl; [done|]. by rewrite IH. }
  destruct (foldl_ping_best (map (probe_addr engine net protocol) l')) as (b & p & c & E & Hp & Hb & Hc); [done|].
  exists b, c. unfold ping_end. rewrite Hp. by split_and!.
Qed.

(** ** The verdict of a node *)

Section Verdict.
Context (engine : ProbeEngine) (net : Network) (node : CanonicalNode).
Let p := protocol node.
Let addresses := addresses_of net (endpoint node).

(** The first address that answers, after addresses that do not. *)
Definition first_reached (t : Z) : Prop :=
  ∃ before a after, addresses = before ++ a :: after ∧ reached engine net p a t ∧
    Forall (λ b, ∀ t', ¬ reached engine net p b t') before.

Lemma verdict_cases :
  pe_closed engine = false →
  let v := ping engine net (endpoint node) p in
  (∃ t, first_reached t ∧ v = reachable_in (ms_elapsed t)) ∨
  ((∀ a t, a ∈ addresses → ¬ reached engine net p a t) ∧ (∃ a, a ∈ addresses ∧ silent engine net p a) ∧
     v = unconfirmed PfNoReply) ∨
  ((∀ a t, a ∈ addresses → ¬ reached engine net p a t) ∧ (∀ a, a ∈ addresses → ¬ silent engine net p a) ∧
     ∃ f, v = unreachable f).
Proof.
  intros Hc. cbv zeta.
  destruct (ping_first_best engine net (endpoint node) p) as [[E ->]|(before & after & E & Hb & Ha)]; fold addresses in E.
  { apply map_eq_nil in E. right; right. rewrite E. split_and!; [by intros ? ? ?%elem_of_nil|by intros ? ?%elem_of_nil|by eexists]. }
  set (v := ping engine net (endpoint node) p) in *.
  apply map_eq_app in E as (l1 & l2 & El & <- & E). apply map_eq_cons in E as (a & l3 & -> & Ev & <-).
  pose proof (probe_addr_shown engine net p) as Hshown.
  assert (∀ b, b ∈ addresses → rank (ap_confidence (probe_addr engine net p b)) ≤ rank (ap_confidence v)) as Hmax.
  { intros b. rewrite El, elem_of_app, elem_of_cons. rewrite Forall_map, Forall_forall in Hb, Ha.
    intros [Hi|[->|Hi]]; [specialize (Hb _ Hi); simpl in Hb; lia|rewrite Ev; lia|by apply Ha]. }
  assert (a ∈ addresses) as Hin by (rewrite El, elem_of_app, elem_of_cons; tauto).
  pose proof (Hshown a Hc) as Hv. rewrite Ev in Hv. clearbody v. destruct Hv as [t Hr|Hs Hn|f Hs Hn].
  - left. exists t. split; [|done]. exists l1, a, l3. split_and!; [done|done|].
    rewrite Forall_map in Hb. eapply Forall_impl; [exact Hb|]. simpl. intros b Hlt t' Hr'.
    destruct (Hshown b Hc) as [? _|_ Hn'|? _ Hn']; [simpl in Hlt; lia|by eapply Hn'|by eapply Hn'].
  - right; left. split_and!; [|by exists a|done]. intros b t Hbin Hr. specialize (Hmax b Hbin).
    destruct (Hshown b Hc) as [? _|_ Hn'|? _ Hn']; [simpl in Hmax; lia|by eapply Hn'|by eapply Hn'].
  - right; right. split_and!; [| |by eexists].
    + intros b t Hbin Hr. specialize (Hmax b Hbin).
      destruct (Hshown b Hc) as [? _|_ Hn'|? _ Hn']; [simpl in Hmax; lia|by eapply Hn'|by eapply Hn'].
    + intros b Hbin Hr. specialize (Hmax b Hbin).
      destruct (Hshown b Hc) as [? _|_ Hn'|? Hs' Hn']; [simpl in Hmax; lia|simpl in Hmax; lia|done].
Qed.

(** C27. A socket probe claims exactly what it saw.  A node is alive exactly when one
    of its addresses answers within the deadline, and the latency is then that of
    the first one that does; it is unknown exactly when none answers and one stays
    silent to a datagram; it is dead exactly when every address is neither, one
    without addresses included.  It is never confirmed, and a failure is given
    exactly when there is no latency. *)
Theorem probe_spec :
  pe_closed engine = false →
  let o := probe engine net node L4Ping in
  (ProbeOutcome_alive o = true ↔ ∃ a t, a ∈ addresses ∧ reached engine net p a t) ∧
  (is_unknown o = true ↔ (∃ a, a ∈ addresses ∧ silent engine net p a) ∧
     ∀ a t, a ∈ addresses → ¬ reached engine net p a t) ∧
  (is_dead o = true ↔ ∀ a, a ∈ addresses → ¬ silent engine net p a ∧ ∀ t, ¬ reached engine net p a t) ∧
  (ProbeOutcome_alive o = true → ∃ t, first_reached t ∧ po_latency_ms o = Some (ms_elapsed t)) ∧
  po_confidence o ≠ Confirmed ∧
  (is_Some (po_latency_ms o) ↔ ProbeOutcome_alive o = true) ∧ (is_Some (po_failure o) ↔ ProbeOutcome_alive o = false).
Proof.
  intros Hc. cbv zeta. cbn [probe]. pose proof (verdict_cases Hc) as Hv. fold p. cbv zeta in Hv.
  destruct Hv as [(t & Hf & ->)|[(Hn & (a & Ha & Hs) & ->)|(Hn & Hs & f & ->)]];
    unfold ProbeOutcome_alive, is_unknown, is_dead; cbn.
  - assert (∃ a, a ∈ addresses ∧ reached engine net p a t) as (a & Ha & Hr).
    { destruct Hf as (l1 & a & l2 & E & Hr & _). exists a. split; [|done]. rewrite E, elem_of_app, elem_of_cons. tauto. }
    split_and!; try done.
    + split; [|done]. intros _. by exists a, t.
    + split; [done|]. intros [_ Hn]. by destruct (Hn a t Ha).
    + split; [done|]. intros Hn. by destruct (Hn a Ha) as [_ Hn']; destruct (Hn' t).
    + intros _. by exists t.
  - split_and!; try done.
    + split; [done|]. intros (b & t & Hb & Hr). by destruct (Hn b t Hb).
    + split; [|done]. intros _. split; [by exists a|done].
    + split; [done|]. intros Hd. by destruct (Hd a Ha) as [Hd' _].
  - split_and!; try done.
    + split; [done|]. intros (b & t & Hb & Hr). by destruct (Hn b t Hb).
    + split; [done|]. intros [(a & Ha & Hsa) _]. by destruct (Hs a Ha).
    + split; [|done]. intros _ a Ha. split; [by apply Hs|]. intros t. by apply Hn.
Qed.

(** Exactly one of the three classes applies. *)
Lemma outcome_partition o :
  (if ProbeOutcome_alive o then 1 else 0) + (if is_unknown o then 1 else 0) + (if is_dead o then 1 else 0) = (1 : Z).
Proof. unfold ProbeOutcome_alive, is_unknown, is_dead. by destruct (po_confidence o). Qed.

(** The deeper tiers claim nothing. *)
Lemma deeper_tiers_unknown depth : depth ≠ L4Ping → is_unknown (probe engine net node depth) = true.
Proof. by destruct depth. Qed.

(** With deadlines under 65.536 s, as the default's, a latency is the milliseconds
    of the answer and at most the deadline. *)
Lemma latency_within_deadline a t :
  pc_connect_timeout (pe_config engine) < 65536 * MILLI →
  pc_udp_reply_window (pe_config engine) < 65536 * MILLI →
  0 ≤ t → reached engine net p a t →
  ms_elapsed t = as_millis t ∧
  as_millis t ≤ as_millis (Z.max (pc_connect_timeout (pe_config engine)) (pc_udp_reply_window (pe_config engine))).
Proof.
  intros H1 H2 Ht Hr. assert (t ≤ Z.max (pc_connect_timeout (pe_config engine)) (pc_udp_reply_window (pe_config engine))) as Hm.
  { unfold reached in Hr. destruct (uses_tcp p); [lia|]. destruct Hr as (_ & _ & _ & Hr). lia. }
  split; [|unfold as_millis; apply Z.div_le_mono; [done|lia]].
  unfold ms_elapsed. rewrite (proj2 (try_from_u_Some 16 (as_millis t) (as_millis t))); [done|].
  split; [done|]. unfold in_u, as_millis. change (umax 16) with 65535. split; [by apply Z.div_pos|].
  enough (t / MILLI < 65536) by lia. apply Z.div_lt_upper_bound; [done|]. lia.
Qed.

(** Datagrams are sent from an IPv4 socket.  Where such a socket cannot connect to an
    IPv6 address, a node that speaks UDP on IPv6 addresses is declared dead, however
    it would answer. *)
Lemma udp_v6_declared_dead :
  pe_closed engine = false → uses_tcp p = false →
  (∀ a l, sa_ip a = V6 l → nw_udp_connect net a = Err OtherError) →
  (∀ a, a ∈ addresses → ∃ l, sa_ip a = V6 l) →
  is_dead (probe engine net node L4Ping) = true.
Proof.
  intros Hc Hu Hv Ha. cbn [probe]. fold p.
  pose proof (verdict_cases Hc) as Hd. cbv zeta in Hd.
  destruct Hd as [(t & (l1 & a & l2 & E & Hr & _) & _)|[(_ & (a & Hin & Hs) & _)|(_ & _ & f & ->)]]; [| |done]; exfalso.
  - destruct (Ha a) as [l Hl]; [rewrite E, elem_of_app, elem_of_cons; tauto|].
    unfold reached in Hr. rewrite Hu, (Hv a l Hl) in Hr. by destruct Hr as (_ & Hr & _).
  - destruct (Ha a Hin) as [l Hl]. destruct Hs as (_ & _ & Hs & _). by rewrite (Hv a l Hl) in Hs.
Qed.
End Verdict.

(** ** The tasks of a batch *)

Lemma sum_imap_insert {A} (f : nat → A → nat) l w x y :
  l !! w = Some x →
  (f w x + sum_list (imap f (<[w := y]> l)) = f w y + sum_list (imap f l))%nat.
Proof.
  revert f w. induction l as [|z l IH]; intros f w Hw; [done|].
  destruct w as [|w]; cbn [lookup list_lookup] in Hw.
  - injection Hw as ->. cbn [insert list_insert]. rewrite !imap_cons. simpl. lia.
  - change (<[S w:=y]> (z :: l)) with (z :: <[w:=y]> l). rewrite !imap_cons. simpl.
    specialize (IH (f ∘ S) w Hw). unfold compose in *. simpl in IH. lia.
Qed.

Lemma omap_imap_Some {A B} (f : nat → A → B) l : omap id (imap (λ i x, Some (f i x)) l) = imap f l.
Proof.
  revert f. induction l as [|x l IH]; intros f; [done|]. rewrite !imap_cons. simpl. f_equal. apply (IH (f ∘ S)).
Qed.

(** When no task is lost there is one outcome per node, in their order. *)
Lemma batch_joined engine nets joined nodes depth :
  (∀ i, joined i = true) → probe_batch engine nets joined nodes depth = imap (outcome_at engine nets depth) nodes.
Proof.
  intros Hj. etrans; [|apply omap_imap_Some]. unfold probe_batch. f_equal. apply imap_ext. intros i n _. by rewrite Hj.
Qed.

Section Runs.
Context (config : ProbeConfig) (nets : nat → Network) (nodes : list CanonicalNode) (depth : ProbeDepth).
Let engine := ProbeEngine_new config.
Let batch_step := task_step engine nets depth nodes.

(** What a task will end with, from where it stands. *)
Definition on_course (w : nat) (t : ProbeTask) (node : CanonicalNode) : Prop :=
  let turn s a := ping_turn s (probe_addr engine (nets w) (protocol node) a) in
  match t with
  | Spawned => True
  | Waiting rest s => build_outcome node (ping_end (foldl turn s rest)) = outcome_at engine nets depth w node
  | Dialing a rest s =>
    build_outcome node (ping_end (foldl turn s (a :: rest))) = outcome_at engine nets depth w node
  | Ended o => o = outcome_at engine nets depth w node
  end.

Definition tasks_inv (p : Tasks) : Prop :=
  length (tk_tasks p) = length nodes ∧ (tk_free p + dialing p = pe_permits engine)%nat ∧
  ∀ w t node, tk_tasks p !! w = Some t → nodes !! w = Some node → on_course w t node.

Lemma begin_on_course w node : on_course w (begin_task engine nets depth w node) node.
Proof.
  unfold begin_task, on_course. destruct depth; try done.
  destruct (addresses_of (nets w) (endpoint node)) as [|a l] eqn:Ea; [done|].
  unfold outcome_at, probe. f_equal.
  destruct (endpoint node) as [b|host port]; simpl in Ea |- *.
  - by injection Ea as -> <-.
  - destruct (nw_lookup_host (nets w) host port) as [l'|]; simpl in Ea; simplify_eq. done.
Qed.

Lemma begin_not_dialing w node : is_dialing (begin_task engine nets depth w node) = false.
Proof. unfold begin_task. by repeat case_match. Qed.

(** Replacing a task changes the count by what it held and holds. *)
Lemma dialing_insert (l : list ProbeTask) w x y :
  l !! w = Some x →
  (length (List.filter is_dialing (<[w := y]> l)) + (if is_dialing x then 1 else 0) =
   length (List.filter is_dialing l) + (if is_dialing y then 1 else 0))%nat.
Proof.
  intros Hw. pose proof (lookup_lt_Some _ _ _ Hw). rewrite insert_take_drop by done.
  rewrite <-(take_drop_middle l w x Hw) at 3. rewrite !List.filter_app, !length_app. simpl.
  destruct (is_dialing x), (is_dialing y); simpl; lia.
Qed.

Lemma on_course_insert (l : list ProbeTask) w y node :
  (∀ v t n, l !! v = Some t → nodes !! v = Some n → on_course v t n) →
  nodes !! w = Some node → on_course w y node →
  ∀ v t n, <[w := y]> l !! v = Some t → nodes !! v = Some n → on_course v t n.
Proof.
  intros Hl Hw Hy v t n Hv Hn. apply list_lookup_insert_Some in Hv as [(<- & <- & _)|[_ Hv]]; [congruence|by eapply Hl].
Qed.

Lemma task_step_inv p q : batch_step p q → tasks_inv p → tasks_inv q.
Proof.
  intros Hstep (Hlen & Hfree & Hc). unfold tasks_inv, dialing in *.
  assert (∀ w t, tk_tasks p !! w = Some t → ∃ node, nodes !! w = Some node) as Hnode.
  { intros w t Hw%lookup_lt_Some. apply lookup_lt_is_Some. lia. }
  destruct Hstep as [p w node Hw Hn|p w a rest s Hw Hf|p w a rest s node Hw Hn|p w s node Hw Hn];
    cbn [with_task with_free tk_free tk_tasks]; rewrite length_insert.
  - pose proof (dialing_insert _ w _ (begin_task engine nets depth w node) Hw) as Hd.
    rewrite begin_not_dialing in Hd. simpl in Hd. split_and!; [done|lia|].
    eapply on_course_insert; [done|done|apply begin_on_course].
  - destruct (Hnode w _ Hw) as [node Hn].
    pose proof (dialing_insert _ w _ (Dialing a rest s) Hw) as Hd. simpl in Hd. split_and!; [done|lia|].
    eapply on_course_insert; [done|done|]. exact (Hc w _ node Hw Hn).
  - set (y := Waiting rest _). pose proof (dialing_insert _ w _ y Hw) as Hd. simpl in Hd. split_and!; [done|lia|].
    eapply on_course_insert; [done|done|]. exact (Hc w _ node Hw Hn).
  - set (y := Ended _). pose proof (dialing_insert _ w _ y Hw) as Hd. simpl in Hd. split_and!; [done|lia|].
    eapply on_course_insert; [done|done|]. exact (Hc w _ node Hw Hn).
Qed.

Lemma spawn_inv : tasks_inv (spawn_all engine nodes).
Proof.
  unfold tasks_inv, spawn_all, dialing. cbn [tk_free tk_tasks]. rewrite length_map. split_and!; [done| |].
  - assert (List.filter is_dialing (map (λ _, Spawned) nodes) = []) as ->; [|simpl; lia].
    clear. by induction nodes.
  - intros w t node Hw _. apply list_lookup_fmap_Some in Hw as (? & -> & _). done.
Qed.

(** *** Every run ends *)

Definition task_turns (w : nat) (t : ProbeTask) : nat :=
  match t with
  | Spawned => 2 + 2 * length (from_option (λ n, addresses_of (nets w) (endpoint n)) [] (nodes !! w))
  | Waiting rest _ => 1 + 2 * length rest
  | Dialing _ rest _ => 2 + 2 * length rest
  | Ended _ => 0
  end.
Definition tasks_turns (p : Tasks) : nat := sum_list (imap task_turns (tk_tasks p)).

Lemma begin_turns w node :
  nodes !! w = Some node → (task_turns w (begin_task engine nets depth w node) < task_turns w Spawned)%nat.
Proof.
  intros Hn. unfold begin_task, task_turns. rewrite Hn. simpl.
  destruct depth; simpl; try lia. destruct (addresses_of (nets w) (endpoint node)); simpl; lia.
Qed.

Lemma step_turns p q : batch_step p q → (tasks_turns q < tasks_turns p)%nat.
Proof.
  unfold tasks_turns. destruct 1 as [p w node Hw Hn|p w a rest s Hw Hf|p w a rest s node Hw Hn|p w s node Hw Hn];
    cbn [with_task with_free tk_tasks]; (set (y := begin_task _ _ _ _ _) || set (y := Dialing _ _ _)
      || set (y := Waiting _ _) || set (y := Ended _));
    pose proof (sum_imap_insert task_turns _ w _ y Hw) as Hs; [|simpl in Hs; lia..].
  pose proof (begin_turns w node Hn). fold y in H. lia.
Qed.

Lemma runs_are_short k p q : nsteps batch_step k p q → (k + tasks_turns q ≤ tasks_turns p)%nat.
Proof. apply measured_runs, step_turns. Qed.

(** *** And only when all tasks have *)

Lemma dialing_exists p : (0 < dialing p)%nat → ∃ w a rest s, tk_tasks p !! w = Some (Dialing a rest s).
Proof.
  unfold dialing. intros Hd. destruct (List.filter is_dialing (tk_tasks p)) as [|t l] eqn:E; [simpl in Hd; lia|].
  assert (In t (List.filter is_dialing (tk_tasks p))) as Hin by (rewrite E; by left).
  apply filter_In in Hin as [Hin Ht]. apply list_elem_of_In, list_elem_of_lookup in Hin as [w Hw].
  destruct t as [| |a rest s|]; try done. by exists w, a, rest, s.
Qed.

Lemma tasks_progress p :
  tasks_inv p → (∃ q, batch_step p q) ∨ ∀ w t, tk_tasks p !! w = Some t → ∃ o, t = Ended o.
Proof.
  intros (Hlen & Hfree & _).
  assert (∀ w t, tk_tasks p !! w = Some t → ∃ node, nodes !! w = Some node) as Hnode.
  { intros w t Hw%lookup_lt_Some. apply lookup_lt_is_Some. lia. }
  destruct (decide (Forall (λ t, is_Some (outcome_of t)) (tk_tasks p))) as [Hall|Hex].
  - right. rewrite Forall_lookup in Hall. intros w t Hw. specialize (Hall w t Hw) as [o Ho].
    destruct t; simplify_eq/=. by eexists.
  - left. apply not_Forall_Exists, Exists_exists in Hex as (t & Hin & Ht); [|apply _].
    apply list_elem_of_lookup in Hin as [w Hw]. destruct (Hnode w t Hw) as [node Hn].
    destruct t as [|[|a rest] s|a rest s|o].
    + eexists. by eapply step_begin.
    + eexists. by eapply step_end.
    + destruct (decide (0 < tk_free p)%nat) as [Hf|Hf]; [eexists; by eapply step_acquire|].
      destruct (dialing_exists p) as (v & b & rest' & s' & Hv); [unfold engine in *; simpl in *; lia|].
      destruct (Hnode v _ Hv) as [node' Hn']. eexists. by eapply step_release.
    + eexists. by eapply step_release.
    + exfalso. apply Ht. by eexists.
Qed.

(** C28. Probing a catalog at once is probing its nodes one after another: however the
    tasks interleave, at most as many sockets dial as the configured limit (one when
    it is zero), every run ends within two turns per address and two per node,
    without a deadlock, and then the handles give exactly the outcomes of the nodes
    in their order. *)
Theorem probe_batch_concurrent :
  (∀ m p, nsteps batch_step m (spawn_all engine nodes) p →
     (m ≤ sum_list (imap (λ i n, 2 + 2 * length (addresses_of (nets i) (endpoint n))) nodes))%nat) ∧
  ∀ p, rtc batch_step (spawn_all engine nodes) p →
    (dialing p ≤ Nat.max (pc_concurrency_limit config) 1)%nat ∧
    ((∃ q, batch_step p q) ∨
     map outcome_of (tk_tasks p) = map Some (probe_batch engine nets (λ _, true) nodes depth)).
Proof.
  split.
  - intros m p Hm%runs_are_short. enough (tasks_turns (spawn_all engine nodes) =
      sum_list (imap (λ i n, 2 + 2 * length (addresses_of (nets i) (endpoint n))) nodes))%nat by lia.
    unfold tasks_turns, spawn_all. cbn [tk_tasks]. f_equal. apply list_eq. intros i.
    rewrite !list_lookup_imap, list_lookup_fmap. destruct (nodes !! i) eqn:E; simpl; [by rewrite E|done].
  - intros p Hp. assert (tasks_inv p) as Hi by (eapply (rtc_preserves _ _ task_step_inv); [exact Hp|apply spawn_inv]).
    pose proof Hi as (Hlen & Hfree & Hc). split; [unfold engine in Hfree; simpl in Hfree; lia|].
    destruct (tasks_progress p Hi) as [Hq|Hend]; [by left|right].
    rewrite batch_joined by done. apply list_eq. intros i.
    rewrite !list_lookup_fmap, list_lookup_imap.
    destruct (tk_tasks p !! i) as [t|] eqn:Ht; destruct (nodes !! i) as [node|] eqn:Hn; simpl.
    + destruct (Hend i t Ht) as [o ->]. simpl. by rewrite (Hc i _ node Ht Hn).
    + apply lookup_lt_Some in Ht. apply lookup_ge_None in Hn. lia.
    + apply lookup_lt_Some in Hn. apply lookup_ge_None in Ht. lia.
    + done.
Qed.

(** A lost task shifts every outcome after it to the node before. *)
Lemma lost_task_shifts i :
  probe_batch engine nets (λ j, negb (j =? i)%nat) nodes depth =
  let all := imap (outcome_at engine nets depth) nodes in take i all ++ drop (S i) all.
Proof.
  unfold probe_batch. cbv zeta. generalize (outcome_at engine nets depth). revert i.
  induction nodes as [|n l IH]; intros i f; [by destruct i|]. rewrite !imap_cons.
  destruct i as [|i]; simpl.
  - rewrite drop_0. exact (omap_imap_Some (f ∘ S) l).
  - f_equal. apply (IH i (f ∘ S)).
Qed.
End Runs.

(** ** Witnesses *)

Definition addr_of (n : Z) : SocketAddr := {| sa_ip := V4 192 0 2 n; sa_port := 443 |}.

(** The name has three addresses: the first refuses, the second is too slow, the
    third answers after 40 ms. *)
Definition sample_net : Network :=
  {| nw_lookup_host _ _ := Some [addr_of 1; addr_of 2; addr_of 3];
     nw_tcp_connect a := if decide (a = addr_of 1) then Some (MILLI, Err ConnectionRefused)
                         else if decide (a = addr_of 2) then Some (900 * MILLI, Ok ())
                         else Some (40 * MILLI + 7, Ok ());
     nw_udp_bind := Ok (); nw_udp_connect _ := Ok (); nw_udp_recv _ := None |}.

Definition sample_engine : ProbeEngine := ProbeEngine_new ProbeConfig_default.

Lemma probe_spec_witness :
  ProbeOutcome_alive (probe sample_engine sample_net (sample_node 1 "Frankfurt") L4Ping) = true ∧
  po_latency_ms (probe sample_engine sample_net (sample_node 1 "Frankfurt") L4Ping) = Some 40.
Proof.
  split; [|vm_compute; reflexivity].
  destruct (probe_spec sample_engine sample_net (sample_node 1 "Frankfurt") eq_refl) as [[_ E] _]. apply E.
  exists (addr_of 3), (40 * MILLI + 7). split.
  - apply (bool_decide_unpack _). vm_compute. exact I.
  - split; [vm_compute; reflexivity|vm_compute; discriminate].
Defined.
