(* ===== verification/ProbeCli.v ===== *)
(** The probe's command line ([crates/probe/src/main.rs]): its arguments, and the
    report it prints of a subscription file. *)

From S2P Require Import Prelude RustStr Ir Metadata Uri Clash Ingest Probe.

Record CliArgs := { cl_path : option string; cl_concurrency : Z; cl_timeout_ms : Z }.
Definition CliArgs_default : CliArgs :=
  {| cl_path := None; cl_concurrency := Z.of_nat (pc_concurrency_limit ProbeConfig_default);
     cl_timeout_ms := as_millis (pc_connect_timeout ProbeConfig_default) |}.

(** [args.get(index)…parse()], for a [u64] or a 64-bit [usize]. *)
Definition numeric_value (flag : string) (args : list string) : result Error (Z * list string) :=
  match args with
  | [] => bail (flag +:+ " needs a value")
  | v :: args =>
    n ← context (flag +:+ " must be a number") (ok_or (parse_uint 64 v) [parse_int_error v]); Ok (n, args)
  end.

(** The loop over the arguments; its fuel is their number. *)
Fixpoint parse_args (fuel : nat) (args : list string) (c : CliArgs) : result Error CliArgs :=
  match fuel, args with
  | O, _ | _, [] => Ok c
  | S fuel, arg :: args =>
    if String.eqb arg "--concurrency" then
      r ← numeric_value arg args;
      parse_args fuel r.2 {| cl_path := cl_path c; cl_concurrency := r.1; cl_timeout_ms := cl_timeout_ms c |}
    else if String.eqb arg "--timeout-ms" then
      r ← numeric_value arg args;
      parse_args fuel r.2 {| cl_path := cl_path c; cl_concurrency := cl_concurrency c; cl_timeout_ms := r.1 |}
    else if starts_with "--" arg then bail ("unknown flag " +:+ arg)
    else match cl_path c with
         | Some _ => bail "expected a single subscription file"
         | None => parse_args fuel args {| cl_path := Some arg; cl_concurrency := cl_concurrency c;
                                           cl_timeout_ms := cl_timeout_ms c |}
         end
  end.

Definition describe_failure (f : ProbeFailure) : string :=
  match f with
  | PfRefused => "connection refused" | PfTimedOut => "timed out" | PfUnresolvable => "unresolvable"
  | PfNoReply => "no reply" | PfIo => "io error"
  end.

(** [{:>w}] and [{:w}] of ASCII text. *)
Definition spaces (n : nat) : string := of_bytes (repeat " "%char n).
Definition pad_left (w : nat) (s : string) : string := spaces (w - String.length s) +:+ s.
Definition pad_right (w : nat) (s : string) : string := s +:+ spaces (w - String.length s).

Definition status_of (o : ProbeOutcome) : string :=
  if ProbeOutcome_alive o then "REACH " else if is_unknown o then "UNKNWN" else "DEAD  ".

Definition outcome_line (o : ProbeOutcome) : string :=
  "[" +:+ status_of o +:+ "] " +:+
  pad_left 8 (from_option (λ rtt, show_Z rtt +:+ "ms") "--" (po_latency_ms o)) +:+ "  " +:+
  pad_right 9 (po_protocol o) +:+ "@" +:+ from_utf8_lossy (po_country_code o) +:+ "  " +:+ po_label o +:+ "  " +:+
  from_option describe_failure "socket answered" (po_failure o).

Definition count_of (p : ProbeOutcome → bool) (l : list ProbeOutcome) : nat := length (List.filter p l).

Definition summary_line (report : IngestionReport) (outcomes : list ProbeOutcome) : string :=
  show_Z (Z.of_nat (count_of ProbeOutcome_alive outcomes)) +:+ " reachable, " +:+
  show_Z (Z.of_nat (count_of is_unknown outcomes)) +:+ " unconfirmed, " +:+
  show_Z (Z.of_nat (count_of is_dead outcomes)) +:+ " dead (of " +:+
  show_Z (Z.of_nat (length (successful_nodes report))) +:+ " scanned; " +:+
  show_Z (Z.of_nat (length (failed_entries report))) +:+ " skipped, " +:+
  show_Z (duplicates_omitted report) +:+ " duplicates)".

Section Cli.
Context `{IdentityHash} `{ParserLib} `{YamlLib}.
(** The file system, the clock and the network. *)
Context (read : string → result string string) (now : Z) (nets : nat → Network) (joined : nat → bool).

Definition sorted_outcomes (c : CliArgs) (report : IngestionReport) : list ProbeOutcome :=
  let config := {| pc_concurrency_limit := Z.to_nat (cl_concurrency c);
                   pc_connect_timeout := cl_timeout_ms c * MILLI;
                   pc_udp_reply_window := pc_udp_reply_window ProbeConfig_default |} in
  sort_by (cmp_on po_label String.compare)
    (probe_batch (ProbeEngine_new config) nets joined (successful_nodes report) L4Ping).

(** [main]: the lines it prints. *)
Definition main (args : list string) : result Error (list string) :=
  c ← parse_args (length args) args CliArgs_default;
  path ← ok_or (cl_path c)
           ["usage: myproxy-probe <subscription> [--concurrency N] [--timeout-ms T]"]%stdpp;
  raw ← context ("failed to read " +:+ path) (map_err (λ e, [e]) (read path));
  let report := ingest_subscription raw 1 now in
  let outcomes := sorted_outcomes c report in
  Ok (map outcome_line outcomes ++
      [""; summary_line report outcomes;
       "REACH = transport answered only. It is not proof the tunnel carries traffic;";
       "run the egress quorum (myproxy-gui 'Rescore egress') for a verified verdict."]%stdpp).

(** ** What it prints *)

Lemma count_partition l : (count_of ProbeOutcome_alive l + count_of is_unknown l + count_of is_dead l = length l)%nat.
Proof.
  unfold count_of. induction l as [|o l IH]; [done|]. cbn [List.filter]. pose proof (outcome_partition o) as Ho.
  destruct (ProbeOutcome_alive o), (is_unknown o), (is_dead o); simpl; lia.
Qed.

(** Every scanned node has one line, the lines are in the order of their labels, and
    the three counts of the summary add up to the scanned nodes. *)
Lemma cli_accounts c report :
  (∀ i, joined i = true) →
  let outcomes := sorted_outcomes c report in
  map po_label outcomes ≡ₚ map (λ n, label (meta n)) (successful_nodes report) ∧
  StronglySorted (λ a b, String.compare (po_label a) (po_label b) ≠ Gt) outcomes ∧
  (count_of ProbeOutcome_alive outcomes + count_of is_unknown outcomes + count_of is_dead outcomes =
   length (successful_nodes report))%nat.
Proof.
  intros Hj. cbv zeta. rewrite count_partition. unfold sorted_outcomes. rewrite sort_by_length.
  set (e := ProbeEngine_new _).
  rewrite (batch_joined e nets joined _ L4Ping Hj).
  split_and!; [|exact (sort_by_sorted (cmp_on po_label String.compare) _)|by rewrite length_imap].
  rewrite (sort_by_perm _ _). apply Permutation_refl'.
  etrans; [apply fmap_imap|]. apply (imap_const (λ n, label (meta n))).
Qed.

(** The flags are read back, whatever their values; a later one wins. *)
Lemma flags_roundtrip c t path :
  in_u 64 c → in_u 64 t → starts_with "--" path = false →
  let args := ["--concurrency"; show_Z c; path; "--timeout-ms"; show_Z t]%stdpp in
  parse_args (length args) args CliArgs_default =
    Ok {| cl_path := Some path; cl_concurrency := c; cl_timeout_ms := t |}.
Proof.
  intros Hc Ht Hp. cbn -[parse_uint show_Z starts_with]. rewrite parse_uint_show by done.
  cbn -[parse_uint show_Z starts_with].
  destruct (String.eqb_spec path "--concurrency") as [->|_]; [done|].
  destruct (String.eqb_spec path "--timeout-ms") as [->|_]; [done|].
  rewrite Hp. cbn -[parse_uint show_Z starts_with]. by rewrite parse_uint_show.
Qed.
End Cli.
