(* ===== verification/Score.v ===== *)
(** Candidate scores ([crates/controller/src/proxy_controller.rs], the shortlist
    part): the verdict of a trial, the order of a shortlist, the cheap sweep that
    chooses which nodes earn a trial.

    A trial and a socket probe are observations: functions the environment
    gives.  Durations are nanoseconds. *)

From S2P Require Import Prelude RustStr Ir Egress Probe.

Definition DURATION_MAX : Z := U64_MAX * SECOND + 999999999.

Record CandidateScore := {
  cs_node_index : nat;
  cs_label : string;
  cs_sub_id : Z;
  cs_verified : nat;
  cs_total : nat;
  cs_passes : bool;
  cs_median_latency : option Z;
  cs_latency_spread : option Z
}.

(** ** Scoring *)

Definition abs_diff (a b : Z) : Z := Z.abs (a - b).
Definition u64_or_max (z : Z) : Z := default U64_MAX (try_from_u 64 z).

(** The element in the middle of the sorted list. *)
Definition middle (l : list Z) : option Z := sort_by Z.compare l !! (length l / 2)%nat.

Definition verified_millis (r : ScatterReport) : list Z :=
  map (λ c, as_millis (tc_latency c)) (List.filter tc_verified (sr_checks r)).

Definition median_of_verified (r : ScatterReport) : option Z * option Z :=
  let latencies := verified_millis r in
  match middle latencies with
  | None => (None, None)
  | Some median =>
    let deviations := map (λ v, abs_diff v median) (sort_by Z.compare latencies) in
    (Some (u64_or_max median * MILLI),
     Some (u64_or_max (default 0 (middle deviations)) * MILLI))
  end.

(** The score of a candidate from its report, if its trial gave one. *)
Definition score_of (node_index : nat) (n : CanonicalNode) (report : option ScatterReport)
    (min_verified : nat) : CandidateScore :=
  {| cs_node_index := node_index;
     cs_label := label (meta n);
     cs_sub_id := sub_id (meta n);
     cs_verified := from_option sr_verified O report;
     cs_total := from_option sr_total O report;
     cs_passes := from_option (λ r, (min_verified <=? sr_quorum_verified r)%nat) false report;
     cs_median_latency := report ≫= λ r, (median_of_verified r).1;
     cs_latency_spread := report ≫= λ r, (median_of_verified r).2 |}.

Definition run_egress_trials (trial : CanonicalNode → result Error ScatterReport)
    (candidates : list CanonicalNode) : list (option ScatterReport) :=
  map (λ n, res_ok (trial n)) candidates.

Definition rank_candidates (candidates : list CanonicalNode) (reports : list (option ScatterReport))
    (min_verified : nat) : list CandidateScore :=
  imap (λ i n, score_of i n (mjoin (reports !! i)) min_verified) candidates.

Definition selection_order : CandidateScore → CandidateScore → comparison :=
  cmp_then (cmp_rev (cmp_on cs_passes bool_cmp))
  (cmp_then (cmp_on (λ s, default DURATION_MAX (cs_median_latency s)) Z.compare)
  (cmp_then (cmp_rev (cmp_on cs_verified Nat.compare))
            (cmp_on cs_node_index Nat.compare))).

Definition sort_ranked (ranked : list CandidateScore) : list CandidateScore :=
  sort_by selection_order ranked.

Definition score_egress_candidates (trial : CanonicalNode → result Error ScatterReport)
    (candidates : list CanonicalNode) (cfg : ScatterConfig) (limit : nat) : list CandidateScore :=
  take limit (sort_ranked (rank_candidates candidates (run_egress_trials trial candidates)
                             (sc_min_verified cfg))).

(** ** The tiered shortlist *)

Record PreflightConfig := {
  pf_concurrency : nat; pf_connect_timeout : Z; pf_finalists : nat
}.
Definition PreflightConfig_default : PreflightConfig :=
  {| pf_concurrency := 512; pf_connect_timeout := 800 * MILLI; pf_finalists := 8 |}.

Record CheapOutcome := { co_latency : option Z; co_dead : bool }.

(** [cheap_sweep]: the probe of the whole catalog, or nothing when the runtime cannot
    be built. *)
Definition cheap_sweep (runtime : bool) (nets : nat → Network) (joined : nat → bool)
    (candidates : list CanonicalNode) (preflight : PreflightConfig) : list CheapOutcome :=
  if negb runtime then [] else
  let engine := ProbeEngine_new
    {| pc_concurrency_limit := Nat.max (pf_concurrency preflight) 1;
       pc_connect_timeout := pf_connect_timeout preflight;
       pc_udp_reply_window := pc_udp_reply_window ProbeConfig_default |} in
  map (λ o, {| co_latency := po_latency_ms o; co_dead := is_dead o |})
    (probe_batch engine nets joined candidates L4Ping).

Definition latency_key (outcomes : list CheapOutcome) (i : nat) : Z :=
  default U16_MAX (outcomes !! i ≫= co_latency).
Definition alive (outcomes : list CheapOutcome) (i : nat) : bool :=
  negb (from_option co_dead true (outcomes !! i)).

Definition select_finalists (outcomes : list CheapOutcome) (finalists : nat) : list nat :=
  sort_by Nat.compare
    (take finalists
      (sort_by (cmp_on (latency_key outcomes) Z.compare)
        (List.filter (alive outcomes) (seq 0 (length outcomes))))).

(** [candidates[index]] panics out of range. *)
Definition tiered_shortlist (sweep : list CanonicalNode → PreflightConfig → list CheapOutcome)
    (trial : CanonicalNode → result Error ScatterReport) (candidates : list CanonicalNode)
    (preflight : PreflightConfig) (heavy : ScatterConfig) (limit : nat)
  : option (list CandidateScore) :=
  match candidates with
  | [] => Some []
  | _ =>
    let finalists := select_finalists (sweep candidates preflight) (pf_finalists preflight) in
    match finalists with
    | [] => Some []
    | _ =>
      finalist_nodes ← mapM (λ i, candidates !! i) finalists;
      let reports := run_egress_trials trial finalist_nodes in
      let ranked := zip_with (λ node_index nr,
        score_of node_index nr.1 nr.2 (sc_min_verified heavy)) finalists (zip finalist_nodes reports) in
      Some (take limit (sort_ranked ranked))
    end
  end.

(** ** Lemmas *)

Lemma selection_order_cmp : CmpOrder selection_order.
Proof. unfold selection_order. apply _. Qed.
#[export] Existing Instance selection_order_cmp.

Lemma selection_order_le a b :
  selection_order a b ≠ Gt →
  (cs_passes b = true → cs_passes a = true) ∧
  (cs_passes a = cs_passes b →
   default DURATION_MAX (cs_median_latency a) ≤ default DURATION_MAX (cs_median_latency b)).
Proof.
  unfold selection_order, cmp_then, cmp_rev, cmp_on.
  destruct (cs_passes a), (cs_passes b); simpl; intros Hc; split; try done; intros _;
    destruct (Z.compare_spec (default DURATION_MAX (cs_median_latency a))
                (default DURATION_MAX (cs_median_latency b))); simpl in Hc; lia || done.
Qed.

Lemma selection_order_eq a b : selection_order a b = Eq → cs_node_index a = cs_node_index b.
Proof.
  unfold selection_order, cmp_then, cmp_rev, cmp_on, then_with. intros E. case_in E.
  by apply Nat.compare_eq.
Qed.

Lemma length_filter_lt {A} (p : A → bool) l : (length (List.filter p l) ≤ length l)%nat.
Proof. induction l as [|x l IH]; simpl; [lia|]. destruct (p x); simpl; lia. Qed.

Lemma take_sorted_subset {A} (cmp : A → A → comparison) n l x :
  x ∈ take n (sort_by cmp l) → x ∈ l.
Proof. intros Hx. rewrite <-(sort_by_perm cmp l). eapply subseteq_take; exact Hx. Qed.

(** ** Theorems: the median *)

Definition count {A} (p : A → bool) (l : list A) : nat := length (List.filter p l).

Lemma count_app {A} (p : A → bool) l k : count p (l ++ k) = (count p l + count p k)%nat.
Proof. unfold count. by rewrite List.filter_app, length_app. Qed.

Lemma count_all {A} (p : A → bool) l : Forall (λ x, p x = true) l → count p l = length l.
Proof. unfold count. induction 1 as [|x l Hx _ IH]; simpl; [done|]. rewrite Hx. simpl. by f_equal. Qed.

(** Counting and medians do not see the order of a list. *)
#[export] Instance count_perm {A} (p : A → bool) : Proper ((≡ₚ) ==> eq) (count p).
Proof.
  intros l0 k0 H0. unfold count. induction H0 as [|x l k _ IH|x y l|? ? ? _ IH1 _ IH2]; simpl; [done| | |congruence].
  - destruct (p x); simpl; congruence.
  - destruct (p x), (p y); done.
Qed.

Definition at_most (m x : Z) : bool := x <=? m.
Definition at_least (m x : Z) : bool := m <=? x.

(** The upper median: more than half the values are at most [m], at least half
    are at least [m]. *)
Definition is_median (l : list Z) (m : Z) : Prop :=
  m ∈ l ∧ (length l / 2 < count (at_most m) l)%nat ∧
  (length l - length l / 2 ≤ count (at_least m) l)%nat.

#[export] Instance is_median_perm : Proper ((≡ₚ) ==> eq ==> iff) is_median.
Proof. intros l k Hp m ? <-. unfold is_median. by setoid_rewrite Hp. Qed.

Lemma sorted_count l k m :
  StronglySorted (λ x y : Z, x ≤ y) l → l !! k = Some m →
  (k < count (at_most m) l)%nat ∧ (length l - k ≤ count (at_least m) l)%nat.
Proof.
  intros Hs Hk. rewrite <-(take_drop_middle l k m Hk) in Hs |- *.
  pose proof (lookup_lt_Some _ _ _ Hk). set (a := take k l) in *. set (b := drop (S k) l) in *.
  assert (length a = k) as Ha by (apply length_take_le; lia).
  apply StronglySorted_app in Hs as (Hab & _ & Hb). apply StronglySorted_inv in Hb as [_ Hb].
  rewrite !count_app, length_app. change (m :: b) with ([m] ++ b). rewrite !count_app.
  rewrite (count_all (at_most m) a), (count_all (at_least m) b).
  - unfold count, at_most, at_least. simpl. rewrite Z.leb_refl. simpl. lia.
  - rewrite Forall_forall in Hb |- *. intros x Hx. specialize (Hb x Hx). by apply Z.leb_le.
  - apply Forall_forall. intros x Hx. specialize (Hab x m Hx ltac:(left)). by apply Z.leb_le.
Qed.

Lemma middle_median l : l ≠ [] → ∃ m, middle l = Some m ∧ is_median l m.
Proof.
  intros Hl. unfold middle, is_median.
  assert (length l / 2 < length l)%nat as Hlt.
  { apply Nat.div_lt; [|lia]. destruct l; [done|simpl; lia]. }
  destruct (lookup_lt_is_Some_2 (sort_by Z.compare l) (length l / 2)%nat) as [m Hm].
  { by rewrite sort_by_length. }
  exists m. split; [done|].
  destruct (sorted_count (sort_by Z.compare l) (length l / 2)%nat m) as [H1 H2]; [|done|].
  { exact (sort_by_sorted Z.compare l). }
  rewrite sort_by_length in H2. rewrite (sort_by_perm Z.compare l) in H1, H2.
  split_and!; [|lia|lia]. rewrite <-(sort_by_perm Z.compare l). by eapply list_elem_of_lookup_2.
Qed.

(** The latency of a score is the upper median of the verified round trips in
    whole milliseconds, its spread the upper median of their deviations from it,
    and both are absent exactly when no target verified. *)
Lemma median_of_verified_spec (r : ScatterReport) :
  let l := verified_millis r in
  Forall (in_u 64) l →
  (l = [] ∧ median_of_verified r = (None, None)) ∨
  ∃ m d, median_of_verified r = (Some (m * MILLI), Some (d * MILLI)) ∧
    is_median l m ∧ is_median (map (λ v, abs_diff v m) l) d.
Proof.
  intros l Hu. unfold median_of_verified. fold l. destruct (decide (l = [])) as [E|E].
  { left. split; [done|]. by rewrite E. }
  right. destruct (middle_median l E) as (m & -> & Hm).
  destruct (middle_median (map (λ v, abs_diff v m) (sort_by Z.compare l))) as (d & -> & Hd).
  { intros Hn%(f_equal length). rewrite length_map, sort_by_length in Hn. by destruct l. }
  assert (map (λ v, abs_diff v m) (sort_by Z.compare l) ≡ₚ map (λ v, abs_diff v m) l) as Hp
    by (apply fmap_Permutation, sort_by_perm).
  assert (is_median (map (λ v, abs_diff v m) l) d) as Hd' by by rewrite <-Hp.
  exists m, d. split; [|done]. rewrite Forall_forall in Hu.
  assert (∀ z, in_u 64 z → u64_or_max z = z) as Hk.
  { intros z Hz. unfold u64_or_max. by rewrite (proj2 (try_from_u_Some 64 z z)). }
  pose proof (Hu m (proj1 Hm)) as Hum. simpl. rewrite !Hk; [done| |done].
  destruct Hd' as [(v & -> & Hv)%list_elem_of_fmap _]. specialize (Hu v Hv).
  unfold in_u, abs_diff in *. lia.
Qed.

(** ** Theorems: the shortlist *)

Lemma select_finalists_perm outcomes n :
  select_finalists outcomes n ≡ₚ
  take n (sort_by (cmp_on (latency_key outcomes) Z.compare)
            (List.filter (alive outcomes) (seq 0 (length outcomes)))).
Proof. apply sort_by_perm. Qed.

Lemma select_finalists_spec outcomes n :
  NoDup (select_finalists outcomes n) ∧ (length (select_finalists outcomes n) ≤ n)%nat ∧
  (∀ i, i ∈ select_finalists outcomes n → (i < length outcomes)%nat ∧ alive outcomes i = true) ∧
  (∀ i j, j ∈ select_finalists outcomes n → (i < length outcomes)%nat → alive outcomes i = true →
    i ∉ select_finalists outcomes n → latency_key outcomes j ≤ latency_key outcomes i).
Proof.
  set (cand := List.filter (alive outcomes) (seq 0 (length outcomes))).
  set (s := sort_by (cmp_on (latency_key outcomes) Z.compare) cand).
  pose proof (select_finalists_perm outcomes n) as Hp. fold cand s in Hp.
  assert (∀ i, i ∈ s ↔ (i < length outcomes)%nat ∧ alive outcomes i = true) as Hs.
  { intros i. unfold s. rewrite elem_of_sort_by. unfold cand.
    rewrite list_elem_of_In, filter_In, in_seq. naive_solver lia. }
  assert (NoDup s) as Hd.
  { unfold s. rewrite (sort_by_perm _ cand). unfold cand.
    apply NoDup_ListNoDup, List.NoDup_filter, List.seq_NoDup. }
  split_and!.
  - rewrite Hp. rewrite <-(take_drop n s), NoDup_app in Hd. tauto.
  - rewrite Hp, length_take. lia.
  - intros i. rewrite Hp. intros Hi. apply Hs. eapply subseteq_take; exact Hi.
  - intros i j. rewrite !Hp. intros Hj Hi Ha Hn.
    assert (i ∈ drop n s) as Hi'.
    { assert (i ∈ s) as H0 by (apply Hs; done). rewrite <-(take_drop n s), elem_of_app in H0. tauto. }
    pose proof (sort_by_sorted (cmp_on (latency_key outcomes) Z.compare) cand) as Ho.
    fold s in Ho. rewrite <-(take_drop n s) in Ho.
    by eapply StronglySorted_app_1_elem_of in Ho.
Qed.

Lemma select_finalists_mapM outcomes n (candidates : list CanonicalNode) :
  (length outcomes ≤ length candidates)%nat →
  ∃ nodes, mapM (λ i, candidates !! i) (select_finalists outcomes n) = Some nodes.
Proof.
  intros Hl. apply mapM_is_Some, Forall_forall. intros i Hi. apply lookup_lt_is_Some.
  apply (select_finalists_spec outcomes n) in Hi as [Hi _]. lia.
Qed.

(** The rows of the shortlist before it is sorted and cut. *)
Lemma finalist_rows f (trial : CanonicalNode → result Error ScatterReport)
    (candidates nodes : list CanonicalNode) min_v :
  mapM (λ i, candidates !! i) f = Some nodes →
  let ranked := zip_with (λ i nr, score_of i nr.1 nr.2 min_v) f (zip nodes (run_egress_trials trial nodes)) in
  map cs_node_index ranked = f ∧
  ∀ s, s ∈ ranked → ∃ n, candidates !! cs_node_index s = Some n ∧
    s = score_of (cs_node_index s) n (res_ok (trial n)) min_v.
Proof.
  intros Hm. apply mapM_Some_1 in Hm. induction Hm as [|i n f nodes Hi Hm [IH1 IH2]]; simpl.
  { split; [done|]. intros s Hs. inversion Hs. }
  split; [by rewrite IH1|]. intros s [->|Hs]%elem_of_cons; [|by apply IH2].
  exists n. by split.
Qed.

Lemma tiered_shortlist_rows sweep trial (candidates : list CanonicalNode) preflight heavy limit nodes :
  let f := select_finalists (sweep candidates preflight) (pf_finalists preflight) in
  (length (sweep candidates preflight) ≤ length candidates)%nat →
  mapM (λ i, candidates !! i) f = Some nodes →
  tiered_shortlist sweep trial candidates preflight heavy limit =
  Some (take limit (sort_ranked (zip_with (λ i nr, score_of i nr.1 nr.2 (sc_min_verified heavy)) f
                                   (zip nodes (run_egress_trials trial nodes))))).
Proof.
  intros f Hl Hm. unfold tiered_shortlist. fold f.
  assert (candidates = [] → f = []) as Hnil.
  { intros E. unfold f. rewrite E in *.
    destruct (sweep [] preflight); [by destruct (pf_finalists preflight)|simpl in Hl; lia]. }
  clearbody f.
  destruct f as [|i f']; [destruct candidates; by destruct limit|].
  destruct candidates; [by discriminate Hnil|]. by rewrite Hm.
Qed.

Lemma tiered_shortlist_in_range sweep trial candidates preflight heavy limit ranked sc :
  (length (sweep candidates preflight) ≤ length candidates)%nat →
  tiered_shortlist sweep trial candidates preflight heavy limit = Some ranked →
  sc ∈ ranked → (cs_node_index sc < length candidates)%nat.
Proof.
  intros Hl E Hin.
  destruct (select_finalists_mapM (sweep candidates preflight) (pf_finalists preflight) candidates Hl) as [nodes Hm].
  rewrite (tiered_shortlist_rows sweep trial candidates preflight heavy limit nodes Hl Hm) in E.
  injection E as <-. apply take_sorted_subset in Hin.
  destruct (finalist_rows _ trial candidates nodes (sc_min_verified heavy) Hm) as [_ Hrow].
  destruct (Hrow sc Hin) as (n & Hn & _). by eapply lookup_lt_Some.
Qed.

Lemma tiered_shortlist_cases sweep trial candidates preflight heavy limit :
  let outcomes := sweep candidates preflight in
  let finalists := select_finalists outcomes (pf_finalists preflight) in
  (length outcomes ≤ length candidates)%nat →
  ∃ ranked, tiered_shortlist sweep trial candidates preflight heavy limit = Some ranked ∧
    (length ranked ≤ Nat.min limit (pf_finalists preflight))%nat ∧
    NoDup (map cs_node_index ranked) ∧
    StronglySorted (λ a b, selection_order a b ≠ Gt) ranked ∧
    (∀ s, s ∈ ranked → cs_node_index s ∈ finalists ∧ alive outcomes (cs_node_index s) = true ∧
      ∃ n, candidates !! cs_node_index s = Some n ∧
        s = score_of (cs_node_index s) n (res_ok (trial n)) (sc_min_verified heavy)) ∧
    (∀ i j, i ∈ finalists → (j < length outcomes)%nat → alive outcomes j = true → j ∉ finalists →
      latency_key outcomes i ≤ latency_key outcomes j) ∧
    (∀ s, s ∈ ranked → cs_passes s = true → ∃ h, head ranked = Some h ∧ cs_passes h = true).
Proof.
  intros outcomes finalists Hlen.
  destruct (select_finalists_spec outcomes (pf_finalists preflight)) as (Hd & Hl & Ha & Hf).
  fold finalists in Hd, Hl, Ha, Hf.
  destruct (select_finalists_mapM outcomes (pf_finalists preflight) candidates Hlen) as [nodes Hm].
  fold finalists in Hm.
  destruct (finalist_rows finalists trial candidates nodes (sc_min_verified heavy) Hm) as [H1 H2].
  set (rows := zip_with _ _ _) in *.
  assert (tiered_shortlist sweep trial candidates preflight heavy limit =
          Some (take limit (sort_ranked rows))) as ->.
  { by apply (tiered_shortlist_rows sweep trial candidates preflight heavy limit nodes). }
  exists (take limit (sort_ranked rows)). split; [done|].
  pose proof (sort_by_sorted selection_order rows) as Hso. fold (sort_ranked rows) in Hso.
  assert (NoDup (map cs_node_index (sort_ranked rows))) as Hnd.
  { assert (map cs_node_index (sort_ranked rows) ≡ₚ finalists) as ->; [|done].
    rewrite <-H1. apply fmap_Permutation, sort_by_perm. }
  rewrite <-(take_drop limit (sort_ranked rows)) in Hso, Hnd. split_and!.
  - rewrite length_take. unfold sort_ranked. rewrite sort_by_length.
    assert (length rows = length finalists) as -> by by rewrite <-H1, length_map. lia.
  - change (map cs_node_index) with (fmap (M:=list) cs_node_index) in Hnd.
    rewrite fmap_app, NoDup_app in Hnd. tauto.
  - by eapply StronglySorted_app_1_l.
  - intros s Hs%take_sorted_subset.
    assert (cs_node_index s ∈ finalists) as Hi by (rewrite <-H1; by apply list_elem_of_fmap_2).
    split_and!; [done|by apply Ha|by apply H2].
  - intros i j Hi Hj Hal Hn. by apply Hf.
  - intros s Hs Hp. apply StronglySorted_app_1_l in Hso.
    destruct (take limit (sort_ranked rows)) as [|h t]; [inversion Hs|]. exists h. split; [done|].
    apply StronglySorted_inv in Hso as [_ Hso]. rewrite Forall_forall in Hso.
    apply elem_of_cons in Hs as [->|Hs]; [done|].
    destruct (selection_order_le h s (Hso s Hs)) as [Hps _]. by apply Hps.
Qed.

(** C36. The tiered shortlist never panics.  Its rows are distinct candidates, at
    most as many as the limit and the finalists; each was alive in the sweep and
    carries the verdict of its own trial, no live candidate left out of the
    trials was faster than one let in, and the rows are in selection order, so
    the first one works if any does. *)
Theorem tiered_shortlist_spec sweep trial candidates preflight heavy limit :
  let outcomes := sweep candidates preflight in
  let finalists := select_finalists outcomes (pf_finalists preflight) in
  (length outcomes ≤ length candidates)%nat →
  ∃ ranked, tiered_shortlist sweep trial candidates preflight heavy limit = Some ranked ∧
    (length ranked ≤ Nat.min limit (pf_finalists preflight))%nat ∧
    NoDup (map cs_node_index ranked) ∧
    StronglySorted (λ a b, selection_order a b ≠ Gt) ranked ∧
    (∀ s, s ∈ ranked → cs_node_index s ∈ finalists ∧ alive outcomes (cs_node_index s) = true ∧
      ∃ n, candidates !! cs_node_index s = Some n ∧
        s = score_of (cs_node_index s) n (res_ok (trial n)) (sc_min_verified heavy)) ∧
    (∀ i j, i ∈ finalists → (j < length outcomes)%nat → alive outcomes j = true → j ∉ finalists →
      latency_key outcomes i ≤ latency_key outcomes j) ∧
    (∀ s, s ∈ ranked → cs_passes s = true → ∃ h, head ranked = Some h ∧ cs_passes h = true).
Proof. apply tiered_shortlist_cases. Qed.

(** ** The shortlist over the real sweep *)

Section Sweep.
Context (nets : nat → Network) (preflight : PreflightConfig).

Let engine := ProbeEngine_new
  {| pc_concurrency_limit := Nat.max (pf_concurrency preflight) 1;
     pc_connect_timeout := pf_connect_timeout preflight;
     pc_udp_reply_window := pc_udp_reply_window ProbeConfig_default |}.

(** The probe of one candidate. *)
Definition swept (i : nat) (n : CanonicalNode) : ProbeOutcome := outcome_at engine nets L4Ping i n.

Lemma length_omap_le {A B} (f : A → option B) (l : list A) : (length (omap f l) ≤ length l)%nat.
Proof. induction l as [|x l IH]; csimpl; [lia|]. destruct (f x); csimpl; lia. Qed.

(** The sweep never has more rows than the catalog, as the shortlist needs. *)
Lemma cheap_sweep_length runtime joined candidates :
  (length (cheap_sweep runtime nets joined candidates preflight) ≤ length candidates)%nat.
Proof.
  unfold cheap_sweep. destruct runtime; simpl; [|lia]. rewrite length_map. unfold probe_batch.
  etrans; [apply length_omap_le|]. by rewrite length_imap.
Qed.

Lemma cheap_sweep_lookup candidates i :
  cheap_sweep true nets (λ _, true) candidates preflight !! i =
  (λ n, {| co_latency := po_latency_ms (swept i n); co_dead := is_dead (swept i n) |}) <$> candidates !! i.
Proof.
  unfold cheap_sweep. cbn [negb]. fold engine.
  rewrite (batch_joined engine nets (λ _, true) candidates L4Ping) by done.
  rewrite list_lookup_fmap, list_lookup_imap. by destruct (candidates !! i).
Qed.

Lemma swept_alive candidates i :
  alive (cheap_sweep true nets (λ _, true) candidates preflight) i = true ↔
  ∃ n, candidates !! i = Some n ∧ is_dead (swept i n) = false.
Proof.
  unfold alive. rewrite cheap_sweep_lookup. destruct (candidates !! i) as [n|]; simpl; [|naive_solver].
  rewrite negb_true_iff. naive_solver.
Qed.

(** Over the real sweep the shortlist never tries a node whose own probe proved
    it dead, and drops no other one while its limits allow: a node that answered
    nothing is still tried.  Without a runtime for the sweep nothing is tried. *)
Lemma sweep_shortlist_spec trial candidates heavy limit :
  let shortlist r := tiered_shortlist (cheap_sweep r nets (λ _, true)) trial candidates preflight heavy limit in
  shortlist false = Some [] ∧
  ∃ ranked, shortlist true = Some ranked ∧
    (∀ s, s ∈ ranked → ∃ n, candidates !! cs_node_index s = Some n ∧
       is_dead (swept (cs_node_index s) n) = false) ∧
    ((length candidates ≤ Nat.min limit (pf_finalists preflight))%nat →
     ∀ i n, candidates !! i = Some n → is_dead (swept i n) = false →
       ∃ s, s ∈ ranked ∧ s = score_of i n (res_ok (trial n)) (sc_min_verified heavy)).
Proof.
  cbv zeta. split.
  { unfold tiered_shortlist, cheap_sweep. cbn. destruct candidates; [done|]. by destruct (pf_finalists preflight). }
  set (sweep := cheap_sweep true nets (λ _, true)).
  assert (length (sweep candidates preflight) ≤ length candidates)%nat as Hlen
    by apply (cheap_sweep_length true (λ _, true)).
  destruct (select_finalists_mapM (sweep candidates preflight) (pf_finalists preflight) candidates Hlen) as [nodes Hm].
  pose proof (finalist_rows _ trial candidates nodes (sc_min_verified heavy) Hm) as Hrows. cbv zeta in Hrows.
  rewrite (tiered_shortlist_rows sweep trial candidates preflight heavy limit nodes Hlen Hm).
  set (rows := zip_with _ _ _) in *. destruct Hrows as [Hidx Hrow].
  eexists. split; [done|]. split.
  - intros s Hs%take_sorted_subset. destruct (Hrow s Hs) as (n & Hn & _).
    assert (cs_node_index s ∈ map cs_node_index rows) as Hin by by apply list_elem_of_fmap_2.
    rewrite Hidx in Hin. apply (select_finalists_spec (sweep candidates preflight)) in Hin as [_ Ha].
    by apply swept_alive.
  - intros Hl i n Hi Hd.
    assert (alive (sweep candidates preflight) i = true) as Ha by (apply swept_alive; eauto).
    assert (i ∈ select_finalists (sweep candidates preflight) (pf_finalists preflight)) as Hin.
    { rewrite select_finalists_perm, take_ge, sort_by_perm.
      - apply list_elem_of_In, filter_In. split; [|done]. apply in_seq. split; [lia|]. simpl.
        apply lookup_lt_is_Some. unfold sweep. rewrite cheap_sweep_lookup, Hi. by eexists.
      - rewrite sort_by_length. etrans; [apply length_filter_lt|]. rewrite length_seq. lia. }
    rewrite <-Hidx in Hin. apply list_elem_of_fmap in Hin as (s & -> & Hs).
    exists s. split.
    + rewrite take_ge; [by apply elem_of_sort_by|]. unfold sort_ranked. rewrite sort_by_length.
      assert (length rows = length (select_finalists (sweep candidates preflight) (pf_finalists preflight))) as ->
        by by rewrite <-Hidx, length_map.
      pose proof (select_finalists_spec (sweep candidates preflight) (pf_finalists preflight)) as (_ & Hf & _). 
      rewrite select_finalists_perm, length_take, sort_by_length.
      pose proof (length_filter_lt (alive (sweep candidates preflight)) (seq 0 (length (sweep candidates preflight)))) as Hfl.
      rewrite length_seq in Hfl. lia.
    + destruct (Hrow s Hs) as (n' & Hn' & Es). congruence.
Qed.

End Sweep.

(** ** Witnesses *)

Definition sample_scatter (latencies : list Z) : ScatterReport :=
  let check ms := {| tc_tag := ""; tc_verified := true; tc_latency := ms * MILLI; tc_status := 204;
                     tc_detail := "ok" |} in
  {| sr_checks := map check latencies; sr_verified := length latencies; sr_total := 3;
     sr_quorum_verified := length latencies; sr_passes := (2 <=? length latencies)%nat |}.

Lemma median_of_verified_spec_witness :
  median_of_verified (sample_scatter [40; 900; 60]) = (Some (60 * MILLI), Some (20 * MILLI)) ∧
  Forall (in_u 64) (verified_millis (sample_scatter [40; 900; 60])).
Proof.
  assert (Forall (in_u 64) (verified_millis (sample_scatter [40; 900; 60]))) as Hu
    by (repeat constructor; vm_compute; done).
  split; [|exact Hu].
  destruct (median_of_verified_spec (sample_scatter [40; 900; 60]) Hu) as [[E _]|(m & d & E & _)];
    [discriminate E|vm_compute; reflexivity].
Defined.

(** Three candidates, the first dead, the second slow but working. *)
Definition sample_candidates : list CanonicalNode :=
  [sample_node 1 "DE"; sample_node 2 "FR"; sample_node 3 "NL"].
Definition sample_sweep (_ : list CanonicalNode) (_ : PreflightConfig) : list CheapOutcome :=
  [{| co_latency := None; co_dead := true |}; {| co_latency := Some 300; co_dead := false |};
   {| co_latency := Some 20; co_dead := false |}].
Definition sample_trial (n : CanonicalNode) : result Error ScatterReport :=
  if sub_id (meta n) =? 3 then Err ["no testbed"]%stdpp else Ok (sample_scatter [40; 60]).

Lemma tiered_shortlist_spec_witness :
  ∃ ranked, tiered_shortlist sample_sweep sample_trial sample_candidates PreflightConfig_default
              ScatterConfig_default 5 = Some ranked ∧
    map cs_node_index ranked = [1; 2]%nat ∧ (length ranked ≤ 5)%nat.
Proof.
  destruct (tiered_shortlist_spec sample_sweep sample_trial sample_candidates PreflightConfig_default
              ScatterConfig_default 5) as (ranked & E & Hl & _); [simpl; lia|].
  exists ranked. split_and!; [exact E| |simpl in Hl; lia].
  vm_compute in E. injection E as <-. vm_compute. reflexivity.
Defined.
