(* ===== verification/F64.v ===== *)
(** [f64] as the IEEE 754 binary64 of the Standard Library's [SpecFloat], every
    operation rounded to nearest even, with the [f64] methods the program calls,
    and the comparison lemmas that make a sort by [partial_cmp] meaningful. *)

From S2P Require Import Prelude.
From Stdlib Require Export SpecFloat.

Abbreviation f64 := spec_float.
Definition f64_add : f64 → f64 → f64 := SFadd 53 1024.
Definition f64_sub : f64 → f64 → f64 := SFsub 53 1024.
Definition f64_mul : f64 → f64 → f64 := SFmul 53 1024.
Definition f64_div : f64 → f64 → f64 := SFdiv 53 1024.
(** [as f64] of an integer. *)
Definition f64_of_Z (z : Z) : f64 := binary_normalize 53 1024 z 0 false.
(** A decimal literal: the double nearest to a quotient of two small integers. *)
Definition f64_lit (num den : Z) : f64 := f64_div (f64_of_Z num) (f64_of_Z den).

Definition is_nan (x : f64) : bool := match x with S754_nan => true | _ => false end.
Definition partial_cmp (x y : f64) : option comparison := SFcompare x y.
Definition f64_lt (x y : f64) : bool := SFltb x y.

(** [max] and [min] ignore a NaN. *)
Definition f64_max (x y : f64) : f64 :=
  if is_nan x then y else if is_nan y then x else if SFltb x y then y else x.
Definition f64_min (x y : f64) : f64 :=
  if is_nan x then y else if is_nan y then x else if SFltb y x then y else x.
(** [clamp], between bounds that are numbers in order. *)
Definition f64_clamp (lo hi x : f64) : f64 :=
  let x := if f64_lt x lo then lo else x in
  if f64_lt hi x then hi else x.

(** A [Duration] is a count of nanoseconds; [as_secs_f64]. *)
Definition as_secs_f64 (d : Z) : f64 :=
  f64_add (f64_of_Z (d / 1000000000)) (f64_div (f64_of_Z (d mod 1000000000)) (f64_of_Z 1000000000)).

(** ** Comparison

    On numbers, [partial_cmp] is the comparison of a key, so it is a total
    preorder; a NaN gets a key of its own. *)

Definition f64_key (x : f64) : Z * (Z * Z) :=
  match x with
  | S754_infinity true => (-2, (0, 0))
  | S754_finite true m e => (-1, (- e, Zneg m))
  | S754_zero _ => (0, (0, 0))
  | S754_finite false m e => (1, (e, Zpos m))
  | S754_infinity false => (2, (0, 0))
  | S754_nan => (3, (0, 0))
  end.
Definition key_cmp : Z * (Z * Z) → Z * (Z * Z) → comparison :=
  cmp_then (cmp_on fst Z.compare)
    (cmp_then (cmp_on (λ k, k.2.1) Z.compare) (cmp_on (λ k, k.2.2) Z.compare)).
Definition f64_cmp : f64 → f64 → comparison := cmp_on f64_key key_cmp.

#[export] Instance f64_cmp_order : CmpOrder f64_cmp.
Proof. unfold f64_cmp, key_cmp. apply _. Qed.

Lemma partial_cmp_total x y :
  is_nan x = false → is_nan y = false → partial_cmp x y = Some (f64_cmp x y).
Proof.
  unfold partial_cmp, f64_cmp, key_cmp, cmp_then, cmp_on.
  destruct x as [[]|[]| |[] m e], y as [[]|[]| |[] m' e']; intros Hx Hy; try discriminate;
    try reflexivity; simpl; f_equal.
  - destruct (Z.compare_spec e e'), (Z.compare_spec (- e) (- e')); subst; try lia; done.
  - destruct (Z.compare_spec e e'); done.
Qed.

(** ** Numbers that are not negative *)

Definition nonneg (x : f64) : bool :=
  match x with S754_zero _ | S754_infinity false | S754_finite false _ _ => true | _ => false end.
Definition finite (x : f64) : bool :=
  match x with S754_zero _ | S754_finite _ _ _ => true | _ => false end.
Definition pos_finite (x : f64) : bool :=
  match x with S754_finite false _ _ => true | _ => false end.

Lemma shr_1_nonneg r : 0 ≤ shr_m r → 0 ≤ shr_m (shr_1 r).
Proof. destruct r as [[|[p|p|]|p] a b]; simpl; lia. Qed.

Lemma iter_pos_preserves {A} (f : A → A) (P : A → Prop) :
  (∀ x, P x → P (f x)) → ∀ n x, P x → P (iter_pos f n x).
Proof. intros Hf n. induction n; simpl; intros; auto. Qed.

Lemma shr_fexp_nonneg m e l : 0 ≤ m → 0 ≤ shr_m (shr_fexp 53 1024 m e l).1.
Proof.
  intros Hm. unfold shr_fexp, shr.
  assert (0 ≤ shr_m (shr_record_of_loc m l)) by (by destruct l as [|[]]).
  destruct (fexp _ _ _ - e); simpl; [done| |done].
  by apply (iter_pos_preserves shr_1 (λ r, 0 ≤ shr_m r)); [apply shr_1_nonneg|].
Qed.

Lemma round_nearest_even_nonneg m l : 0 ≤ m → 0 ≤ round_nearest_even m l.
Proof. intros. unfold round_nearest_even. destruct l as [|[]]; try lia. destruct (Z.even m); lia. Qed.

Lemma round_aux_nonneg m e l : 0 ≤ m → nonneg (binary_round_aux 53 1024 false m e l) = true.
Proof.
  intros Hm. unfold binary_round_aux.
  pose proof (shr_fexp_nonneg m e l Hm) as H1. destruct (shr_fexp 53 1024 m e l) as [r e1]. simpl in H1.
  pose proof (round_nearest_even_nonneg _ (loc_of_shr_record r) H1) as H2.
  pose proof (shr_fexp_nonneg _ e1 loc_Exact H2) as H3.
  destruct (shr_fexp 53 1024 _ e1 loc_Exact) as [r' e2]. simpl in H3.
  destruct (shr_m r'); [done| |lia]. by destruct (e2 <=? 1024 - 53).
Qed.

Lemma round_nonneg m e : nonneg (binary_round 53 1024 false m e) = true.
Proof.
  unfold binary_round. destruct (shl_align m e _) as [mz ez]. by apply round_aux_nonneg.
Qed.

Lemma normalize_nonneg z e : 0 ≤ z → nonneg (binary_normalize 53 1024 z e false) = true.
Proof. intros. destruct z; [done|apply round_nonneg|lia]. Qed.

Lemma of_Z_nonneg z : 0 ≤ z → nonneg (f64_of_Z z) = true.
Proof. apply normalize_nonneg. Qed.

Lemma nonneg_not_nan x : nonneg x = true → is_nan x = false.
Proof. by destruct x as [| | |]. Qed.

(** Sums, and products and quotients by a positive number, stay so; a product of
    two finite ones does too. *)
Lemma add_nonneg x y : nonneg x = true → nonneg y = true → nonneg (f64_add x y) = true.
Proof.
  unfold f64_add. destruct x as [[]|[]| |[] m e], y as [[]|[]| |[] m' e']; intros Hx Hy;
    try discriminate; try reflexivity.
  apply round_nonneg.
Qed.

Lemma mul_nonneg x y : pos_finite x = true → nonneg y = true → nonneg (f64_mul x y) = true.
Proof.
  unfold f64_mul. destruct x as [[]|[]| |[] m e], y as [[]|[]| |[] m' e']; intros Hx Hy;
    try discriminate; try reflexivity. by apply round_aux_nonneg.
Qed.

Lemma mul_finite_nonneg x y :
  nonneg x && finite x = true → nonneg y && finite y = true → nonneg (f64_mul x y) = true.
Proof.
  unfold f64_mul. destruct x as [[]|[]| |[] m e], y as [[]|[]| |[] m' e']; intros Hx Hy;
    try discriminate; try reflexivity. by apply round_aux_nonneg.
Qed.

Lemma mul_comm_nonneg x y : nonneg x = true → pos_finite y = true → nonneg (f64_mul x y) = true.
Proof.
  unfold f64_mul. destruct x as [[]|[]| |[] m e], y as [[]|[]| |[] m' e']; intros Hx Hy;
    try discriminate; try reflexivity. by apply round_aux_nonneg.
Qed.

Lemma div_nonneg x y : nonneg x = true → pos_finite y = true → nonneg (f64_div x y) = true.
Proof.
  unfold f64_div. destruct x as [[]|[]| |[] m e], y as [[]|[]| |[] m' e']; intros Hx Hy;
    try discriminate; try reflexivity.
  unfold SFdiv. destruct (SFdiv_core_binary _ _ _ _ _ _) as [[mz ez] lz] eqn:E.
  apply round_aux_nonneg. unfold SFdiv_core_binary in E.
  match type of E with (let '(q, r) := Z.div_eucl ?a ?b in _) = _ =>
    assert (0 ≤ a) as Ha; [|pose proof (Z.div_pos a b Ha ltac:(lia)) as Hq;
      unfold Z.div in Hq; destruct (Z.div_eucl a b) as [q r]; by simplify_eq] end.
  match goal with |- 0 ≤ match ?s with _ => _ end => destruct s end; [lia| |lia].
  apply Z.shiftl_nonneg. lia.
Qed.

Lemma clamp_nonneg hi x :
  nonneg hi = true → nonneg x = true → nonneg (f64_clamp (S754_zero false) hi x) = true.
Proof. intros. unfold f64_clamp. by repeat case_match. Qed.

Lemma clamp_finite hi x :
  pos_finite hi = true → nonneg x = true → finite (f64_clamp (S754_zero false) hi x) = true.
Proof.
  unfold f64_clamp, f64_lt, SFltb. destruct hi as [[]|[]| |[] m e]; try done.
  destruct x as [[]|[]| |[] m' e']; try done; intros _ _; simpl; by repeat case_match.
Qed.

Lemma as_secs_nonneg d : 0 ≤ d → nonneg (as_secs_f64 d) = true.
Proof.
  intros Hd. unfold as_secs_f64. apply add_nonneg; [|apply div_nonneg; [|reflexivity]];
    apply of_Z_nonneg; [apply Z.div_pos; lia|]. pose proof (Z.mod_pos_bound d 1000000000). lia.
Qed.
