(* ===== verification/SocketHealth.v ===== *)
(** Kernel telemetry ([crates/probe/src/socket_health.rs]): the health grade of a
    connection, and the reading of a [sock_diag] dump off a netlink socket.

    Structures of the kernel's ABI are byte strings read at their documented
    offsets, little endian; the system calls are outside. *)

From S2P Require Import Prelude.

(** ** The health grade *)

Record TcpStats := {
  ts_rtt_ms : Z; ts_rtt_var_ms : Z; ts_retransmits : Z; ts_total_retrans : Z; ts_unacked : Z
}.
Record HealthThresholds := {
  ht_rtt_degrade_ms : Z; ht_retransmit_spike : Z; ht_retransmit_total : Z; ht_unacked_backlog : Z
}.
Definition HealthThresholds_default : HealthThresholds :=
  {| ht_rtt_degrade_ms := 1200; ht_retransmit_spike := 5; ht_retransmit_total := 12;
     ht_unacked_backlog := 64 |}.

(** Arithmetic on [u32]; the product wraps around in a release build. *)
Definition health_grade (stats : TcpStats) (t : HealthThresholds) : Z :=
  let score := 100 in
  let score :=
    if ht_rtt_degrade_ms t <=? ts_rtt_ms stats
    then let excess := Z.min (ts_rtt_ms stats - ht_rtt_degrade_ms t) 3000 in
         score - Z.min (excess / 100) 40
    else score in
  let score := if ht_retransmit_spike t <=? ts_retransmits stats then score - 30 else score in
  let score :=
    if ht_retransmit_total t <=? ts_total_retrans stats
    then score - Z.min (wrapping_mul 32 (saturating_sub (ts_total_retrans stats)
                                           (ht_retransmit_total t)) 5) 30
    else score in
  let score := if ht_unacked_backlog t <=? ts_unacked stats then score - 20 else score in
  clampZ 0 100 score.

Definition stats_wf (s : TcpStats) : Prop :=
  in_u 32 (ts_rtt_ms s) ∧ in_u 32 (ts_rtt_var_ms s) ∧ in_u 32 (ts_retransmits s) ∧
  in_u 32 (ts_total_retrans s) ∧ in_u 32 (ts_unacked s).
Definition thresholds_wf (t : HealthThresholds) : Prop :=
  in_u 32 (ht_rtt_degrade_ms t) ∧ in_u 32 (ht_retransmit_spike t) ∧
  in_u 32 (ht_retransmit_total t) ∧ in_u 32 (ht_unacked_backlog t).

(** At most as bad in every measure. *)
Definition no_worse (a b : TcpStats) : Prop :=
  ts_rtt_ms a ≤ ts_rtt_ms b ∧ ts_retransmits a ≤ ts_retransmits b ∧
  ts_total_retrans a ≤ ts_total_retrans b ∧ ts_unacked a ≤ ts_unacked b.

Lemma health_grade_range s t : 0 ≤ health_grade s t ≤ 100.
Proof. apply clampZ_range. lia. Qed.

(** The four penalties. *)
Definition over (threshold x penalty : Z) : Z := if threshold <=? x then penalty else 0.
Definition rtt_penalty (t x : Z) : Z := over t x (Z.min (Z.min (x - t) 3000 / 100) 40).
Definition retrans_penalty (t x : Z) : Z :=
  over t x (Z.min (wrapping_mul 32 (saturating_sub x t) 5) 30).

Lemma health_grade_penalties s t :
  health_grade s t = clampZ 0 100 (100 - rtt_penalty (ht_rtt_degrade_ms t) (ts_rtt_ms s)
    - over (ht_retransmit_spike t) (ts_retransmits s) 30
    - retrans_penalty (ht_retransmit_total t) (ts_total_retrans s)
    - over (ht_unacked_backlog t) (ts_unacked s) 20).
Proof.
  unfold health_grade, rtt_penalty, retrans_penalty, over. f_equal.
  destruct (_ <=? ts_rtt_ms s), (_ <=? ts_retransmits s), (_ <=? ts_total_retrans s), (_ <=? ts_unacked s);
    lia.
Qed.

Lemma over_mono t x y p q : 0 ≤ q → (t ≤ x → p ≤ q) → x ≤ y → over t x p ≤ over t y q.
Proof. unfold over. destruct (Z.leb_spec t x), (Z.leb_spec t y); lia. Qed.

Lemma over_below t x p : x < t → over t x p = 0.
Proof. unfold over. destruct (Z.leb_spec t x); lia. Qed.

Lemma over_nonneg t x p : (t ≤ x → 0 ≤ p) → 0 ≤ over t x p.
Proof. unfold over. destruct (Z.leb_spec t x); lia. Qed.

Lemma rtt_penalty_mono t x y : x ≤ y → 0 ≤ rtt_penalty t x ≤ rtt_penalty t y.
Proof.
  intros Hxy. unfold rtt_penalty. split.
  - apply over_nonneg. intros H. pose proof (Z.div_pos (Z.min (x - t) 3000) 100). lia.
  - unfold over. destruct (Z.leb_spec t x), (Z.leb_spec t y); try lia.
    + pose proof (Z.div_le_mono (Z.min (x - t) 3000) (Z.min (y - t) 3000) 100). lia.
    + pose proof (Z.div_pos (Z.min (y - t) 3000) 100). lia.
Qed.

Lemma retrans_penalty_mono t x y :
  0 ≤ t → x ≤ y ≤ 858993459 → 0 ≤ retrans_penalty t x ≤ retrans_penalty t y.
Proof.
  intros Ht Hxy. unfold retrans_penalty, saturating_sub, wrapping_mul.
  assert (∀ z, 0 ≤ wrap 32 (z * 5)) as Hn by (intros z; pose proof (wrap_range 32 (z * 5)); lia).
  split; [apply over_nonneg; specialize (Hn (Z.max 0 (x - t))); lia|].
  apply over_mono; [specialize (Hn (Z.max 0 (y - t))); lia| |lia].
  intros Hx. rewrite !wrap_small by lia. lia.
Qed.

(** The grade is a percentage: a connection below every threshold has 100, a
    connection that is worse in some measures never has the better grade, and
    below a fifth of the counter's range the retransmission penalty counts every
    retransmission over the threshold, up to its cap. *)
Lemma health_grade_monotone (a b : TcpStats) (t : HealthThresholds) :
  stats_wf a → stats_wf b → thresholds_wf t → no_worse a b →
  ts_total_retrans b ≤ U32_MAX / 5 →
  0 ≤ health_grade b t ≤ health_grade a t ∧ health_grade a t ≤ 100 ∧
  (ts_rtt_ms a < ht_rtt_degrade_ms t → ts_retransmits a < ht_retransmit_spike t →
   ts_total_retrans a < ht_retransmit_total t → ts_unacked a < ht_unacked_backlog t →
   health_grade a t = 100).
Proof.
  intros Ha Hb Ht (H1 & H2 & H3 & H4) Hs. change (U32_MAX / 5) with 858993459 in Hs.
  rewrite !health_grade_penalties.
  pose proof (rtt_penalty_mono (ht_rtt_degrade_ms t) _ _ H1).
  pose proof (retrans_penalty_mono (ht_retransmit_total t) (ts_total_retrans a) (ts_total_retrans b)).
  pose proof (over_mono (ht_retransmit_spike t) _ _ 30 30 ltac:(lia) ltac:(lia) H2).
  pose proof (over_mono (ht_unacked_backlog t) _ _ 20 20 ltac:(lia) ltac:(lia) H4).
  unfold thresholds_wf, in_u in Ht. unfold clampZ. split; [lia|]. split; [lia|].
  intros L1 L2 L3 L4. unfold rtt_penalty, retrans_penalty. by rewrite !over_below.
Qed.

Lemma health_grade_monotone_witness :
  let a := {| ts_rtt_ms := 40; ts_rtt_var_ms := 0; ts_retransmits := 0; ts_total_retrans := 0; ts_unacked := 3 |} in
  let b := {| ts_rtt_ms := 2000; ts_rtt_var_ms := 0; ts_retransmits := 9; ts_total_retrans := 14; ts_unacked := 70 |} in
  health_grade b HealthThresholds_default = 32 ∧
  0 ≤ health_grade b HealthThresholds_default ≤ health_grade a HealthThresholds_default.
Proof.
  intros a b. split; [reflexivity|].
  apply (health_grade_monotone a b HealthThresholds_default); cbv; intuition discriminate.
Defined.

(** Above that range the product wraps: the penalty of 858993460 retransmissions
    over the threshold is 4, not 30. *)
Lemma retransmission_penalty_wraps :
  let s n := {| ts_rtt_ms := 0; ts_rtt_var_ms := 0; ts_retransmits := 0; ts_total_retrans := n; ts_unacked := 0 |} in
  health_grade (s 858993472) HealthThresholds_default = 96 ∧
  health_grade (s 30) HealthThresholds_default = 70.
Proof. split; reflexivity. Qed.
