(* ===== verification/Netlink.v ===== *)
(** The netlink dialogue ([crates/probe/src/socket_health.rs], [sock_diag]): the
    request for a dump of TCP sockets, and the reading of its replies.

    The structures of the kernel's interface are byte strings read at their
    offsets, little endian; a cursor into a buffer is the bytes from it on.  The
    outcomes of the system calls are data.  Both reading loops have fuel: the one
    over the messages of a datagram always ends within its length, the one over
    the attributes of a message does unless an attribute claims length zero. *)

From S2P Require Import Prelude RustStr SocketHealth.

Definition Bytes : Type := list Z.

(** ** Little-endian fields *)

Fixpoint le_value (l : Bytes) : Z := match l with [] => 0 | b :: l => b + 256 * le_value l end.
Fixpoint le_bytes (n : nat) (z : Z) : Bytes :=
  match n with O => [] | S n => z mod 256 :: le_bytes n (z / 256) end.
Definition be_bytes (n : nat) (z : Z) : Bytes := rev (le_bytes n z).

(** The [n]-byte unsigned field at an offset. *)
Definition field (offset n : nat) (l : Bytes) : Z := le_value (take n (drop offset l)).
(** A two's complement [i32]. *)
Definition to_i32 (z : Z) : Z := if z <? 2147483648 then z else z - 4294967296.

(** ** Layouts *)

Definition NETLINK_SOCK_DIAG : Z := 4.
Definition SOCK_DIAG_BY_FAMILY : Z := 20.
Definition NLM_F_REQUEST : Z := 1.
Definition NLM_F_DUMP : Z := 768.
Definition TCP_ESTABLISHED : Z := 1.
Definition INET_DIAG_INFO : Z := 2.
Definition NLMSG_ERROR : Z := 2.
Definition NLMSG_DONE : Z := 3.
Definition NLMSG_ALIGNTO : Z := 4.

(** [size_of] of [nlmsghdr], [InetDiagMsg], [nlmsgerr], and of [tcp_info] up to the
    last field read. *)
Definition header_len : nat := 16.
Definition INET_DIAG_MSG_LEN : nat := 72.
Definition NLMSGERR_LEN : nat := 20.
Definition TCP_INFO_LEN : nat := 104.

(** [(len + 3) & !3]. *)
Definition nlmsg_align (len : Z) : Z := Z.land (len + NLMSG_ALIGNTO - 1) (Z.lnot (NLMSG_ALIGNTO - 1)).

(** [InetDiagSockid] and [InetDiagReqV2]; words of addresses are their bytes. *)
Record InetDiagSockid := {
  id_sport : Z; id_dport : Bytes; id_src : list Bytes; id_dst : list Bytes; id_iface : Z; id_cookie : list Z
}.
Record InetDiagReqV2 := {
  rq_family : Z; rq_protocol : Z; rq_ext : Z; rq_pad : Z; rq_states : Z; rq_id : InetDiagSockid
}.

Definition sockid_bytes (i : InetDiagSockid) : Bytes :=
  le_bytes 2 (id_sport i) ++ id_dport i ++ concat (id_src i) ++ concat (id_dst i) ++
  le_bytes 4 (id_iface i) ++ concat (map (le_bytes 4) (id_cookie i)).
Definition request_bytes (r : InetDiagReqV2) : Bytes :=
  [rq_family r; rq_protocol r; rq_ext r; rq_pad r] ++ le_bytes 4 (rq_states r) ++ sockid_bytes (rq_id r).

(** ** The request *)

Definition AF_INET : Z := 2.
Definition AF_INET6 : Z := 10.
Definition IPPROTO_TCP : Z := 6.

Definition zero_word : Bytes := [0; 0; 0; 0].

(** The four bytes of an IPv4 address go to the last word of [dst], the sixteen of
    an IPv6 address, in network order, to all four. *)
Definition peer_words (ip : IpAddr) : list Bytes :=
  match ip with
  | V4 a b c d => [zero_word; zero_word; zero_word; [a; b; c; d]]
  | V6 [a; b; c; d; e; f; g; h] =>
    [be_bytes 2 a ++ be_bytes 2 b; be_bytes 2 c ++ be_bytes 2 d;
     be_bytes 2 e ++ be_bytes 2 f; be_bytes 2 g ++ be_bytes 2 h]
  | V6 _ => [zero_word; zero_word; zero_word; zero_word]
  end.

Definition family_of (ip : IpAddr) : Z := match ip with V4 _ _ _ _ => AF_INET | V6 _ => AF_INET6 end.

Definition build_request (family : Z) (peer : SocketAddr) : InetDiagReqV2 :=
  {| rq_family := family; rq_protocol := IPPROTO_TCP;
     rq_ext := wrap 8 (Z.shiftl 1 (INET_DIAG_INFO - 1)); rq_pad := 0;
     rq_states := Z.shiftl 1 TCP_ESTABLISHED;
     rq_id := {| id_sport := 0; id_dport := be_bytes 2 (sa_port peer);
                 id_src := repeat zero_word 4; id_dst := peer_words (sa_ip peer);
                 id_iface := 0; id_cookie := [0; 0] |} |}.

(** What [send_request] puts in its buffer: the header, and the request. *)
Definition header_bytes (len type flags sequence : Z) : Bytes :=
  le_bytes 4 len ++ le_bytes 2 type ++ le_bytes 2 flags ++ le_bytes 4 sequence ++ le_bytes 4 0.
Definition send_buffer (len type flags sequence : Z) (request : InetDiagReqV2) : Bytes :=
  let total := Z.max len (Z.of_nat (header_len + length (request_bytes request))) in
  let written := header_bytes len type flags sequence ++ request_bytes request in
  written ++ repeat 0 (Z.to_nat total - length written).

(** The bytes [tcp_info_for_peer] sends for a peer. *)
Definition dump_request (sequence : Z) (peer : SocketAddr) : Bytes :=
  let request := build_request (family_of (sa_ip peer)) peer in
  let message_len := nlmsg_align (Z.of_nat (header_len + length (request_bytes request))) in
  send_buffer message_len SOCK_DIAG_BY_FAMILY (Z.lor NLM_F_REQUEST NLM_F_DUMP) sequence request.

(** ** The replies *)

(** [parse_tcp_info], on a structure zeroed beyond what was copied into it. *)
Definition parse_tcp_info (info : Bytes) : TcpStats :=
  let info := take TCP_INFO_LEN (info ++ repeat 0 TCP_INFO_LEN) in
  {| ts_rtt_ms := field 68 4 info / 1000; ts_rtt_var_ms := field 72 4 info / 1000;
     ts_retransmits := field 2 1 info; ts_total_retrans := field 100 4 info;
     ts_unacked := field 24 4 info |}.

(** One turn of the loop over the attributes, from the cursor on. *)
Inductive AttrStep := AttrStop | AttrFound (stats : TcpStats) | AttrNext (rest : Bytes).

Definition attr_step (rest : Bytes) : AttrStep :=
  if (length rest <? 4)%nat then AttrStop else
  let attr_len := field 0 2 rest in
  let attr_type := field 2 2 rest in
  let data := drop 4 rest in
  let data_len := Z.to_nat (saturating_sub attr_len 4) in
  if (length data <? data_len)%nat then AttrStop else
  if attr_type =? INET_DIAG_INFO then AttrFound (parse_tcp_info (take data_len data))
  else AttrNext (drop (Z.to_nat (nlmsg_align attr_len)) rest).

(** [None] when the fuel runs out. *)
Fixpoint collect_attrs (fuel : nat) (rest : Bytes) : option (option TcpStats) :=
  match fuel with
  | O => None
  | S fuel =>
    match attr_step rest with
    | AttrStop => Some None
    | AttrFound s => Some (Some s)
    | AttrNext rest => collect_attrs fuel rest
    end
  end.

Definition collect_message (payload : Bytes) (stats : list TcpStats) : option (list TcpStats) :=
  if (length payload <? INET_DIAG_MSG_LEN)%nat then Some stats else
  if negb (field 1 1 payload =? TCP_ESTABLISHED) then Some stats else
  let rest := drop (Z.to_nat (nlmsg_align (Z.of_nat INET_DIAG_MSG_LEN))) payload in
  found ← collect_attrs (S (length rest)) rest;
  Some (stats ++ option_list found).

(** What became of a datagram: the statistics so far, or the answer. *)
Inductive Walk := Walked (stats : list TcpStats) | Answered (answer : result Z (list TcpStats)).

(** The dispatch on the type of one message. *)
Definition handle_message (type : Z) (payload : Bytes) (stats : list TcpStats) : option Walk :=
  if type =? NLMSG_ERROR then
    let error := to_i32 (field 0 4 payload) in
    if (NLMSGERR_LEN <=? length payload)%nat && negb (error =? 0)
    then Some (Answered (Err (- error))) else Some (Walked stats)
  else if type =? NLMSG_DONE then Some (Answered (Ok stats))
  else if type =? SOCK_DIAG_BY_FAMILY then Walked <$> collect_message payload stats
  else Some (Walked stats).

Fixpoint walk_datagram (fuel : nat) (rest : Bytes) (stats : list TcpStats) : option Walk :=
  match fuel with
  | O => None
  | S fuel =>
    if (length rest <? header_len)%nat then Some (Walked stats) else
    let message_length := Z.to_nat (field 0 4 rest) in
    if (message_length <? header_len)%nat || (length rest <? message_length)%nat then Some (Walked stats) else
    let payload := drop header_len (take message_length rest) in
    w ← handle_message (field 4 2 rest) payload stats;
    match w with
    | Answered _ => Some w
    | Walked stats => walk_datagram fuel (drop (Z.to_nat (nlmsg_align (field 0 4 rest))) rest) stats
    end
  end.

(** What [recv] returns: a datagram, empty at the end of the stream, or the error
    number; [EAGAIN] and [ETIMEDOUT] are the end of the wait. *)
Inductive Recv := Received (datagram : Bytes) | RecvFailed (errno : Z).
Definition EAGAIN : Z := 11.
Definition ETIMEDOUT : Z := 110.

(** The loop over the datagrams, given the outcomes of [recv] in order; [None] when
    it does not end on them. *)
Fixpoint read_replies (recvs : list Recv) (stats : list TcpStats) : option (result Z (list TcpStats)) :=
  match recvs with
  | [] => None
  | RecvFailed e :: _ =>
    if (e =? EAGAIN) || (e =? ETIMEDOUT) then Some (Ok stats) else Some (Err e)
  | Received [] :: _ => Some (Ok stats)
  | Received datagram :: recvs =>
    w ← walk_datagram (S (length datagram)) datagram stats;
    match w with
    | Answered r => Some r
    | Walked stats => read_replies recvs stats
    end
  end.

(** The system calls of one dialogue: the descriptor [socket] returns or its error,
    the errors of binding and sending, and the outcomes of receiving. *)
Record DiagIo := {
  dg_socket : result Z Z; dg_bind : result Z (); dg_send : result Z (); dg_recvs : list Recv
}.

(** What a function did to the process's descriptors, and what it sent. *)
Inductive SysCall := SysOpened (fd : Z) | SysSent (fd : Z) (data : Bytes) | SysClosed (fd : Z).

(** [bind_socket], [send_request] and [read_replies] on the open socket. *)
Definition dialogue (io : DiagIo) (fd sequence : Z) (peer : SocketAddr)
  : option (result Z (list TcpStats)) * list SysCall :=
  match dg_bind io with
  | Err e => (Some (Err e), [])
  | Ok _ =>
    match dg_send io with
    | Err e => (Some (Err e), [])
    | Ok _ => (read_replies (dg_recvs io) [], [SysSent fd (dump_request sequence peer)])
    end
  end.

(** [tcp_info_for_peer]; the socket is closed once there is an answer. *)
Definition tcp_info_for_peer (io : DiagIo) (sequence : Z) (peer : SocketAddr)
  : option (result Z (list TcpStats)) * list SysCall :=
  match dg_socket io with
  | Err e => (Some (Err e), [])
  | Ok fd =>
    let '(answer, calls) := dialogue io fd sequence peer in
    (answer, SysOpened fd :: calls ++ match answer with Some _ => [SysClosed fd] | None => [] end)
  end.

(** [inspect_socket_health], given what [getsockopt] wrote or its error. *)
Definition inspect_socket_health (getsockopt : result Z Bytes) : result Z TcpStats :=
  info ← getsockopt; Ok (parse_tcp_info info).

(** [dup_child_fd] on Linux, given the outcomes of [pidfd_open] and [pidfd_getfd]:
    the error of the second is saved before the descriptor of the first is
    closed. *)
Definition dup_child_fd (pidfd_open pidfd_getfd : result Z Z) : result Z Z * list SysCall :=
  match pidfd_open with
  | Err e => (Err e, [])
  | Ok pidfd =>
    let saved := pidfd_getfd in
    (saved, SysOpened pidfd :: match saved with Ok fd => [SysOpened fd] | Err _ => [] end ++ [SysClosed pidfd])
  end.

(** ** Fields and padding *)

Lemma length_le_bytes n z : length (le_bytes n z) = n.
Proof. revert z. induction n as [|n IH]; intros z; simpl; by rewrite ?IH. Qed.

Lemma le_value_bytes n z : 0 ≤ z < 256 ^ Z.of_nat n → le_value (le_bytes n z) = z.
Proof.
  revert z. induction n as [|n IH]; intros z Hz; simpl; [change (256 ^ Z.of_nat 0) with 1 in Hz; lia|].
  rewrite Nat2Z.inj_succ, Z.pow_succ_r in Hz by lia. rewrite IH.
  - pose proof (Z.div_mod z 256). lia.
  - split; [apply Z.div_pos; lia|]. apply Z.div_lt_upper_bound; lia.
Qed.

Lemma field_at offset n a l b : length a = offset → length l = n → field offset n (a ++ l ++ b) = le_value l.
Proof.
  intros <- <-. unfold field. rewrite drop_app_length. by rewrite take_app_length.
Qed.

Lemma field_le offset n a z b :
  length a = offset → 0 ≤ z < 256 ^ Z.of_nat n → field offset n (a ++ le_bytes n z ++ b) = z.
Proof. intros Ha Hz. rewrite field_at by (done || apply length_le_bytes). by apply le_value_bytes. Qed.

Lemma nlmsg_align_spec z : nlmsg_align z = 4 * ((z + 3) / 4).
Proof.
  unfold nlmsg_align, NLMSG_ALIGNTO. rewrite <-Z.ldiff_land. change (4 - 1) with (Z.ones 2).
  rewrite Z.ldiff_ones_r, Z.shiftr_div_pow2, Z.shiftl_mul_pow2 by lia.
  change (2 ^ 2) with 4. replace (z + 4 - 1) with (z + 3) by lia. lia.
Qed.

(** Alignment rounds up to the next multiple of four. *)
Lemma nlmsg_align_bounds z : z ≤ nlmsg_align z < z + 4 ∧ nlmsg_align z mod 4 = 0.
Proof.
  rewrite nlmsg_align_spec. split; [Z.div_mod_to_equations; lia|].
  rewrite Z.mul_comm. apply Z.mod_mul. lia.
Qed.

(** What the kernel appends to a message or an attribute. *)
Definition padding (l : Bytes) : Bytes := repeat 0 (Z.to_nat (nlmsg_align (Z.of_nat (length l))) - length l).
Definition padded (l : Bytes) : Bytes := l ++ padding l.

Lemma length_padded l : length (padded l) = Z.to_nat (nlmsg_align (Z.of_nat (length l))).
Proof.
  unfold padded, padding. rewrite length_app, repeat_length.
  pose proof (nlmsg_align_bounds (Z.of_nat (length l))). lia.
Qed.

Lemma drop_padded l rest :
  drop (Z.to_nat (nlmsg_align (Z.of_nat (length l)))) (padded l ++ rest) = rest.
Proof. by rewrite <-length_padded, drop_app_length. Qed.

(** ** The loop over the attributes ends, or stands still *)

Definition attr_next (a b : Bytes) : Prop := attr_step a = AttrNext b.

Lemma attr_next_shorter a b :
  attr_next a b → b = a ∨ (length b < length a)%nat.
Proof.
  unfold attr_next, attr_step. destruct (length a <? 4)%nat eqn:E4; [done|]. apply Nat.ltb_ge in E4.
  destruct (length _ <? _)%nat; [done|]. destruct (_ =? INET_DIAG_INFO); [done|]. intros [= <-].
  pose proof (nlmsg_align_bounds (field 0 2 a)). rewrite length_drop.
  destruct (Z.to_nat (nlmsg_align (field 0 2 a))); [by left|right; lia].
Qed.

Lemma collect_attrs_stuck r fuel : attr_next r r → collect_attrs fuel r = None.
Proof. intros Hs. induction fuel as [|fuel IH]; [done|]. simpl. unfold attr_next in Hs. by rewrite Hs. Qed.

Lemma collect_attrs_cases rest :
  (∃ r, ∀ fuel, (length rest < fuel)%nat → collect_attrs fuel rest = Some r) ∨
  (∃ r, rtc attr_next rest r ∧ attr_next r r ∧ ∀ fuel, collect_attrs fuel rest = None).
Proof.
  remember (length rest) as n eqn:En. revert rest En.
  induction n as [n IH] using lt_wf_ind. intros rest ->. destruct (attr_step rest) as [|s|rest'] eqn:Es.
  - left. exists None. intros [|fuel] Hf; [lia|]. simpl. by rewrite Es.
  - left. exists (Some s). intros [|fuel] Hf; [lia|]. simpl. by rewrite Es.
  - destruct (attr_next_shorter rest rest' Es) as [->|Hl].
    + right. exists rest. split_and!; [done|done|]. intros fuel. by apply collect_attrs_stuck.
    + destruct (IH _ Hl rest' eq_refl) as [[r Hr]|(r & Hp & Hs & Hn)].
      * left. exists r. intros [|fuel] Hf; [lia|]. simpl. rewrite Es. apply Hr. lia.
      * right. exists r. split_and!; [by eapply rtc_l|done|]. intros [|fuel]; [done|]. simpl. by rewrite Es.
Qed.

(** Where the loop stands still, the attribute claims length zero. *)
Lemma attr_next_zero r : Forall (λ b, 0 ≤ b) r → attr_next r r → field 0 2 r = 0.
Proof.
  unfold attr_next, attr_step. intros Hb. destruct (length r <? 4)%nat eqn:E4; [done|]. apply Nat.ltb_ge in E4.
  destruct (length _ <? _)%nat; [done|]. destruct (_ =? INET_DIAG_INFO); [done|]. intros [= E].
  apply (f_equal length) in E. rewrite length_drop in E. pose proof (nlmsg_align_bounds (field 0 2 r)) as [Ha _].
  assert (0 ≤ field 0 2 r) as Hp; [|lia].
  unfold field. rewrite drop_0. clear -Hb. revert Hb. generalize 2%nat. induction r as [|b r IH]; intros [|n] Hb; simpl; try lia.
  apply Forall_cons in Hb as [? Hb]. specialize (IH n Hb). lia.
Qed.

(** ** The loop over the messages always advances *)

(** Bytes are not negative. *)
Definition bytes_wf (l : Bytes) : Prop := Forall (λ b, 0 ≤ b < 256) l.

(** Somewhere in a payload the loop stands still at an attribute of length zero. *)
Definition zero_attr (payload : Bytes) : Prop :=
  ∃ k, let r := drop k payload in field 0 2 r = 0 ∧ attr_next r r.

Lemma attr_reached rest r : rtc attr_next rest r → ∃ k, r = drop k rest.
Proof.
  induction 1 as [x|x y z Hs _ [k ->]]; [by exists 0%nat|].
  unfold attr_next, attr_step in Hs. repeat (case_match; try done). injection Hs as <-.
  rewrite drop_drop. eauto.
Qed.

Lemma collect_message_cases payload stats :
  bytes_wf payload → is_Some (collect_message payload stats) ∨ zero_attr payload.
Proof.
  intros Hw. unfold collect_message. do 2 (case_match; [left; by eexists|]).
  set (n := Z.to_nat (nlmsg_align (Z.of_nat INET_DIAG_MSG_LEN))).
  destruct (collect_attrs_cases (drop n payload)) as [[r Hr]|(r & Hp & Hs & _)].
  - left. rewrite Hr by lia. by eexists.
  - right. destruct (attr_reached _ _ Hp) as [k ->]. exists (n + k)%nat. cbv zeta. rewrite <-drop_drop.
    split; [|done]. apply attr_next_zero; [|done]. rewrite drop_drop.
    eapply Forall_drop, Forall_impl; [exact Hw|]. simpl. lia.
Qed.

Lemma walk_datagram_cases fuel rest stats :
  (length rest < fuel)%nat → bytes_wf rest →
  is_Some (walk_datagram fuel rest stats) ∨
  ∃ i j, zero_attr (drop i (take j rest)).
Proof.
  revert rest stats. induction fuel as [|fuel IH]; intros rest stats Hl Hw; [lia|]. cbn [walk_datagram].
  destruct (length rest <? header_len)%nat eqn:E1; [left; by eexists|]. apply Nat.ltb_ge in E1.
  destruct (_ || _) eqn:E2; [left; by eexists|]. apply orb_false_iff in E2 as [E2 E3].
  apply Nat.ltb_ge in E2, E3.
  set (j := Z.to_nat (field 0 4 rest)) in *. set (payload := drop header_len (take j rest)).
  assert (bytes_wf payload) as Hp by by apply Forall_drop, Forall_take.
  assert (is_Some (handle_message (field 4 2 rest) payload stats) ∨ zero_attr payload) as [[w ->]|Hz].
  { unfold handle_message. destruct (_ =? NLMSG_ERROR); [left; case_match; by eexists|].
    destruct (_ =? NLMSG_DONE); [left; by eexists|]. destruct (_ =? SOCK_DIAG_BY_FAMILY); [|left; by eexists].
    destruct (collect_message_cases payload stats Hp) as [[st ->]|]; [left; by eexists|by right]. }
  2: { right. by exists header_len, j. }
  simpl. destruct w as [stats'|]; [|left; by eexists].
  set (n := Z.to_nat (nlmsg_align (field 0 4 rest))).
  destruct (IH (drop n rest) stats') as [Hs|(i & k & Hz)]; [|by apply Forall_drop|by left|].
  - rewrite length_drop. pose proof (nlmsg_align_bounds (field 0 4 rest)). unfold header_len in *. lia.
  - right. exists (n + i)%nat, (n + k)%nat. by rewrite take_drop_commute, drop_drop in Hz.
Qed.

(** ** A dump, as the kernel writes it *)

Definition attr_bytes (a : Z * Bytes) : Bytes :=
  padded (le_bytes 2 (4 + Z.of_nat (length a.2)) ++ le_bytes 2 a.1 ++ a.2).
Definition attr_wf (a : Z * Bytes) : Prop := 0 ≤ a.1 < 65536 ∧ 4 + Z.of_nat (length a.2) < 65536.

(** A message: the rest of its header after the type (flags, sequence, sender). *)
Definition nl_message (type : Z) (extra payload : Bytes) : Bytes :=
  padded (le_bytes 4 (16 + Z.of_nat (length payload)) ++ le_bytes 2 type ++ extra ++ payload).

(** One socket of a dump: the fixed part of its message, and its attributes. *)
Record Reply := { rp_extra : Bytes; rp_head : Bytes; rp_attrs : list (Z * Bytes) }.
Definition reply_payload (r : Reply) : Bytes := rp_head r ++ concat (map attr_bytes (rp_attrs r)).
Definition reply_bytes (r : Reply) : Bytes := nl_message SOCK_DIAG_BY_FAMILY (rp_extra r) (reply_payload r).
Definition reply_wf (r : Reply) : Prop :=
  length (rp_extra r) = 10%nat ∧ length (rp_head r) = INET_DIAG_MSG_LEN ∧ Forall attr_wf (rp_attrs r) ∧
  16 + Z.of_nat (length (reply_payload r)) < 4294967296.

(** What a socket should contribute: its first TCP_INFO, if it is established. *)
Definition is_info (a : Z * Bytes) : bool := a.1 =? INET_DIAG_INFO.
Definition reported (r : Reply) : list TcpStats :=
  if field 1 1 (rp_head r) =? TCP_ESTABLISHED
  then match List.find is_info (rp_attrs r) with Some a => [parse_tcp_info a.2] | None => [] end
  else [].

Lemma length_attr_bytes a : (4 ≤ length (attr_bytes a))%nat.
Proof.
  unfold attr_bytes, padded. rewrite !length_app, !length_le_bytes. lia.
Qed.

Lemma attr_step_encoded a rest :
  attr_wf a →
  attr_step (attr_bytes a ++ rest) = if is_info a then AttrFound (parse_tcp_info a.2) else AttrNext rest.
Proof.
  destruct a as [ty data]. intros [Ht Hl]. cbn [fst snd] in *. unfold attr_step, is_info. cbn [fst snd].
  pose proof (length_attr_bytes (ty, data)) as Hlen.
  rewrite (proj2 (Nat.ltb_ge _ _)) by (rewrite length_app; lia).
  set (raw := le_bytes 2 (4 + Z.of_nat (length data)) ++ le_bytes 2 ty ++ data).
  assert (attr_bytes (ty, data) ++ rest = raw ++ padding raw ++ rest) as Ea
    by (unfold attr_bytes, padded; by rewrite <-app_assoc).
  rewrite Ea. assert (field 0 2 (raw ++ padding raw ++ rest) = 4 + Z.of_nat (length data)) as ->.
  { unfold raw. rewrite <-!app_assoc. apply (field_le 0 2 []); [done|]. change (256 ^ Z.of_nat 2) with 65536. lia. }
  assert (field 2 2 (raw ++ padding raw ++ rest) = ty) as ->.
  { unfold raw. rewrite <-!app_assoc. apply field_le; [apply length_le_bytes|done]. }
  assert (drop 4 (raw ++ padding raw ++ rest) = data ++ padding raw ++ rest) as ->.
  { unfold raw. rewrite <-!app_assoc. rewrite (app_assoc (le_bytes 2 _) (le_bytes 2 ty)).
    apply drop_app_length'. by rewrite length_app, !length_le_bytes. }
  unfold saturating_sub. replace (Z.to_nat (Z.max 0 (4 + Z.of_nat (length data) - 4))) with (length data) by lia.
  rewrite (proj2 (Nat.ltb_ge _ _)) by (rewrite length_app; lia). rewrite take_app_length.
  destruct (ty =? INET_DIAG_INFO); [done|]. f_equal.
  replace (4 + Z.of_nat (length data)) with (Z.of_nat (length raw)).
  - rewrite app_assoc. apply drop_padded.
  - unfold raw. rewrite !length_app, !length_le_bytes. lia.
Qed.

Lemma collect_attrs_encoded attrs fuel :
  Forall attr_wf attrs → (length attrs < fuel)%nat →
  collect_attrs fuel (concat (map attr_bytes attrs)) = Some ((λ a, parse_tcp_info a.2) <$> List.find is_info attrs).
Proof.
  intros Hw. revert fuel. induction Hw as [|a attrs Ha _ IH]; intros [|fuel] Hf;
    cbn [length] in Hf; try lia; [done|].
  cbn [collect_attrs map concat List.find]. rewrite attr_step_encoded by done.
  destruct (is_info a); [done|]. apply IH. lia.
Qed.

Lemma length_attrs attrs : (length attrs ≤ length (concat (map attr_bytes attrs)))%nat.
Proof.
  induction attrs as [|a attrs IH]; simpl; [lia|]. rewrite length_app. pose proof (length_attr_bytes a). lia.
Qed.

Lemma collect_message_encoded r stats :
  reply_wf r → collect_message (reply_payload r) stats = Some (stats ++ reported r).
Proof.
  intros (_ & Hh & Ha & _). unfold collect_message, reported, reply_payload.
  rewrite (proj2 (Nat.ltb_ge _ _)) by (rewrite length_app; lia).
  assert (field 1 1 (rp_head r ++ concat (map attr_bytes (rp_attrs r))) = field 1 1 (rp_head r)) as ->.
  { unfold field. rewrite drop_app_le, take_app_le; [done| |]; rewrite ?length_drop, Hh; unfold INET_DIAG_MSG_LEN; lia. }
  destruct (field 1 1 (rp_head r) =? TCP_ESTABLISHED); simpl; [|by rewrite app_nil_r].
  change (Z.to_nat (nlmsg_align (Z.of_nat INET_DIAG_MSG_LEN))) with INET_DIAG_MSG_LEN.
  rewrite <-Hh, drop_app_length. pose proof (length_attrs (rp_attrs r)).
  pose proof (collect_attrs_encoded (rp_attrs r) (S (length (concat (map attr_bytes (rp_attrs r))))) Ha) as E.
  cbn [collect_attrs] in E. rewrite E by lia. simpl. by destruct (List.find is_info (rp_attrs r)).
Qed.

(** One message at the cursor. *)
Lemma walk_message type extra payload rest stats fuel :
  0 ≤ type < 65536 → length extra = 10%nat → 16 + Z.of_nat (length payload) < 4294967296 →
  walk_datagram (S fuel) (nl_message type extra payload ++ rest) stats =
    (w ← handle_message type payload stats;
     match w with Answered _ => Some w | Walked stats => walk_datagram fuel rest stats end).
Proof.
  intros Ht He Hl. cbn [walk_datagram]. unfold nl_message.
  set (raw := le_bytes 4 (16 + Z.of_nat (length payload)) ++ le_bytes 2 type ++ extra ++ payload).
  assert (length raw = 16 + length payload)%nat as Hraw.
  { unfold raw. rewrite !length_app, !length_le_bytes, He. lia. }
  assert (padded raw ++ rest = raw ++ padding raw ++ rest) as Ep by (unfold padded; by rewrite <-app_assoc).
  assert (field 0 4 (padded raw ++ rest) = 16 + Z.of_nat (length payload)) as E0.
  { rewrite Ep. unfold raw. rewrite <-!app_assoc. apply (field_le 0 4 []); [done|].
    change (256 ^ Z.of_nat 4) with 4294967296. lia. }
  assert (field 4 2 (padded raw ++ rest) = type) as E1.
  { rewrite Ep. unfold raw. rewrite <-!app_assoc. apply field_le; [apply length_le_bytes|done]. }
  rewrite E0, E1. replace (Z.to_nat (16 + Z.of_nat (length payload))) with (length raw) by lia.
  replace (16 + Z.of_nat (length payload)) with (Z.of_nat (length raw)) by lia. rewrite drop_padded.
  assert (length raw ≤ length (padded raw ++ rest))%nat as Hlen by (rewrite Ep, length_app; lia).
  unfold header_len in *. rewrite !(proj2 (Nat.ltb_ge _ _)) by lia. cbn [orb].
  assert (drop 16 (take (length raw) (padded raw ++ rest)) = payload) as ->; [|done].
  rewrite Ep, take_app_length. unfold raw. rewrite !app_assoc. apply drop_app_length'.
  rewrite !length_app, !length_le_bytes, He. done.
Qed.

Lemma walk_replies rs rest stats fuel :
  Forall reply_wf rs →
  walk_datagram (length rs + fuel) (concat (map reply_bytes rs) ++ rest) stats =
    walk_datagram fuel rest (stats ++ concat (map reported rs)).
Proof.
  intros Hw. revert stats. induction Hw as [|r rs Hr _ IH]; intros stats; cbn [map concat length].
  { by rewrite app_nil_r. }
  rewrite <-app_assoc. unfold reply_bytes at 1. rewrite Nat.add_succ_l, walk_message by (done || apply Hr).
  change (handle_message SOCK_DIAG_BY_FAMILY (reply_payload r) stats) with
    (Walked <$> collect_message (reply_payload r) stats).
  rewrite collect_message_encoded by done. cbn. rewrite IH. by rewrite <-app_assoc.
Qed.

Lemma length_nl_message type extra payload : (1 ≤ length (nl_message type extra payload))%nat.
Proof. unfold nl_message, padded. rewrite !length_app, !length_le_bytes. lia. Qed.

Lemma length_replies rs : (length rs ≤ length (concat (map reply_bytes rs)))%nat.
Proof.
  induction rs as [|r rs IH]; simpl; [lia|]. rewrite length_app.
  pose proof (length_nl_message SOCK_DIAG_BY_FAMILY (rp_extra r) (reply_payload r)).
  change (nl_message _ _ _) with (reply_bytes r) in *. lia.
Qed.

(** The messages that end a dump: done, and an error with its number. *)
Definition done_message (extra payload : Bytes) : Bytes := nl_message NLMSG_DONE extra payload.
Definition error_message (extra : Bytes) (errno : Z) (original : Bytes) : Bytes :=
  nl_message NLMSG_ERROR extra (le_bytes 4 (4294967296 - errno) ++ original).

Lemma walk_end type extra payload rs stats (w : Walk) :
  Forall reply_wf rs → 0 ≤ type < 65536 → length extra = 10%nat → 16 + Z.of_nat (length payload) < 4294967296 →
  handle_message type payload (stats ++ concat (map reported rs)) = Some w → (∃ r, w = Answered r) →
  let datagram := concat (map reply_bytes rs) ++ nl_message type extra payload in
  walk_datagram (S (length datagram)) datagram stats = Some w.
Proof.
  intros Hr Ht He Hl Hh [r ->]. cbv zeta. rewrite <-(app_nil_r (nl_message type extra payload)).
  set (m := concat (map reply_bytes rs) ++ nl_message type extra payload ++ []).
  assert (length rs < length m)%nat as Hm.
  { unfold m. rewrite !length_app. pose proof (length_replies rs).
    pose proof (length_nl_message type extra payload). lia. }
  replace (S (length m)) with (length rs + S (length m - length rs))%nat by lia. unfold m at 2.
  rewrite walk_replies, walk_message by done. by rewrite Hh.
Qed.

Lemma walk_all rs stats :
  Forall reply_wf rs →
  let datagram := concat (map reply_bytes rs) in
  walk_datagram (S (length datagram)) datagram stats = Some (Walked (stats ++ concat (map reported rs))).
Proof.
  intros Hr. cbv zeta. pose proof (length_replies rs) as Hl. set (m := concat (map reply_bytes rs)) in *.
  replace (S (length m)) with (length rs + S (length m - length rs))%nat by lia.
  pose proof (walk_replies rs [] stats (S (length m - length rs)) Hr) as E. rewrite app_nil_r in E.
  fold m in E. rewrite E. done.
Qed.

(** A datagram of a dump: some sockets, at least one. *)
Definition datagram_wf (rs : list Reply) : Prop := rs ≠ [] ∧ Forall reply_wf rs.
Definition datagram_of (rs : list Reply) : Bytes := concat (map reply_bytes rs).

Lemma datagram_nonempty rs : datagram_wf rs → datagram_of rs ≠ [].
Proof.
  intros [Hn Hw] E. pose proof (length_replies rs) as Hl. unfold datagram_of in E. rewrite E in Hl.
  by destruct rs.
Qed.

Lemma read_datagrams dump more stats :
  Forall datagram_wf dump →
  read_replies (map (λ rs, Received (datagram_of rs)) dump ++ more) stats =
    read_replies more (stats ++ concat (map reported (concat dump))).
Proof.
  intros Hw. revert stats. induction Hw as [|rs dump Hr _ IH]; intros stats; cbn [map concat app].
  { by rewrite app_nil_r. }
  cbn [read_replies]. pose proof (datagram_nonempty rs Hr). destruct (datagram_of rs) as [|b l] eqn:Ed; [done|].
  rewrite <-Ed. unfold datagram_of. rewrite walk_all by apply Hr. cbn. rewrite IH.
  by rewrite map_app, concat_app, app_assoc.
Qed.

Lemma error_message_answer errno original stats :
  0 < errno ≤ 2147483648 → (16 ≤ length original)%nat →
  handle_message NLMSG_ERROR (le_bytes 4 (4294967296 - errno) ++ original) stats = Some (Answered (Err errno)).
Proof.
  intros He Ho. unfold handle_message. rewrite Z.eqb_refl.
  assert (field 0 4 (le_bytes 4 (4294967296 - errno) ++ original) = 4294967296 - errno) as ->.
  { apply (field_le 0 4 []); [done|]. change (256 ^ Z.of_nat 4) with 4294967296. lia. }
  unfold to_i32. rewrite (proj2 (Z.ltb_ge _ _)) by lia.
  rewrite (proj2 (Nat.leb_le _ _)) by (rewrite length_app, length_le_bytes; unfold NLMSGERR_LEN; lia).
  rewrite (proj2 (Z.eqb_neq _ _)) by lia. cbn. do 3 f_equal. lia.
Qed.

(** C32. A dump is read back as the kernel wrote it: however its sockets are spread
    over datagrams, the statistics are those of the established sockets that carry
    a TCP_INFO, in order, each from its first one, whatever other attributes,
    padding and socket identities are around it; the dump ends at a done message,
    or without one at the end of the wait; and an error message ends it with its
    number and nothing else. *)
Theorem dump_roundtrip (dump : list (list Reply)) (last : list Reply) (extra payload : Bytes) (more : list Recv) :
  Forall datagram_wf dump → Forall reply_wf last → length extra = 10%nat →
  16 + Z.of_nat (length payload) < 4294967296 →
  let received := map (λ rs, Received (datagram_of rs)) dump in
  let stats := concat (map reported (concat dump)) in
  read_replies (received ++ Received (datagram_of last ++ done_message extra payload) :: more) [] =
    Some (Ok (stats ++ concat (map reported last))) ∧
  (∀ e, e = EAGAIN ∨ e = ETIMEDOUT → read_replies (received ++ RecvFailed e :: more) [] = Some (Ok stats)) ∧
  (∀ errno original, 0 < errno ≤ 2147483648 → (16 ≤ length original)%nat →
     20 + Z.of_nat (length original) < 4294967296 →
     read_replies (received ++ Received (datagram_of last ++ error_message extra errno original) :: more) [] =
       Some (Err errno)).
Proof.
  intros Hd Hl He Hp. cbv zeta. rewrite !read_datagrams by done. cbn [app].
  assert (∀ m, datagram_of last ++ nl_message NLMSG_DONE extra m ≠ []) as Hn1.
  { intros m E. apply (f_equal length) in E. rewrite length_app in E.
    pose proof (length_nl_message NLMSG_DONE extra m). cbn [length] in E. lia. }
  assert (∀ m, datagram_of last ++ nl_message NLMSG_ERROR extra m ≠ []) as Hn2.
  { intros m E. apply (f_equal length) in E. rewrite length_app in E.
    pose proof (length_nl_message NLMSG_ERROR extra m). cbn [length] in E. lia. }
  split_and!.
  - cbn [read_replies]. unfold done_message. specialize (Hn1 payload).
    destruct (datagram_of last ++ _) as [|b l] eqn:Ed; [done|]. rewrite <-Ed. unfold datagram_of.
    erewrite (walk_end NLMSG_DONE extra payload last); [|done|done|done|done|reflexivity|by eexists]. done.
  - intros e [-> | ->]; rewrite read_datagrams by done; done.
  - intros errno original Hr Ho Hlen. rewrite read_datagrams by done. cbn [read_replies app].
    unfold error_message. specialize (Hn2 (le_bytes 4 (4294967296 - errno) ++ original)).
    destruct (datagram_of last ++ _) as [|b l] eqn:Ed; [done|]. rewrite <-Ed. unfold datagram_of.
    erewrite (walk_end NLMSG_ERROR extra _ last); [|done|done|done| |by apply error_message_answer|by eexists]; [done|].
    rewrite length_app, length_le_bytes. lia.
Qed.

(** Reading ends.  The loop over the attributes of a message either ends, with
    an answer that more fuel does not change, or stands still for ever; it stands
    still only at an attribute that claims length zero; and the loop over the
    messages of a datagram always ends within its length unless one of them has
    such an attribute. *)
Lemma reading_ends (rest : Bytes) (stats : list TcpStats) :
  bytes_wf rest →
  ((∃ r, ∀ fuel, (length rest < fuel)%nat → collect_attrs fuel rest = Some r) ∨
   (∃ k, field 0 2 (drop k rest) = 0 ∧ attr_next (drop k rest) (drop k rest) ∧
         ∀ fuel, collect_attrs fuel rest = None)) ∧
  (is_Some (walk_datagram (S (length rest)) rest stats) ∨ ∃ i j, zero_attr (drop i (take j rest))).
Proof.
  intros Hw. split; [|apply walk_datagram_cases; [lia|done]].
  destruct (collect_attrs_cases rest) as [|(r & Hp & Hs & Hn)]; [by left|].
  destruct (attr_reached _ _ Hp) as [k ->]. right. exists k. split_and!; try done.
  apply attr_next_zero; [|done]. eapply Forall_drop, Forall_impl; [exact Hw|]. simpl. lia.
Qed.

(** Who the socket of a reply belongs to is never looked at: of the fixed part only
    the state counts. *)
Lemma reply_identity_ignored r head :
  reply_wf r → length head = INET_DIAG_MSG_LEN → field 1 1 head = field 1 1 (rp_head r) →
  ∀ stats, collect_message (head ++ concat (map attr_bytes (rp_attrs r))) stats =
           collect_message (reply_payload r) stats.
Proof.
  intros Hw Hh Hs stats. destruct Hw as (He & Hl & Ha & Hn).
  set (r' := {| rp_extra := rp_extra r; rp_head := head; rp_attrs := rp_attrs r |}).
  assert (reply_wf r') as Hw'.
  { split_and!; [done|done|done|]. unfold reply_payload in *. cbn. rewrite length_app in *. lia. }
  rewrite (collect_message_encoded r) by done. change (head ++ _) with (reply_payload r').
  rewrite collect_message_encoded by done. unfold reported.
  change (rp_head r') with head. change (rp_attrs r') with (rp_attrs r). by rewrite Hs.
Qed.

(** ** The request *)

Definition peer_wf (peer : SocketAddr) : Prop := ip_wf (sa_ip peer) ∧ in_u 16 (sa_port peer).

(** The request is 72 bytes and says so; it asks for a dump of the established
    TCP sockets of the peer's family, with TCP_INFO attached, and carries its
    sequence; the peer's port is in network order, and its address in the last
    bytes of the destination. *)
Lemma dump_request_spec (sequence : Z) (peer : SocketAddr) :
  peer_wf peer → in_u 32 sequence →
  let m := dump_request sequence peer in
  length m = 72%nat ∧ field 0 4 m = 72 ∧ field 4 2 m = SOCK_DIAG_BY_FAMILY ∧
  field 6 2 m = NLM_F_REQUEST + NLM_F_DUMP ∧ field 8 4 m = sequence ∧
  field 16 1 m = family_of (sa_ip peer) ∧ field 17 1 m = IPPROTO_TCP ∧
  Z.testbit (field 18 1 m) (INET_DIAG_INFO - 1) = true ∧ field 20 4 m = 2 ^ TCP_ESTABLISHED ∧
  take 2 (drop 26 m) = [sa_port peer / 256; sa_port peer mod 256] ∧
  match sa_ip peer with
  | V4 a b c d => take 16 (drop 44 m) = repeat 0 12 ++ [a; b; c; d]
  | V6 l => take 16 (drop 44 m) = concat (map (be_bytes 2) l)
  end.
Proof.
  destruct peer as [ip port]. intros [Hip Hp] Hs. cbn [sa_ip sa_port] in *. unfold in_u, umax in *.
  assert (∀ t, take 4 (drop 8 (header_bytes 72 20 769 sequence ++ t)) = le_bytes 4 sequence) as E8 by done.
  assert (le_value (le_bytes 4 sequence) = sequence) as Es
    by (apply le_value_bytes; change (256 ^ Z.of_nat 4) with 4294967296; change (2 ^ 32) with 4294967296 in Hs; lia).
  assert (be_bytes 2 port = [port / 256; port mod 256]) as Ep.
  { unfold be_bytes. cbn. f_equal. apply Z.mod_small. change (2 ^ 16) with 65536 in Hp. Z.div_mod_to_equations; lia. }
  destruct ip as [a b c d|l].
  - unfold dump_request, send_buffer, build_request. cbn [family_of sa_ip sa_port peer_words]. rewrite Ep.
    cbn -[Z.div Z.modulo le_value]. split_and!; try done.
  - destruct Hip as [Hl _]. destruct l as [|a [|b [|c [|d [|e [|f [|g [|h [|]]]]]]]]]; try done.
Qed.

(** An attribute of another type that claims length zero holds the reader for
    ever. *)
Lemma zero_attribute_hangs more fuel : collect_attrs fuel ([0; 0; 1; 0] ++ more) = None.
Proof.
  apply collect_attrs_stuck. unfold attr_next, attr_step. cbn [app length Nat.ltb Nat.leb].
  change (field 0 2 (0 :: 0 :: 1 :: 0 :: more)) with 0. change (field 2 2 (0 :: 0 :: 1 :: 0 :: more)) with 1. done.
Qed.

(** The descriptors a function opened and did not close. *)
Fixpoint still_open (calls : list SysCall) (opened : list Z) : list Z :=
  match calls with
  | [] => opened
  | SysOpened fd :: calls => still_open calls (fd :: opened)
  | SysClosed fd :: calls => still_open calls (List.filter (λ o, negb (o =? fd)) opened)
  | SysSent _ _ :: calls => still_open calls opened
  end.

(** No path leaks a descriptor: whatever fails, an answered dialogue leaves none
    open, and the duplication of a child's descriptor leaves exactly the one it
    returns. *)
Lemma descriptors_closed io sequence peer pidfd_open pidfd_getfd :
  (is_Some (tcp_info_for_peer io sequence peer).1 → still_open (tcp_info_for_peer io sequence peer).2 [] = []) ∧
  (pidfd_open ≠ pidfd_getfd →
   still_open (dup_child_fd pidfd_open pidfd_getfd).2 [] =
     match (dup_child_fd pidfd_open pidfd_getfd).1 with Ok fd => [fd] | Err _ => [] end).
Proof.
  split.
  - unfold tcp_info_for_peer, dialogue. destruct (dg_socket io) as [fd|e]; [|done].
    destruct (dg_bind io); [destruct (dg_send io); [destruct (read_replies _ _)|]|];
      cbn; intros [? ?]; rewrite ?Z.eqb_refl; done.
  - intros Hn. unfold dup_child_fd. destruct pidfd_open as [p|]; [|done]. destruct pidfd_getfd as [q|]; cbn.
    + rewrite Z.eqb_refl, (proj2 (Z.eqb_neq _ _)) by congruence. done.
    + by rewrite Z.eqb_refl.
Qed.

(** ** Witnesses *)

(** An established socket with a congestion attribute before its TCP_INFO: 40 ms
    of round trip, 2 retransmissions. *)
Definition sample_info : Bytes :=
  [1; 0; 2] ++ repeat 0 21 ++ le_bytes 4 3 ++ repeat 0 40 ++ le_bytes 4 40000 ++ le_bytes 4 5000 ++
  repeat 0 24 ++ le_bytes 4 7.
Definition sample_reply (state : Z) : Reply :=
  {| rp_extra := repeat 0 10; rp_head := [2; state] ++ repeat 0 70;
     rp_attrs := [(4, [99; 117; 98; 105; 99; 0]); (INET_DIAG_INFO, sample_info)] |}.
Definition sample_stats : TcpStats :=
  {| ts_rtt_ms := 40; ts_rtt_var_ms := 5; ts_retransmits := 2; ts_total_retrans := 7; ts_unacked := 3 |}.

Lemma sample_reply_wf state : reply_wf (sample_reply state).
Proof.
  split_and!; [done|done| |vm_compute; done].
  repeat (apply Forall_cons; split); try constructor; vm_compute; intuition discriminate.
Qed.

Lemma sample_replies_wf states : Forall reply_wf (map sample_reply states).
Proof. induction states as [|s states IH]; [constructor|]. apply Forall_cons. split; [apply sample_reply_wf|done]. Qed.

Lemma dump_roundtrip_witness :
  read_replies [Received (datagram_of [sample_reply 1; sample_reply 10]);
                Received (datagram_of [sample_reply 1] ++ done_message (repeat 0 10) [0; 0; 0; 0])] [] =
    Some (Ok [sample_stats; sample_stats]).
Proof.
  destruct (dump_roundtrip [[sample_reply 1; sample_reply 10]] [sample_reply 1] (repeat 0 10) [0; 0; 0; 0] [])
    as [E _].
  - apply Forall_cons. split; [|constructor]. split; [done|apply (sample_replies_wf [1; 10])].
  - apply (sample_replies_wf [1]).
  - reflexivity.
  - reflexivity.
  - exact E.
Defined.

Definition one_socket : Bytes := datagram_of [sample_reply 1].

Lemma reading_ends_witness :
  is_Some (walk_datagram (S (length one_socket)) one_socket []) ∨ ∃ i j, zero_attr (drop i (take j one_socket)).
Proof.
  apply (reading_ends one_socket []). unfold bytes_wf. apply (bool_decide_unpack _). vm_compute. exact I.
Defined.

Lemma dump_request_spec_witness :
  take 16 (drop 44 (dump_request 7 {| sa_ip := V4 192 0 2 1; sa_port := 443 |})) = repeat 0 12 ++ [192; 0; 2; 1].
Proof.
  apply (dump_request_spec 7 {| sa_ip := V4 192 0 2 1; sa_port := 443 |});
    [vm_compute; intuition discriminate|vm_compute; intuition discriminate].
Defined.
