(* ===== verification/AutoSelect.v ===== *)
(** Auto-selection ([crates/controller/src/auto_select.rs]): the track of a node,
    the cost of a candidate, the ranking, the decision and the selector's state.

    [f64] arithmetic is that of [F64]; [powf], whose precision Rust leaves to the
    platform, the name resolver and the kernel's socket table are parameters.
    Instants and durations are nanoseconds. *)

From S2P Require Import Prelude RustStr Ir Egress Score SocketHealth F64.

Class SelectLib := {
  powf : f64 → f64 → f64;
  to_socket_addrs : string → Z → option (list SocketAddr);
  tcp_info_for_peer : SocketAddr → result Error (list TcpStats)
}.

(** ** Tracks *)

Record NodeTrack := {
  nt_latency_ewma_ms : option f64;
  nt_spread_ewma_ms : option f64;
  nt_failure_weight : f64;
  nt_last_failure : option Z;
  nt_consecutive_failures : Z;
  nt_samples : Z
}.
Definition NodeTrack_default : NodeTrack :=
  {| nt_latency_ewma_ms := None; nt_spread_ewma_ms := None; nt_failure_weight := f64_of_Z 0;
     nt_last_failure := None; nt_consecutive_failures := 0; nt_samples := 0 |}.

Definition DEFAULT_ALPHA : f64 := f64_lit 35 100.

(** [Some(match ewma { None => x, Some(previous) => alpha * x + (1 - alpha) * previous })]. *)
Definition smooth (alpha : f64) (ewma : option f64) (x : f64) : option f64 :=
  Some (match ewma with
        | None => x
        | Some previous =>
          f64_add (f64_mul alpha x) (f64_mul (f64_sub (f64_of_Z 1) alpha) previous)
        end).

Definition NodeTrack_record_success (t : NodeTrack) (median_ms spread_ms alpha : f64) (now : Z) : NodeTrack :=
  let alpha := f64_clamp (f64_of_Z 0) (f64_of_Z 1) alpha in
  {| nt_latency_ewma_ms := smooth alpha (nt_latency_ewma_ms t) median_ms;
     nt_spread_ewma_ms := smooth alpha (nt_spread_ewma_ms t) spread_ms;
     nt_failure_weight := f64_mul (nt_failure_weight t) (f64_lit 1 2);
     nt_last_failure := nt_last_failure t;
     nt_consecutive_failures := 0;
     nt_samples := saturating_add 32 (nt_samples t) 1 |}.

Definition NodeTrack_record_failure (t : NodeTrack) (now : Z) : NodeTrack :=
  {| nt_latency_ewma_ms := nt_latency_ewma_ms t;
     nt_spread_ewma_ms := nt_spread_ewma_ms t;
     nt_failure_weight := f64_min (f64_add (nt_failure_weight t) (f64_of_Z 1)) (f64_of_Z 4);
     nt_last_failure := Some now;
     nt_consecutive_failures := saturating_add 32 (nt_consecutive_failures t) 1;
     nt_samples := nt_samples t |}.

Definition is_cold (t : NodeTrack) : bool := nt_samples t =? 0.

Record AutoSelectConfig := {
  ac_w_latency : f64; ac_w_spread : f64; ac_w_quorum : f64; ac_w_failure : f64;
  ac_latency_scale : f64; ac_switch_margin : f64; ac_failure_half_life : Z; ac_alpha : f64
}.
Definition AutoSelectConfig_default : AutoSelectConfig :=
  {| ac_w_latency := f64_lit 1 1; ac_w_spread := f64_lit 6 10; ac_w_quorum := f64_lit 5 10;
     ac_w_failure := f64_lit 12 10; ac_latency_scale := f64_lit 1000 1;
     ac_switch_margin := f64_lit 8 100; ac_failure_half_life := 30 * 60 * SECOND;
     ac_alpha := DEFAULT_ALPHA |}.

Record RankedNode := {
  rn_node_index : nat; rn_cost : f64; rn_quorum_margin : f64; rn_track : NodeTrack
}.

Definition decisively_beats (a b : RankedNode) (margin : f64) : bool :=
  f64_lt (f64_add (rn_cost a) margin) (rn_cost b).
Definition should_switch (challenger incumbent : RankedNode) (margin : f64) : bool :=
  decisively_beats challenger incumbent margin.

Inductive AutoDecision :=
| Adopted (node_index : nat) (label : string) (cost : f64)
| Kept (node_index : nat) (reason : string)
| Switch (node_index : nat) (label : string) (cost : f64)
| NoVerifiedNode.

Definition as_millis_f64 (d : Z) : f64 := f64_mul (as_secs_f64 d) (f64_of_Z 1000).

(** [verified as f64 / total as f64]. *)
Definition agreement (s : CandidateScore) : f64 :=
  f64_div (f64_of_Z (Z.of_nat (cs_verified s))) (f64_of_Z (Z.of_nat (cs_total s))).

Section Select.
Context `{SelectLib}.

Definition decayed_failure (t : NodeTrack) (half_life now : Z) : f64 :=
  match nt_last_failure t with
  | None => f64_of_Z 0
  | Some last =>
    let half_life := f64_max (as_secs_f64 half_life) (f64_of_Z 1) in
    let elapsed := as_secs_f64 (saturating_sub now last) in
    f64_mul (nt_failure_weight t) (powf (f64_lit 1 2) (f64_div elapsed half_life))
  end.

Definition selection_cost (score : CandidateScore) (track : NodeTrack) (c : AutoSelectConfig) (now : Z)
  : f64 :=
  let fresh_ms := match cs_median_latency score with
                  | Some d => as_millis_f64 d
                  | None => f64_mul (ac_latency_scale c) (f64_of_Z 2)
                  end in
  let fresh_spread_ms := match cs_latency_spread score with
                         | Some d => as_millis_f64 d
                         | None => f64_of_Z 0
                         end in
  let latency_ms := default fresh_ms (nt_latency_ewma_ms track) in
  let spread_ms := default fresh_spread_ms (nt_spread_ewma_ms track) in
  let latency_term := f64_clamp (f64_of_Z 0) (f64_of_Z 4) (f64_div latency_ms (ac_latency_scale c)) in
  let spread_term := f64_clamp (f64_of_Z 0) (f64_of_Z 4) (f64_div spread_ms (ac_latency_scale c)) in
  let disagreement := if (cs_total score =? 0)%nat then f64_of_Z 1
                      else f64_sub (f64_of_Z 1) (agreement score) in
  let failure_term := decayed_failure track (ac_failure_half_life c) now in
  f64_add (f64_add (f64_add (f64_mul (ac_w_latency c) latency_term)
                            (f64_mul (ac_w_spread c) spread_term))
                   (f64_mul (ac_w_quorum c) disagreement))
          (f64_mul (ac_w_failure c) failure_term).

Definition track_of (tracks : gmap Z NodeTrack) (ids : list Z) (node_index : nat) : NodeTrack :=
  default NodeTrack_default (ids !! node_index ≫= λ id, tracks !! id).

Definition rank_one (tracks : gmap Z NodeTrack) (ids : list Z) (c : AutoSelectConfig) (now : Z)
    (score : CandidateScore) : RankedNode :=
  let track := track_of tracks ids (cs_node_index score) in
  {| rn_node_index := cs_node_index score;
     rn_cost := selection_cost score track c now;
     rn_quorum_margin := if (cs_total score =? 0)%nat then f64_of_Z 0 else agreement score;
     rn_track := track |}.

(** [partial_cmp(..).unwrap_or(Equal).then_with(index)]. *)
Definition cost_order (a b : RankedNode) : comparison :=
  then_with (default Eq (partial_cmp (rn_cost a) (rn_cost b)))
            (Nat.compare (rn_node_index a) (rn_node_index b)).

Definition rank_working_nodes (scores : list CandidateScore) (tracks : gmap Z NodeTrack)
    (ids : list Z) (c : AutoSelectConfig) (now : Z) : list RankedNode :=
  sort_by cost_order (map (rank_one tracks ids c now) (List.filter cs_passes scores)).

Definition decide_with_margin (ranked : list RankedNode) (scores : list CandidateScore)
    (incumbent : option nat) (margin : f64) : AutoDecision :=
  match ranked with
  | [] => NoVerifiedNode
  | best :: _ =>
    let label := default EmptyString (cs_label <$> scores !! rn_node_index best) in
    match incumbent with
    | None => Adopted (rn_node_index best) label (rn_cost best)
    | Some incumbent_index =>
      match List.find (λ n, (rn_node_index n =? incumbent_index)%nat) ranked with
      | None => Switch (rn_node_index best) label (rn_cost best)
      | Some current =>
        if should_switch best current margin
        then Switch (rn_node_index best) label (rn_cost best)
        else Kept incumbent_index
               (if (rn_node_index best =? incumbent_index)%nat
                then "incumbent is the best verified node"
                else "challenger not decisively better")
      end
    end
  end.

(** ** The selector *)

Record AutoSelector := { as_config : AutoSelectConfig; as_tracks : gmap Z NodeTrack }.
Definition AutoSelector_new (c : AutoSelectConfig) : AutoSelector :=
  {| as_config := c; as_tracks := ∅ |}.

(** [f(self.track_mut(id))]. *)
Definition with_track (s : AutoSelector) (id : Z) (f : NodeTrack → NodeTrack) : AutoSelector :=
  {| as_config := as_config s;
     as_tracks := <[id := f (default NodeTrack_default (as_tracks s !! id))]> (as_tracks s) |}.
Definition observe_verified (s : AutoSelector) (id : Z) (median_ms spread_ms : f64) (now : Z) : AutoSelector :=
  with_track s id (λ t, NodeTrack_record_success t median_ms spread_ms (ac_alpha (as_config s)) now).
Definition observe_failed (s : AutoSelector) (id : Z) (now : Z) : AutoSelector :=
  with_track s id (λ t, NodeTrack_record_failure t now).

Definition observe_one (ids : list Z) (now : Z) (s : AutoSelector) (score : CandidateScore) : AutoSelector :=
  match ids !! cs_node_index score with
  | None => s
  | Some id =>
    if cs_passes score
    then let ms := from_option as_millis_f64 (f64_of_Z 0) in
         observe_verified s id (ms (cs_median_latency score)) (ms (cs_latency_spread score)) now
    else observe_failed s id now
  end.
Definition observe_round (s : AutoSelector) (ids : list Z) (scores : list CandidateScore) (now : Z)
  : AutoSelector := foldl (observe_one ids now) s scores.

Definition decide (s : AutoSelector) (scores : list CandidateScore) (ids : list Z)
    (incumbent : option nat) (now : Z) : AutoDecision * list RankedNode :=
  let ranked := rank_working_nodes scores (as_tracks s) ids (as_config s) now in
  (decide_with_margin ranked scores incumbent (ac_switch_margin (as_config s)), ranked).

(** ** Kernel telemetry *)

Record TunnelHealth := {
  th_grade : Z; th_rtt_ms : Z; th_spread_ms : Z; th_retransmits : Z; th_connections : nat
}.

(** [max_by_key] keeps the last of equal maxima. *)
Definition max_by_key {A} (key : A → Z) (l : list A) : option A :=
  foldl (λ best x, match best with
                   | None => Some x
                   | Some b => if key x <? key b then Some b else Some x
                   end) None l.

Definition aggregate (stats : list TcpStats) (t : HealthThresholds) : option TunnelHealth :=
  best ← max_by_key (λ s, health_grade s t) stats;
  Some {| th_grade := health_grade best t; th_rtt_ms := ts_rtt_ms best;
          th_spread_ms := ts_rtt_var_ms best; th_retransmits := ts_total_retrans best;
          th_connections := length stats |}.

Definition resolve_endpoint (n : CanonicalNode) : option (list SocketAddr) :=
  match endpoint n with
  | EpIp address => Some [address]
  | EpDomain host port => to_socket_addrs host port
  end.

Definition tunnel_step (t : HealthThresholds) (best : option TunnelHealth) (address : SocketAddr)
  : option TunnelHealth :=
  match tcp_info_for_peer address with
  | Err _ => best
  | Ok [] => best
  | Ok stats =>
    match aggregate stats t with
    | None => best
    | Some chosen =>
      match best with
      | Some current => if th_grade chosen <=? th_grade current then Some current else Some chosen
      | None => Some chosen
      end
    end
  end.

Definition tunnel_health (n : CanonicalNode) (t : HealthThresholds) : option TunnelHealth :=
  addresses ← resolve_endpoint n;
  foldl (tunnel_step t) None addresses.
End Select.

(** ** Lemmas: the cost *)

(** What a configuration, a track and a score must satisfy for the cost to be a
    number: positive finite weights, no NaN in the history. *)
Definition config_ok (c : AutoSelectConfig) : bool :=
  pos_finite (ac_w_latency c) && pos_finite (ac_w_spread c) && pos_finite (ac_w_quorum c) &&
  pos_finite (ac_w_failure c) && pos_finite (ac_latency_scale c) &&
  pos_finite (f64_max (as_secs_f64 (ac_failure_half_life c)) (f64_of_Z 1)).
Definition option_all {A} (p : A → bool) (o : option A) : bool := from_option p true o.
Definition track_ok (t : NodeTrack) : bool :=
  option_all nonneg (nt_latency_ewma_ms t) && option_all nonneg (nt_spread_ewma_ms t) &&
  (nonneg (nt_failure_weight t) && finite (nt_failure_weight t)).
(** More targets than any configuration of the program has. *)
Definition MAX_TARGETS : nat := 32.
Definition score_ok (s : CandidateScore) : bool :=
  (cs_verified s <=? cs_total s)%nat && (cs_total s <=? MAX_TARGETS)%nat &&
  option_all (λ d, 0 <=? d) (cs_median_latency s) && option_all (λ d, 0 <=? d) (cs_latency_spread s).

Lemma disagreement_nonneg v t :
  (t ≠ 0)%nat → (v ≤ t)%nat → (t ≤ MAX_TARGETS)%nat →
  nonneg (f64_sub (f64_of_Z 1) (f64_div (f64_of_Z (Z.of_nat v)) (f64_of_Z (Z.of_nat t)))) = true.
Proof.
  intros H0 Hv Ht.
  assert (forallb (λ t, forallb (λ v, nonneg (f64_sub (f64_of_Z 1)
            (f64_div (f64_of_Z (Z.of_nat v)) (f64_of_Z (Z.of_nat t))))) (seq 0 (S t)))
            (seq 1 MAX_TARGETS) = true) as Hall by (vm_compute; reflexivity).
  rewrite forallb_forall in Hall. specialize (Hall t). rewrite in_seq in Hall.
  specialize (Hall ltac:(lia)). rewrite forallb_forall in Hall. apply Hall. apply in_seq. lia.
Qed.

Lemma as_millis_nonneg d : 0 ≤ d → nonneg (as_millis_f64 d) = true.
Proof. intros. apply mul_comm_nonneg; [by apply as_secs_nonneg|reflexivity]. Qed.

Section Cost.
Context `{SelectLib}.
(** [0.5.powf(x)] of a number that is not negative is a finite one that is not. *)
Hypothesis powf_half : ∀ x, nonneg x = true →
  nonneg (powf (f64_lit 1 2) x) && finite (powf (f64_lit 1 2) x) = true.

Lemma decayed_failure_nonneg t c now :
  track_ok t = true → config_ok c = true →
  nonneg (f64_mul (ac_w_failure c) (decayed_failure t (ac_failure_half_life c) now)) = true.
Proof.
  unfold track_ok, config_ok. rewrite !andb_true_iff. intros (_ & Hf) (((((_ & _) & _) & Hw) & _) & Hh).
  apply mul_nonneg; [done|]. unfold decayed_failure. destruct (nt_last_failure t); [|reflexivity].
  apply mul_finite_nonneg; [by rewrite andb_true_iff|]. apply powf_half, div_nonneg; [|done].
  apply as_secs_nonneg. unfold saturating_sub. lia.
Qed.

Lemma term_nonneg w scale x :
  pos_finite w = true → pos_finite scale = true → nonneg x = true →
  nonneg (f64_mul w (f64_clamp (f64_of_Z 0) (f64_of_Z 4) (f64_div x scale))) = true.
Proof.
  intros Hw Hs Hx. apply mul_nonneg; [done|].
  apply (clamp_nonneg (f64_of_Z 4)); [reflexivity|by apply div_nonneg].
Qed.

(** The cost is a number, and not negative. *)
Lemma selection_cost_nonneg score track c now :
  config_ok c = true → track_ok track = true → score_ok score = true →
  nonneg (selection_cost score track c now) = true.
Proof.
  intros Hc Ht Hs. pose proof (decayed_failure_nonneg track c now Ht Hc) as Hfail.
  unfold config_ok, track_ok, score_ok in *. rewrite !andb_true_iff in *.
  destruct Hc as (((((Hl & Hsp) & Hq) & Hf) & Hsc) & _), Ht as ((Hle & Hse) & _),
    Hs as (((Hvt & Hm) & Hml) & Hls).
  unfold selection_cost. apply add_nonneg; [|exact Hfail].
  apply add_nonneg; [apply add_nonneg; apply term_nonneg; try done|].
  - destruct (nt_latency_ewma_ms track); simpl in *; [done|].
    destruct (cs_median_latency score); simpl in *; [apply as_millis_nonneg; lia|].
    apply mul_comm_nonneg; [|reflexivity]. by destruct (ac_latency_scale c).
  - destruct (nt_spread_ewma_ms track); simpl in *; [done|].
    destruct (cs_latency_spread score); simpl in *; [apply as_millis_nonneg; lia|reflexivity].
  - apply mul_nonneg; [done|]. destruct (Nat.eqb_spec (cs_total score) 0); [reflexivity|].
    apply disagreement_nonneg; [done| |]; by apply Nat.leb_le.
Qed.

(** ** Theorems: the ranking *)

(** The order of the ranking when every cost is a number. *)
Definition number_order : RankedNode → RankedNode → comparison :=
  cmp_then (cmp_on rn_cost f64_cmp) (cmp_on rn_node_index Nat.compare).

Lemma number_order_cmp : CmpOrder number_order.
Proof. unfold number_order. apply _. Qed.
#[local] Existing Instance number_order_cmp.

Lemma cost_order_numbers a b :
  is_nan (rn_cost a) = false → is_nan (rn_cost b) = false → cost_order a b = number_order a b.
Proof.
  intros Ha Hb. unfold cost_order, number_order, cmp_then, cmp_on.
  by rewrite (partial_cmp_total _ _ Ha Hb).
Qed.

Lemma rank_working_nodes_elem scores tracks ids c now r :
  r ∈ rank_working_nodes scores tracks ids c now ↔
  ∃ s, s ∈ scores ∧ cs_passes s = true ∧ r = rank_one tracks ids c now s.
Proof.
  unfold rank_working_nodes. rewrite elem_of_sort_by, list_elem_of_fmap.
  setoid_rewrite list_elem_of_In. setoid_rewrite filter_In. naive_solver.
Qed.

(** C16. The ranking has exactly the candidates that passed their quorum, each once
    and with the cost of its own score and history; with a sane configuration and
    histories every cost is a number that is not negative, and the ranking is in
    the order of cost, then of catalog index, so its head is the cheapest. *)
Theorem rank_working_nodes_spec scores tracks ids c now :
  config_ok c = true → map_Forall (λ _ t, track_ok t = true) tracks →
  Forall (λ s, score_ok s = true) scores →
  let ranked := rank_working_nodes scores tracks ids c now in
  map rn_node_index ranked ≡ₚ map cs_node_index (List.filter cs_passes scores) ∧
  (∀ r, r ∈ ranked → nonneg (rn_cost r) = true ∧
    ∃ s, s ∈ scores ∧ cs_passes s = true ∧ r = rank_one tracks ids c now s) ∧
  StronglySorted (λ a b, SFltb (rn_cost b) (rn_cost a) = false ∧
    (SFeqb (rn_cost a) (rn_cost b) = true → (rn_node_index a ≤ rn_node_index b)%nat)) ranked.
Proof.
  intros Hc Ht Hs ranked.
  assert (∀ s, s ∈ scores → nonneg (rn_cost (rank_one tracks ids c now s)) = true) as Hn.
  { intros s Hin. simpl. apply selection_cost_nonneg; [done| |].
    - unfold track_of. destruct (ids !! cs_node_index s) as [id|]; simpl; [|reflexivity].
      destruct (tracks !! id) eqn:E; simpl; [by apply (Ht id)|reflexivity].
    - rewrite Forall_forall in Hs. by apply Hs. }
  assert (∀ r, r ∈ ranked → nonneg (rn_cost r) = true) as Hr.
  { intros r (s & Hin & _ & ->)%rank_working_nodes_elem. by apply Hn. }
  split_and!.
  - unfold ranked, rank_working_nodes. rewrite (fmap_Permutation _ _ _ (sort_by_perm _ _)).
    by rewrite <-list_fmap_compose.
  - intros r Hin. split; [by apply Hr|]. by apply rank_working_nodes_elem.
  - assert (ranked = sort_by number_order (map (rank_one tracks ids c now) (List.filter cs_passes scores))) as E.
    { unfold ranked, rank_working_nodes. apply sort_by_ext. intros x y Hx Hy.
      apply cost_order_numbers; apply nonneg_not_nan, Hr; unfold ranked, rank_working_nodes;
        by rewrite elem_of_sort_by. }
    pose proof (sort_by_sorted number_order
                  (map (rank_one tracks ids c now) (List.filter cs_passes scores))) as Hso.
    rewrite <-E in Hso. eapply StronglySorted_impl_in; [|exact Hso].
    intros a b Ha Hb Hab. unfold number_order, cmp_then, cmp_on in Hab.
    unfold SFltb, SFeqb. fold (partial_cmp (rn_cost b) (rn_cost a)) (partial_cmp (rn_cost a) (rn_cost b)).
    rewrite !partial_cmp_total by (apply nonneg_not_nan; auto).
    rewrite (cmp_flip (cmp:=f64_cmp) (rn_cost a) (rn_cost b)).
    destruct (f64_cmp (rn_cost a) (rn_cost b)); simpl in *; split; try done.
    intros _. by apply Nat.compare_le_iff.
Qed.
End Cost.

Section Decision.
Context `{SelectLib}.

Definition works (scores : list CandidateScore) (i : nat) : Prop :=
  ∃ s, s ∈ scores ∧ cs_passes s = true ∧ cs_node_index s = i.

Lemma ranked_works scores tracks ids c now i :
  works scores i ↔ ∃ r, r ∈ rank_working_nodes scores tracks ids c now ∧ rn_node_index r = i.
Proof.
  unfold works. setoid_rewrite rank_working_nodes_elem. split.
  - intros (s & Hs & Hp & <-). exists (rank_one tracks ids c now s). split; [by exists s|done].
  - intros (r & (s & Hs & Hp & ->) & <-). by exists s.
Qed.

(** C15. A decision never names a node that did not pass its quorum: there is none
    exactly when no candidate passed, a first node is the head of the ranking, an
    incumbent is kept only while it passes and the head of the ranking does not
    beat it by the margin, and it is replaced only by the head of the ranking,
    because it failed or is beaten by the margin. *)
Theorem decide_spec (s : AutoSelector) scores ids incumbent now :
  let '(decision, ranked) := decide s scores ids incumbent now in
  let beats a b := decisively_beats a b (ac_switch_margin (as_config s)) in
  match decision with
  | NoVerifiedNode => ∀ i, ¬ works scores i
  | Adopted i _ cost => incumbent = None ∧ works scores i ∧
      ∃ best, head ranked = Some best ∧ rn_node_index best = i ∧ rn_cost best = cost
  | Kept i _ => incumbent = Some i ∧ works scores i ∧
      ∃ best current, head ranked = Some best ∧ current ∈ ranked ∧ rn_node_index current = i ∧
        beats best current = false
  | Switch i _ cost => works scores i ∧ ∃ best old, head ranked = Some best ∧
      rn_node_index best = i ∧ rn_cost best = cost ∧ incumbent = Some old ∧
      (¬ works scores old ∨
       ∃ current, current ∈ ranked ∧ rn_node_index current = old ∧ beats best current = true)
  end.
Proof.
  unfold decide. set (ranked := rank_working_nodes _ _ _ _ _).
  pose proof (ranked_works scores (as_tracks s) ids (as_config s) now) as Hw. fold ranked in Hw.
  unfold decide_with_margin, should_switch. destruct ranked as [|best rest].
  { intros i (r & Hr & _)%Hw. inversion Hr. }
  assert (works scores (rn_node_index best)) as Hbest by (apply Hw; exists best; split; [left|done]).
  destruct incumbent as [old|]; [|by eauto 10].
  destruct (List.find _ _) as [current|] eqn:Ef.
  - apply find_some in Ef as [Hin He]. apply Nat.eqb_eq in He. rewrite <-list_elem_of_In in Hin.
    destruct (decisively_beats best current _) eqn:Eb.
    + split; [done|]. exists best, old. split_and!; try done. right. by exists current.
    + split_and!; [done|apply Hw; by exists current|]. by exists best, current.
  - split; [done|]. exists best, old. split_and!; try done. left.
    intros (r & Hr & E)%Hw. apply (find_none _ _ Ef) in Hr || (apply list_elem_of_In in Hr;
      apply (find_none _ _ Ef) in Hr). apply Nat.eqb_neq in Hr. done.
Qed.
End Decision.

(** ** Theorems: the selector's memory *)

(** What one score does to the track of its node. *)
Definition fold_score (alpha : f64) (now : Z) (t : NodeTrack) (score : CandidateScore) : NodeTrack :=
  let ms := from_option as_millis_f64 (f64_of_Z 0) in
  if cs_passes score
  then NodeTrack_record_success t (ms (cs_median_latency score)) (ms (cs_latency_spread score)) alpha now
  else NodeTrack_record_failure t now.

Definition scores_of (ids : list Z) (id : Z) (scores : list CandidateScore) : list CandidateScore :=
  List.filter (λ sc, bool_decide (ids !! cs_node_index sc = Some id)) scores.

Lemma observe_one_config ids now s sc : as_config (observe_one ids now s sc) = as_config s.
Proof. unfold observe_one. by repeat case_match. Qed.

Lemma observe_one_track ids now s sc id :
  as_tracks (observe_one ids now s sc) !! id =
  if bool_decide (ids !! cs_node_index sc = Some id)
  then Some (fold_score (ac_alpha (as_config s)) now (default NodeTrack_default (as_tracks s !! id)) sc)
  else as_tracks s !! id.
Proof.
  unfold observe_one, fold_score, observe_verified, observe_failed, with_track.
  destruct (ids !! cs_node_index sc) as [k|]; case_bool_decide as Hk; simplify_eq; try done.
  - destruct (cs_passes sc); simpl; by rewrite lookup_insert_eq.
  - destruct (cs_passes sc); simpl; rewrite lookup_insert_ne by congruence; done.
Qed.

(** A round of scores changes the history of a node by the scores of that node
    alone, through its catalog index and in their order: a pass is smoothed in,
    resets the failure streak and halves the failure weight, a failure adds to
    both; a node without a score keeps its history, and the configuration never
    changes. *)
Lemma observe_round_spec (s : AutoSelector) (ids : list Z) (scores : list CandidateScore) (now id : Z) :
  as_config (observe_round s ids scores now) = as_config s ∧
  as_tracks (observe_round s ids scores now) !! id =
  match scores_of ids id scores with
  | [] => as_tracks s !! id
  | mine => Some (foldl (fold_score (ac_alpha (as_config s)) now)
                    (default NodeTrack_default (as_tracks s !! id)) mine)
  end.
Proof.
  unfold observe_round. revert s. induction scores as [|sc scores IH]; intros s; [done|].
  cbn [foldl]. destruct (IH (observe_one ids now s sc)) as [-> ->].
  rewrite observe_one_config, observe_one_track. split; [done|].
  unfold scores_of in *. cbn [List.filter]. case_bool_decide; [|done].
  by destruct (List.filter _ scores).
Qed.

(** ** Theorems: telemetry *)

Section Telemetry.
Context `{SelectLib}.

(** The samples of the connections to an address. *)
Definition samples (address : SocketAddr) : list TcpStats :=
  match tcp_info_for_peer address with Ok stats => stats | Err _ => [] end.

Lemma max_by_key_spec {A} (key : A → Z) l :
  match max_by_key key l with
  | None => l = []
  | Some b => b ∈ l ∧ ∀ x, x ∈ l → key x ≤ key b
  end.
Proof.
  unfold max_by_key. induction l as [|x l IH] using rev_ind; [done|].
  rewrite foldl_app. simpl. set (best := foldl _ None l) in *.
  destruct best as [b|].
  - destruct IH as [Hb Hm]. destruct (Z.ltb_spec (key x) (key b)).
    + split; [apply elem_of_app; by left|]. intros y [Hy| ->%list_elem_of_singleton]%elem_of_app; [auto|lia].
    + split; [apply elem_of_app; right; left|].
      intros y [Hy| ->%list_elem_of_singleton]%elem_of_app; [specialize (Hm y Hy); lia|lia].
  - subst l. simpl. split; [left|]. intros y ->%list_elem_of_singleton. lia.
Qed.

(** Telemetry reports the best connection the kernel has to any address of the
    node, and reports nothing, never a bad grade, when the name does not resolve
    or the kernel has no connection. *)
Lemma tunnel_health_spec (n : CanonicalNode) (t : HealthThresholds) :
  match tunnel_health n t with
  | None => ∀ addresses a, resolve_endpoint n = Some addresses → a ∈ addresses → samples a = []
  | Some h => ∃ addresses a s, resolve_endpoint n = Some addresses ∧ a ∈ addresses ∧ s ∈ samples a ∧
      th_grade h = health_grade s t ∧ th_rtt_ms h = ts_rtt_ms s ∧ th_spread_ms h = ts_rtt_var_ms s ∧
      th_connections h = length (samples a) ∧
      ∀ a' s', a' ∈ addresses → s' ∈ samples a' → health_grade s' t ≤ th_grade h
  end.
Proof.
  unfold tunnel_health. destruct (resolve_endpoint n) as [addresses|]; simpl; [|naive_solver].
  induction addresses as [|a l IH] using rev_ind.
  { simpl. intros addresses a [= <-] Ha. inversion Ha. }
  rewrite foldl_app. simpl. set (best := foldl _ None l) in *.
  assert (tunnel_step t best a = match aggregate (samples a) t with
    | None => best
    | Some chosen => match best with
      | Some current => if th_grade chosen <=? th_grade current then Some current else Some chosen
      | None => Some chosen end end) as ->.
  { unfold tunnel_step, samples. destruct (tcp_info_for_peer a) as [[|s l']|]; done. }
  unfold aggregate. pose proof (max_by_key_spec (λ s, health_grade s t) (samples a)) as Hm.
  destruct (max_by_key _ (samples a)) as [b|]; simpl.
  - destruct Hm as [Hb Hm]. destruct best as [current|]; simpl.
    + destruct IH as (ad & a0 & s & [= <-] & Ha & Hs & E1 & E2 & E3 & E4 & Hall).
      destruct (Z.leb_spec (health_grade b t) (th_grade current)).
      * exists (l ++ [a]), a0, s. split_and!; try done; [apply elem_of_app; by left|].
        intros a' s' [Ha'| ->%list_elem_of_singleton]%elem_of_app Hs'; [by eapply Hall|].
        specialize (Hm s' Hs'). lia.
      * exists (l ++ [a]), a, b. split_and!; try done; [apply elem_of_app; right; left|].
        intros a' s' [Ha'| ->%list_elem_of_singleton]%elem_of_app Hs'; simpl; [|by apply Hm].
        specialize (Hall a' s' Ha' Hs'). lia.
    + exists (l ++ [a]), a, b. split_and!; try done; [apply elem_of_app; right; left|].
      intros a' s' [Ha'| ->%list_elem_of_singleton]%elem_of_app Hs'; simpl; [|by apply Hm].
      rewrite (IH l a' eq_refl Ha') in Hs'. inversion Hs'.
  - destruct best as [current|]; simpl.
    + destruct IH as (ad & a0 & s & [= <-] & Ha & Hs & E1 & E2 & E3 & E4 & Hall).
      exists (l ++ [a]), a0, s. split_and!; try done; [apply elem_of_app; by left|].
      intros a' s' [Ha'| ->%list_elem_of_singleton]%elem_of_app Hs'; [by eapply Hall|].
      rewrite Hm in Hs'. inversion Hs'.
    + intros ad a' [= <-] [Ha'| ->%list_elem_of_singleton]%elem_of_app; [by apply (IH l)|done].
Qed.
End Telemetry.

(** ** Witnesses *)

#[local] Instance sample_select : SelectLib :=
  {| powf := λ _ x, if SFeqb x (f64_of_Z 0) then f64_of_Z 1 else f64_lit 1 2;
     to_socket_addrs := λ _ _, None; tcp_info_for_peer := λ _, Ok [] |}.

Definition sample_score (i : nat) (passes : bool) (verified : nat) (ms : Z) : CandidateScore :=
  {| cs_node_index := i; cs_label := "node " +:+ show_Z (Z.of_nat i); cs_sub_id := 1; cs_verified := verified;
     cs_total := 9; cs_passes := passes; cs_median_latency := Some (ms * MILLI);
     cs_latency_spread := Some (5 * MILLI) |}.
(** A fast node that failed before, a slower one that did not, and the fastest,
    which fails now. *)
Definition sample_scores : list CandidateScore :=
  [sample_score 2 true 9 60; sample_score 0 false 1 10; sample_score 1 true 8 90].
Definition sample_ids : list Z := [10; 11; 12].
Definition sample_tracks : gmap Z NodeTrack := {[ 12 := NodeTrack_record_failure NodeTrack_default 0 ]}.

Lemma rank_working_nodes_spec_witness :
  map rn_node_index (rank_working_nodes sample_scores sample_tracks sample_ids
                       AutoSelectConfig_default (10 * SECOND)) = [1; 2]%nat ∧
  map rn_node_index (rank_working_nodes sample_scores sample_tracks sample_ids
                       AutoSelectConfig_default (10 * SECOND)) ≡ₚ [2; 1]%nat.
Proof.
  split; [vm_compute; reflexivity|].
  apply (rank_working_nodes_spec (λ x _,
      match SFeqb x (f64_of_Z 0) as b
        return (let p := if b then f64_of_Z 1 else f64_lit 1 2 in nonneg p && finite p = true)
      with true => eq_refl | false => eq_refl end)
    sample_scores sample_tracks sample_ids AutoSelectConfig_default (10 * SECOND)).
  - vm_compute. reflexivity.
  - intros id t Ht. unfold sample_tracks in Ht. apply lookup_singleton_Some in Ht as [_ <-].
    vm_compute. reflexivity.
  - repeat constructor.
Defined.

(** The label of a decision is looked up by catalog index in the list of scores,
    whose positions are not catalog indices. *)
Lemma decision_label_positional :
  (decide (AutoSelector_new AutoSelectConfig_default) sample_scores sample_ids None 0).1 =
  Adopted 2 "node 1" (selection_cost (sample_score 2 true 9 60) NodeTrack_default
                        AutoSelectConfig_default 0).
Proof. vm_compute. reflexivity. Qed.
