(* ===== verification/Supervisor.v ===== *)
(** The sing-box supervisor ([crates/adapter/src/supervisor.rs]): validation,
    start, reload, and the swap of a configuration with its rollback.

    The configuration file is its contents.  The verdict of [sing-box check] is a
    function of the file it reads; the outcomes of the system calls of one
    operation are data, so that each of them can fail, and a write can stop half
    way.  A child that exited stays in its slot until it is waited for: signalling
    it succeeds and does nothing. *)

From S2P Require Import Prelude RustStr.

(** What the supervisor was made with, which never changes, and the verdict of
    [sing-box check] on a file: accepted, or what it prints on standard error. *)
Class CoreLib := {
  core_binary : string;
  core_config_path : string;
  core_check : option string → result string ()
}.

(** A running core has loaded a configuration. *)
Record Child := { ch_alive : bool; ch_loaded : string }.
Record Supervisor := { sv_file : option string; sv_child : option Child }.

(** ** Writing a file *)

(** What goes wrong writing a file: it cannot be created, or only its first bytes
    are written. *)
Inductive WriteFault := CannotCreate (msg : string) | CutShort (n : nat) (msg : string).

(** What the file holds after [std::fs::write], and its answer. *)
Definition fs_write (fault : option WriteFault) (content : string) (file : option string)
  : result Error () * option string :=
  match fault with
  | None => (Ok (), Some content)
  | Some (CannotCreate msg) => (Err [msg], file)
  | Some (CutShort n msg) => (Err [msg], Some (of_bytes (take n (bytes content))))
  end.

(** ** The system calls of one operation *)

(** What goes wrong, if anything, at each of them. *)
Record CoreIo := {
  io_read : option string;         (** reading the previous configuration *)
  io_write : option WriteFault;    (** writing the new one *)
  io_check : nat → option string;  (** running [sing-box check], by its turn *)
  io_spawn : option string;        (** spawning the core *)
  io_signal : option string;       (** the first SIGHUP: the pid and the reason *)
  io_restore : option WriteFault;  (** writing the previous configuration back *)
  io_resignal : option string      (** the SIGHUP of the rollback *)
}.
Definition io_fine : CoreIo :=
  {| io_read := None; io_write := None; io_check _ := None; io_spawn := None; io_signal := None;
     io_restore := None; io_resignal := None |}.

(** [Supervisor::new]: the file may be an earlier session's. *)
Definition Supervisor_new (file : option string) : Supervisor := {| sv_file := file; sv_child := None |}.
(** The command of [sing-box check]. *)
Definition check_command (binary config_path : string) : list string := [binary; "check"; "-c"; config_path]%stdpp.

Section Supervisor.
Context `{CoreLib}.

(** [run]: what goes wrong running the binary. *)
Definition Supervisor_validate_config (run : option string) (s : Supervisor) : result Error () :=
  match run with
  | Some msg =>
    Err ["failed to run `" +:+ core_binary +:+ " check -c " +:+ core_config_path +:+ "`"; msg]%stdpp
  | None =>
    match core_check (sv_file s) with
    | Ok _ => Ok ()
    | Err stderr => bail ("sing-box rejected the config: " +:+ trim (from_utf8_lossy stderr))
    end
  end.

Definition is_running (s : Supervisor) : bool := bool_decide (is_Some (sv_child s)).

Definition start (check spawn : option string) (s : Supervisor) : result Error () * Supervisor :=
  match Supervisor_validate_config check s with
  | Err e => (Err e, s)
  | Ok _ =>
    match spawn with
    | Some msg => (Err ["failed to spawn `" +:+ core_binary +:+ "`"; msg]%stdpp, s)
    | None =>
      (Ok (), {| sv_file := sv_file s;
                 sv_child := Some {| ch_alive := true; ch_loaded := default EmptyString (sv_file s) |} |})
    end
  end.

(** SIGHUP: a live core loads the file. *)
Definition sighup (file : option string) (c : Child) : Child :=
  if ch_alive c then {| ch_alive := true; ch_loaded := default EmptyString file |} else c.

Definition reload (check signal : option string) (s : Supervisor) : result Error () * Supervisor :=
  match Supervisor_validate_config check s with
  | Err e => (Err e, s)
  | Ok _ =>
    match sv_child s with
    | None => (bail "core is not running", s)
    | Some c =>
      match signal with
      | Some msg => (bail ("failed to signal SIGHUP to pid " +:+ msg), s)
      | None => (Ok (), {| sv_file := sv_file s; sv_child := Some (sighup (sv_file s) c) |})
      end
    end
  end.

(** [stop]: terminate and wait. *)
Definition stop (s : Supervisor) : result Error () * Supervisor :=
  (Ok (), {| sv_file := sv_file s; sv_child := None |}).

Definition with_file (file : option string) (s : Supervisor) : Supervisor :=
  {| sv_file := file; sv_child := sv_child s |}.

(** The closure of [apply_config]: the configuration is checked twice, once here and
    once by what starts or reloads the core. *)
Definition applying (io : CoreIo) (s : Supervisor) : result Error () * Supervisor :=
  match Supervisor_validate_config (io_check io 0) s with
  | Err e => (Err e, s)
  | Ok _ =>
    if is_running s then reload (io_check io 1) (io_signal io) s
    else start (io_check io 1) (io_spawn io) s
  end.

(** Putting the previous file back, and asking the live core to read it again. *)
Definition restore_previous (io : CoreIo) (previous : option string) (s : Supervisor) : Supervisor :=
  match previous with
  | None => s
  | Some p =>
    let '(written, file) := fs_write (io_restore io) p (sv_file s) in
    let s := with_file file s in
    if is_ok written && is_running s then (reload (io_check io 2) (io_resignal io) s).2 else s
  end.

(** [std::fs::read(..).ok()]. *)
Definition read_previous (io : CoreIo) (s : Supervisor) : option string :=
  match io_read io with Some _ => None | None => sv_file s end.

Definition apply_config (io : CoreIo) (s : Supervisor) (config_json : string)
  : result Error () * Supervisor :=
  let previous := read_previous io s in
  let '(written, file) := fs_write (io_write io) config_json (sv_file s) in
  let s := with_file file s in
  match written with
  | Err e => (Err e, s)
  | Ok _ =>
    match applying io s with
    | (Ok _, s) => (Ok (), s)
    | (Err e, s) => (Err e, restore_previous io previous s)
    end
  end.

(** ** What a swap does *)

(** The core runs [config], which is the file. *)
Definition serving (s : Supervisor) (config : string) : Prop :=
  sv_file s = Some config ∧ sv_child s = Some {| ch_alive := true; ch_loaded := config |}.

(** The previous file could be read, the new one was not cut, and the previous one
    can be written back. *)
Definition rolls_back (io : CoreIo) : Prop :=
  io_read io = None ∧ (∀ n msg, io_write io ≠ Some (CutShort n msg)) ∧ io_restore io = None.

(** Everything one swap needs to succeed: the file written, the two checks run and
    the configuration accepted, and the core spawned, or signalled if one is in its
    slot. *)
Definition swap_succeeds (io : CoreIo) (s : Supervisor) (config : string) : Prop :=
  io_write io = None ∧ io_check io 0 = None ∧ io_check io 1 = None ∧ core_check (Some config) = Ok () ∧
  match sv_child s with Some _ => io_signal io = None | None => io_spawn io = None end.

Lemma validated_iff run s :
  is_ok (Supervisor_validate_config run s) = true ↔ run = None ∧ core_check (sv_file s) = Ok ().
Proof.
  unfold Supervisor_validate_config.
  destruct run, (core_check (sv_file s)) as [[]|]; simpl; split; (done || by intros [??]).
Qed.

Lemma validated run s : Supervisor_validate_config run s = Ok () → core_check (sv_file s) = Ok ().
Proof. unfold Supervisor_validate_config. destruct run, (core_check (sv_file s)) as [[]|]; by intros. Qed.

Lemma validate_fine s : core_check (sv_file s) = Ok () → Supervisor_validate_config None s = Ok ().
Proof. unfold Supervisor_validate_config. by intros ->. Qed.

(** A reload never starts, ends or otherwise changes a core but by loading the file. *)
Lemma reload_cases check signal s :
  reload check signal s =
    match Supervisor_validate_config check s, sv_child s, signal with
    | Err e, _, _ => (Err e, s)
    | Ok _, None, _ => (bail "core is not running", s)
    | Ok _, Some _, Some msg => (bail ("failed to signal SIGHUP to pid " +:+ msg), s)
    | Ok _, Some c, None => (Ok (), {| sv_file := sv_file s; sv_child := Some (sighup (sv_file s) c) |})
    end.
Proof. unfold reload. by destruct (Supervisor_validate_config _ _), (sv_child s), signal. Qed.

(** A core that reads again the file it runs is as it was. *)
Lemma reload_serving check signal s config : serving s config → (reload check signal s).2 = s.
Proof.
  destruct s as [f c]. intros [Hf Hc]. cbn in Hf, Hc. subst.
  by rewrite reload_cases; destruct (Supervisor_validate_config _ _), signal.
Qed.

Lemma applying_cases io s :
  let '(r, s') := applying io s in
  match r with
  | Ok _ => core_check (sv_file s) = Ok () ∧
      sv_child s' = Some match sv_child s with
                         | Some c => sighup (sv_file s) c
                         | None => {| ch_alive := true; ch_loaded := default EmptyString (sv_file s) |}
                         end ∧ sv_file s' = sv_file s
  | Err _ => s' = s
  end.
Proof.
  unfold applying. destruct (Supervisor_validate_config (io_check io 0) s) as [[]|] eqn:E; [|done].
  apply validated in E. unfold is_running. destruct (sv_child s) as [c|] eqn:Ec; cbn.
  - rewrite reload_cases, Ec. by destruct (Supervisor_validate_config _ _), (io_signal io).
  - unfold start. by destruct (Supervisor_validate_config _ _), (io_spawn io).
Qed.

Lemma applying_iff io s :
  is_ok (applying io s).1 = true ↔
  io_check io 0 = None ∧ io_check io 1 = None ∧ core_check (sv_file s) = Ok () ∧
  match sv_child s with Some _ => io_signal io = None | None => io_spawn io = None end.
Proof.
  pose proof (validated_iff (io_check io 0) s) as H0. pose proof (validated_iff (io_check io 1) s) as H1.
  unfold applying, is_running, start. rewrite reload_cases.
  destruct (Supervisor_validate_config (io_check io 0) s), (Supervisor_validate_config (io_check io 1) s),
    (sv_child s), (io_signal io), (io_spawn io); simpl in *; naive_solver.
Qed.

(** A swap succeeds exactly when everything it needs does. *)
Lemma apply_config_iff io s config :
  is_ok (apply_config io s config).1 = true ↔ swap_succeeds io s config.
Proof.
  unfold apply_config, fs_write, swap_succeeds.
  destruct (io_write io) as [[]|]; [by split; [|intros [??]]..|].
  pose proof (applying_iff io (with_file (Some config) s)) as Ha. cbn in Ha |- *.
  destruct (applying io _) as [[[]|] s']; cbn in *; naive_solver.
Qed.

(** Nothing is spawned or stopped by a rollback, and a core that ran [p] still does. *)
Lemma restore_previous_cases io previous s :
  (sv_child s = None → sv_child (restore_previous io previous s) = None) ∧
  (∀ old, sv_child s = Some {| ch_alive := true; ch_loaded := old |} →
    (∀ p, previous = Some p → p = old) →
    sv_child (restore_previous io previous s) = sv_child s) ∧
  (∀ p, previous = Some p → io_restore io = None →
    sv_child s = Some {| ch_alive := true; ch_loaded := p |} → serving (restore_previous io previous s) p).
Proof.
  unfold restore_previous. destruct previous as [p|]; [|by split_and!].
  destruct s as [f [c|]], (io_restore io) as [[]|] eqn:Er; cbn; split_and!; try done.
  - intros old [= ->] Hp. rewrite (Hp p eq_refl) in *. by rewrite (reload_serving _ _ _ old).
  - intros p' [= <-] _ [= ->]. by rewrite (reload_serving _ _ _ p).
Qed.

Lemma apply_config_cases (io : CoreIo) (s : Supervisor) (config : string) :
  let '(r, s') := apply_config io s config in
  match r with
  | Ok _ => core_check (Some config) = Ok () ∧ sv_file s' = Some config ∧
      (∀ c, sv_child s = Some c → ch_alive c = true → serving s' config) ∧
      (sv_child s = None → serving s' config)
  | Err _ =>
      (∀ old, serving s old → sv_child s' = sv_child s ∧ (rolls_back io → serving s' old)) ∧
      (sv_child s = None → sv_child s' = None)
  end.
Proof.
  unfold apply_config, fs_write. destruct (io_write io) as [[msg|n msg]|] eqn:Ew; cbn.
  - split; [|done]. by intros old [??].
  - split; [|done]. intros old Hs. split; [done|]. intros (_ & Hcut & _). by destruct (Hcut n msg).
  - pose proof (applying_cases io (with_file (Some config) s)) as Ha.
    destruct (applying io _) as [[[]|e] s'].
    + destruct Ha as (Hk & Hc & Hf). unfold serving. rewrite Hf, Hc. cbn in *. split_and!; [done|done| |].
      * intros c -> Hal. unfold sighup. by rewrite Hal.
      * by intros ->.
    + subst s'. destruct (restore_previous_cases io (read_previous io s) (with_file (Some config) s))
        as (Hnone & Hlive & Hback). split; [|done]. intros old [Hf Hc]. cbn in *. split.
      * apply (Hlive old); [done|]. unfold read_previous. destruct (io_read io); [done|]. congruence.
      * intros (Hr & _ & Hw). apply Hback; [|done|done]. unfold read_previous. by rewrite Hr.
Qed.

(** ** Theorem *)


(** With nothing in its way, the swap is decided by the core alone. *)
Lemma apply_config_fine s config :
  core_check (Some config) = Ok () →
  apply_config io_fine s config =
  (Ok (), {| sv_file := Some config;
             sv_child := Some match sv_child s with
                              | Some c => sighup (Some config) c
                              | None => {| ch_alive := true; ch_loaded := config |}
                              end |}).
Proof.
  intros E. unfold apply_config, applying, is_running, reload, start, Supervisor_validate_config. cbn.
  rewrite E. destruct s as [f [c|]]; cbn; by rewrite ?E.
Qed.

(** ** Where the contract ends *)

(** With no previous file a rejected configuration stays on disk. *)
Lemma rejected_first_config_stays (config stderr : string) :
  core_check (Some config) = Err stderr →
  apply_config io_fine {| sv_file := None; sv_child := None |} config =
  (bail ("sing-box rejected the config: " +:+ trim (from_utf8_lossy stderr)),
   {| sv_file := Some config; sv_child := None |}).
Proof. intros E. unfold apply_config, applying, Supervisor_validate_config. simpl. by rewrite E. Qed.

(** A core that exited counts as running: a swap reports success while nothing serves
    the new configuration. *)
Lemma dead_core_counts_as_running (old config : string) :
  core_check (Some config) = Ok () →
  let dead := {| ch_alive := false; ch_loaded := old |} in
  apply_config io_fine {| sv_file := Some old; sv_child := Some dead |} config =
  (Ok (), {| sv_file := Some config; sv_child := Some dead |}).
Proof. apply apply_config_fine. Qed.

(** A write that stops half way is outside the rollback: the file keeps the first
    bytes of the new configuration, whatever the core would say of them. *)
Lemma cut_write_is_not_rolled_back (io : CoreIo) (s : Supervisor) (config msg : string) (n : nat) :
  io_write io = Some (CutShort n msg) →
  apply_config io s config = (Err [msg], with_file (Some (of_bytes (take n (bytes config)))) s).
Proof. intros E. unfold apply_config. by rewrite E. Qed.
End Supervisor.
