(* ===== verification/Controller.v ===== *)
(** The session controller ([crates/controller/src/proxy_controller.rs]): its
    state, the switch, the two ways down, the import of a subscription and the
    probe targets.

    The daemon's replies, the clock and the system calls of one operation are
    data; the daemon's own state is not here, only what it was asked. *)

From S2P Require Import Prelude RustStr Ir Metadata Uri Clash Json Ingest Adapter Repository Store Egress Supervisor.

Class ControllerLib := {
  to_vec_pretty : Value → result Error string   (** [serde_json::to_vec_pretty] *)
}.

(** ** Settings *)

Definition SINGLE_FW_MARK : Z := 1.

Record ProxySettings := {
  ps_tproxy_port : Z; ps_fwmark : Z; ps_table_id : Z;
  ps_dns_provider : DnsProvider; ps_dns_ipv4 : option IpAddr;
  ps_core_uid : option Z;
  ps_bypass_subnets : list string; ps_bypass_subnets_v6 : list string;
  ps_local_dns : option LocalDns;
  ps_egress_real_count : nat; ps_egress_timeout : Z; ps_egress_min_verified : nat
}.
(** [default]; the gateway is what [default_gateway_v4] found. *)
Definition ProxySettings_default (gateway : option IpAddr) : ProxySettings :=
  {| ps_tproxy_port := 12345; ps_fwmark := SINGLE_FW_MARK; ps_table_id := 100;
     ps_dns_provider := Cloudflare; ps_dns_ipv4 := Some (V4 1 1 1 1); ps_core_uid := None;
     ps_bypass_subnets := ["10.0.0.0/8"; "172.16.0.0/12"; "192.168.0.0/16"];
     ps_bypass_subnets_v6 := ["fc00::/7"];
     ps_local_dns := (λ ip, {| ld_ipv4 := ip; ld_port := 53 |}) <$> gateway;
     ps_egress_real_count := 2; ps_egress_timeout := 10 * SECOND; ps_egress_min_verified := 2 |}.

Definition scatter_config (s : ProxySettings) : ScatterConfig :=
  {| sc_operators := sc_operators ScatterConfig_default;
     sc_real_sites := sc_real_sites ScatterConfig_default;
     sc_real_count := ps_egress_real_count s;
     sc_min_verified := ps_egress_min_verified s;
     sc_timeout := ps_egress_timeout s;
     sc_max_concurrency := sc_max_concurrency ScatterConfig_default |}.

(** [netd_client.rs]: what one request for routing says. *)
Record RoutingSpec := {
  rs_tproxy_port : Z; rs_fwmark : Z; rs_table_id : Z; rs_dns_ipv4 : option IpAddr;
  rs_bypass_subnets : list string; rs_bypass_subnets_v6 : list string; rs_core_uid : option Z
}.
Definition routing_spec (s : ProxySettings) : RoutingSpec :=
  {| rs_tproxy_port := ps_tproxy_port s; rs_fwmark := ps_fwmark s; rs_table_id := ps_table_id s;
     rs_dns_ipv4 := ps_dns_ipv4 s; rs_bypass_subnets := ps_bypass_subnets s;
     rs_bypass_subnets_v6 := ps_bypass_subnets_v6 s; rs_core_uid := ps_core_uid s |}.

(** ** State *)

Inductive NetdCall := EnableRouting (spec : RoutingSpec) | DisableRouting.

Record Controller := {
  ct_db : Db;
  ct_supervisor : Supervisor;
  ct_netd : option (list NetdCall);      (** the daemon, if connected: what it was asked *)
  ct_settings : ProxySettings;
  ct_active_node : option CanonicalNode;
  ct_last_auto_switch : option Z;
  ct_last_manual_switch : option Z;
  ct_degraded : bool
}.

(** [open], once the database is open; [netd] is whether the daemon answered. *)
Definition controller_open (db : Db) (file : option string) (netd : bool) (settings : ProxySettings)
  : Controller :=
  {| ct_db := db; ct_supervisor := Supervisor_new file;
     ct_netd := if netd then Some [] else None; ct_settings := settings; ct_active_node := None;
     ct_last_auto_switch := None; ct_last_manual_switch := None; ct_degraded := false |}.

(** [open_memory], which never looks for the daemon. *)
Definition controller_open_memory (db : Db) (file : option string) (gateway : option IpAddr) : Controller :=
  controller_open db file false (ProxySettings_default gateway).

Definition with_supervisor (c : Controller) (s : Supervisor) : Controller :=
  {| ct_db := ct_db c; ct_supervisor := s; ct_netd := ct_netd c; ct_settings := ct_settings c;
     ct_active_node := ct_active_node c; ct_last_auto_switch := ct_last_auto_switch c;
     ct_last_manual_switch := ct_last_manual_switch c; ct_degraded := ct_degraded c |}.
Definition with_netd_call (c : Controller) (call : NetdCall) : Controller :=
  {| ct_db := ct_db c; ct_supervisor := ct_supervisor c;
     ct_netd := (λ calls, calls ++ [call]) <$> ct_netd c; ct_settings := ct_settings c;
     ct_active_node := ct_active_node c; ct_last_auto_switch := ct_last_auto_switch c;
     ct_last_manual_switch := ct_last_manual_switch c; ct_degraded := ct_degraded c |}.
Definition with_db (c : Controller) (db : Db) : Controller :=
  {| ct_db := db; ct_supervisor := ct_supervisor c; ct_netd := ct_netd c; ct_settings := ct_settings c;
     ct_active_node := ct_active_node c; ct_last_auto_switch := ct_last_auto_switch c;
     ct_last_manual_switch := ct_last_manual_switch c; ct_degraded := ct_degraded c |}.
Definition set_settings (c : Controller) (s : ProxySettings) : Controller :=
  {| ct_db := ct_db c; ct_supervisor := ct_supervisor c; ct_netd := ct_netd c; ct_settings := s;
     ct_active_node := ct_active_node c; ct_last_auto_switch := ct_last_auto_switch c;
     ct_last_manual_switch := ct_last_manual_switch c; ct_degraded := ct_degraded c |}.
Definition with_session (c : Controller) (active : option CanonicalNode) (last_auto last_manual : option Z)
    (degraded : bool) : Controller :=
  {| ct_db := ct_db c; ct_supervisor := ct_supervisor c; ct_netd := ct_netd c;
     ct_settings := ct_settings c; ct_active_node := active; ct_last_auto_switch := last_auto;
     ct_last_manual_switch := last_manual; ct_degraded := degraded |}.

Definition note_manual_switch (c : Controller) (now : Z) : Controller :=
  with_session c (ct_active_node c) (ct_last_auto_switch c) (Some now) (ct_degraded c).
Definition note_auto_switch (c : Controller) (now : Z) : Controller :=
  with_session c (ct_active_node c) (Some now) (ct_last_manual_switch c) (ct_degraded c).

(** [manual.or(auto)]. *)
Definition last_switch (c : Controller) : option Z :=
  match ct_last_manual_switch c with Some t => Some t | None => ct_last_auto_switch c end.

(** ** Operations *)

(** The outcomes of one switch: the supervisor's system calls, the daemon's reply. *)
Record SwitchIo := { si_core : CoreIo; si_netd : result Error () }.
Definition si_fine : SwitchIo := {| si_core := io_fine; si_netd := Ok () |}.

Section Operations.
Context `{AdapterLib} `{CoreLib} `{ControllerLib}.

(** What the core is given for a node. *)
Definition render_config (s : ProxySettings) (n : CanonicalNode) : result Error string :=
  config ← compile_full_config n (ps_tproxy_port s) (ps_fwmark s) (ps_dns_provider s) (ps_local_dns s);
  to_vec_pretty config.

(** [netd.enable_routing(&spec)], if there is a daemon. *)
Definition request_routing (reply : result Error ()) (c : Controller) : result Error () * Controller :=
  match ct_netd c with
  | None => (Ok (), c)
  | Some _ => (context "netd enable routing" reply,
               with_netd_call c (EnableRouting (routing_spec (ct_settings c))))
  end.

Definition switch_node (io : SwitchIo) (now : Z) (c : Controller) (n : CanonicalNode) (automatic : bool)
  : result Error string * Controller :=
  match render_config (ct_settings c) n with
  | Err e => (Err e, c)
  | Ok rendered =>
    let '(applied, supervisor) := apply_config (si_core io) (ct_supervisor c) rendered in
    let c := with_supervisor c supervisor in
    match context "apply core config" applied with
    | Err e => (Err e, c)
    | Ok _ =>
      let '(routed, c) := request_routing (si_netd io) c in
      match routed with
      | Err e => (Err e, c)
      | Ok _ =>
        (Ok ("switched to " +:+ label (meta n)),
         with_session c (Some n)
           (if automatic then Some now else ct_last_auto_switch c)
           (if automatic then ct_last_manual_switch c else Some now) false)
      end
    end
  end.

(** The daemon's answer to [disable_routing] is ignored. *)
Definition tear_down (c : Controller) (degraded : bool) : result Error () * Controller :=
  let c := with_netd_call c DisableRouting in
  let '(stopped, supervisor) := stop (ct_supervisor c) in
  (stopped, with_session (with_supervisor c supervisor) None (ct_last_auto_switch c)
              (ct_last_manual_switch c) degraded).

Definition controller_stop (c : Controller) : result Error () * Controller := tear_down c (ct_degraded c).
Definition degrade_to_direct (c : Controller) : Controller := (tear_down c true).2.
End Operations.

Section Catalog.
Context `{IdentityHash} `{NodeCodec}.

(** [SELECT id, raw_payload FROM nodes], in the order of the row ids. *)
Definition load_probe_targets (c : Controller) : result Error (list (Z * CanonicalNode)) :=
  mapR (λ '(i, row),
    let id := wrap 32 i in
    n ← context ("corrupt node payload for id " +:+ show_Z id) (decode_node_payload (nr_payload row));
    Ok (id, n)) (node_rows (ct_db c)).

(** [SELECT COALESCE(MAX(id), 0) + 1 FROM subscriptions]. *)
Definition next_subscription_id (db : Db) : Z :=
  from_option (λ l, foldr Z.max l (map fst (map_to_list (subscriptions db)))) 0
    (head (map fst (map_to_list (subscriptions db)))) + 1.

Definition import_subscription `{Sqlite} `{ParserLib} `{YamlLib} (uuid : string) (now : Z) (c : Controller)
    (raw name url : string) : result Error SubscriptionRefresh * Controller :=
  let next_id := next_subscription_id (ct_db c) in
  if U16_MAX <? next_id
  then (bail ("too many subscriptions (id " +:+ show_Z next_id +:+ " exceeded u16)"), c)
  else
    let record := {| rec_id := wrap 16 next_id;
                     rec_row := {| sr_uuid := uuid; sr_name := name; sr_url := url;
                                   sr_last_updated := now; sr_auto_update_interval := 86400;
                                   sr_etag := None |} |} in
    let '(res, db) := refresh (ct_db c) record raw false in
    (context "import subscription" res, with_db c db).
End Catalog.

(** ** Theorems: the switch *)

(** The four fields of a session. *)
Definition session (c : Controller) : option CanonicalNode * option Z * option Z * bool :=
  (ct_active_node c, ct_last_auto_switch c, ct_last_manual_switch c, ct_degraded c).

Section Switch.
Context `{AdapterLib} `{CoreLib} `{ControllerLib}.

Lemma switch_node_cases (io : SwitchIo) (now : Z) (c : Controller) (n : CanonicalNode) (automatic : bool) :
  let '(r, c') := switch_node io now c n automatic in
  ct_db c' = ct_db c ∧ ct_settings c' = ct_settings c ∧
  match r with
  | Ok _ =>
      session c' = (Some n, (if automatic then Some now else ct_last_auto_switch c),
                    (if automatic then ct_last_manual_switch c else Some now), false) ∧
      (∃ config, render_config (ct_settings c) n = Ok config ∧ core_check (Some config) = Ok () ∧
        sv_file (ct_supervisor c') = Some config ∧
        ((∀ child, sv_child (ct_supervisor c) = Some child → ch_alive child = true) →
         serving (ct_supervisor c') config)) ∧
      (is_Some (ct_netd c) → si_netd io = Ok ()) ∧
      ct_netd c' = (λ calls, calls ++ [EnableRouting (routing_spec (ct_settings c))]) <$> ct_netd c
  | Err _ =>
      session c' = session c ∧
      ((ct_netd c' = ct_netd c ∧
        ∀ old, serving (ct_supervisor c) old → sv_child (ct_supervisor c') = sv_child (ct_supervisor c)) ∨
       (is_Some (ct_netd c) ∧ (∃ e, si_netd io = Err e) ∧
        ∃ config, render_config (ct_settings c) n = Ok config ∧ sv_file (ct_supervisor c') = Some config))
  end.
Proof.
  unfold switch_node. destruct (render_config (ct_settings c) n) as [config|e] eqn:Er; [|by auto 10].
  pose proof (apply_config_cases (si_core io) (ct_supervisor c) config) as Ha.
  destruct (apply_config (si_core io) (ct_supervisor c) config) as [[u|e] sv]; simpl.
  - destruct Ha as (Hk & Hf & Hlive & Hcold). destruct u.
    assert ((∀ child, sv_child (ct_supervisor c) = Some child → ch_alive child = true) → serving sv config) as Hs.
    { intros Hal. destruct (sv_child (ct_supervisor c)) as [child|] eqn:Ec; [eapply Hlive; eauto|auto]. }
    unfold request_routing. simpl. destruct (ct_netd c) as [calls|] eqn:En.
    + destruct (si_netd io) as [[]|e] eqn:Ei; simpl.
      * split_and!; try done. { by exists config. } simpl. by rewrite En.
      * split_and!; try done. right. split; [by eexists|]. split; [by exists e|]. by exists config.
    + split_and!; try done. by exists config.
  - split_and!; try done. left. split; [done|]. intros old Hs. by apply (proj1 Ha old Hs).
Qed.

(** What a switch needs: the node's configuration compiles and is printed, the swap
    of the core succeeds, and the daemon, if there is one, agrees. *)
Definition switch_succeeds (io : SwitchIo) (c : Controller) (n : CanonicalNode) : Prop :=
  (∃ config, render_config (ct_settings c) n = Ok config ∧
    swap_succeeds (si_core io) (ct_supervisor c) config) ∧
  (is_Some (ct_netd c) → si_netd io = Ok ()).

Lemma switch_node_iff io now c n automatic :
  is_ok (switch_node io now c n automatic).1 = true ↔ switch_succeeds io c n.
Proof.
  unfold switch_node, switch_succeeds. destruct (render_config (ct_settings c) n) as [config|e];
    [|by split; [|intros [(?&?&?) ?]]].
  pose proof (apply_config_iff (si_core io) (ct_supervisor c) config) as Ha.
  destruct (apply_config (si_core io) (ct_supervisor c) config) as [[[]|e] sv]; simpl in *.
  - apply proj1 in Ha. specialize (Ha eq_refl). unfold request_routing. simpl.
    destruct (ct_netd c) as [calls|]; [|split; [intros _; split; [eauto|by intros []%is_Some_None]|done]].
    destruct (si_netd io) as [[]|]; simpl; (split; [intros Hd|intros [_ Hd]]); eauto; try done.
    discriminate (Hd (ex_intro _ calls eq_refl)).
  - split; [done|]. intros [(config' & [= <-] & Hs) _]. by apply Ha in Hs.
Qed.

(** C8. A switch reports success exactly when the node's configuration compiled, the
    core's swap to it had everything it needs (file, checks, verdict, signal or
    spawn), and the daemon, if there is one, agreed.  Then the node is active, one of
    the two stamps is new, the degraded state is over, the daemon was asked for the
    routing of the settings, and the configuration the core accepted is the file and,
    unless a core that exited is still in the slot, what the core runs.  When it
    fails the session is as it was; unless the failure is the daemon's, a live core
    still runs what it ran and the daemon was not asked. *)
Theorem switch_node_spec (io : SwitchIo) (now : Z) (c : Controller) (n : CanonicalNode) (automatic : bool) :
  (is_ok (switch_node io now c n automatic).1 = true ↔ switch_succeeds io c n) ∧
  let '(r, c') := switch_node io now c n automatic in
  ct_db c' = ct_db c ∧ ct_settings c' = ct_settings c ∧
  match r with
  | Ok _ =>
      session c' = (Some n, (if automatic then Some now else ct_last_auto_switch c),
                    (if automatic then ct_last_manual_switch c else Some now), false) ∧
      (∃ config, render_config (ct_settings c) n = Ok config ∧ core_check (Some config) = Ok () ∧
        sv_file (ct_supervisor c') = Some config ∧
        ((∀ child, sv_child (ct_supervisor c) = Some child → ch_alive child = true) →
         serving (ct_supervisor c') config)) ∧
      (is_Some (ct_netd c) → si_netd io = Ok ()) ∧
      ct_netd c' = (λ calls, calls ++ [EnableRouting (routing_spec (ct_settings c))]) <$> ct_netd c
  | Err _ =>
      session c' = session c ∧
      ((ct_netd c' = ct_netd c ∧
        ∀ old, serving (ct_supervisor c) old → sv_child (ct_supervisor c') = sv_child (ct_supervisor c)) ∨
       (is_Some (ct_netd c) ∧ (∃ e, si_netd io = Err e) ∧
        ∃ config, render_config (ct_settings c) n = Ok config ∧ sv_file (ct_supervisor c') = Some config))
  end.
Proof. split; [apply switch_node_iff|apply switch_node_cases]. Qed.

(** A daemon that refuses leaves the core on the new node and the session on the
    old one. *)
Lemma netd_failure_leaves_stale_session io now c n automatic config e calls :
  render_config (ct_settings c) n = Ok config → core_check (Some config) = Ok () →
  sv_child (ct_supervisor c) = None → si_core io = io_fine → ct_netd c = Some calls →
  si_netd io = Err e →
  let '(r, c') := switch_node io now c n automatic in
  is_err r = true ∧ serving (ct_supervisor c') config ∧ ct_active_node c' = ct_active_node c.
Proof.
  intros Er Hk Hc Hio Hn He. unfold switch_node. rewrite Er, Hio.
  rewrite apply_config_fine, Hc by done. unfold request_routing. simpl. rewrite Hn, He. done.
Qed.
End Switch.

(** ** Theorems: the catalog *)

Section Importing.
Context `{IdentityHash} `{SqliteLaws} `{NodeCodec} `{ParserLib} `{YamlLib}.

Lemma foldr_max_le l d x : x ∈ l → x ≤ foldr Z.max d l.
Proof. induction l as [|y l IH]; [by intros Hx%not_elem_of_nil|]. intros [->|Hx]%elem_of_cons; simpl; [lia|]. specialize (IH Hx). lia. Qed.

Lemma next_subscription_id_fresh db i : is_Some (subscriptions db !! i) → i < next_subscription_id db.
Proof.
  intros [row Hi]. unfold next_subscription_id.
  assert (i ∈ map fst (map_to_list (subscriptions db))) as Hin.
  { apply list_elem_of_fmap. exists (i, row). split; [done|]. by apply elem_of_map_to_list. }
  destruct (map fst (map_to_list (subscriptions db))) as [|x l] eqn:E; [by apply not_elem_of_nil in Hin|].
  cbn [head from_option]. pose proof (foldr_max_le (x :: l) x i Hin). lia.
Qed.

(** An import is a new subscription: its id is above every id in use, the
    others keep their rows and links, and it is linked to exactly the nodes of
    its payload; an import that fails, an empty or junk payload included, changes
    nothing.  Either way only the database is touched. *)
Lemma import_subscription_spec (uuid : string) (now : Z) (c : Controller) (raw name url : string) :
  db_wf (ct_db c) → 0 ≤ next_subscription_id (ct_db c) →
  let '(r, c') := import_subscription uuid now c raw name url in
  let id := next_subscription_id (ct_db c) in
  match r with
  | Ok refreshed => in_u 16 id ∧ (∀ i, is_Some (subscriptions (ct_db c) !! i) → i < id) ∧
      c' = with_db c (ct_db c') ∧
      synced (ct_db c) (ct_db c')
        {| rec_id := id;
           rec_row := {| sr_uuid := uuid; sr_name := name; sr_url := url; sr_last_updated := now;
                         sr_auto_update_interval := 86400; sr_etag := None |} |}
        (hash <$> successful_nodes (rf_report refreshed)) (rf_sync refreshed) ∧
      successful_nodes (rf_report refreshed) ≠ []
  | Err _ => c' = c
  end.
Proof.
  intros Hw Hpos. unfold import_subscription.
  destruct (Z.ltb_spec U16_MAX (next_subscription_id (ct_db c))) as [Hlt|Hle]; [done|].
  rewrite wrap_small by lia. set (record := Build_SubscriptionRecord _ _).
  unfold refresh. set (report := ingest_with_timestamp _ _ _).
  pose proof (sync_subscription_synced (ct_db c) record report false Hw) as Hs.
  assert (is_ok (sync_subscription (ct_db c) record report false).1 = true →
          successful_nodes report ≠ []) as Hne.
  { unfold sync_subscription. by case_bool_decide. }
  destruct (sync_subscription (ct_db c) record report false) as [[res|e] db]; simpl in *.
  - split_and!; [unfold in_u, umax; lia|apply next_subscription_id_fresh|done|exact Hs|by apply Hne].
  - subst db. by destruct c.
Qed.
End Importing.

Section Targets.
Context `{IdentityHash} `{NodeCodec}.

(** The probe targets are the rows of the catalog in the order of the dense
    store, under the same ids, so a result can be put back by position; each node
    decoded from its payload and is certified by the hash it carries. *)
Lemma load_probe_targets_spec `{Unicode} (c : Controller) targets store :
  load_probe_targets c = Ok targets → hydrate_from_db (ct_db c) = Ok store →
  Z.of_nat (size (node_sources (ct_db c))) ≤ U32_MAX →
  map fst targets = node_ids store ∧
  ∀ id n, (id, n) ∈ targets → node_hash n = Ok (hash n) ∧
    ∃ row, nodes (ct_db c) !! id = Some row ∧ decode_node_payload (nr_payload row) = Ok n.
Proof.
  intros El Eh Hsz. unfold load_probe_targets in El. apply mapR_Ok in El.
  pose proof (hydrate_small_ids (ct_db c) store Eh) as Hids.
  assert (Forall2 (λ row t, t.1 = row.1 ∧ decode_node_payload (nr_payload row.2) = Ok t.2)
            (node_rows (ct_db c)) targets) as Ht.
  { rewrite Forall_forall in Hids. eapply Forall2_impl_in; [|exact El].
    intros [i row] t Hin E. bind_inv E as n En. injection E as <-. simpl.
    apply map_err_Ok in En. split; [|done]. apply wrap_small.
    specialize (Hids (i, row) Hin). unfold in_u, umax in Hids. simpl in Hids. lia. }
  rewrite (hydrate_ids (ct_db c) store Eh). split.
  - clear -Ht. induction Ht as [|row t l k [E _] _ IH]; simpl; [done|]. by rewrite E, IH.
  - intros id n Hin. apply list_elem_of_lookup in Hin as [k Hk].
    eapply Forall2_lookup_r in Ht as ([i row] & Hrow & E & Ed); [|exact Hk]. simpl in *. subst i.
    split; [|exists row; split; [|done]].
    + unfold decode_node_payload in Ed. bind_inv Ed as n' En. bind_inv Ed as h Eh'.
      destruct (String.eqb_spec (hash n') h); [|discriminate]. simpl in Ed. injection Ed as ->. by subst.
    + apply node_rows_elem. by eapply list_elem_of_lookup_2.
Qed.
End Targets.

(** ** Witnesses *)

#[local] Instance sample_sqlite : Sqlite :=
  {| next_rowid used := let i := 1 + foldr Z.max 0 (elements used) in
       if decide (i ∈ used) then None else Some i |}.
#[local] Instance sample_sqlite_laws : SqliteLaws.
Proof. split. simpl. intros used i E. by case_decide; simplify_eq. Qed.
#[local] Instance sample_codec : NodeCodec :=
  {| serialize_node _ := Ok "payload"%stdpp;
     deserialize_node p := if String.eqb p "payload" then Ok (sample_node 1 "DE") else bail "unexpected" |}.

(** A hash that fits the schema. *)
Definition wide_hash : IdentityHash :=
  {| bincode_serialize _ := Ok "id"%stdpp; sha256_digest _ := of_bytes (repeat "a"%char 32) |}.
Definition empty_controller : Controller :=
  controller_open Db_empty None false (ProxySettings_default None).
Definition imported : result Error SubscriptionRefresh * Controller :=
  @import_subscription wide_hash sample_codec sample_sqlite sample_lib sample_yaml_lib
    "uuid" 10 empty_controller sample_link "name" "https://example.com".

Lemma import_subscription_spec_witness :
  is_ok imported.1 = true ∧
  imported.2 = with_db empty_controller (ct_db imported.2) ∧
  size (nodes (ct_db imported.2)) = 1%nat.
Proof.
  pose proof (@import_subscription_spec wide_hash sample_sqlite sample_sqlite_laws sample_codec
    sample_lib sample_yaml_lib "uuid" 10 empty_controller sample_link "name" "https://example.com"
    (proj1 Db_empty_wf) ltac:(vm_compute; discriminate)) as Hs.
  fold imported in Hs. assert (is_ok imported.1 = true) as Hok by (vm_compute; reflexivity).
  split_and!; [exact Hok| |vm_compute; reflexivity].
  destruct imported as [[res|e] c']; [exact (proj1 (proj2 (proj2 Hs)))|discriminate Hok].
Defined.

#[local] Existing Instance sample_hash.
#[local] Instance sample_unicode : Unicode := {| to_lowercase := to_ascii_lowercase |}.
Definition stocked_controller : Controller :=
  with_db empty_controller
    {| subscriptions := ∅; nodes := {[ 3 := node_row (sample_node 1 "DE") "payload" ]};
       node_sources := ∅; node_diagnostics := ∅ |}.
Definition stocked_store : DenseNodeStore :=
  match hydrate_from_db (ct_db stocked_controller) with Ok s => s | Err _ => DenseNodeStore_empty end.

Lemma load_probe_targets_spec_witness :
  load_probe_targets stocked_controller = Ok [(3, sample_node 1 "DE")] ∧
  map fst [(3, sample_node 1 "DE")] = node_ids stocked_store.
Proof.
  assert (load_probe_targets stocked_controller = Ok [(3, sample_node 1 "DE")]) as E
    by (vm_compute; reflexivity).
  split; [exact E|].
  refine (proj1 (load_probe_targets_spec stocked_controller [(3, sample_node 1 "DE")] stocked_store E _ _));
    vm_compute; [reflexivity|discriminate].
Defined.
