(* ===== verification/Catalog.v ===== *)
(** The catalogue across sessions: what the subscriptions brought in stays usable,
    through the database file, its migration, and every operation of the controller.

    [Ingest] types a node, [Repository] writes it as a row, [Storage] keeps the rows
    in a file and opens it again, [Store] and [Controller] read them back.  The
    invariant [catalogued] joins their contracts: every row is the writing of a typed
    canonical node, so reading it back cannot fail and what is read compiles. *)

From S2P Require Import Prelude RustStr Ir Metadata Uri Clash Json Ingest Adapter Typing Repository Store Storage Supervisor Controller.

(** ** Lists of results *)

Lemma mapR_total {A B} (f : A → result Error B) (g : A → B) l :
  (∀ x, x ∈ l → f x = Ok (g x)) → mapR f l = Ok (map g l).
Proof.
  induction l as [|x l IH]; intros Hf; simpl; [done|].
  rewrite Hf by (by left). simpl. rewrite IH; [done|]. intros y Hy. apply Hf. by right.
Qed.

Lemma mapR_is_ok {A B} (f : A → result Error B) l :
  (∀ x, x ∈ l → ∃ y, f x = Ok y) → ∃ ys, mapR f l = Ok ys.
Proof.
  induction l as [|x l IH]; intros Hf; simpl; [by eexists|].
  destruct (Hf x) as [y ->]; [by left|]. destruct IH as [ys ->]; [|by eexists].
  intros z Hz. apply Hf. by right.
Qed.

(** ** The invariant *)

Section Invariant.
Context `{IdentityHash} `{NodeCodec}.

(** A row that writes a typed canonical node down. *)
Record written (r : NodeRow) (n : CanonicalNode) : Prop := {
  wr_payload : serialize_node n = Ok (nr_payload r);
  wr_row : r = node_row n (nr_payload r);
  wr_wf : node_wf n;
  wr_typed : node_typed n
}.
Definition stored_row (r : NodeRow) : Prop := ∃ n, written r n.

Record catalogued (db : Db) : Prop := {
  ca_wf : db_wf db;
  ca_orphans : no_orphans db;
  ca_rows : rows_hold stored_row (eq DiagRow_default) db;
  ca_subs i : is_Some (subscriptions db !! i) → in_u 16 i
}.

Lemma Db_empty_catalogued : catalogued Db_empty.
Proof.
  destruct Db_empty_wf. split; [done|done|split; apply map_Forall_empty|].
  intros i [r Hr]. simpl in Hr. by rewrite lookup_empty in Hr.
Qed.

Lemma catalogued_row db i r : catalogued db → nodes db !! i = Some r → stored_row r.
Proof. intros [_ _ [Hr _] _] Hi. exact (Hr i r Hi). Qed.

Context `{!NodeCodecLaws}.

(** Such a row decodes to the node it writes: the hash in the payload is its own. *)
Lemma written_decodes r n : written r n → decode_node_payload (nr_payload r) = Ok n.
Proof.
  intros [Ep _ Hw _]. unfold decode_node_payload. rewrite (codec_roundtrip n _ Ep). simpl.
  unfold node_hash, functional_identity_bytes. destruct (wf_hash n Hw) as (bs & -> & Eh). simpl.
  by rewrite Eh, String.eqb_refl.
Qed.

(** ... and hydrates, if its id is one of the 32-bit ids of the store. *)
Lemma stored_row_hydrates db i r :
  rows_hold stored_row (eq DiagRow_default) db → nodes db !! i = Some r → in_u 32 i →
  ∃ h, hydrate_row db (i, r) = Ok h.
Proof.
  intros [Hr Hd] Hi Hu. destruct (Hr i r Hi) as [n [_ -> _ _]]. unfold hydrate_row.
  rewrite (proj2 (try_from_u_Some 32 i i)) by done. cbn [ok_or result_bind nr_kind node_row].
  assert (try_from_u 8 (discriminant (kind_of (protocol n))) = Some (discriminant (kind_of (protocol n)))) as ->
    by (by destruct (protocol n)).
  destruct (node_diagnostics db !! i) as [d|] eqn:E; [rewrite <-(Hd i d E)|]; by eexists.
Qed.

(** *** What reads the catalogue *)

Lemma catalogued_hydrates `{Unicode} db :
  catalogued db → (∀ i, is_Some (nodes db !! i) → in_u 32 i) → ∃ s, hydrate_from_db db = Ok s.
Proof.
  intros Hc Hids. unfold hydrate_from_db.
  destruct (mapR_is_ok (hydrate_row db) (node_rows db)) as [rows ->].
  { intros [i r] Hin%node_rows_elem. apply stored_row_hydrates; [apply Hc|done|eauto]. }
  simpl. destruct (mapR_is_ok hydrate_source (source_rows db)) as [pairs ->]; [|by eexists].
  intros [i s] Hin%source_rows_elem. destruct (wf_sources _ (ca_wf _ Hc) _ _ Hin) as [Hi Hs].
  unfold hydrate_source. simpl. rewrite (proj2 (try_from_u_Some 32 i i)) by eauto.
  simpl. rewrite (proj2 (try_from_u_Some 16 s s)) by (split; [done|by apply (ca_subs _ Hc)]). by eexists.
Qed.

(** The targets are all the rows, each the node it writes. *)
Lemma catalogued_targets (c : Controller) :
  catalogued (ct_db c) → ∃ targets, load_probe_targets c = Ok targets ∧
    Forall2 (λ row t, t.1 = wrap 32 row.1 ∧ written row.2 t.2) (node_rows (ct_db c)) targets.
Proof.
  intros Hc. unfold load_probe_targets.
  assert (∀ row, row ∈ node_rows (ct_db c) → stored_row row.2) as Hr.
  { intros [i r] Hin%node_rows_elem. by eapply catalogued_row. }
  match goal with |- ∃ t, mapR ?f _ = _ ∧ _ => set (read := f) end.
  assert (∀ row n, written row.2 n → read row = Ok (wrap 32 row.1, n)) as Hread.
  { intros [i r] n Hn. unfold read. simpl in *. by rewrite (written_decodes r n Hn). }
  clearbody read. induction (node_rows (ct_db c)) as [|row l IH]; [by exists []|].
  destruct (Hr row) as [n Hn]; [by left|]. destruct IH as (ts & E & HF); [intros; apply Hr; by right|].
  exists ((wrap 32 row.1, n) :: ts). simpl. rewrite (Hread row n Hn). simpl. rewrite E. by split; [|constructor].
Qed.
End Invariant.

(** ** What keeps it *)

Section Writers.
Context `{IdentityHash} `{SqliteLaws} `{NodeCodecLaws} `{UrlLaws} `{YamlLib}.

(** One refresh of a subscription, whose id is a [u16]. *)
Definition refreshed (db db' : Db) : Prop :=
  ∃ r raw allow, in_u 16 (rec_id r) ∧ db' = (refresh db r raw allow).2.

Lemma ingested_row_made raw sid ts :
  Forall (row_made stored_row) (successful_nodes (ingest_with_timestamp raw sid ts)).
Proof.
  apply Forall_forall. intros n Hn payload E. exists n.
  destruct (parsed_from_ingested _ _ _ (ingested_nodes_parsed _ _ _ _ Hn)) as (Hw & _ & _).
  by split; [| |exact Hw|eapply ingested_typed].
Qed.

Lemma refresh_catalogued db r raw allow :
  in_u 16 (rec_id r) → catalogued db → catalogued (refresh db r raw allow).2.
Proof.
  intros Hid [Hw Ho Hr Hs]. unfold refresh. set (report := ingest_with_timestamp _ _ _).
  pose proof (sync_subscription_rows stored_row (eq DiagRow_default) eq_refl db r report allow
    (ingested_row_made _ _ _) Hr) as Hr'.
  pose proof (sync_subscription_synced db r report allow Hw) as Hsync.
  destruct (sync_subscription db r report allow) as [[res|e] db']; simpl in *; [|by subst].
  split; [apply Hsync|apply Hsync|done|]. intros i. rewrite (sy_subs _ _ _ _ _ Hsync), lookup_insert.
  case_decide; [by subst|apply Hs].
Qed.

Lemma refreshes_catalogued db : rtc refreshed Db_empty db → catalogued db ∧ rtc writes Db_empty db.
Proof.
  intros Hr. split.
  - eapply (rtc_preserves refreshed catalogued); [|exact Hr|apply Db_empty_catalogued].
    intros a b (r & raw & allow & Hid & ->). by apply refresh_catalogued.
  - eapply rtc_subrel; [|exact Hr]. intros a b (r & raw & allow & _ & ->).
    exists r, (ingest_with_timestamp raw (rec_id r) (sr_last_updated (rec_row r))), allow.
    unfold refresh. by destruct (sync_subscription _ _ _ _).
Qed.

(** The id of an import is positive: every id in use is. *)
Lemma next_subscription_id_pos db : catalogued db → 0 ≤ next_subscription_id db.
Proof.
  intros Hc. unfold next_subscription_id.
  assert (∀ i, i ∈ map fst (map_to_list (subscriptions db)) → 0 ≤ i) as Hi.
  { intros i Hi. change (map fst ?l) with (fst <$> l) in Hi. apply list_elem_of_fmap in Hi as ([j row] & -> & Hj%elem_of_map_to_list).
    destruct (ca_subs _ Hc j); [by eexists|]. simpl. lia. }
  destruct (map fst _) as [|x l]; [simpl; lia|]. cbn [head fmap option_fmap option_map from_option].
  pose proof (foldr_max_le (x :: l) x x ltac:(by left)). specialize (Hi x ltac:(by left)). lia.
Qed.

Lemma import_catalogued uuid now c raw name url :
  catalogued (ct_db c) → catalogued (ct_db (import_subscription uuid now c raw name url).2).
Proof.
  intros Hc. unfold import_subscription. pose proof (next_subscription_id_pos _ Hc) as Hpos.
  destruct (Z.ltb_spec U16_MAX (next_subscription_id (ct_db c))); [done|].
  set (r := Build_SubscriptionRecord _ _). pose proof (refresh_catalogued (ct_db c) r raw false) as Hr.
  destruct (refresh _ _ _ _) as [res db]. apply Hr; [|done]. simpl. rewrite wrap_small by lia.
  split; [done|]. unfold umax. simpl. lia.
Qed.
End Writers.

(** ** The sessions of a controller *)

Section Sessions.
Context `{IdentityHash} `{SqliteLaws} `{NodeCodecLaws} `{UrlLaws} `{YamlLib}.
Context `{AdapterLib} `{CoreLib} `{ControllerLib}.

(** What the window, the watchdog and the monitor do to a controller, whatever the
    system answers. *)
Inductive controller_step (c : Controller) : Controller → Prop :=
  | step_import uuid now raw name url :
      controller_step c (import_subscription uuid now c raw name url).2
  | step_switch io now n automatic : controller_step c (switch_node io now c n automatic).2
  | step_stop : controller_step c (controller_stop c).2
  | step_degrade : controller_step c (degrade_to_direct c)
  | step_settings s : controller_step c (set_settings c s)
  | step_manual now : controller_step c (note_manual_switch c now)
  | step_auto now : controller_step c (note_auto_switch c now).

Lemma controller_step_catalogued c c' :
  controller_step c c' → catalogued (ct_db c) → catalogued (ct_db c').
Proof.
  intros Hs Hc. destruct Hs; try done.
  - by apply import_catalogued.
  - pose proof (switch_node_cases io now c n automatic) as Hd. destruct (switch_node _ _ _ _ _).
    simpl. by destruct Hd as (-> & _).
Qed.

(** The widths of the settings, which are those of their Rust types. *)
Definition settings_typed (s : ProxySettings) : Prop :=
  in_u 16 (ps_tproxy_port s) ∧ in_u 32 (ps_fwmark s) ∧ local_typed (ps_local_dns s).

(** A node that is ready to be switched to: its configuration is a document of the
    grammar, and with a core that accepts it and a system that does not fail the
    switch succeeds. *)
Definition switchable (c : Controller) (n : CanonicalNode) : Prop :=
  ∃ cfg, compile_full_config n (ps_tproxy_port (ct_settings c)) (ps_fwmark (ct_settings c))
           (ps_dns_provider (ct_settings c)) (ps_local_dns (ct_settings c)) = Ok cfg ∧
    config_t (protocol n) cfg = true ∧
    ∀ text now automatic, to_vec_pretty cfg = Ok text → core_check (Some text) = Ok () →
      let '(res, c') := switch_node si_fine now c n automatic in
      is_ok res = true ∧ ct_active_node c' = Some n ∧ sv_file (ct_supervisor c') = Some text.

Lemma typed_switchable c n : settings_typed (ct_settings c) → node_typed n → switchable c n.
Proof.
  intros (Hp & Hm & Hl) Hn.
  destruct (compile_full_config_typed n _ _ (ps_dns_provider (ct_settings c)) _ Hn Hp Hm Hl) as (cfg & E & Ht).
  exists cfg. split_and!; [done|done|]. intros text now automatic Et Ek.
  assert (render_config (ct_settings c) n = Ok text) as Er by (unfold render_config; by rewrite E).
  pose proof (switch_node_cases si_fine now c n automatic) as Hc.
  assert (is_ok (switch_node si_fine now c n automatic).1 = true) as Hok.
  { unfold switch_node. rewrite Er. pose proof (f_equal fst (apply_config_fine (ct_supervisor c) text Ek)) as Ha.
    cbn [si_fine si_core]. destruct (apply_config _ _ _) as [res sv]. simpl in Ha. subst res. simpl.
    unfold request_routing. simpl. by destruct (ct_netd c). }
  destruct (switch_node si_fine now c n automatic) as [[m|e] c']; [|done].
  destruct Hc as (_ & _ & Hs & (config & Ec & _ & Hf & _) & _ & _). rewrite Er in Ec. injection Ec as <-.
  split_and!; [done| |done]. unfold session in Hs. congruence.
Qed.

Lemma opens_catalogued (legacy : bool) db :
  rtc refreshed Db_empty db →
  open_database op_fine (if legacy then legacy_file db else file_of db) = (Ok (), file_of db).
Proof.
  intros Hr. apply refreshes_catalogued in Hr as [_ Hw].
  destruct legacy; [by apply open_legacy, written_kinds|apply open_current].
Qed.
End Sessions.

(** ** Theorem *)

(** C19. What was imported stays usable.  Take the database any refreshes left, in its
    file or in the file of a version without the kind column: it opens, and after
    whatever imports, switches, failures and stops follow, the schema holds and no
    node is an orphan; the window's store can be built, if the row ids fit its 32
    bits; and the probe targets load, one for every node in the catalogue.  No payload
    is ever corrupt, and under settings within their types each target can be switched
    to: only the printer, the core, the daemon and the system are left to refuse. *)
Theorem catalogue_stays_usable `{IdentityHash} `{SqliteLaws} `{NodeCodecLaws} `{UrlLaws} `{YamlLib}
    `{AdapterLib} `{CoreLib} `{ControllerLib} `{Unicode} (db : Db) (legacy : bool) :
  rtc refreshed Db_empty db →
  let '(opened, f) := open_database op_fine (if legacy then legacy_file db else file_of db) in
  opened = Ok () ∧ db_of f = db ∧
  ∀ file netd settings c,
    rtc controller_step (controller_open (db_of f) file netd settings) c →
    db_wf (ct_db c) ∧ no_orphans (ct_db c) ∧
    ((∀ i, is_Some (nodes (ct_db c) !! i) → in_u 32 i) → is_ok (hydrate_from_db (ct_db c)) = true) ∧
    ∃ targets, load_probe_targets c = Ok targets ∧
      map fst targets = map (λ row, wrap 32 row.1) (node_rows (ct_db c)) ∧
      ∀ i n, (i, n) ∈ targets → node_wf n ∧ node_typed n ∧
        (settings_typed (ct_settings c) → switchable c n).
Proof.
  intros Hr. rewrite (opens_catalogued legacy db Hr). split_and!; [done|apply db_of_file|].
  rewrite db_of_file. intros file netd settings c Hs.
  assert (catalogued (ct_db c)) as Hc.
  { eapply (rtc_preserves controller_step (λ c, catalogued (ct_db c))); [apply controller_step_catalogued|exact Hs|].
    by apply refreshes_catalogued. }
  split_and!; [apply Hc|apply Hc|intros Hids; by destruct (catalogued_hydrates _ Hc Hids) as [s ->]|].
  destruct (catalogued_targets c Hc) as (targets & E & HF). exists targets. split_and!; [done| |].
  - symmetry. eapply Forall2_map_eq; [|apply Forall2_flip; exact HF]. by intros x y [-> _].
  - intros i n Hin. apply list_elem_of_lookup in Hin as [k Hk].
    destruct (Forall2_lookup_r _ _ _ _ _ HF Hk) as (row & _ & _ & Hn).
    split_and!; [apply Hn|apply Hn|intros Ht; apply typed_switchable; [done|apply Hn]].
Qed.

(** ** Witness *)

#[local] Existing Instances wide_hash sample_lib sample_yaml_lib Adapter.sample_printer.
#[local] Existing Instances Controller.sample_sqlite Controller.sample_sqlite_laws Controller.sample_unicode.

(** The nodes of the link as the first two subscriptions, and a codec of those. *)
Definition link_node (sid : Z) : CanonicalNode :=
  match successful_nodes (ingest_with_timestamp sample_link sid 10) with n :: _ => n | [] => alpha end.
#[local] Instance link_codec : NodeCodec :=
  {| serialize_node n := if bool_decide (n = link_node 1) then Ok "A"%stdpp
                         else if bool_decide (n = link_node 2) then Ok "B"%stdpp else bail "unexpected";
     deserialize_node p := if String.eqb p "A" then Ok (link_node 1)
                           else if String.eqb p "B" then Ok (link_node 2) else bail "unexpected" |}.
#[local] Instance link_codec_laws : NodeCodecLaws.
Proof.
  split. intros n payload. simpl. case_bool_decide; [intros [= <-]; by subst|].
  case_bool_decide; [intros [= <-]; by subst|discriminate].
Qed.
#[local] Instance link_url_laws : UrlLaws.
Proof. split. intros raw url p E Hp. cbn in E. case_match; [|done]. injection E as <-. discriminate Hp. Qed.
#[local] Instance accepting_core : CoreLib := {| core_binary := "sing-box"; core_config_path := "config.json"; core_check _ := Ok () |}.
#[local] Instance plain_printer : ControllerLib := {| to_vec_pretty _ := Ok "config"%stdpp |}.

Definition first_session : Db :=
  (refresh Db_empty {| rec_id := 1; rec_row := {| sr_uuid := "u"; sr_name := "n"; sr_url := "https://example.com";
     sr_last_updated := 10; sr_auto_update_interval := 86400; sr_etag := None |} |} sample_link false).2.
Definition second_session : Controller :=
  (import_subscription "v" 10 (controller_open first_session None false (ProxySettings_default None))
     sample_link "name" "https://example.com").2.

Lemma catalogue_stays_usable_witness :
  size (nodes first_session) = 1%nat ∧ size (subscriptions (ct_db second_session)) = 2%nat ∧
  load_probe_targets second_session = Ok [(1, link_node 1)] ∧
  switchable second_session (link_node 1).
Proof.
  split; [vm_compute; reflexivity|]. split; [vm_compute; reflexivity|].
  assert (load_probe_targets second_session = Ok [(1, link_node 1)]) as E by (vm_compute; reflexivity).
  split; [exact E|].
  assert (rtc refreshed Db_empty first_session) as Hr.
  { apply rtc_once. eexists _, sample_link, false. split; [|reflexivity]. split; vm_compute; discriminate. }
  pose proof (catalogue_stays_usable first_session true Hr) as Hc. cbv beta iota in Hc.
  rewrite (opens_catalogued true first_session Hr) in Hc. destruct Hc as (_ & _ & Hc).
  destruct (Hc None false (ProxySettings_default None) second_session) as (_ & _ & _ & targets & Et & _ & Ht).
  { apply rtc_once. rewrite db_of_file. apply step_import. }
  rewrite E in Et. injection Et as <-. apply (Ht 1); [by left|].
  split; [split; vm_compute; discriminate|]. split; [split; vm_compute; discriminate|exact I].
Defined.
