(* ===== verification/Session.v ===== *)
(** The controller under concurrent callers ([ProxyController] of
    [crates/controller/src/proxy_controller.rs]): the operations that move the
    session, cut where another thread can come between.

    [switch_node] takes the supervisor's guard after compiling and keeps it until it
    returns, so everything it does to the core, the daemon and the session happens
    under the lock.  [stop] and [degrade_to_direct] hold it for one statement only:
    the daemon is asked first and the session is cleared last, both without it.  The
    settings are read before the guard is taken; nothing in the repository changes
    them while a session lives, and nothing here does. *)

From S2P Require Import Prelude RustStr Ir Metadata Uri Json Adapter Repository Store Egress Supervisor Controller.

(** ** State *)

(** One call; the outcomes of its system calls and its clock are data. *)
Inductive SessionOp :=
| OpSwitch (io : SwitchIo) (now : Z) (node : CanonicalNode) (automatic : bool)
| OpStop
| OpDegrade.

Inductive SessionOutcome :=
| SwitchDone (r : result Error string)
| StopDone (r : result Error ())
| DegradeDone.

(** How far a call has come.  A switch: before it reads the settings, waiting for the
    guard, holding it, with the core on its configuration, with the daemon asked,
    with the node active, with the stamp set.  A way down: with the daemon asked, with
    the core stopped, with the session cleared. *)
Inductive SessionPhase :=
| Begin
| WantGuard (rendered : string)
| Guarded (rendered : string)
| Applied
| Routed
| Activated
| Stamped
| WantStop
| CoreStopped (stopped : result Error ())
| Cleared
| Finished (o : SessionOutcome).

(** The controller, the thread that holds the supervisor's guard, the calls. *)
Record SessionWorld := {
  ss_ctl : Controller; ss_guard : option nat; ss_calls : list (SessionOp * SessionPhase)
}.
Definition session_start (c : Controller) (ops : list SessionOp) : SessionWorld :=
  {| ss_ctl := c; ss_guard := None; ss_calls := (λ op, (op, Begin)) <$> ops |}.

Section Session.
Context `{AdapterLib} `{CoreLib} `{ControllerLib}.

(** ** The calls, alone *)

Definition perform (c : Controller) (op : SessionOp) : SessionOutcome * Controller :=
  match op with
  | OpSwitch io now n automatic =>
      let '(r, c) := switch_node io now c n automatic in (SwitchDone r, c)
  | OpStop => let '(r, c) := controller_stop c in (StopDone r, c)
  | OpDegrade => (DegradeDone, degrade_to_direct c)
  end.

(** Calls one after another, each with what it returned. *)
Inductive sequential : Controller → list (SessionOp * SessionOutcome) → Controller → Prop :=
| seq_nil c : sequential c [] c
| seq_snoc c l c' op o c'' :
    sequential c l c' → perform c' op = (o, c'') → sequential c (l ++ [(op, o)]) c''.

(** ** One turn of one call *)

Definition with_active (c : Controller) (n : option CanonicalNode) : Controller :=
  with_session c n (ct_last_auto_switch c) (ct_last_manual_switch c) (ct_degraded c).
Definition with_degraded (c : Controller) (b : bool) : Controller :=
  with_session c (ct_active_node c) (ct_last_auto_switch c) (ct_last_manual_switch c) b.

(** The guard must be free to leave these phases, and is the call's in those. *)
Definition waits_for_guard (p : SessionPhase) : bool :=
  match p with WantGuard _ | WantStop => true | _ => false end.
Definition in_guard (p : SessionPhase) : bool :=
  match p with Guarded _ | Applied | Routed | Activated | Stamped => true | _ => false end.

(** [switch_node] up to its next effect on what is shared. *)
Definition switch_turn (io : SwitchIo) (now : Z) (n : CanonicalNode) (automatic : bool)
    (p : SessionPhase) (c : Controller) : option (SessionPhase * Controller) :=
  match p with
  | Begin =>
    match render_config (ct_settings c) n with
    | Err e => Some (Finished (SwitchDone (Err e)), c)
    | Ok rendered => Some (WantGuard rendered, c)
    end
  | WantGuard rendered => Some (Guarded rendered, c)
  | Guarded rendered =>
    let '(applied, supervisor) := apply_config (si_core io) (ct_supervisor c) rendered in
    let c := with_supervisor c supervisor in
    match context "apply core config" applied with
    | Err e => Some (Finished (SwitchDone (Err e)), c)
    | Ok _ => Some (Applied, c)
    end
  | Applied =>
    let '(routed, c) := request_routing (si_netd io) c in
    match routed with
    | Err e => Some (Finished (SwitchDone (Err e)), c)
    | Ok _ => Some (Routed, c)
    end
  | Routed => Some (Activated, with_active c (Some n))
  | Activated => Some (Stamped, if automatic then note_auto_switch c now else note_manual_switch c now)
  | Stamped =>
    Some (Finished (SwitchDone (Ok ("switched to " +:+ label (meta n)))), with_degraded c false)
  | _ => None
  end.

(** [stop] and [degrade_to_direct], which alone sets the flag at the end. *)
Definition teardown_turn (degrade : bool) (p : SessionPhase) (c : Controller)
  : option (SessionPhase * Controller) :=
  match p with
  | Begin => Some (WantStop, with_netd_call c DisableRouting)
  | WantStop =>
    let '(stopped, supervisor) := stop (ct_supervisor c) in
    Some (CoreStopped stopped, with_supervisor c supervisor)
  | CoreStopped stopped =>
    Some (if degrade then Cleared else Finished (StopDone stopped), with_active c None)
  | Cleared => Some (Finished DegradeDone, with_degraded c true)
  | _ => None
  end.

Definition call_turn (op : SessionOp) : SessionPhase → Controller → option (SessionPhase * Controller) :=
  match op with
  | OpSwitch io now n automatic => switch_turn io now n automatic
  | OpStop => teardown_turn false
  | OpDegrade => teardown_turn true
  end.

(** The guard goes to the call that enters a guarded phase and is dropped by the one
    that leaves them. *)
Definition session_turn (w : SessionWorld) (i : nat) : option SessionWorld :=
  '(op, p) ← ss_calls w !! i;
  if waits_for_guard p && bool_decide (is_Some (ss_guard w)) then None
  else
    '(p', c) ← call_turn op p (ss_ctl w);
    Some {| ss_ctl := c;
            ss_guard := if in_guard p' then Some i else if in_guard p then None else ss_guard w;
            ss_calls := <[i := (op, p')]> (ss_calls w) |}.

Definition session_step (w w' : SessionWorld) : Prop := ∃ i, session_turn w i = Some w'.

(** The turns of a given schedule. *)
Fixpoint session_run (w : SessionWorld) (schedule : list nat) : option SessionWorld :=
  match schedule with
  | [] => Some w
  | i :: schedule => w' ← session_turn w i; session_run w' schedule
  end.

Definition returned (call : SessionOp * SessionPhase) : option (SessionOp * SessionOutcome) :=
  match call.2 with Finished o => Some (call.1, o) | _ => None end.
Definition all_returned (w : SessionWorld) : Prop := Forall (λ call, is_Some (returned call)) (ss_calls w).

(** ** Alone, the turns of a call are the call *)

Inductive drives (op : SessionOp) : SessionPhase → Controller → SessionOutcome → Controller → Prop :=
| dr_done o c : drives op (Finished o) c o c
| dr_turn p c p' c' o c'' :
    call_turn op p c = Some (p', c') → drives op p' c' o c'' → drives op p c o c''.

Lemma drives_next op p c p' c' o c'' :
  call_turn op p c = Some (p', c') → drives op p c o c'' → drives op p' c' o c''.
Proof. intros E Hd. destruct Hd as [o c|p c q d o c'' E' Hd]; [by destruct op|]. by simplify_eq. Qed.

Lemma guarded_drives io now n automatic rendered c :
  render_config (ct_settings c) n = Ok rendered →
  let op := OpSwitch io now n automatic in
  drives op (Guarded rendered) c (perform c op).1 (perform c op).2.
Proof.
  intros Er. unfold perform, switch_node. rewrite Er.
  destruct (apply_config (si_core io) (ct_supervisor c) rendered) as [applied sv] eqn:Ea.
  destruct applied as [u|e].
  2: { eapply dr_turn; [cbn; by rewrite Ea|]. constructor. }
  eapply (dr_turn _ _ _ Applied); [cbn; by rewrite Ea|].
  destruct (request_routing (si_netd io) (with_supervisor c sv)) as [routed d] eqn:Eq. cbn [context map_err].
  destruct routed as [v|e].
  2: { eapply dr_turn; [cbn; by rewrite Eq|]. constructor. }
  eapply (dr_turn _ _ _ Routed); [cbn; by rewrite Eq|].
  do 3 (eapply dr_turn; [done|]). destruct automatic; constructor.
Qed.

(** Nothing is lost by cutting: a call whose turns are not interrupted is the whole
    operation. *)
Lemma begin_drives op c : drives op Begin c (perform c op).1 (perform c op).2.
Proof.
  destruct op as [io now n automatic| |].
  - destruct (render_config (ct_settings c) n) as [rendered|e] eqn:Er.
    + eapply dr_turn; [cbn; by rewrite Er|]. eapply dr_turn; [done|]. by apply guarded_drives.
    + unfold perform, switch_node. rewrite Er. eapply dr_turn; [cbn; by rewrite Er|]. constructor.
  - do 3 (eapply dr_turn; [done|]). constructor.
  - do 4 (eapply dr_turn; [done|]). constructor.
Qed.

(** ** Invariants of every mix of calls *)

(** The phases of each call, with what they remember of the settings. *)
Definition phase_ok (s : ProxySettings) (op : SessionOp) (p : SessionPhase) : Prop :=
  match op, p with
  | _, (Begin | Finished _) => True
  | OpSwitch _ _ n _, (WantGuard rendered | Guarded rendered) => render_config s n = Ok rendered
  | OpSwitch _ _ _ _, (Applied | Routed | Activated | Stamped) => True
  | (OpStop | OpDegrade), (WantStop | CoreStopped _) => True
  | OpDegrade, Cleared => True
  | _, _ => False
  end.

Definition turns_left (p : SessionPhase) : nat :=
  match p with
  | Begin => 7 | WantGuard _ => 6 | Guarded _ => 5 | Applied => 4 | Routed => 3 | Activated => 2
  | Stamped => 1 | WantStop => 3 | CoreStopped _ => 2 | Cleared => 1 | Finished _ => 0
  end.

(** What a call does to the supervisor while it holds the guard, and whether it has. *)
Definition core_section (s : ProxySettings) (sv : Supervisor) (op : SessionOp) : Supervisor :=
  match op with
  | OpSwitch io _ n _ =>
    match render_config s n with
    | Ok rendered => (apply_config (si_core io) sv rendered).2
    | Err _ => sv
    end
  | OpStop | OpDegrade => (stop sv).2
  end.
Definition past_core (p : SessionPhase) : bool :=
  match p with Begin | WantGuard _ | Guarded _ | WantStop => false | _ => true end.
Definition sectioned (call : SessionOp * SessionPhase) : option SessionOp :=
  if past_core call.2 then Some call.1 else None.

Lemma call_turn_total s op p c :
  phase_ok s op p → returned (op, p) = None → ∃ p' c', call_turn op p c = Some (p', c').
Proof.
  intros Hp Hr. destruct op as [io now n automatic| |], p; try done; cbn; try by eexists _, _.
  - destruct (render_config _ n); by eexists _, _.
  - destruct (apply_config _ _ _) as [applied sv]. destruct (context _ applied); by eexists _, _.
  - destruct (request_routing _ c) as [[]]; by eexists _, _.
Qed.

Record turn_facts (s : ProxySettings) (op : SessionOp) (p : SessionPhase) (c : Controller)
    (p' : SessionPhase) (c' : Controller) : Prop := {
  tf_phase : phase_ok s op p';
  tf_less : (turns_left p' < turns_left p)%nat;
  tf_settings : ct_settings c' = s;
  tf_guard : in_guard p' = true → in_guard p = true ∨ waits_for_guard p = true;
  tf_stays : past_core p = true → past_core p' = true;
  tf_core : ct_supervisor c' =
    if past_core p' && negb (past_core p) then core_section s (ct_supervisor c) op else ct_supervisor c
}.

Ltac turn_fact := split; cbn; (done || lia || solve [auto]).
Lemma call_turn_facts s op p c p' c' :
  phase_ok s op p → ct_settings c = s → call_turn op p c = Some (p', c') → turn_facts s op p c p' c'.
Proof.
  intros Hp <- E. destruct op as [io now n automatic| |], p; cbn in E, Hp; try done; simplify_eq;
    try turn_fact.
  - destruct (render_config (ct_settings c) n) as [rendered|e] eqn:Er; simplify_eq;
      split; cbn; rewrite ?Er; (done || lia || solve [auto]).
  - destruct (apply_config _ _ _) as [[u|e] sv] eqn:Ea; cbn in E; simplify_eq;
      split; cbn; rewrite ?Hp, ?Ea; (done || lia || solve [auto]).
  - unfold request_routing in E. destruct (ct_netd c), (si_netd io); cbn in E; simplify_eq;
      turn_fact.
  - destruct automatic; turn_fact.
Qed.

Lemma session_turn_inv w i w' :
  session_turn w i = Some w' → ∃ op p p' c,
    ss_calls w !! i = Some (op, p) ∧ (waits_for_guard p = true → ss_guard w = None) ∧
    call_turn op p (ss_ctl w) = Some (p', c) ∧
    w' = {| ss_ctl := c;
            ss_guard := if in_guard p' then Some i else if in_guard p then None else ss_guard w;
            ss_calls := <[i := (op, p')]> (ss_calls w) |}.
Proof.
  unfold session_turn. destruct (ss_calls w !! i) as [[op p]|] eqn:Ei; [|done]. cbn.
  destruct (waits_for_guard p) eqn:Ew; cbn.
  - case_bool_decide as Hg; [done|]. apply eq_None_not_Some in Hg.
    destruct (call_turn op p (ss_ctl w)) as [[p' c]|] eqn:Ec; [|done]. cbn. intros [= <-].
    by exists op, p, p', c.
  - destruct (call_turn op p (ss_ctl w)) as [[p' c]|] eqn:Ec; [|done]. cbn. intros [= <-].
    exists op, p, p', c. split_and!; [done|congruence|done|done].
Qed.

(** Exactly the holder of the guard is in its guarded phases; the supervisor is what
    the guarded sections made of it, one after another. *)
Record session_inv (c0 : Controller) (w : SessionWorld) : Prop := {
  si_settings : ct_settings (ss_ctl w) = ct_settings c0;
  si_phases : ∀ i op p, ss_calls w !! i = Some (op, p) → phase_ok (ct_settings c0) op p;
  si_holder : ∀ i op p, ss_calls w !! i = Some (op, p) → (in_guard p = true ↔ ss_guard w = Some i);
  si_held : ∀ i, ss_guard w = Some i → is_Some (ss_calls w !! i);
  si_sections : ∃ l, l ≡ₚ omap sectioned (ss_calls w) ∧
    ct_supervisor (ss_ctl w) = foldl (core_section (ct_settings c0)) (ct_supervisor c0) l
}.

Lemma session_start_inv c0 ops : session_inv c0 (session_start c0 ops).
Proof.
  assert (∀ i op p, ss_calls (session_start c0 ops) !! i = Some (op, p) → p = Begin) as Hb.
  { intros i op p. cbn. rewrite list_lookup_fmap. destruct (ops !! i); cbn; intros E; by simplify_eq. }
  split; [done| | |done|].
  - intros i op p Hi. rewrite (Hb _ _ _ Hi). by destruct op.
  - intros i op p Hi. by rewrite (Hb _ _ _ Hi).
  - exists []. split; [|done]. cbn. clear Hb. induction ops as [|op ops IH]; cbn; [done|exact IH].
Qed.

Lemma session_step_inv c0 w w' : session_step w w' → session_inv c0 w → session_inv c0 w'.
Proof.
  intros [i E] [Hs Hp Hh Hd (l & Hl & Hsv)].
  apply session_turn_inv in E as (op & p & p' & c & Hi & Hw & Ec & ->).
  destruct (call_turn_facts _ _ _ _ _ _ (Hp _ _ _ Hi) Hs Ec) as [Fp _ Fs Fg Fc Fsv].
  assert (i < length (ss_calls w))%nat as Hlt by by eapply lookup_lt_Some.
  split; cbn; [done| | | |].
  - intros j op' q [(<- & [= <- <-] & _)|[Hne Hj]]%list_lookup_insert_Some; [done|by eapply Hp].
  - intros j op' q [(<- & [= <- <-] & _)|[Hne Hj]]%list_lookup_insert_Some.
    + destruct (in_guard p') eqn:E'; [done|]. split; [done|].
      destruct (in_guard p) eqn:E''; [done|]. intros Hg.
      destruct (Hh _ _ _ Hi) as [_ Hx]. rewrite (Hx Hg) in E''. done.
    + rewrite (Hh _ _ _ Hj). destruct (in_guard p') eqn:E'.
      * assert (ss_guard w = Some i ∨ ss_guard w = None) as [-> | ->]; [|split; congruence..].
        destruct (Fg eq_refl) as [Hg|Hg]; [left; by apply (Hh _ _ _ Hi)|right; by apply Hw].
      * destruct (in_guard p) eqn:E''; [|done].
        rewrite (proj1 (Hh _ _ _ Hi) E''). split; congruence.
  - intros j Hj. apply lookup_lt_is_Some. rewrite length_insert.
    destruct (in_guard p'); [congruence|]. destruct (in_guard p); [done|].
    by apply lookup_lt_is_Some, Hd.
  - rewrite Fsv. destruct (past_core p') eqn:E'; cbn.
    + destruct (past_core p) eqn:E''; cbn.
      * exists l. split; [|done]. rewrite (omap_insert_same _ _ _ (op, p)); [done|done|].
        unfold sectioned. cbn. by rewrite E', E''.
      * exists (l ++ [op]). rewrite foldl_app. cbn. rewrite <-Hsv. split; [|done].
        rewrite (omap_insert_new _ _ _ (op, p) _ op); [rewrite Hl; symmetry; apply Permutation_cons_append|done| |];
          unfold sectioned; cbn; by rewrite ?E', ?E''.
    + destruct (past_core p) eqn:E''; [specialize (Fc eq_refl); congruence|].
      exists l. split; [|done]. rewrite (omap_insert_same _ _ _ (op, p)); [done|done|].
      unfold sectioned. cbn. by rewrite E', E''.
Qed.

Lemma session_reachable c0 ops w : rtc session_step (session_start c0 ops) w → session_inv c0 w.
Proof. intros Hr. eapply (rtc_preserves _ (session_inv c0) (session_step_inv c0)); [exact Hr|apply session_start_inv]. Qed.
(** ** Every run ends *)

Definition session_turns (w : SessionWorld) : nat :=
  sum_list_with (λ call : SessionOp * SessionPhase, turns_left call.2) (ss_calls w).

(** A turn of a world the invariant holds in. *)
Lemma session_step_turns c0 w w' :
  session_inv c0 w → session_step w w' → (session_turns w' < session_turns w)%nat.
Proof.
  intros [Hs Hp _ _ _] [i E]. apply session_turn_inv in E as (op & p & p' & c & Hi & _ & Ec & ->).
  destruct (call_turn_facts _ _ _ _ _ _ (Hp _ _ _ Hi) Hs Ec) as [_ Hlt _ _ _ _].
  pose proof (sum_insert (λ call : SessionOp * SessionPhase, turns_left call.2) _ _ _ (op, p') Hi) as Hx.
  unfold session_turns. cbn in *. lia.
Qed.

Lemma session_runs_are_short c0 k w w' :
  nsteps session_step k w w' → session_inv c0 w → (k + session_turns w' ≤ session_turns w)%nat.
Proof.
  induction 1 as [|k x y z Hs _ IH]; intros Hi; [lia|].
  pose proof (session_step_turns c0 x y Hi Hs). specialize (IH (session_step_inv c0 x y Hs Hi)). lia.
Qed.

Lemma session_start_turns c0 ops : session_turns (session_start c0 ops) = (7 * length ops)%nat.
Proof. unfold session_turns. cbn. induction ops as [|op ops IH]; cbn in *; [done|lia]. Qed.

Lemma session_turn_goes c0 w i op p :
  session_inv c0 w → ss_calls w !! i = Some (op, p) → returned (op, p) = None →
  (waits_for_guard p = true → ss_guard w = None) → ∃ w', session_step w w'.
Proof.
  intros [_ Hp _ _ _] Hi Hr Hw. destruct (call_turn_total _ _ _ (ss_ctl w) (Hp _ _ _ Hi) Hr) as (p' & c & Ec).
  assert (waits_for_guard p && bool_decide (is_Some (ss_guard w)) = false) as Hfree.
  { destruct (waits_for_guard p); [|done]. by rewrite Hw. }
  eexists. exists i. unfold session_turn. rewrite Hi. cbn. by rewrite Hfree, Ec.
Qed.

(** No deadlock: the holder of the guard never waits, and without a holder nobody
    does. *)
Lemma session_progress c0 w : session_inv c0 w → all_returned w ∨ ∃ w', session_step w w'.
Proof.
  intros Hi. destruct (ss_guard w) as [i|] eqn:Eg.
  - right. destruct (si_held _ _ Hi i Eg) as [[op p] Hc].
    assert (in_guard p = true) as Hp by by apply (si_holder _ _ Hi _ _ _ Hc).
    eapply session_turn_goes; [done|done|by destruct p|by destruct p].
  - destruct (decide (all_returned w)) as [Ha|Ha]; [by left|right].
    unfold all_returned in Ha. apply not_Forall_Exists in Ha; [|apply _].
    apply Exists_exists in Ha as ([op p] & [i Hc]%list_elem_of_lookup & Hn).
    apply eq_None_not_Some in Hn. by eapply session_turn_goes.
Qed.

(** ** Switches only *)

Definition is_switch (op : SessionOp) : bool := match op with OpSwitch _ _ _ _ => true | _ => false end.

Lemma perform_settings c op : ct_settings (perform c op).2 = ct_settings c.
Proof.
  destruct op as [io now n automatic| |]; cbn; [|done..].
  pose proof (switch_node_cases io now c n automatic) as Hs.
  destruct (switch_node io now c n automatic). by destruct Hs as (_ & Hs & _).
Qed.

Lemma sequential_settings c l c' : sequential c l c' → ct_settings c' = ct_settings c.
Proof.
  induction 1 as [|d l d' op o d'' _ IH E]; [done|]. pose proof (perform_settings d' op) as Hs.
  rewrite E in Hs. cbn in Hs. congruence.
Qed.

(** The finished calls in some order led to the controller, or to the one from which
    the holder of the guard is on its way. *)
Definition linear (c0 : Controller) (w : SessionWorld) : Prop := ∃ l c,
  l ≡ₚ omap returned (ss_calls w) ∧ sequential c0 l c ∧
  match ss_guard w with
  | None => ss_ctl w = c
  | Some i => ∃ op p o c', ss_calls w !! i = Some (op, p) ∧ perform c op = (o, c') ∧
                           drives op p (ss_ctl w) o c'
  end.

Lemma switch_turn_cases op p c p' c' :
  is_switch op = true → call_turn op p c = Some (p', c') →
  (in_guard p = true ∧ (in_guard p' = true ∨ ∃ o, p' = Finished o)) ∨
  (∃ rendered, p = WantGuard rendered ∧ p' = Guarded rendered ∧ c' = c) ∨
  (p = Begin ∧ c' = c ∧
   ((∃ rendered, p' = WantGuard rendered) ∨
    ∃ o, p' = Finished o ∧ ∀ d, ct_settings d = ct_settings c → perform d op = (o, d))).
Proof.
  destruct op as [io now n automatic| |]; [|done..]. intros _ E. destruct p; cbn in E; try done.
  - right. right. destruct (render_config (ct_settings c) n) as [rendered|e] eqn:Er; simplify_eq;
      split_and!; eauto. right. eexists. split; [done|]. intros d Ed. cbn. unfold switch_node. by rewrite Ed, Er.
  - simplify_eq. eauto 10.
  - left. split; [done|]. destruct (apply_config _ _ _) as [[] sv]; cbn in E; simplify_eq; eauto.
  - left. split; [done|]. destruct (request_routing _ c) as [[] d]; simplify_eq; eauto.
  - simplify_eq. eauto.
  - simplify_eq. eauto.
  - simplify_eq. eauto.
Qed.

Lemma linear_step c0 w w' :
  Forall (λ call, is_switch call.1 = true) (ss_calls w) → session_inv c0 w →
  session_step w w' → linear c0 w → linear c0 w'.
Proof.
  intros Hops [Hs Hp Hh _ _] [i E] (l & c & Hl & Hseq & Hc).
  apply session_turn_inv in E as (op & p & p' & d & Hi & Hw & Ec & ->).
  assert (is_switch op = true) as Hop by (eapply (Forall_lookup_1 _ _ _ _ Hops Hi)).
  unfold linear. cbn. assert (i < length (ss_calls w))%nat as Hlt by by eapply lookup_lt_Some.
  destruct (switch_turn_cases _ _ _ _ _ Hop Ec) as
    [[Hg Hp']|[(rendered & -> & -> & ->)|(-> & -> & Hp')]].
  - pose proof (proj1 (Hh _ _ _ Hi) Hg) as Eg. rewrite Eg in Hc.
    destruct Hc as (op' & q & o & c' & Hi' & Epf & Hd). rewrite Hi in Hi'. simplify_eq.
    pose proof (drives_next _ _ _ _ _ _ _ Ec Hd) as Hd'. destruct Hp' as [Hp'|[o' ->]].
    + rewrite Hp'. exists l, c. split_and!; [|done|].
      * rewrite (omap_insert_same _ _ _ (op', q)); [done|done|]. by destruct p', q.
      * exists op', p', o, c'. by rewrite list_lookup_insert_eq.
    + inversion Hd' as [o1 c1|p1 c1 p2 c2 o2 c3 E2 _]; subst; [|by destruct op'].
      cbn. rewrite Hg. exists (l ++ [(op', o)]), c'. split_and!; [|by eapply seq_snoc|done].
      rewrite (omap_insert_new _ _ _ (op', q) _ (op', o)); [|done|by destruct q|done].
      rewrite Hl. symmetry. apply Permutation_cons_append.
  - pose proof (Hw eq_refl) as Eg. rewrite Eg in Hc. subst c. exists l, (ss_ctl w). split_and!; [|done|].
    + by rewrite (omap_insert_same _ _ _ (op, WantGuard rendered)).
    + cbn. exists op, (Guarded rendered), (perform (ss_ctl w) op).1, (perform (ss_ctl w) op).2.
      rewrite list_lookup_insert_eq by done. split_and!; [done|by destruct (perform _ _)|].
      specialize (Hp _ _ _ Hi). destruct op as [io now n automatic| |]; [|done..]. cbn in Hp.
      apply guarded_drives. by rewrite Hs.
  - assert (ss_guard w ≠ Some i) as Hne by (intros Eg; by apply (Hh _ _ _ Hi) in Eg).
    assert (∀ q, match ss_guard w with
            | Some j => ∃ op' q' o c', <[i:=q]> (ss_calls w) !! j = Some (op', q') ∧
                perform c op' = (o, c') ∧ drives op' q' (ss_ctl w) o c'
            | None => ss_ctl w = c end) as Hc'.
    { intros q. destruct (ss_guard w) as [j|]; [|done]. rewrite list_lookup_insert_ne by congruence. done. }
    destruct Hp' as [[rendered ->]|(o & -> & Ho)]; cbn.
    + exists l, c. split_and!; [|done|apply Hc']. by rewrite (omap_insert_same _ _ _ (op, Begin)).
    + exists (l ++ [(op, o)]), c. split_and!; [| |apply Hc'].
      * rewrite (omap_insert_new _ _ _ (op, Begin) _ (op, o)); [|done..].
        rewrite Hl. symmetry. apply Permutation_cons_append.
      * eapply seq_snoc; [done|]. apply Ho. rewrite Hs. by eapply sequential_settings.
Qed.

Lemma session_ops w w' : session_step w w' → (ss_calls w').*1 = (ss_calls w).*1.
Proof.
  intros [i E]. apply session_turn_inv in E as (op & p & p' & d & Hi & _ & _ & ->). cbn.
  rewrite list_fmap_insert. apply list_insert_id. by rewrite list_lookup_fmap, Hi.
Qed.
Lemma session_ops_kept c0 ops w : rtc session_step (session_start c0 ops) w → (ss_calls w).*1 = ops.
Proof.
  intros Hr. eapply (rtc_preserves _ (λ w, (ss_calls w).*1 = ops)); [|exact Hr|].
  - intros x y Hs <-. by apply session_ops.
  - cbn. clear. induction ops as [|op ops IH]; cbn; [done|]. by f_equal.
Qed.

Lemma linear_reachable c0 ops w :
  Forall (λ op, is_switch op = true) ops → rtc session_step (session_start c0 ops) w → linear c0 w.
Proof.
  intros Hops Hr.
  assert (∀ w, (ss_calls w).*1 = ops → Forall (λ call, is_switch call.1 = true) (ss_calls w)) as Hf.
  { intros x <-. by apply Forall_fmap in Hops. }
  eapply (rtc_preserves _ (λ w, (ss_calls w).*1 = ops ∧ session_inv c0 w ∧ linear c0 w)); [|exact Hr|].
  - intros x y Hs (Ho & Hi & Hl). split_and!; [by rewrite (session_ops x y)|by eapply session_step_inv|].
    eapply linear_step; eauto.
  - split_and!; [by apply (session_ops_kept c0 ops)|apply session_start_inv|].
    exists [], c0. split_and!; [|constructor|done]. cbn. clear. induction ops as [|op ops IH]; cbn; [done|exact IH].
Qed.
(** ** Coherence *)

(** The session and the core agree: the active node's configuration is what the core
    runs, and without an active node there is no core. *)
Definition coherent (c : Controller) : Prop :=
  match ct_active_node c with
  | Some n => ∃ config, render_config (ct_settings c) n = Ok config ∧ serving (ct_supervisor c) config
  | None => sv_child (ct_supervisor c) = None
  end.
(** The daemon agrees, and a rejected configuration can be rolled back. *)
Definition agreeable (op : SessionOp) : Prop :=
  match op with
  | OpSwitch io _ _ _ => si_netd io = Ok () ∧ rolls_back (si_core io)
  | OpStop | OpDegrade => True
  end.

Lemma coherent_alive c child :
  coherent c → sv_child (ct_supervisor c) = Some child → ch_alive child = true.
Proof.
  unfold coherent, serving. destruct (ct_active_node c); [|congruence].
  intros (config & _ & _ & Hc) E. rewrite Hc in E. by simplify_eq.
Qed.

(** A refused swap leaves the supervisor coherent with the old session. *)
Lemma failed_swap io s config e s' :
  apply_config io s config = (Err e, s') → rolls_back io →
  (∀ old, serving s old → serving s' old) ∧ (sv_child s = None → sv_child s' = None).
Proof.
  intros E Hr. pose proof (apply_config_cases io s config) as Hc. rewrite E in Hc.
  destruct Hc as [Hs Hn]. split; [|done]. intros old Ho. by apply (Hs old Ho).
Qed.

Lemma perform_coherent c op : agreeable op → coherent c → coherent (perform c op).2.
Proof.
  destruct op as [io now n automatic| |]; [|done..]. intros [Hn Hr] Hc. cbn. unfold switch_node.
  destruct (render_config (ct_settings c) n) as [config|e] eqn:Er; [|done].
  pose proof (apply_config_cases (si_core io) (ct_supervisor c) config) as Ha.
  destruct (apply_config (si_core io) (ct_supervisor c) config) as [[u|e] sv] eqn:Ea; cbn.
  - destruct Ha as (_ & _ & Hlive & Hcold). unfold request_routing. cbn.
    assert (serving sv config) as Hs.
    { destruct (sv_child (ct_supervisor c)) as [child|] eqn:Ech; [|auto].
      eapply Hlive; [done|]. by eapply coherent_alive. }
    destruct (ct_netd c); rewrite ?Hn; cbn; exists config; by split.
  - destruct (failed_swap _ _ _ _ _ Ea Hr) as [Hs Hnone]. unfold coherent in *. cbn.
    destruct (ct_active_node c); [|auto]. destruct Hc as (old & Eo & Ho). exists old. auto.
Qed.

Lemma sequential_coherent c l c' :
  sequential c l c' → Forall agreeable l.*1 → coherent c → coherent c'.
Proof.
  induction 1 as [|d l d' op o d'' _ IH E]; [done|]. rewrite fmap_app, Forall_app.
  intros [Hl Ho%Forall_inv] Hc. pose proof (perform_coherent d' op Ho (IH Hl Hc)) as Hp.
  by rewrite E in Hp.
Qed.

(** ** Theorem *)

Lemma all_returned_ops calls :
  Forall (λ call, is_Some (returned call)) calls → (omap returned calls).*1 = calls.*1.
Proof.
  induction 1 as [|[op p] calls [o Ho] _ IH]; [done|]. destruct p; try discriminate Ho.
  cbn. by f_equal.
Qed.
Lemma all_returned_sections calls :
  Forall (λ call, is_Some (returned call)) calls → omap sectioned calls = calls.*1.
Proof.
  induction 1 as [|[op p] calls [o Ho] _ IH]; [done|]. destruct p; try discriminate Ho.
  cbn. by f_equal.
Qed.

Lemma returned_guard_free c0 w : session_inv c0 w → all_returned w → ss_guard w = None.
Proof.
  intros Hi Ha. destruct (ss_guard w) as [i|] eqn:Eg; [|done].
  destruct (si_held _ _ Hi i Eg) as [[op p] Hc]. destruct (Forall_lookup_1 _ _ _ _ Ha Hc) as [o Ho].
  apply (si_holder _ _ Hi _ _ _ Hc) in Eg. by destruct p.
Qed.

End Session.

(** ** Where the order is lost *)

Section Races.
Context `{AdapterLib} `{CoreLib} `{ControllerLib}.

Lemma session_run_steps w schedule w' : session_run w schedule = Some w' → rtc session_step w w'.
Proof.
  revert w. induction schedule as [|i schedule IH]; intros w E; cbn in E; [by simplify_eq|].
  destruct (session_turn w i) as [x|] eqn:Et; [|done]. eapply rtc_l; [by exists i|by apply IH].
Qed.

Lemma fine_swap s config :
  core_check (Some config) = Ok () → (∀ child, sv_child s = Some child → ch_alive child = true) →
  apply_config io_fine s config =
  (Ok (), {| sv_file := Some config; sv_child := Some {| ch_alive := true; ch_loaded := config |} |}).
Proof.
  intros Hk Hal. rewrite apply_config_fine by done. unfold sighup.
  destruct (sv_child s) as [child|]; [by rewrite (Hal child)|done].
Qed.

Variables (c : Controller) (n : CanonicalNode) (now : Z) (automatic : bool) (config : string)
  (calls : list NetdCall).
Hypothesis renders : render_config (ct_settings c) n = Ok config.
Hypothesis accepted : core_check (Some config) = Ok ().
Hypothesis alive : ∀ child, sv_child (ct_supervisor c) = Some child → ch_alive child = true.
Hypothesis daemon : ct_netd c = Some calls.

Let switching := OpSwitch si_fine now n automatic.
Let switched : SessionOutcome := SwitchDone (Ok ("switched to " +:+ label (meta n))).

#[local] Arguments apply_config : simpl never.

Lemma switch_alone d :
  ct_settings d = ct_settings c → (∀ child, sv_child (ct_supervisor d) = Some child → ch_alive child = true) →
  perform d switching =
  (switched, with_session (request_routing (Ok ()) (with_supervisor d
     {| sv_file := Some config; sv_child := Some {| ch_alive := true; ch_loaded := config |} |})).2 (Some n)
     (if automatic then Some now else ct_last_auto_switch d)
     (if automatic then ct_last_manual_switch d else Some now) false).
Proof.
  intros Es Hal. cbn. unfold switch_node. rewrite Es, renders. cbn. rewrite (fine_swap _ _ accepted Hal). cbn.
  unfold request_routing. cbn. by destruct (ct_netd d).
Qed.

(** A disconnect that asks the daemon before a switch does, and takes the core down
    after it: both report success, nothing runs, and the daemon was last asked to
    intercept.  One after the other, it was asked to stop last or the node is active. *)
Lemma stop_overtaken_by_switch :
  (∃ w, rtc session_step (session_start c [switching; OpStop]) w ∧
    ss_calls w = [(switching, Finished switched); (OpStop, Finished (StopDone (Ok ())))] ∧
    sv_child (ct_supervisor (ss_ctl w)) = None ∧ ct_active_node (ss_ctl w) = None ∧
    ct_netd (ss_ctl w) = Some (calls ++ [DisableRouting; EnableRouting (routing_spec (ct_settings c))])) ∧
  ct_netd (perform (perform c switching).2 OpStop).2 =
    Some (calls ++ [EnableRouting (routing_spec (ct_settings c)); DisableRouting]) ∧
  ct_active_node (perform (perform c OpStop).2 switching).2 = Some n.
Proof.
  split_and!.
  - destruct automatic; (eexists; split; [apply (session_run_steps _ [0; 0; 0; 1; 0; 0; 0; 0; 1; 1]%nat)|]).
    1, 3: cbn; rewrite renders; cbn; rewrite (fine_swap _ _ accepted alive); cbn;
      unfold request_routing; cbn; rewrite daemon; reflexivity.
    all: split_and!; try done; simpl; rewrite daemon; simpl; by rewrite <-app_assoc.
  - rewrite (switch_alone c eq_refl alive). unfold request_routing. simpl. rewrite daemon. simpl.
    rewrite daemon. simpl. by rewrite <-app_assoc.
  - by rewrite (switch_alone (perform c OpStop).2).
Qed.

(** A degradation that takes the core down before a switch brings it up, and clears
    the session after it: the node serves everything while the controller says that
    nothing is active and that it has degraded to direct. *)
Lemma degrade_overtakes_switch :
  (∃ w, rtc session_step (session_start c [switching; OpDegrade]) w ∧
    ss_calls w = [(switching, Finished switched); (OpDegrade, Finished DegradeDone)] ∧
    serving (ct_supervisor (ss_ctl w)) config ∧ ct_active_node (ss_ctl w) = None ∧
    ct_degraded (ss_ctl w) = true ∧ ¬ coherent (ss_ctl w)).
Proof.
  destruct automatic; (eexists; split; [apply (session_run_steps _ [1; 1; 0; 0; 0; 0; 0; 0; 0; 1; 1]%nat)|]).
  1, 3: cbn; rewrite renders; cbn; rewrite (fine_swap _ _ accepted) by done; cbn;
    unfold request_routing; cbn; rewrite daemon; reflexivity.
  all: by split_and!.
Qed.
End Races.

(** ** Witness *)

#[local] Existing Instances sample_hash Adapter.sample_printer.
#[local] Instance sample_core : CoreLib :=
  {| core_binary := "sing-box"; core_config_path := "config.json"; core_check _ := Ok () |}.
#[local] Instance sample_controller_lib : ControllerLib := {| to_vec_pretty _ := Ok "config"%stdpp |}.

Definition two_switches : list SessionOp :=
  [OpSwitch si_fine 5 (sample_node 1 "Bonn") false; OpSwitch si_fine 6 (sample_node 2 "Ulm") true].
Definition connected : Controller := controller_open Db_empty None true (ProxySettings_default None).
(** The second call overtakes the first between its compilation and the guard. *)
Definition crossed : option SessionWorld :=
  session_run (session_start connected two_switches) [0; 1; 1; 1; 1; 1; 1; 1; 0; 0; 0; 0; 0; 0]%nat.

