(* ===== verification/Testbed.v ===== *)
(** The egress testbed ([crates/adapter/src/egress.rs], and the commands of
    [crates/adapter/src/lib.rs] that run the core's binary): validating a
    configuration, booting a core on it, waiting for its listener, and the trials
    that run over it and take it down again.

    The operating system is a file store and the table of the processes spawned so
    far, each with its program, its arguments and what the file they name held when
    it was spawned.  The faults of the system calls, the life of a core, the clock
    and what answers at an address are data; times are nanoseconds from the start of
    the wait. *)

From S2P Require Import Prelude RustStr Ir Json Adapter Egress Score Supervisor Controller.

(** Running a binary's [check] on a file: nothing when it accepts, its standard error
    when it does not. *)
Class SingBox := { check_stderr (binary content : string) : option string }.

Class TestbedLib := {
  to_vec : Value → result Error string;        (** [serde_json::to_vec] *)
  temp_dir : string;                           (** [std::env::temp_dir] *)
  process_id : Z;
  path_debug : string → string                 (** [{:?}] of a path *)
}.

(** ** The operating system *)

Inductive ChildState := Running | Reaped.
#[export] Instance ChildState_eq_dec : EqDecision ChildState.
Proof. solve_decision. Defined.
(** [ps_config] is what the file of the arguments held when the process was spawned. *)
Record Process := {
  ps_program : string; ps_args : list string; ps_config : option string; ps_state : ChildState
}.
Definition reap (p : Process) : Process :=
  {| ps_program := ps_program p; ps_args := ps_args p; ps_config := ps_config p; ps_state := Reaped |}.
Record Os := { os_files : gmap string string; os_children : list Process }.

(** Creating (and truncating) a file and writing all of its contents. *)
Definition write_file (fault : option WriteFault) (path content : string) (fs : gmap string string)
  : result Error () * gmap string string :=
  match fault with
  | None => (Ok (), <[path := content]> fs)
  | Some (CannotCreate msg) => (Err [msg], fs)
  | Some (CutShort n msg) => (Err [msg], <[path := of_bytes (take n (bytes content))]> fs)
  end.

Definition fault (o : option string) : result Error () :=
  match o with Some msg => Err [msg] | None => Ok () end.

(** ** lib.rs: the core's commands *)

(** The outcome of [sing-box version]: it cannot be run, or its success and its
    standard output. *)
Definition probe_capabilities (binary : string) (output : result Error (bool * string))
  : result Error CoreCapabilities :=
  '(success, stdout) ← context ("failed to run `" +:+ binary +:+ " version`") output;
  if negb success then bail "sing-box failed to report its version" else
  Ok {| core_name := "sing-box";
        core_version := default "unknown" (head (lines (from_utf8_lossy stdout)));
        core_supported := [CapVless; CapVlessReality; CapVmess; CapTrojan; CapShadowsocks;
                           CapHysteria2; CapTuic; CapWireGuard; CapWebSocket; CapGrpc;
                           CapHttpUpgrade; CapXHttp; CapMultiplexing] |}.

Record ValidateIo := {
  vi_dir : option string; vi_file : option WriteFault; vi_run : option string
}.
Definition vi_fine : ValidateIo := {| vi_dir := None; vi_file := None; vi_run := None |}.

Section Testbed.
Context `{AdapterLib} `{EgressLib} `{ControllerLib} `{SingBox} `{TestbedLib}.

(** Every validation writes the same file. *)
Definition adapter_config_path : string := temp_dir +:+ "/myproxy-adapter/config.json".

Definition check_verdict (binary content : string) : result Error () :=
  match check_stderr binary content with
  | None => Ok ()
  | Some stderr => bail ("sing-box rejected the config: " +:+ trim (from_utf8_lossy stderr))
  end.

Definition SingboxAdapter_validate_config (io : ValidateIo) (binary config_json : string) (fs : gmap string string)
  : result Error () * gmap string string :=
  match fault (vi_dir io) with
  | Err e => (Err e, fs)
  | Ok _ =>
    let '(written, fs) := write_file (vi_file io) adapter_config_path config_json fs in
    (_ ← written;
     _ ← context ("failed to run `" +:+ binary +:+ " check -c " +:+ path_debug adapter_config_path +:+ "`")
           (fault (vi_run io));
     check_verdict binary (default EmptyString (fs !! adapter_config_path)), fs)
  end.

(** ** Waiting for the listener *)

(** The life of a core: when it exits, if ever, how its status prints, and what it
    has written to its standard error by then. *)
Record Core := { co_exit : option Z; co_status : string; co_stderr : string }.

(** One turn of the wait: whether the dial was accepted, an error of [try_wait], and
    the times of [try_wait] and of the look at the clock. *)
Record Turn := { tn_connect : bool; tn_wait : option string; tn_poll : Z; tn_now : Z }.

Definition exited_by (c : Core) (now : Z) : bool :=
  match co_exit c with Some t => t <=? now | None => false end.

(** [read_to_string] leaves the buffer alone when the bytes are not UTF-8. *)
Definition take_stderr (c : Core) : string :=
  let stderr := match from_utf8 (co_stderr c) with Ok s => s | Err _ => EmptyString end in
  if bool_decide (stderr = EmptyString) then "no stderr captured" else stderr.

(** Reading the standard error of a core goes on until the core has exited: a core
    that never does is read for ever. *)
Inductive Wait := Ready | WaitFailed (e : Error) | ReadsForever.

(** What a turn decides; nothing when the loop goes on after its sleep. *)
Definition wait_turn (deadline : Z) (c : Core) (t : Turn) : option Wait :=
  if tn_connect t then Some Ready else
  match tn_wait t with
  | Some msg => Some (WaitFailed [msg])
  | None =>
    if exited_by c (tn_poll t)
    then Some (WaitFailed ["sing-box testbed exited " +:+ co_status c +:+ ": " +:+ trim (take_stderr c)]%stdpp)
    else if deadline <? tn_now t
    then Some (match co_exit c with
               | Some _ => WaitFailed ["sing-box testbed never opened the listener: "
                                       +:+ trim (take_stderr c)]%stdpp
               | None => ReadsForever
               end)
    else None
  end.

(** [fuel] turns from the [i]-th. *)
Fixpoint wait_loop (fuel i : nat) (deadline : Z) (c : Core) (turns : nat → Turn) : option Wait :=
  match fuel with
  | O => None
  | S fuel =>
    match wait_turn deadline c (turns i) with
    | Some w => Some w
    | None => wait_loop fuel (S i) deadline c turns
    end
  end.

Definition WAIT_POLL : Z := 100 * MILLI.
(** One turn per sleep that fits in the timeout, and two more. *)
Definition wait_fuel (timeout : Z) : nat := 2 + Z.to_nat (timeout / WAIT_POLL).
Definition wait_until_ready (timeout : Z) (c : Core) (turns : nat → Turn) : option Wait :=
  wait_loop (wait_fuel timeout) 0 timeout c turns.

(** ** Booting *)

Inductive TrialOutcome (A : Type) := Returns (r : result Error A) | Panics | Hangs.
Arguments Returns {A} r.
Arguments Panics {A}.
Arguments Hangs {A}.

Record Testbed := { tb_child : nat; tb_port : Z }.

Record BootIo := {
  bo_validate : ValidateIo;
  bo_dir : option string; bo_file : option WriteFault; bo_spawn : option string;
  bo_core : Core; bo_turns : nat → Turn
}.

Definition testbed_path (port : Z) : string :=
  temp_dir +:+ "/myproxy-testbed-" +:+ show_Z process_id +:+ "/" +:+ show_Z port +:+ ".json".

Definition testbed_addr (tb : Testbed) : string := "127.0.0.1:" +:+ show_Z (tb_port tb).

(** [Drop]: the child is killed and waited for. *)
Definition drop_testbed (tb : Testbed) (os : Os) : Os :=
  {| os_files := os_files os; os_children := alter reap (tb_child tb) (os_children os) |}.
(** [Command::new(binary).args(["run", "-c"]).arg(&config_path)], spawned. *)
Definition spawn_child (binary config_path : string) (os : Os) : Os :=
  {| os_files := os_files os;
     os_children := os_children os ++
       [{| ps_program := binary; ps_args := ["run"; "-c"; config_path]%stdpp;
           ps_config := os_files os !! config_path; ps_state := Running |}] |}.
Definition with_files (fs : gmap string string) (os : Os) : Os :=
  {| os_files := fs; os_children := os_children os |}.

(** The files up to the [spawn]: the validation, then the file of the testbed. *)
Definition prepare_config (io : BootIo) (binary : string) (config : Value) (port : Z)
    (fs : gmap string string) : result Error () * gmap string string :=
  match to_vec config with
  | Err e => (Err e, fs)
  | Ok compact =>
    let '(checked, fs) := SingboxAdapter_validate_config (bo_validate io) binary compact fs in
    match (_ ← context ("testbed config rejected by " +:+ binary) checked;
           _ ← fault (bo_dir io);
           to_vec_pretty config) with
    | Err e => (Err e, fs)
    | Ok pretty => write_file (bo_file io) (testbed_path port) pretty fs
    end
  end.

Definition spawn_with_config (io : BootIo) (binary : string) (config : Value) (port : Z) (os : Os)
  : TrialOutcome Testbed * Os :=
  let '(prepared, fs) := prepare_config io binary config port (os_files os) in
  let os := with_files fs os in
  match (_ ← prepared;
         context ("could not launch sing-box; is " +:+ binary +:+ " a valid binary?")
           (fault (bo_spawn io))) with
  | Err e => (Returns (Err e), os)
  | Ok _ =>
    let testbed := {| tb_child := length (os_children os); tb_port := port |} in
    let os := spawn_child binary (testbed_path port) os in
    match wait_until_ready (10 * SECOND) (bo_core io) (bo_turns io) with
    | Some Ready => (Returns (Ok testbed), os)
    | Some (WaitFailed e) => (Returns (Err e), drop_testbed testbed os)
    | Some ReadsForever | None => (Hangs, os)
    end
  end.

Definition spawn (io : BootIo) (binary : string) (n : CanonicalNode) (port : Z) (os : Os)
  : TrialOutcome Testbed * Os :=
  match compile_testbed_config n port with
  | Err e => (Returns (Err e), os)
  | Ok config => spawn_with_config io binary config port os
  end.
Definition spawn_direct (io : BootIo) (binary : string) (port : Z) (os : Os) : TrialOutcome Testbed * Os :=
  spawn_with_config io binary (compile_direct_testbed_config port) port os.

(** ** Trials *)

(** Runs something over a testbed and drops it. *)
Definition over_testbed {A} (boot : TrialOutcome Testbed * Os) (run : Testbed → TrialOutcome A) : TrialOutcome A * Os :=
  match boot with
  | (Returns (Ok tb), os) => (run tb, drop_testbed tb os)
  | (Returns (Err e), os) => (Returns (Err e), os)
  | (Panics, os) => (Panics, os)
  | (Hangs, os) => (Hangs, os)
  end.

(** What the dials of a scatter see, by the address of the proxy they go through and
    the index of their target. *)
Definition Dials : Type := string → nat → Dial.

(** The scatter through a proxy, the checks arriving in the order [sent] of the
    workers' messages. *)
Definition scatter_over_testbed (proxy : string) (cfg : ScatterConfig) (seed : Z) (dials : Dials)
    (sent : list nat) : TrialOutcome ScatterReport :=
  let work := sample_targets cfg seed in
  let arrivals := omap (λ i, t ← work !! i; Some (i, check_target (sc_timeout cfg) t (dials proxy i))) sent in
  match (_ ← worker_count (length work) (sc_max_concurrency cfg);
         scatter_report work (sc_min_verified cfg) arrivals) with
  | Some report => Returns (Ok report)
  | None => Panics
  end.

(** A trial: the port [ephemeral_loopback_port] found, the boot, the seed of the
    sampling, the dials and the order of their checks. *)
Record TrialIo := {
  tr_port : result Error Z; tr_boot : BootIo; tr_seed : Z; tr_dials : Dials; tr_sent : list nat
}.

Definition test_egress_scatter (io : TrialIo) (binary : string) (n : CanonicalNode)
    (cfg : ScatterConfig) (os : Os) : TrialOutcome ScatterReport * Os :=
  match tr_port io with
  | Err e => (Returns (Err e), os)
  | Ok port =>
    over_testbed (spawn (tr_boot io) binary n port os)
      (λ tb, scatter_over_testbed (testbed_addr tb) cfg (tr_seed io) (tr_dials io) (tr_sent io))
  end.

Definition test_local_egress_scatter (io : TrialIo) (binary : string) (cfg : ScatterConfig) (os : Os)
  : TrialOutcome ScatterReport * Os :=
  match tr_port io with
  | Err e => (Returns (Err e), os)
  | Ok port =>
    over_testbed (spawn_direct (tr_boot io) binary port os)
      (λ tb, scatter_over_testbed (testbed_addr tb) cfg (tr_seed io) (tr_dials io) (tr_sent io))
  end.

(** proxy_controller.rs: the same with the binary of the controller's supervisor. *)
Definition verify_node_egress (io : TrialIo) (binary : string) (n : CanonicalNode) (cfg : ScatterConfig)
    (os : Os) : TrialOutcome ScatterReport * Os := test_egress_scatter io binary n cfg os.
Definition verify_local_egress (io : TrialIo) (binary : string) (cfg : ScatterConfig) (os : Os)
  : TrialOutcome ScatterReport * Os := test_local_egress_scatter io binary cfg os.

(** *** The single round trip *)

Record EgressReport := { er_round_trip : Z; er_verified : bool }.

(** A dial whose stream is read directly, its options set with [?]. *)
Record RawDial := {
  rd_connect : option string; rd_setup : option string; rd_socks : SocksIo;
  rd_write : option string; rd_events : list (ReadEvent * Z); rd_elapsed : Z
}.

Definition generate_204_over_socks5 (proxy target : string) (timeout : Z) (d : RawDial)
  : result Error EgressReport :=
  '(host, port) ← split_target target;
  _ ← context ("cannot reach socks5 testbed at " +:+ proxy) (fault (rd_connect d));
  _ ← fault (rd_setup d);
  _ ← (socks5_connect (rd_socks d) host port).1;
  _ ← fault (rd_write d);
  exchange ← read_http_exchange timeout (rd_events d);
  Ok {| er_round_trip := rd_elapsed d;
        er_verified := (he_status exchange =? 204) && bool_decide (he_body exchange = EmptyString) |}.

Definition test_egress (port : result Error Z) (io : BootIo) (binary : string) (n : CanonicalNode)
    (timeout : Z) (d : string → RawDial) (os : Os) : TrialOutcome EgressReport * Os :=
  match port with
  | Err e => (Returns (Err e), os)
  | Ok port =>
    over_testbed (spawn io binary n port os)
      (λ tb, let proxy := testbed_addr tb in
             Returns (generate_204_over_socks5 proxy EGRESS_TARGET timeout (d proxy)))
  end.

(** *** The pump stream *)

(** [PumpStream::read] retries a read a signal interrupted. *)
Fixpoint pump_read (events : list (ReadEvent * Z)) : option (ReadEvent * Z) * list (ReadEvent * Z) :=
  match events with
  | [] => (None, [])
  | (RInterrupted, _) :: events => pump_read events
  | e :: events => (Some e, events)
  end.
(** All the reads of a pump stream over the reads of its socket. *)
Fixpoint pump_reads (fuel : nat) (events : list (ReadEvent * Z)) : list (ReadEvent * Z) :=
  match fuel with
  | O => []
  | S fuel =>
    match pump_read events with
    | (Some e, events) => e :: pump_reads fuel events
    | (None, _) => []
    end
  end.

(** A write accepts some bytes, is interrupted, or fails. *)
Inductive WriteEvent := WTook (n : nat) | WInterrupted | WFailed (msg : string).

(** [PumpStream::write]. *)
Fixpoint pump_write (events : list WriteEvent) : option WriteEvent * list WriteEvent :=
  match events with
  | [] => (None, [])
  | WInterrupted :: events => pump_write events
  | e :: events => (Some e, events)
  end.

(** [write_all] over a pump stream: what it returns, unless it is still waiting, and
    the bytes the socket took. *)
Fixpoint pump_write_all (fuel : nat) (buffer : list ascii) (events : list WriteEvent)
  : option (result Error ()) * list ascii :=
  match buffer, fuel with
  | [], _ => (Some (Ok ()), [])
  | _, O => (None, [])
  | _, S fuel =>
    match pump_write events with
    | (None, _) => (None, [])
    | (Some (WFailed msg), _) => (Some (Err [msg]), [])
    | (Some (WTook O), _) => (Some (bail "failed to write whole buffer"), [])
    | (Some (WTook n), events) =>
      let '(r, sent) := pump_write_all fuel (drop n buffer) events in (r, take n buffer ++ sent)
    | (Some WInterrupted, _) => (None, [])
    end
  end.

(** *** The trials of a shortlist *)

(** One after another; the environment of each trial is its own. *)
Fixpoint run_trials (ios : CanonicalNode → TrialIo) (binary : string) (cfg : ScatterConfig)
    (candidates : list CanonicalNode) (os : Os) : TrialOutcome (list (option ScatterReport)) * Os :=
  match candidates with
  | [] => (Returns (Ok []), os)
  | n :: candidates =>
    match test_egress_scatter (ios n) binary n cfg os with
    | (Returns r, os) =>
      match run_trials ios binary cfg candidates os with
      | (Returns (Ok reports), os) => (Returns (Ok (res_ok r :: reports)), os)
      | other => other
      end
    | (Panics, os) => (Panics, os)
    | (Hangs, os) => (Hangs, os)
    end
  end.

(** ** Lemmas: validation *)

(** A validation that nothing overlaps reads the file it wrote. *)
Lemma validate_config_run io binary config fs :
  (SingboxAdapter_validate_config io binary config fs).1 =
  (_ ← fault (vi_dir io);
   _ ← (write_file (vi_file io) adapter_config_path config fs).1;
   _ ← context ("failed to run `" +:+ binary +:+ " check -c " +:+ path_debug adapter_config_path +:+ "`")
         (fault (vi_run io));
   check_verdict binary config).
Proof.
  unfold SingboxAdapter_validate_config. destruct (vi_dir io); [done|]. cbn [fault].
  destruct (vi_file io) as [[msg|k msg]|]; [done|done|]. cbn [write_file fst mbind result_bind].
  rewrite lookup_insert_eq. done.
Qed.

Lemma write_file_outcome fault path content fs fs' :
  (write_file fault path content fs).1 = (write_file fault path content fs').1.
Proof. by destruct fault as [[]|]. Qed.

Lemma validate_config_outcome io binary config fs fs' :
  (SingboxAdapter_validate_config io binary config fs).1 = (SingboxAdapter_validate_config io binary config fs').1.
Proof. rewrite !validate_config_run. by rewrite (write_file_outcome _ _ _ fs fs'). Qed.

Lemma fault_Ok o u : fault o = Ok u ↔ o = None.
Proof. destruct o, u; simpl; naive_solver. Qed.
Lemma context_Ok {A} msg (m : result Error A) a : context msg m = Ok a ↔ m = Ok a.
Proof. apply map_err_Ok. Qed.
Lemma check_verdict_Ok binary content u : check_verdict binary content = Ok u ↔ check_stderr binary content = None.
Proof. unfold check_verdict, bail. destruct u. case_match; naive_solver. Qed.

Lemma validate_config_Ok io binary config fs u :
  (SingboxAdapter_validate_config io binary config fs).1 = Ok u ↔
  vi_dir io = None ∧ vi_file io = None ∧ vi_run io = None ∧ check_stderr binary config = None.
Proof.
  rewrite validate_config_run. repeat setoid_rewrite result_bind_Ok.
  setoid_rewrite context_Ok. setoid_rewrite fault_Ok. setoid_rewrite check_verdict_Ok.
  destruct (vi_file io) as [[]|]; naive_solver.
Qed.

(** ** Lemmas: the wait *)

Lemma wait_loop_Some fuel i deadline c turns w :
  wait_loop fuel i deadline c turns = Some w ↔
  ∃ j, (j < fuel)%nat ∧ wait_turn deadline c (turns (i + j)%nat) = Some w ∧
       ∀ k, (k < j)%nat → wait_turn deadline c (turns (i + k)%nat) = None.
Proof.
  revert i. induction fuel as [|fuel IH]; intros i; simpl; [split; [done|intros (j & ? & _); lia]|].
  destruct (wait_turn deadline c (turns i)) as [w'|] eqn:E.
  - split.
    + intros [= ->]. exists O. rewrite Nat.add_0_r. split_and!; [lia|done|lia].
    + intros (j & _ & Hj & Hk). destruct j as [|j]; [rewrite Nat.add_0_r in Hj; congruence|].
      specialize (Hk O ltac:(lia)). rewrite Nat.add_0_r in Hk. congruence.
  - rewrite IH. split.
    + intros (j & ? & Hj & Hk). exists (S j). rewrite Nat.add_succ_r.
      split_and!; [lia|done|]. intros [|k] ?; [by rewrite Nat.add_0_r|].
      rewrite Nat.add_succ_r. apply (Hk k). lia.
    + intros ([|j] & ? & Hj & Hk); [rewrite Nat.add_0_r in Hj; congruence|].
      exists j. rewrite Nat.add_succ_r in Hj. split_and!; [lia|done|].
      intros k ?. specialize (Hk (S k) ltac:(lia)). by rewrite Nat.add_succ_r in Hk.
Qed.

(** The clock of the turns: a sleep between one and the next. *)
Definition paced (turns : nat → Turn) : Prop :=
  0 ≤ tn_now (turns O) ∧ ∀ i, tn_now (turns i) + WAIT_POLL ≤ tn_now (turns (S i)).

Lemma paced_now turns i : paced turns → Z.of_nat i * WAIT_POLL ≤ tn_now (turns i).
Proof.
  intros [Hz HS]. induction i as [|i IH]; [lia|]. specialize (HS i). nia.
Qed.

Lemma wait_turn_late deadline c t : deadline < tn_now t → wait_turn deadline c t ≠ None.
Proof.
  intros Hd. unfold wait_turn. repeat case_match; try done.
  match goal with H : (_ <? _) = false |- _ => apply Z.ltb_ge in H; lia end.
Qed.

(** The first turn that decides, within the fuel. *)
Lemma wait_until_ready_first timeout c turns :
  0 ≤ timeout → paced turns →
  ∃ n w, (n < wait_fuel timeout)%nat ∧ wait_until_ready timeout c turns = Some w ∧
    wait_turn timeout c (turns n) = Some w ∧ ∀ k, (k < n)%nat → wait_turn timeout c (turns k) = None.
Proof.
  intros Ht Hp. unfold wait_until_ready.
  assert (∃ w, wait_loop (wait_fuel timeout) 0 timeout c turns = Some w) as [w Hw].
  { destruct (wait_loop (wait_fuel timeout) 0 timeout c turns) as [w|] eqn:E; [by exists w|exfalso].
    assert (∀ fuel i, wait_loop fuel i timeout c turns = None →
      ∀ j, (j < fuel)%nat → wait_turn timeout c (turns (i + j)%nat) = None) as Hnone.
    { clear. induction fuel as [|fuel IH]; intros i E j Hj; [lia|]. simpl in E.
      case_match; [done|]. destruct j as [|j]; [by rewrite Nat.add_0_r|].
      rewrite Nat.add_succ_r. apply (IH (S i)); [done|lia]. }
    set (last := S (Z.to_nat (timeout / WAIT_POLL))).
    eapply (wait_turn_late timeout c (turns last)); [|apply (Hnone _ _ E last); unfold wait_fuel; lia].
    pose proof (paced_now turns last Hp) as Hl. unfold last in *.
    pose proof (Z.mul_succ_div_gt timeout WAIT_POLL ltac:(done)).
    pose proof (Z.div_pos timeout WAIT_POLL ltac:(done) ltac:(done)). nia. }
  pose proof Hw as (j & Hj & He & Hk)%wait_loop_Some. by exists j, w.
Qed.

(** What a turn that decides nothing saw. *)
Definition idle_turn (deadline : Z) (c : Core) (t : Turn) : Prop :=
  tn_connect t = false ∧ tn_wait t = None ∧ exited_by c (tn_poll t) = false ∧ tn_now t ≤ deadline.

Lemma wait_turn_None deadline c t : wait_turn deadline c t = None ↔ idle_turn deadline c t.
Proof.
  unfold wait_turn, idle_turn.
  destruct (tn_connect t), (tn_wait t), (exited_by c (tn_poll t)), (Z.ltb_spec deadline (tn_now t));
    naive_solver lia.
Qed.

Lemma wait_turn_Ready deadline c t : wait_turn deadline c t = Some Ready ↔ tn_connect t = true.
Proof. unfold wait_turn. repeat case_match; naive_solver. Qed.

Lemma wait_turn_forever deadline c t :
  wait_turn deadline c t = Some ReadsForever ↔
  tn_connect t = false ∧ tn_wait t = None ∧ deadline < tn_now t ∧ co_exit c = None.
Proof.
  unfold wait_turn, exited_by.
  destruct (tn_connect t), (tn_wait t), (co_exit c), (Z.ltb_spec deadline (tn_now t));
    repeat case_match; naive_solver lia.
Qed.

Lemma wait_until_ready_cases (timeout : Z) (c : Core) (turns : nat → Turn) :
  0 ≤ timeout → paced turns →
  (∃ n w, (n ≤ 1 + Z.to_nat (timeout / WAIT_POLL))%nat ∧ wait_until_ready timeout c turns = Some w ∧
    (∀ k, (k < n)%nat → idle_turn timeout c (turns k)) ∧
    match w with
    | Ready => tn_connect (turns n) = true
    | WaitFailed _ => tn_connect (turns n) = false
    | ReadsForever => tn_connect (turns n) = false ∧ timeout < tn_now (turns n) ∧ co_exit c = None
    end) ∧
  (co_exit c = None → (∀ i, tn_connect (turns i) = false ∧ tn_wait (turns i) = None) →
   wait_until_ready timeout c turns = Some ReadsForever).
Proof.
  intros Ht Hp. destruct (wait_until_ready_first timeout c turns Ht Hp) as (n & w & Hn & Hw & He & Hk).
  split.
  - exists n, w. unfold wait_fuel in Hn. split_and!; [lia|done| |].
    + intros k Hlt. by apply wait_turn_None, Hk.
    + destruct w as [|e|]; [by apply wait_turn_Ready in He| |].
      * unfold wait_turn in He. by destruct (tn_connect (turns n)).
      * apply wait_turn_forever in He. tauto.
  - intros Hc Hquiet. rewrite Hw. destruct (Hquiet n) as [Hcon Hwait].
    unfold wait_turn, exited_by in He. rewrite Hcon, Hwait, Hc in He. by case_match.
Qed.

(** ** Lemmas: booting *)

(** A core this program started for a trial: its binary, told to run the file of its
    port, which held the given text. *)
Definition core_on (binary : string) (port : Z) (text : string) (state : ChildState) : Process :=
  {| ps_program := binary; ps_args := ["run"; "-c"; testbed_path port]%stdpp;
     ps_config := Some text; ps_state := state |}.

(** What a boot that succeeds went through: its configuration was printed, a check of
    this binary that ran accepted it, it was written to the file of the port, the
    core was spawned without an error, and its listener was waited for. *)
Definition booted (io : BootIo) (binary : string) (config : Value) (port : Z) (text : string) (os' : Os) : Prop :=
  (∃ compact, to_vec config = Ok compact ∧ check_stderr binary compact = None ∧
    ∀ fs, (SingboxAdapter_validate_config (bo_validate io) binary compact fs).1 = Ok ()) ∧
  to_vec_pretty config = Ok text ∧ (∀ fs, (prepare_config io binary config port fs).1 = Ok ()) ∧
  os_files os' !! testbed_path port = Some text ∧
  bo_spawn io = None ∧ wait_until_ready (10 * SECOND) (bo_core io) (bo_turns io) = Some Ready.

Lemma prepare_config_Ok io binary config port fs u fs' :
  prepare_config io binary config port fs = (Ok u, fs') →
  ∃ compact pretty, to_vec config = Ok compact ∧ check_stderr binary compact = None ∧
    (∀ fs, (SingboxAdapter_validate_config (bo_validate io) binary compact fs).1 = Ok ()) ∧
    to_vec_pretty config = Ok pretty ∧ fs' !! testbed_path port = Some pretty.
Proof.
  unfold prepare_config. destruct (to_vec config) as [compact|e]; [|done].
  destruct (SingboxAdapter_validate_config (bo_validate io) binary compact fs) as [checked fs1] eqn:Ev.
  destruct (_ ≫= _) as [pretty|e] eqn:Eb; [|done]. inv_ok.
  rewrite ?context_Ok in *. intros Hw. exists compact, pretty. split_and!; [done| | |done|].
  - eapply validate_config_Ok. by erewrite Ev.
  - intros fs2. rewrite (validate_config_outcome _ _ _ _ fs), Ev. simpl. by destruct checked as [[]|].
  - destruct (bo_file io) as [[]|]; simpl in Hw; simplify_eq. by rewrite lookup_insert_eq.
Qed.

Lemma prepare_config_outcome io binary config port fs fs' :
  (prepare_config io binary config port fs).1 = (prepare_config io binary config port fs').1.
Proof.
  unfold prepare_config. destruct (to_vec config) as [compact|e]; [|done].
  pose proof (validate_config_outcome (bo_validate io) binary compact fs fs') as Hv.
  destruct (SingboxAdapter_validate_config _ _ _ fs) as [checked fs1], (SingboxAdapter_validate_config _ _ _ fs') as [checked' fs1'].
  simpl in Hv. subst checked'. destruct (_ ≫= _); [|done]. apply write_file_outcome.
Qed.

(** The process table grew by one core, in the given state. *)
Definition grew_by (state : ChildState) (os os' : Os) : Prop :=
  ∃ p, os_children os' = os_children os ++ [p] ∧ ps_state p = state.

Lemma drop_last tb p (os : Os) l :
  tb_child tb = length l → os_children os = l ++ [p] → os_children (drop_testbed tb os) = l ++ [reap p].
Proof.
  intros Ht Ho. simpl. rewrite Ho, Ht. rewrite <-(Nat.add_0_r (length l)). by rewrite alter_app_r.
Qed.

Lemma spawn_with_config_cases io binary config port os :
  paced (bo_turns io) →
  let '(o, os') := spawn_with_config io binary config port os in
  match o with
  | Returns (Ok tb) => tb = {| tb_child := length (os_children os); tb_port := port |} ∧
      ∃ text, os_children os' = os_children os ++ [core_on binary port text Running] ∧
        booted io binary config port text os'
  | Returns (Err _) => os_children os' = os_children os ∨ grew_by Reaped os os'
  | Panics => False
  | Hangs => grew_by Running os os' ∧ co_exit (bo_core io) = None
  end.
Proof.
  intros Hp. unfold spawn_with_config.
  destruct (prepare_config io binary config port (os_files os)) as [prepared fs] eqn:Ep.
  destruct (prepared ≫= _) as [u|e] eqn:Eb; [|by left]. inv_ok.
  destruct (wait_until_ready_cases (10 * SECOND) (bo_core io) (bo_turns io) ltac:(done) Hp)
    as [(n & w & _ & Hw & _ & Hd) _].
  rewrite Hw. destruct w as [|e|].
  - subst prepared. destruct (prepare_config_Ok _ _ _ _ _ _ _ Ep) as (compact & pretty & ? & ? & ? & ? & Hf).
    split; [done|]. exists pretty. simpl. rewrite Hf. split; [done|].
    rewrite context_Ok, fault_Ok in *. split_and!; try done; [by exists compact|].
    intros fs'. rewrite (prepare_config_outcome _ _ _ _ _ (os_files os)), Ep. by destruct x.
  - right. eexists. split; [by eapply drop_last|done].
  - split; [by eexists|tauto].
Qed.

(** The outcome of a boot but for the number of its child. *)
Definition boot_port (o : TrialOutcome Testbed) : TrialOutcome Z :=
  match o with
  | Returns (Ok tb) => Returns (Ok (tb_port tb))
  | Returns (Err e) => Returns (Err e)
  | Panics => Panics
  | Hangs => Hangs
  end.

Lemma spawn_with_config_outcome io binary config port os os' :
  boot_port (spawn_with_config io binary config port os).1 =
  boot_port (spawn_with_config io binary config port os').1.
Proof.
  unfold spawn_with_config.
  pose proof (prepare_config_outcome io binary config port (os_files os) (os_files os')) as Hq.
  destruct (prepare_config io binary config port (os_files os)) as [r fs],
    (prepare_config io binary config port (os_files os')) as [r' fs']. simpl in Hq. subst r'.
  destruct (r ≫= _); [|done]. by destruct (wait_until_ready _ _ _) as [[]|].
Qed.

(** ** Lemmas: trials *)

(** The end of a run of the scatter's workers, with the messages they sent. *)
Definition scatter_run (cfg : ScatterConfig) (seed : Z) (sent : list nat) : Prop :=
  ∃ k p, worker_count (length (sample_targets cfg seed)) (sc_max_concurrency cfg) = Some k ∧
    rtc (pool_step (length (sample_targets cfg seed))) (pool_start k) p ∧
    Forall (eq Finished) (pl_workers p) ∧ sent = pl_sent p.

(** Such runs exist: one worker can ask every target while the others wait. *)
Lemma pool_one_by_one n k i :
  (0 < k)%nat → (i ≤ n)%nat →
  rtc (pool_step n) (pool_start k) {| pl_next := i; pl_workers := repeat Claiming k; pl_sent := seq 0 i |}.
Proof.
  intros Hk. induction i as [|i IH]; intros Hi; [done|]. etrans; [apply IH; lia|].
  set (p := {| pl_next := i; pl_workers := repeat Claiming k; pl_sent := seq 0 i |}).
  destruct k as [|k]; [lia|].
  eapply rtc_l; [by apply (step_claim n p 0); [|simpl; lia]|].
  eapply rtc_l; [by eapply (step_send n _ 0 i)|]. simpl. rewrite <-seq_S. done.
Qed.

Lemma pool_all_leave n k j l :
  rtc (pool_step n) {| pl_next := n + j; pl_workers := repeat Finished j ++ repeat Claiming k; pl_sent := l |}
    {| pl_next := n + (j + k); pl_workers := repeat Finished (j + k); pl_sent := l |}.
Proof.
  revert j. induction k as [|k IH]; intros j; [by rewrite app_nil_r, Nat.add_0_r|].
  specialize (IH (S j)). replace (j + S k)%nat with (S j + k)%nat by lia.
  eapply rtc_l; [|exact IH]. set (p := {| pl_next := n + j; pl_workers := _; pl_sent := l |}).
  assert (<[j:=Finished]> (pl_workers p) = repeat Finished (S j) ++ repeat Claiming k) as E.
  { simpl. rewrite insert_app_r_alt by (by rewrite repeat_length).
    rewrite repeat_length, Nat.sub_diag. simpl.
    by rewrite app_comm_cons, repeat_cons, <-app_assoc. }
  rewrite <-E. replace (n + S j)%nat with (S (pl_next p)) by (simpl; lia). apply (step_exhausted n p j); simpl; [|lia].
  rewrite lookup_app_r by (by rewrite repeat_length). by rewrite repeat_length, Nat.sub_diag.
Qed.

Lemma scatter_run_in_order (cfg : ScatterConfig) (seed : Z) :
  (0 < sc_max_concurrency cfg)%nat → scatter_run cfg seed (seq 0 (length (sample_targets cfg seed))).
Proof.
  intros Hm. set (n := length _). set (k := Nat.max 1 (Nat.min n (sc_max_concurrency cfg))).
  exists k, {| pl_next := n + (0 + k); pl_workers := repeat Finished (0 + k); pl_sent := seq 0 n |}.
  split_and!.
  - unfold worker_count. fold n. destruct (Nat.ltb_spec (sc_max_concurrency cfg) 1); [lia|done].
  - etrans; [apply (pool_one_by_one n k n); unfold k; lia|].
    pose proof (pool_all_leave n k 0 (seq 0 n)) as Hl. rewrite Nat.add_0_r in Hl. exact Hl.
  - apply Forall_forall. intros x Hx%list_elem_of_In%repeat_spec. done.
  - done.
Qed.

(** The target's answer came back through the proxy, as it should be. *)
Definition answered (timeout : Z) (t : EgressTarget) (d : Dial) : Prop :=
  dl_connect d = None ∧ tunnel_asked (dl_socks d) (et_host t) (et_port t) ∧
  (et_tls t = true → dl_tls d = None) ∧ dl_write d = None ∧
  ∃ x, read_http_exchange timeout (dl_events d) = Ok x ∧ he_status x = et_expect_status t ∧
    ∀ needle, et_expect_body_contains t = Some needle → str_contains needle (he_body x) = true.

Lemma filter_zip_map {A B} (f : A * B → bool) (g : nat → B) (q : nat → bool) (l : list A) (k : nat) :
  (∀ i a, l !! i = Some a → q (k + i)%nat = f (a, g (k + i)%nat)) →
  length (List.filter f (zip l (map g (seq k (length l))))) =
  length (List.filter q (seq k (length l))).
Proof.
  revert k. induction l as [|a l IH]; intros k Hq; [done|]. simpl.
  pose proof (Hq O a eq_refl) as Hk. rewrite Nat.add_0_r in Hk. rewrite Hk.
  assert (length (List.filter f (zip l (map g (seq (S k) (length l))))) =
          length (List.filter q (seq (S k) (length l)))) as IH'.
  { apply IH. intros i b Hi. specialize (Hq (S i) b Hi). by rewrite Nat.add_succ_r in Hq. }
  destruct (f (a, g k)); simpl; [f_equal|]; exact IH'.
Qed.

(** At least so many of the indices below a bound satisfy a test. *)
Lemma filter_seq_least (q : nat → bool) (n m : nat) :
  (m ≤ length (List.filter q (seq 0 n)))%nat ↔
  ∃ l, NoDup l ∧ (m ≤ length l)%nat ∧ ∀ i, i ∈ l → (i < n)%nat ∧ q i = true.
Proof.
  assert (∀ i, i ∈ List.filter q (seq 0 n) ↔ (i < n)%nat ∧ q i = true) as Hin.
  { intros i. rewrite list_elem_of_In, filter_In, in_seq. naive_solver lia. }
  split.
  - intros Hm. exists (List.filter q (seq 0 n)). split_and!; [|done|].
    + apply NoDup_ListNoDup, List.NoDup_filter, NoDup_ListNoDup, NoDup_seq.
    + intros i. apply Hin.
  - intros (l & Hd & Hm & Hl). etrans; [exact Hm|].
    apply NoDup_incl_length; [by apply NoDup_ListNoDup|].
    intros i Hi. apply list_elem_of_In, Hin, Hl, list_elem_of_In, Hi.
Qed.

Definition checks_of (cfg : ScatterConfig) (seed : Z) (dials : nat → Dial) (i : nat) : TargetCheck :=
  match sample_targets cfg seed !! i with
  | Some t => check_target (sc_timeout cfg) t (dials i)
  | None => check_target (sc_timeout cfg) (target "" "" "" 0 false 0 None false) (dials i)
  end.

(** The report of a trial over a live testbed: every target, in order. *)
Definition trial_report (cfg : ScatterConfig) (seed : Z) (dials : nat → Dial) : ScatterReport :=
  fold_report (sample_targets cfg seed) (sc_min_verified cfg)
    (imap (λ i t, check_target (sc_timeout cfg) t (dials i)) (sample_targets cfg seed)).

Lemma imap_checks (f : nat → EgressTarget → TargetCheck) (g : nat → TargetCheck) (l : list EgressTarget) :
  (∀ i t, l !! i = Some t → g i = f i t) → imap f l = map g (seq 0 (length l)).
Proof.
  intros Hg. apply list_eq. intros i. rewrite list_lookup_imap, list_lookup_fmap.
  destruct (l !! i) as [t|] eqn:E; simpl.
  - rewrite lookup_seq_lt by (by eapply lookup_lt_Some). simpl. by rewrite (Hg i t).
  - apply lookup_ge_None in E. by rewrite lookup_seq_ge.
Qed.

Lemma scatter_over_testbed_run proxy cfg seed (dials : Dials) sent :
  scatter_run cfg seed sent →
  scatter_over_testbed proxy cfg seed dials sent = Returns (Ok (trial_report cfg seed (dials proxy))).
Proof.
  intros (k & p & Hk & Hp & Hf & ->). unfold scatter_over_testbed. set (dials' := dials proxy). rewrite Hk. cbn [mbind option_bind].
  pose proof (pool_drained _ _ _ _ Hk Hp Hf) as Hs.
  set (work := sample_targets cfg seed) in *.
  assert (omap (λ i, t ← work !! i; Some (i, check_target (sc_timeout cfg) t (dials' i))) (pl_sent p) =
          map (λ i, (i, checks_of cfg seed dials' i)) (pl_sent p)) as ->.
  { assert (∀ i, i ∈ pl_sent p → (i < length work)%nat) as Hb.
    { intros i Hi. rewrite Hs in Hi. apply elem_of_seq in Hi. lia. }
    clear Hs. induction (pl_sent p) as [|i l IH]; [done|]. simpl.
    destruct (lookup_lt_is_Some_2 work i) as [t Ht]; [apply Hb; left|].
    unfold checks_of at 1. fold work. rewrite Ht. simpl. f_equal. apply IH.
    intros j Hj. apply Hb. by right. }
  rewrite scatter_report_order by done. unfold trial_report. fold work.
  do 3 f_equal. symmetry. apply imap_checks. intros i t Hi. unfold checks_of. fold work. by rewrite Hi.
Qed.

(** A report passes exactly when enough distinct operators answered. *)
Lemma trial_passes cfg seed dials :
  sr_passes (trial_report cfg seed dials) = true ↔
  ∃ l, NoDup l ∧ (sc_min_verified cfg ≤ length l)%nat ∧
    ∀ i, i ∈ l → ∃ t, sample_targets cfg seed !! i = Some t ∧ et_quorum t = true ∧
      answered (sc_timeout cfg) t (dials i).
Proof.
  set (work := sample_targets cfg seed). unfold trial_report. fold work.
  rewrite (imap_checks _ (checks_of cfg seed dials))
    by (intros i t Hi; unfold checks_of; fold work; by rewrite Hi).
  simpl. rewrite Nat.leb_le.
  rewrite (filter_zip_map _ _ (λ i, from_option (λ t, et_quorum t && tc_verified (checks_of cfg seed dials i))
    false (work !! i))) by (intros i t Hi; simpl; by rewrite Hi).
  rewrite filter_seq_least. apply exist_proper. intros l. repeat (apply and_iff_compat_l).
  apply forall_proper. intros i.
  assert ((i < length work)%nat ∧
    from_option (λ t, et_quorum t && tc_verified (checks_of cfg seed dials i)) false (work !! i) = true ↔
    ∃ t, work !! i = Some t ∧ et_quorum t = true ∧ answered (sc_timeout cfg) t (dials i)) as ->; [|done].
  destruct (work !! i) as [t|] eqn:E; simpl.
  - pose proof (lookup_lt_Some _ _ _ E). unfold checks_of. fold work. rewrite E, andb_true_iff.
    pose proof (check_target_spec (sc_timeout cfg) t (dials i)) as (_ & _ & -> & _).
    unfold answered. naive_solver.
  - naive_solver.
Qed.

(** The address a testbed on a port listens at. *)
Definition loopback (port : Z) : string := "127.0.0.1:" +:+ show_Z port.

(** A trial of a node that went through: its own configuration, compiled for the port
    the trial found, was booted as [text]. *)
Definition tried (io : TrialIo) (binary : string) (n : CanonicalNode) (port : Z) (text : string) (os' : Os) : Prop :=
  tr_port io = Ok port ∧ ∃ config, compile_testbed_config n port = Ok config ∧
    booted (tr_boot io) binary config port text os'.

Lemma test_egress_scatter_cases (io : TrialIo) (binary : string) (n : CanonicalNode)
    (cfg : ScatterConfig) (os : Os) :
  paced (bo_turns (tr_boot io)) → scatter_run cfg (tr_seed io) (tr_sent io) →
  let '(o, os') := test_egress_scatter io binary n cfg os in
  match o with
  | Returns (Ok r) => ∃ port text, tried io binary n port text os' ∧
      os_children os' = os_children os ++ [core_on binary port text Reaped] ∧
      r = trial_report cfg (tr_seed io) (tr_dials io (loopback port))
  | Returns (Err _) => os_children os' = os_children os ∨ grew_by Reaped os os'
  | Panics => False
  | Hangs => grew_by Running os os' ∧ co_exit (bo_core (tr_boot io)) = None
  end.
Proof.
  intros Hp Hs. unfold test_egress_scatter. destruct (tr_port io) as [port|e] eqn:Eport; [|by left].
  unfold spawn. destruct (compile_testbed_config n port) as [config|e] eqn:Ec; [|by left].
  pose proof (spawn_with_config_cases (tr_boot io) binary config port os Hp) as Hc.
  destruct (spawn_with_config _ _ _ _ _) as [[[tb|e]| |] os1]; simpl; try done.
  destruct Hc as (-> & text & Ho & Hb). rewrite (scatter_over_testbed_run _ _ _ _ _ Hs).
  exists port, text. split_and!; [split; [done|by exists config]| |done].
  change (alter reap (length (os_children os)) (os_children os1) =
          os_children os ++ [reap (core_on binary port text Running)]).
  by apply (drop_last {| tb_child := length (os_children os); tb_port := port |} _ os1).
Qed.

(** The verdict of a trial does not depend on what the system holds. *)
Lemma test_egress_scatter_outcome io binary n cfg os os' :
  (test_egress_scatter io binary n cfg os).1 = (test_egress_scatter io binary n cfg os').1.
Proof.
  unfold test_egress_scatter, spawn. destruct (tr_port io) as [port|e]; [|done].
  destruct (compile_testbed_config n port) as [config|e]; [|done].
  pose proof (spawn_with_config_outcome (tr_boot io) binary config port os os') as Ho.
  destruct (spawn_with_config _ _ _ _ os) as [[[tb|e]| |] os1],
    (spawn_with_config _ _ _ _ os') as [[[tb'|e']| |] os1']; simpl in *; try congruence.
  unfold testbed_addr. by injection Ho as ->.
Qed.

Definition Os_initial : Os := {| os_files := ∅; os_children := [] |}.

(** The trial of a candidate, in its own environment. *)
Definition node_trial (env : CanonicalNode → TrialIo) (binary : string) (cfg : ScatterConfig)
    (n : CanonicalNode) : result Error ScatterReport :=
  match (test_egress_scatter (env n) binary n cfg Os_initial).1 with
  | Returns r => r
  | Panics | Hangs => bail "no outcome"
  end.

(** Clocks that advance and scatters that ended. *)
Definition sound_env (env : CanonicalNode → TrialIo) (cfg : ScatterConfig) (n : CanonicalNode) : Prop :=
  paced (bo_turns (tr_boot (env n))) ∧ scatter_run cfg (tr_seed (env n)) (tr_sent (env n)).

Definition reaped (p : Process) : Prop := ps_state p = Reaped.

Lemma run_trials_cases (env : CanonicalNode → TrialIo) (binary : string) (cfg : ScatterConfig)
    (candidates : list CanonicalNode) (os : Os) :
  Forall (sound_env env cfg) candidates →
  let '(o, os') := run_trials env binary cfg candidates os in
  ∃ l, os_children os' = os_children os ++ l ∧
  match o with
  | Returns r => r = Ok (run_egress_trials (node_trial env binary cfg) candidates) ∧ Forall reaped l
  | Panics => False
  | Hangs => ∃ n k p, n ∈ candidates ∧ co_exit (bo_core (tr_boot (env n))) = None ∧
      l = k ++ [p] ∧ ps_state p = Running ∧ Forall reaped k
  end.
Proof.
  intros He. revert os. induction He as [|n candidates [Hp Hs] _ IH]; intros os; simpl.
  { exists []. by rewrite app_nil_r. }
  pose proof (test_egress_scatter_cases (env n) binary n cfg os Hp Hs) as Hc.
  pose proof (test_egress_scatter_outcome (env n) binary n cfg os Os_initial) as Ht.
  destruct (test_egress_scatter (env n) binary n cfg os) as [[r| |] os1]; [|done|].
  2: { destruct Hc as [(p & Ho & Hrun) Hx]. exists [p]. split; [done|].
       exists n, [], p. split_and!; [left|done|done|done|constructor]. }
  assert (∃ k, os_children os1 = os_children os ++ k ∧ Forall reaped k) as (k & Hk & Hkr).
  { destruct r as [r|e].
    - destruct Hc as (port & text & _ & Ho & _). eexists. split; [exact Ho|by repeat constructor].
    - destruct Hc as [Ho|(p & Ho & Hp')]; [exists []; by rewrite app_nil_r|exists [p]].
      split; [done|by repeat constructor]. }
  specialize (IH os1). destruct (run_trials env binary cfg candidates os1) as [o os2].
  destruct IH as (l & Hl & Hcase). rewrite Hk, <-app_assoc in Hl.
  assert (node_trial env binary cfg n = r) as Hr by (unfold node_trial; simpl in Ht; by rewrite <-Ht).
  destruct o as [[reports|e]| |]; [| |done|].
  - exists (k ++ l). destruct Hcase as [[= ->] Hlr]. split_and!; [done|by rewrite Hr|by apply Forall_app].
  - by destruct Hcase.
  - exists (k ++ l). split; [done|]. destruct Hcase as (m & k' & p & Hm & Hx & -> & Hrun & Hk').
    exists m, (k ++ k'), p. rewrite app_assoc. split_and!; [by right|done|done|done|by apply Forall_app].
Qed.

(** A trial that proves its node, on the port the trial found: from any state of the
    system, spawning the testbed of this node succeeds and adds one running core,
    this program's binary told to run the file of the port, which holds the
    configuration compiled from this node for this port, after a check of this binary
    accepted it; and through the address of that very port enough distinct operators
    gave the answer expected of them. *)
Definition proven (binary : string) (cfg : ScatterConfig) (io : TrialIo) (n : CanonicalNode) : Prop :=
  ∃ port config compact text l,
    tr_port io = Ok port ∧ compile_testbed_config n port = Ok config ∧
    to_vec config = Ok compact ∧ to_vec_pretty config = Ok text ∧ check_stderr binary compact = None ∧
    (∀ fs, (SingboxAdapter_validate_config (bo_validate (tr_boot io)) binary compact fs).1 = Ok ()) ∧
    bo_spawn (tr_boot io) = None ∧
    (∀ os, ∃ os', spawn (tr_boot io) binary n port os =
        (Returns (Ok {| tb_child := length (os_children os); tb_port := port |}), os') ∧
      os_files os' !! testbed_path port = Some text ∧
      os_children os' = os_children os ++ [core_on binary port text Running]) ∧
    NoDup l ∧ (sc_min_verified cfg ≤ length l)%nat ∧
    ∀ i, i ∈ l → ∃ t, sample_targets cfg (tr_seed io) !! i = Some t ∧ et_quorum t = true ∧
      answered (sc_timeout cfg) t (tr_dials io (loopback port) i).

(** A boot that succeeded once succeeds whatever the system holds. *)
Lemma boot_anywhere (io : BootIo) binary n port config text os' :
  paced (bo_turns io) → compile_testbed_config n port = Ok config → booted io binary config port text os' →
  ∀ os, ∃ os', spawn io binary n port os =
      (Returns (Ok {| tb_child := length (os_children os); tb_port := port |}), os') ∧
    os_files os' !! testbed_path port = Some text ∧
    os_children os' = os_children os ++ [core_on binary port text Running].
Proof.
  intros Hp Hc (_ & Htext & Hprep & _ & Hsp & Hw) os. unfold spawn. rewrite Hc.
  pose proof (spawn_with_config_cases io binary config port os Hp) as Hcase. revert Hcase.
  unfold spawn_with_config. specialize (Hprep (os_files os)).
  destruct (prepare_config io binary config port (os_files os)) as [prepared fs] eqn:E. simpl in Hprep.
  subst prepared. rewrite Hsp, Hw. cbn [fault context map_err mbind result_bind].
  intros (_ & text' & Hch & _ & Htext' & _ & Hfile & _).
  rewrite Htext in Htext'. injection Htext' as <-. by eexists.
Qed.

Lemma node_trial_proven env binary cfg n r :
  sound_env env cfg n → node_trial env binary cfg n = Ok r → sr_passes r = true → proven binary cfg (env n) n.
Proof.
  intros [Hp Hs] Et Hpass. unfold node_trial in Et.
  pose proof (test_egress_scatter_cases (env n) binary n cfg Os_initial Hp Hs) as Hc.
  destruct (test_egress_scatter (env n) binary n cfg Os_initial) as [[[r'|e]| |] os']; try done.
  simpl in Et. injection Et as ->. destruct Hc as (port & text & (Hport & config & Hcomp & Hb) & _ & ->).
  pose proof Hb as ((compact & Hcom & Hk & Hv) & Ht & _ & _ & Hsp & _).
  apply trial_passes in Hpass as (l & Hd & Hm & Ha). exists port, config, compact, text, l.
  split_and!; try done. by eapply boot_anywhere.
Qed.

Lemma node_trial_passes env binary cfg n r :
  sound_env env cfg n → node_trial env binary cfg n = Ok r →
  sr_passes r = (sc_min_verified cfg <=? sr_quorum_verified r)%nat.
Proof.
  intros [Hp Hs] Et. unfold node_trial in Et.
  pose proof (test_egress_scatter_cases (env n) binary n cfg Os_initial Hp Hs) as Hc.
  destruct (test_egress_scatter (env n) binary n cfg Os_initial) as [[[r'|e]| |] os']; try done.
  simpl in Et. injection Et as ->. by destruct Hc as (? & ? & _ & _ & ->).
Qed.

Lemma shortlist_row_proven sweep env binary candidates preflight heavy limit ranked s :
  Forall (sound_env env heavy) candidates →
  (length (sweep candidates preflight) ≤ length candidates)%nat →
  tiered_shortlist sweep (node_trial env binary heavy) candidates preflight heavy limit = Some ranked →
  s ∈ ranked → cs_passes s = true →
  ∃ n, candidates !! cs_node_index s = Some n ∧ proven binary heavy (env n) n.
Proof.
  intros He Hl Hr Hs Hpass.
  destruct (tiered_shortlist_cases sweep (node_trial env binary heavy) candidates preflight heavy limit Hl)
    as (ranked' & Hr' & _ & _ & _ & Hrow & _).
  rewrite Hr in Hr'. injection Hr' as <-. destruct (Hrow s Hs) as (_ & _ & n & Hn & Es).
  rewrite Es in Hpass. simpl in Hpass. exists n. split; [done|].
  destruct (node_trial env binary heavy n) as [r|e] eqn:Et; [|done]. simpl in Hpass.
  rewrite Forall_forall in He. assert (sound_env env heavy n) as Hsound by (eapply He, list_elem_of_lookup_2, Hn).
  eapply node_trial_proven; [done|exact Et|]. by rewrite (node_trial_passes _ _ _ _ _ Hsound Et).
Qed.

(** ** Theorems *)

(** C33. Waiting for the listener ends: within one turn per tenth of a second of the
    timeout and two more a turn decides, and every turn before it saw no listener, no
    fault, a live core and time left.  The core is ready exactly if the deciding dial
    was accepted; and the reading of the error of a core that neither opens its
    listener nor exits is what never returns. *)
Theorem wait_until_ready_spec (timeout : Z) (c : Core) (turns : nat → Turn) :
  0 ≤ timeout → paced turns →
  (∃ n w, (n ≤ 1 + Z.to_nat (timeout / WAIT_POLL))%nat ∧ wait_until_ready timeout c turns = Some w ∧
    (∀ k, (k < n)%nat → idle_turn timeout c (turns k)) ∧
    match w with
    | Ready => tn_connect (turns n) = true
    | WaitFailed _ => tn_connect (turns n) = false
    | ReadsForever => tn_connect (turns n) = false ∧ timeout < tn_now (turns n) ∧ co_exit c = None
    end) ∧
  (co_exit c = None → (∀ i, tn_connect (turns i) = false ∧ tn_wait (turns i) = None) →
   wait_until_ready timeout c turns = Some ReadsForever).
Proof. apply wait_until_ready_cases. Qed.

(** C7. The trial of a node.  A report means that a check of this binary that ran
    accepted the configuration compiled from this very node for the port the trial
    found, that it was written to the file of that port and this binary told to run
    that file, spawned without an error, and that its port was waited for until it
    accepted; the report is every target's check in order, dialled through that port,
    whatever the order of the workers; and it passes exactly when enough distinct
    operators gave the answer expected of them.  The core of the trial is killed and
    waited for whether it succeeded or failed; only a core that never exits, and was
    never ready, can be left over, and then the trial never returns. *)
Theorem egress_trial_spec (io : TrialIo) (binary : string) (n : CanonicalNode)
    (cfg : ScatterConfig) (os : Os) :
  paced (bo_turns (tr_boot io)) → scatter_run cfg (tr_seed io) (tr_sent io) →
  let '(o, os') := test_egress_scatter io binary n cfg os in
  match o with
  | Returns (Ok r) => ∃ port text,
      (tr_port io = Ok port ∧ ∃ config, compile_testbed_config n port = Ok config ∧
        booted (tr_boot io) binary config port text os') ∧
      let answers := tr_dials io ("127.0.0.1:" +:+ show_Z port) in
      sr_checks r = imap (λ i t, check_target (sc_timeout cfg) t (answers i))
                         (sample_targets cfg (tr_seed io)) ∧
      (sr_passes r = true ↔
        ∃ l, NoDup l ∧ (sc_min_verified cfg ≤ length l)%nat ∧
          ∀ i, i ∈ l → ∃ t, sample_targets cfg (tr_seed io) !! i = Some t ∧ et_quorum t = true ∧
            answered (sc_timeout cfg) t (answers i)) ∧
      os_children os' = os_children os ++ [core_on binary port text Reaped]
  | Returns (Err _) => os_children os' = os_children os ∨ grew_by Reaped os os'
  | Panics => False
  | Hangs => grew_by Running os os' ∧ co_exit (bo_core (tr_boot io)) = None
  end.
Proof.
  intros Hp Hs. pose proof (test_egress_scatter_cases io binary n cfg os Hp Hs) as Hc.
  destruct (test_egress_scatter io binary n cfg os) as [[[r|e]| |] os']; [|done..].
  destruct Hc as (port & text & Hb & Ho & ->). exists port, text.
  split; [exact Hb|]. split_and!; [done|apply trial_passes|done].
Qed.

(** C6. What the shortlist recommends is proven.  Provided the core of every candidate
    exits sooner or later (one that neither opens its listener nor exits is read for
    ever), the trials of any of the candidates, run one after another, all end and
    leave no core behind, with the reports the shortlist ranks.  Whether they exit or
    not, the shortlist of the trials' reports, a trial that never returns counted as
    failed, has in every row that passes the index of a candidate that its own trial
    proved: its own configuration, accepted by a check of the binary, run by it on the
    port of the trial, and enough distinct operators answering as expected through
    that port. *)
Theorem shortlist_is_proven sweep (env : CanonicalNode → TrialIo) (binary : string)
    (candidates : list CanonicalNode) preflight (heavy : ScatterConfig) limit (os : Os) :
  Forall (sound_env env heavy) candidates →
  (length (sweep candidates preflight) ≤ length candidates)%nat →
  (Forall (λ n, is_Some (co_exit (bo_core (tr_boot (env n))))) candidates →
   ∀ nodes, nodes ⊆ candidates → ∃ os' l, run_trials env binary heavy nodes os =
      (Returns (Ok (run_egress_trials (node_trial env binary heavy) nodes)), os') ∧
      os_children os' = os_children os ++ l ∧ Forall reaped l) ∧
  ∃ ranked, tiered_shortlist sweep (node_trial env binary heavy) candidates preflight heavy limit = Some ranked ∧
    ∀ s, s ∈ ranked → cs_passes s = true →
      ∃ n, candidates !! cs_node_index s = Some n ∧ proven binary heavy (env n) n.
Proof.
  intros He Hl. split.
  - intros Hx nodes Hsub. rewrite Forall_forall in He, Hx.
    assert (Forall (sound_env env heavy) nodes) as He' by (apply Forall_forall; auto).
    pose proof (run_trials_cases env binary heavy nodes os He') as Hr.
    destruct (run_trials env binary heavy nodes os) as [[r| |] os']; destruct Hr as (l & Hc & Hr).
    + destruct Hr as [-> ?]. by exists os', l.
    + done.
    + destruct Hr as (n & k & p & Hn & Hnone & _).
      destruct (Hx n (Hsub n Hn)) as [? ?]. congruence.
  - destruct (tiered_shortlist_cases sweep (node_trial env binary heavy) candidates preflight heavy limit Hl)
      as (ranked & Hr & _).
    exists ranked. split; [done|]. intros s Hs Hpass. by eapply shortlist_row_proven.
Qed.

(** ** Further lemmas *)

(** The single round trip is verified exactly by an empty 204. *)
Lemma generate_204_verified (proxy : string) (timeout : Z) (d : RawDial) :
  (∃ r, generate_204_over_socks5 proxy EGRESS_TARGET timeout d = Ok r ∧ er_verified r = true) ↔
  rd_connect d = None ∧ rd_setup d = None ∧ tunnel_asked (rd_socks d) "www.gstatic.com" 80 ∧
  rd_write d = None ∧
  ∃ x, read_http_exchange timeout (rd_events d) = Ok x ∧ he_status x = 204 ∧ he_body x = EmptyString.
Proof.
  unfold generate_204_over_socks5.
  assert (split_target EGRESS_TARGET = Ok ("www.gstatic.com"%string, 80)) as -> by reflexivity.
  cbn [mbind result_bind]. destruct (rd_connect d); simpl; [naive_solver|].
  destruct (rd_setup d); simpl; [naive_solver|].
  pose proof (socks5_connect_cases (rd_socks d) "www.gstatic.com" 80) as Hsocks.
  destruct (socks5_connect (rd_socks d) "www.gstatic.com" 80).1 as [rest|e]; simpl; [|naive_solver].
  destruct (rd_write d); simpl; [naive_solver|].
  destruct (read_http_exchange timeout (rd_events d)) as [x|e]; simpl; [|naive_solver].
  split.
  - intros (r & [= <-] & Hv). simpl in Hv. apply andb_true_iff in Hv as [Hs%Z.eqb_eq Hb%bool_decide_eq_true].
    eauto 10.
  - intros (_ & _ & _ & _ & y & [= <-] & Hs & Hb). eexists. split; [done|]. simpl. by rewrite Hs, Hb.
Qed.

(** A pump stream delivers the reads of its socket but the interrupted ones. *)
Lemma pump_reads_filter fuel events :
  (length events ≤ fuel)%nat →
  pump_reads fuel events =
  List.filter (λ e, match e.1 with RInterrupted => false | _ => true end) events.
Proof.
  revert fuel. induction events as [|[e t] events IH]; intros fuel Hf; [by destruct fuel|].
  simpl in Hf. destruct fuel as [|fuel]; [lia|]. destruct e; simpl; try (f_equal; apply IH; lia).
  rewrite <-(IH (S fuel)) by lia. done.
Qed.

(** What the socket took is always the start of the request, and the write succeeds
    exactly when that is all of it. *)
Lemma pump_write_all_spec fuel buffer events r sent :
  pump_write_all fuel buffer events = (r, sent) →
  (∃ rest, buffer = sent ++ rest) ∧ (r = Some (Ok ()) ↔ sent = buffer).
Proof.
  revert buffer events r sent. induction fuel as [|fuel IH]; intros [|a buffer] events r sent E; cbn in E; simplify_eq.
  - split; [by exists []|done].
  - split; [by eexists|done].
  - split; [by exists []|done].
  - destruct (pump_write events) as [[[[|n]| |msg]|] events'] eqn:Ew; cbn in E; simplify_eq;
      try (split; [by eexists|done]).
    destruct (pump_write_all fuel (drop n buffer) events') as [r' sent'] eqn:Er. simplify_eq.
    destruct (IH _ _ _ _ Er) as [[rest Hr] Hok]. split.
    + exists rest. cbn. f_equal. rewrite <-app_assoc, <-Hr. by rewrite take_drop.
    + rewrite Hok. split; [intros ->; by rewrite take_drop|].
      intros Heq. injection Heq as Heq. apply (app_inv_head (take n buffer)). by rewrite take_drop.
Qed.

(** A signal never turns a response that can be read into one that cannot. *)
Lemma pump_reads_headers timeout response events r fuel :
  (length events ≤ fuel)%nat → read_headers timeout response events = Ok r →
  read_headers timeout response (pump_reads fuel events) = Ok r.
Proof.
  intros Hf. rewrite pump_reads_filter by done. clear fuel Hf. revert response.
  induction events as [|[e t] events IH]; intros response; [done|]. cbn [List.filter fst].
  destruct (str_contains CRLFCRLF response) eqn:Ec.
  - intros Hr. rewrite read_headers_stop in Hr |- *; auto.
  - destruct e as [[|a s]| | |msg]; cbn [read_headers]; rewrite Ec; try done.
    + intros Hr. destruct (read_limits _ _ _); [|done]. by apply IH.
    + intros Hr. destruct (read_limits _ _ _); [|done]. by apply IH.
    + intros Hr. destruct (read_limits _ _ _); [|done]. by apply IH.
Qed.

(** A dial that is accepted makes the testbed ready although its own core has already
    exited: some other listener holds the port. *)
Lemma ready_without_core (deadline : Z) (c : Core) (t : Turn) :
  tn_connect t = true → exited_by c (tn_poll t) = true → wait_turn deadline c t = Some Ready.
Proof. intros Hc _. unfold wait_turn. by rewrite Hc. Qed.

(** *** Validations that overlap *)

(** Each of several validations creates and truncates the one file, writes its
    configuration from the start of it, and runs the check. *)
Inductive Phase := VStart | VCreated | VWritten | VDone (verdict : result Error ()).
Record Validators := { va_file : string; va_tasks : list (string * Phase) }.

(** Writing over the start of a file. *)
Definition overwrite (config file : string) : string :=
  config +:+ of_bytes (drop (String.length config) (bytes file)).

Inductive validate_step (binary : string) : Validators → Validators → Prop :=
| step_create v i c : va_tasks v !! i = Some (c, VStart) →
    validate_step binary v {| va_file := EmptyString; va_tasks := <[i := (c, VCreated)]> (va_tasks v) |}
| step_write v i c : va_tasks v !! i = Some (c, VCreated) →
    validate_step binary v {| va_file := overwrite c (va_file v);
                       va_tasks := <[i := (c, VWritten)]> (va_tasks v) |}
| step_check v i c : va_tasks v !! i = Some (c, VWritten) →
    validate_step binary v {| va_file := va_file v;
                       va_tasks := <[i := (c, VDone (check_verdict binary (va_file v)))]> (va_tasks v) |}.

(** Two validations that overlap can both be given the verdict of the second's file. *)
Lemma validation_race (binary a b file : string) :
  rtc (validate_step binary) {| va_file := file; va_tasks := [(b, VStart); (a, VStart)] |}
    {| va_file := a; va_tasks := [(b, VDone (check_verdict binary a)); (a, VDone (check_verdict binary a))] |}.
Proof.
  assert (overwrite a EmptyString = a) as Ha.
  { unfold overwrite. change (bytes EmptyString) with (@nil ascii). rewrite drop_nil.
    apply append_empty_r. }
  eapply rtc_l; [by apply (step_create _ _ 0 b)|]. eapply rtc_l; [by apply (step_write _ _ 0 b)|].
  eapply rtc_l; [by apply (step_create _ _ 1 a)|]. eapply rtc_l; [by apply (step_write _ _ 1 a)|].
  simpl. rewrite Ha.
  eapply rtc_l; [by apply (step_check _ _ 0 b)|]. eapply rtc_l; [by apply (step_check _ _ 1 a)|]. done.
Qed.
End Testbed.
#[global] Arguments Returns {A} r.
#[global] Arguments Panics {A}.
#[global] Arguments Hangs {A}.

(** ** Witnesses *)

#[local] Existing Instance Adapter.sample_printer.
#[local] Instance sample_durations : EgressLib := {| duration_debug _ := "1s" |}.
#[local] Instance sample_pretty : ControllerLib := {| to_vec_pretty _ := Ok "config"%stdpp |}.
#[local] Instance sample_box : SingBox := {| check_stderr _ _ := None |}.
#[local] Instance sample_testbed_lib : TestbedLib :=
  {| to_vec _ := Ok "config"%stdpp; temp_dir := "/tmp"; process_id := 7; path_debug p := p |}.

(** A core that lives for a minute, and one that never exits. *)
Definition sample_core (exit : option Z) : Core :=
  {| co_exit := exit; co_status := "ExitStatus(0)"; co_stderr := "" |}.
(** The listener opens at the given turn. *)
Definition sample_turns (opens : nat) (i : nat) : Turn :=
  {| tn_connect := (opens <=? i)%nat; tn_wait := None;
     tn_poll := Z.of_nat i * WAIT_POLL; tn_now := Z.of_nat i * WAIT_POLL |}.
Lemma sample_paced (opens : nat) : paced (sample_turns opens).
Proof. split; simpl; [done|]. intros i. lia. Qed.

Lemma wait_until_ready_spec_witness :
  wait_until_ready (10 * SECOND) (sample_core None) (sample_turns 1000) = Some ReadsForever ∧
  ∃ n w, wait_until_ready (10 * SECOND) (sample_core (Some (60 * SECOND))) (sample_turns 3) = Some w ∧
    tn_connect (sample_turns 3 n) = true.
Proof.
  split; [vm_compute; reflexivity|].
  destruct (wait_until_ready_spec (10 * SECOND) (sample_core (Some (60 * SECOND))) (sample_turns 3)
    ltac:(discriminate) (sample_paced 3)) as [(n & w & _ & Hw & _ & Hc) _].
  exists n, w. split; [exact Hw|].
  assert (wait_until_ready (10 * SECOND) (sample_core (Some (60 * SECOND))) (sample_turns 3) = Some Ready)
    as E by (vm_compute; reflexivity).
  rewrite E in Hw. injection Hw as <-. exact Hc.
Defined.

(** One operator, asked by one worker. *)
Definition sample_config : ScatterConfig :=
  {| sc_operators := take 1 EGRESS_TARGETS; sc_real_sites := []; sc_real_count := 0;
     sc_min_verified := 1; sc_timeout := 10 * SECOND; sc_max_concurrency := 1 |}.
Definition sample_dial : Dial :=
  {| dl_connect := None; dl_socks := sample_socks; dl_tls := None;
     dl_write := None; dl_events := [(RBytes ("HTTP/1.1 204 No Content" +:+ CRLFCRLF), 5)];
     dl_latency := 5 |}.
Definition sample_boot (opens : nat) (exit : option Z) : BootIo :=
  {| bo_validate := vi_fine; bo_dir := None; bo_file := None; bo_spawn := None;
     bo_core := sample_core exit; bo_turns := sample_turns opens |}.
Definition sample_trial_io (opens : nat) (exit : option Z) : TrialIo :=
  {| tr_port := Ok 40000; tr_boot := sample_boot opens exit; tr_seed := 1;
     tr_dials _ _ := sample_dial; tr_sent := [0%nat] |}.

Lemma sample_scatter_run : scatter_run sample_config 1 [0%nat].
Proof. apply (scatter_run_in_order sample_config 1). simpl. lia. Qed.

Lemma egress_trial_spec_witness :
  (∃ r os', test_egress_scatter (sample_trial_io 3 (Some (60 * SECOND))) "sing-box" (sample_node 1 "DE")
      sample_config Os_initial = (Returns (Ok r), os') ∧
    sr_passes r = true ∧ ∃ port text, os_children os' = [core_on "sing-box" port text Reaped]) ∧
  ∃ os', test_egress_scatter (sample_trial_io 1000 None) "sing-box" (sample_node 1 "DE")
      sample_config Os_initial = (Hangs, os') ∧ map ps_state (os_children os') = [Running].
Proof.
  split.
  - pose proof (egress_trial_spec (sample_trial_io 3 (Some (60 * SECOND))) "sing-box" (sample_node 1 "DE")
      sample_config Os_initial (sample_paced 3) sample_scatter_run) as Hc.
    assert ((λ o, match o with Returns (Ok r) => sr_passes r | _ => false end)
      (test_egress_scatter (sample_trial_io 3 (Some (60 * SECOND))) "sing-box" (sample_node 1 "DE")
        sample_config Os_initial).1 = true) as E by (vm_compute; reflexivity).
    destruct (test_egress_scatter _ _ _ _ _) as [[[r|e]| |] os']; try discriminate E.
    destruct Hc as (port & text & _ & _ & _ & Ho). exists r, os'. split_and!; [done|exact E|].
    exists port, text. exact Ho.
  - eexists. split; vm_compute; reflexivity.
Defined.

Lemma shortlist_is_proven_witness :
  let env := λ _ : CanonicalNode, sample_trial_io 3 (Some (60 * SECOND)) in
  (∃ r os', run_trials env "sing-box" sample_config sample_candidates Os_initial = (Returns (Ok r), os') ∧
    length (os_children os') = length sample_candidates) ∧
  ∃ ranked s, tiered_shortlist sample_sweep (node_trial env "sing-box" sample_config)
      sample_candidates PreflightConfig_default sample_config 1 = Some ranked ∧
    s ∈ ranked ∧ cs_passes s = true ∧
    ∃ n, sample_candidates !! cs_node_index s = Some n ∧ proven "sing-box" sample_config (env n) n.
Proof.
  intros env.
  destruct (shortlist_is_proven sample_sweep env "sing-box" sample_candidates PreflightConfig_default
    sample_config 1 Os_initial) as [Hends (ranked & E & Hall)].
  - apply Forall_forall. intros n _. split; [apply sample_paced|apply sample_scatter_run].
  - vm_compute. lia.
  - split.
    { destruct (Hends ltac:(apply Forall_forall; intros n _; by eexists) sample_candidates ltac:(done))
        as (os' & l & Hr & _).
      exists (run_egress_trials (node_trial env "sing-box" sample_config) sample_candidates), os'.
      split; [exact Hr|]. apply (f_equal (λ o, length (os_children o.2))) in Hr. cbn [snd] in Hr.
      rewrite <-Hr. vm_compute. reflexivity. }
    assert ((λ o, match o with Some (s :: _) => cs_passes s | _ => false end)
      (tiered_shortlist sample_sweep (node_trial env "sing-box" sample_config)
        sample_candidates PreflightConfig_default sample_config 1) = true) as Ep by (vm_compute; reflexivity).
    rewrite E in Ep. destruct ranked as [|s l]; [discriminate Ep|].
    destruct (Hall s (list_elem_of_here s l) Ep) as (n & Hn & Hp).
    exists (s :: l), s. split; [exact E|]. split; [apply list_elem_of_here|]. split; [exact Ep|].
    exists n. exact (conj Hn Hp).
Defined.
