(* ===== verification/Watchdog.v ===== *)
(** The egress watchdog ([crates/controller/src/proxy_controller.rs], from
    [FailoverConfig] on): one failover cycle and the loop around it.

    As in the program every effect goes through the injected hooks.  A hook is a
    function of the world, which is the controller and everything that happened
    so far, so its answers may change from call to call; the trace of the hooks'
    events is what the theorems speak about.  An index out of range is a panic:
    [None]. *)

From S2P Require Import Prelude RustStr Ir Metadata Uri Json Adapter Repository Store Egress Score F64 SocketHealth AutoSelect Supervisor Controller.

(** ** Configuration and status *)

Record FailoverConfig := {
  fc_interval : Z;
  fc_required_consecutive_failures : nat;
  fc_min_time_since_manual_switch : Z;
  fc_cooldown_after_auto_switch : Z;
  fc_rescore_limit : nat;
  fc_background_rescore_cycles : Z;
  fc_quiet_hours_utc : option (Z * Z);
  fc_tunnel_health_floor : option Z;
  fc_auto_select_on_idle : bool
}.
Definition FailoverConfig_default : FailoverConfig :=
  {| fc_interval := 180 * SECOND; fc_required_consecutive_failures := 2;
     fc_min_time_since_manual_switch := 300 * SECOND;
     fc_cooldown_after_auto_switch := 300 * SECOND; fc_rescore_limit := 8;
     fc_background_rescore_cycles := 4; fc_quiet_hours_utc := None;
     fc_tunnel_health_floor := Some 35; fc_auto_select_on_idle := true |}.

Inductive FailoverAction :=
| Healthy
| Inspecting (failures : nat)
| Rearmed (shortlist : nat)
| Switched (label : string)
| AdoptedNode (label : string)       (** [Adopted] *)
| Unconfirmed
| Degraded
| Healed (label : string)
| ManualWindow
| Cooldown
| Idle
| ActionError (msg : string).        (** [Error] *)

Definition is_intervention (a : FailoverAction) : bool :=
  match a with Switched _ | AdoptedNode _ | Degraded | Healed _ => true | _ => false end.

Record FailoverStatus := {
  fs_active_node : option string;
  fs_degraded : bool;
  fs_consecutive_failures : nat;
  fs_last_action : option FailoverAction;
  fs_last_action_at : option Z;
  fs_shortlist : list CandidateScore;
  fs_cycles_since_rescore : Z;
  fs_selector : AutoSelector
}.
Definition FailoverStatus_default : FailoverStatus :=
  {| fs_active_node := None; fs_degraded := false; fs_consecutive_failures := 0;
     fs_last_action := None; fs_last_action_at := None; fs_shortlist := [];
     fs_cycles_since_rescore := 0; fs_selector := AutoSelector_new AutoSelectConfig_default |}.

Definition with_view (s : FailoverStatus) (active : option string) (degraded : bool) : FailoverStatus :=
  {| fs_active_node := active; fs_degraded := degraded;
     fs_consecutive_failures := fs_consecutive_failures s; fs_last_action := fs_last_action s;
     fs_last_action_at := fs_last_action_at s; fs_shortlist := fs_shortlist s;
     fs_cycles_since_rescore := fs_cycles_since_rescore s; fs_selector := fs_selector s |}.
Definition with_failures (s : FailoverStatus) (n : nat) : FailoverStatus :=
  {| fs_active_node := fs_active_node s; fs_degraded := fs_degraded s; fs_consecutive_failures := n;
     fs_last_action := fs_last_action s; fs_last_action_at := fs_last_action_at s;
     fs_shortlist := fs_shortlist s; fs_cycles_since_rescore := fs_cycles_since_rescore s;
     fs_selector := fs_selector s |}.
Definition with_shortlist (s : FailoverStatus) (l : list CandidateScore) : FailoverStatus :=
  {| fs_active_node := fs_active_node s; fs_degraded := fs_degraded s;
     fs_consecutive_failures := fs_consecutive_failures s; fs_last_action := fs_last_action s;
     fs_last_action_at := fs_last_action_at s; fs_shortlist := l;
     fs_cycles_since_rescore := fs_cycles_since_rescore s; fs_selector := fs_selector s |}.
Definition with_cycles (s : FailoverStatus) (n : Z) : FailoverStatus :=
  {| fs_active_node := fs_active_node s; fs_degraded := fs_degraded s;
     fs_consecutive_failures := fs_consecutive_failures s; fs_last_action := fs_last_action s;
     fs_last_action_at := fs_last_action_at s; fs_shortlist := fs_shortlist s;
     fs_cycles_since_rescore := n; fs_selector := fs_selector s |}.
Definition with_selector (s : FailoverStatus) (x : AutoSelector) : FailoverStatus :=
  {| fs_active_node := fs_active_node s; fs_degraded := fs_degraded s;
     fs_consecutive_failures := fs_consecutive_failures s; fs_last_action := fs_last_action s;
     fs_last_action_at := fs_last_action_at s; fs_shortlist := fs_shortlist s;
     fs_cycles_since_rescore := fs_cycles_since_rescore s; fs_selector := x |}.
Definition with_last_action (s : FailoverStatus) (a : FailoverAction) (now : Z) : FailoverStatus :=
  {| fs_active_node := fs_active_node s; fs_degraded := fs_degraded s;
     fs_consecutive_failures := fs_consecutive_failures s; fs_last_action := Some a;
     fs_last_action_at := Some now; fs_shortlist := fs_shortlist s;
     fs_cycles_since_rescore := fs_cycles_since_rescore s; fs_selector := fs_selector s |}.

(** ** The world and the hooks *)

Inductive HookEvent :=
| EvProbe (n : CanonicalNode) (report : result Error ScatterReport)
| EvRescore (scores : result Error (list CandidateScore))
| EvSwitch (n : CanonicalNode) (automatic : bool) (outcome : result Error string)
| EvDegrade
| EvTelemetry (n : CanonicalNode) (health : option TunnelHealth).

Record World := { w_controller : Controller; w_trace : list HookEvent }.
Definition happened (w : World) (e : HookEvent) : World :=
  {| w_controller := w_controller w; w_trace := w_trace w ++ [e] |}.

(** A hook reads the world; the switch and the degradation give the controller
    they leave.  A rescoring can panic: [None].  [fh_now] and [fh_utc_secs] are the
    clocks. *)
Record FailoverHooks := {
  fh_probe : World → CanonicalNode → ScatterConfig → result Error ScatterReport;
  fh_rescore : World → list CanonicalNode → ScatterConfig → nat → option (result Error (list CandidateScore));
  fh_switch_node : World → CanonicalNode → bool → result Error string * Controller;
  fh_degrade : World → Controller;
  fh_tunnel_health : option (World → CanonicalNode → option TunnelHealth);
  fh_now : World → Z;
  fh_utc_secs : World → Z
}.

Section Cycle.
Context `{SelectLib} `{IdentityHash} `{NodeCodec}.
Variables (hooks : FailoverHooks) (config : FailoverConfig).

(** Calls of the hooks. *)
Definition do_probe (w : World) (n : CanonicalNode) (cfg : ScatterConfig) : result Error ScatterReport * World :=
  let r := fh_probe hooks w n cfg in (r, happened w (EvProbe n r)).
Definition do_rescore (w : World) (l : list CanonicalNode) (cfg : ScatterConfig)
  : option (result Error (list CandidateScore) * World) :=
  r ← fh_rescore hooks w l cfg (fc_rescore_limit config); Some (r, happened w (EvRescore r)).
Definition do_switch (w : World) (n : CanonicalNode) : result Error string * World :=
  let '(r, c) := fh_switch_node hooks w n true in
  (r, happened {| w_controller := c; w_trace := w_trace w |} (EvSwitch n true r)).
Definition do_degrade (w : World) : World :=
  happened {| w_controller := fh_degrade hooks w; w_trace := w_trace w |} EvDegrade.

(** [Ok(report) if report.passes]. *)
Definition passed (r : result Error ScatterReport) : bool :=
  match r with Ok report => sr_passes report | Err _ => false end.

Definition candidate_pairs (w : World) : result Error (list Z * list CanonicalNode) :=
  targets ← load_probe_targets (w_controller w);
  Ok (map fst targets, map snd targets).
Definition candidate_nodes (w : World) : result Error (list CanonicalNode) :=
  snd <$> candidate_pairs w.

(** [since.elapsed() < limit]. *)
Definition younger (w : World) (since : option Z) (limit : Z) : bool :=
  match since with
  | Some t => saturating_sub (fh_now hooks w) t <? limit
  | None => false
  end.

(** ** The parts of a cycle *)

Definition rescore (cfg : ScatterConfig) (w : World) (s : FailoverStatus)
  : option (option nat * World * FailoverStatus) :=
  match candidate_nodes w with
  | Err _ => Some (None, w, s)
  | Ok candidates =>
    '(r, w) ← do_rescore w candidates cfg;
    match r with
    | Err _ => Some (None, w, s)
    | Ok shortlist => Some (Some (length shortlist), w, with_shortlist s shortlist)
    end
  end.

Definition tunnel_confirms_trouble (active : CanonicalNode) (w : World) : bool * World :=
  match fc_tunnel_health_floor config, fh_tunnel_health hooks with
  | Some floor, Some hook =>
    let h := hook w active in
    (match h with Some health => th_grade health <? floor | None => false end,
     happened w (EvTelemetry active h))
  | _, _ => (false, w)
  end.

(** [((secs / 3600) % 24) as u8]. *)
Definition utc_hour (w : World) : Z := fh_utc_secs hooks w / 3600 mod 24.
Definition in_window (start end_ hour : Z) : bool :=
  if start <=? end_ then (start <=? hour) && (hour <? end_) else (start <=? hour) || (hour <? end_).
Definition in_quiet_hours (w : World) : bool :=
  match fc_quiet_hours_utc config with
  | None => false
  | Some (start, end_) => in_window start end_ (utc_hour w)
  end.

Definition should_refresh_shortlist (w : World) (s : FailoverStatus) : bool * FailoverStatus :=
  let n := wrapping_add 32 (fs_cycles_since_rescore s) 1 in
  let s := with_cycles s n in
  let by_cadence := (0 <? fc_background_rescore_cycles config) && (fc_background_rescore_cycles config <=? n) in
  (by_cadence || in_quiet_hours w, s).

(** The loop of [escalate] over the ranking. *)
Fixpoint confirm_loop (cfg : ScatterConfig) (nodes : list CanonicalNode) (ranked : list RankedNode)
    (saw_a_passer : bool) (w : World) (s : FailoverStatus)
  : option (FailoverAction * World * FailoverStatus) :=
  match ranked with
  | [] =>
    if saw_a_passer then Some (Unconfirmed, w, s)
    else Some (Degraded, do_degrade w, with_failures s 0)
  | entry :: ranked =>
    candidate ← nodes !! rn_node_index entry;
    let '(r, w) := do_probe w candidate cfg in
    if passed r then
      let '(r, w) := do_switch w candidate in
      Some (match r with
            | Ok label => (Switched label, w, with_failures s 0)
            | Err e => (ActionError ("switch failed: " +:+ error_alternate e), w, s)
            end)
    else confirm_loop cfg nodes ranked true w s
  end.

Definition escalate (cfg : ScatterConfig) (active : CanonicalNode) (w : World) (s : FailoverStatus)
  : option (FailoverAction * World * FailoverStatus) :=
  match candidate_pairs w with
  | Err e => Some (ActionError ("catalog unavailable: " +:+ error_alternate e), w, s)
  | Ok (ids, nodes) =>
    '(r, w) ← do_rescore w nodes cfg;
    match r with
    | Err e => Some (ActionError ("rescore failed: " +:+ error_alternate e), w, s)
    | Ok shortlist =>
      let shortlist := List.filter (λ score, negb (String.eqb (cs_label score) (label (meta active)))) shortlist in
      let now := fh_now hooks w in
      let s := with_selector s (observe_round (fs_selector s) ids shortlist now) in
      let s := with_shortlist s shortlist in
      let ranked := rank_working_nodes shortlist (as_tracks (fs_selector s)) ids
                      (as_config (fs_selector s)) now in
      confirm_loop cfg nodes ranked false w s
    end
  end.

(** The loop of [heal_or_stay_degraded]. *)
Fixpoint heal_loop (cfg : ScatterConfig) (candidates : list CanonicalNode) (scores : list CandidateScore)
    (w : World) (s : FailoverStatus) : option (FailoverAction * World * FailoverStatus) :=
  match scores with
  | [] => Some (Degraded, w, s)
  | score :: scores =>
    candidate ← candidates !! cs_node_index score;
    let '(r, w) := do_probe w candidate cfg in
    if passed r then
      let '(r, w) := do_switch w candidate in
      match r with
      | Ok label => Some (Healed label, w, with_failures s 0)
      | Err _ => heal_loop cfg candidates scores w s
      end
    else heal_loop cfg candidates scores w s
  end.

Definition heal_or_stay_degraded (cfg : ScatterConfig) (w : World) (s : FailoverStatus)
  : option (FailoverAction * World * FailoverStatus) :=
  match candidate_nodes w with
  | Err _ => Some (Degraded, w, s)
  | Ok candidates =>
    '(r, w) ← do_rescore w candidates cfg;
    match r with
    | Err _ => Some (Degraded, w, s)
    | Ok shortlist =>
      heal_loop cfg candidates (List.filter cs_passes shortlist) w (with_shortlist s shortlist)
    end
  end.

(** [None] inside is the source's [None]: nothing to select from. *)
Definition auto_adopt (cfg : ScatterConfig) (w : World) (s : FailoverStatus)
  : option (option FailoverAction * World * FailoverStatus) :=
  match candidate_pairs w with
  | Err _ => Some (None, w, s)
  | Ok (ids, []) => Some (None, w, s)
  | Ok (ids, nodes) =>
    '(r, w) ← do_rescore w nodes cfg;
    match r with
    | Err _ => Some (None, w, s)
    | Ok scores =>
      let now := fh_now hooks w in
      let s := with_selector s (observe_round (fs_selector s) ids scores now) in
      let s := with_shortlist s scores in
      match rank_working_nodes scores (as_tracks (fs_selector s)) ids (as_config (fs_selector s)) now with
      | [] => Some (Some Degraded, w, s)
      | best :: _ =>
        node ← nodes !! rn_node_index best;
        let '(r, w) := do_switch w node in
        Some (match r with
              | Ok label => (Some (AdoptedNode label), w, with_failures s 0)
              | Err e => (Some (ActionError ("auto-select switch failed: " +:+ error_alternate e)), w, s)
              end)
      end
    end
  end.

(** The two branches of the probe of the active node. *)
Definition on_pass (cfg : ScatterConfig) (w : World) (s : FailoverStatus)
  : option (FailoverAction * World * FailoverStatus) :=
  let s := with_failures s 0 in
  let '(refresh, s) := should_refresh_shortlist w s in
  if refresh then
    '(rearmed, w, s) ← rescore cfg w s;
    match rearmed with
    | Some len => Some (Rearmed len, w, with_cycles s 0)
    | None => Some (Healthy, w, s)
    end
  else Some (Healthy, w, s).

Definition on_failure (cfg : ScatterConfig) (active : CanonicalNode) (w : World) (s : FailoverStatus)
  : option (FailoverAction * World * FailoverStatus) :=
  let failures := S (fs_consecutive_failures s) in
  let s := with_failures s failures in
  let '(corroborated, w) := tunnel_confirms_trouble active w in
  let required := if corroborated then 1%nat else fc_required_consecutive_failures config in
  if (failures <? required)%nat then
    '(_, w, s) ← rescore cfg w s; Some (Inspecting failures, w, s)
  else if younger w (ct_last_auto_switch (w_controller w)) (fc_cooldown_after_auto_switch config)
  then Some (Cooldown, w, s)
  else escalate cfg active w s.

Definition run_failover_cycle (w : World) (s : FailoverStatus)
  : option (FailoverAction * World * FailoverStatus) :=
  let c := w_controller w in
  let cfg := scatter_config (ct_settings c) in
  let s := with_view s ((λ n, label (meta n)) <$> ct_active_node c) (ct_degraded c) in
  if ct_degraded c then heal_or_stay_degraded cfg w s
  else match ct_active_node c with
       | None =>
         if fc_auto_select_on_idle config then
           '(a, w, s) ← auto_adopt cfg w s; Some (default Idle a, w, s)
         else Some (Idle, w, with_shortlist s [])
       | Some active =>
         if younger w (ct_last_manual_switch c) (fc_min_time_since_manual_switch config)
         then Some (ManualWindow, w, s)
         else
           let '(r, w) := do_probe w active cfg in
           if passed r then on_pass cfg w s else on_failure cfg active w s
       end.

(** One turn of the watchdog's loop. *)
Definition watchdog_turn (w : World) (s : FailoverStatus) : option (World * FailoverStatus) :=
  '(a, w, s) ← run_failover_cycle w s;
  Some (w, with_last_action s a (fh_now hooks w)).
End Cycle.

(** The production hooks: trials and sweeps are observations, the switch and the
    degradation are the controller's; a rescoring is the shortlist, and panics where
    it does. *)
Definition real_hooks `{SelectLib} `{AdapterLib} `{CoreLib} `{ControllerLib}
    (trial : World → ScatterConfig → CanonicalNode → result Error ScatterReport)
    (sweep : World → list CanonicalNode → PreflightConfig → list CheapOutcome)
    (io : World → SwitchIo) (now utc_secs : World → Z) : FailoverHooks :=
  {| fh_probe := λ w n cfg, trial w cfg n;
     fh_rescore := λ w l cfg limit,
       Ok <$> tiered_shortlist (sweep w) (trial w cfg) l PreflightConfig_default cfg limit;
     fh_switch_node := λ w n automatic, switch_node (io w) (now w) (w_controller w) n automatic;
     fh_degrade := λ w, degrade_to_direct (w_controller w);
     fh_tunnel_health := Some (λ _ n, tunnel_health n HealthThresholds_default);
     fh_now := now;
     fh_utc_secs := utc_secs |}.

(** ** Lemmas: traces *)

Definition is_switch (e : HookEvent) : bool := match e with EvSwitch _ _ _ => true | _ => false end.

(** Traces in which a switch comes right after a passing probe of the same node. *)
Inductive confirmed : list HookEvent → Prop :=
| confirmed_nil : confirmed []
| confirmed_other e l : is_switch e = false → confirmed l → confirmed (e :: l)
| confirmed_switch n r o l : passed r = true → confirmed l →
    confirmed (EvProbe n r :: EvSwitch n true o :: l).
#[local] Hint Constructors confirmed : watchdog.

Lemma confirmed_app l k : confirmed l → confirmed k → confirmed (l ++ k).
Proof. induction 1; simpl; auto with watchdog. Qed.

Lemma confirmed_split l pre n b o post :
  confirmed l → l = pre ++ EvSwitch n b o :: post →
  b = true ∧ ∃ pre' r, pre = pre' ++ [EvProbe n r] ∧ passed r = true.
Proof.
  intros Hc. revert pre. induction Hc as [|e l He Hl IH|m r o' l Hr Hl IH]; intros pre E.
  - by destruct pre.
  - destruct pre as [|e' pre]; injection E as -> E; [discriminate He|].
    destruct (IH pre E) as (-> & pre' & r & -> & Hr). split; [done|]. by exists (e' :: pre'), r.
  - destruct pre as [|e1 [|e2 pre]]; simplify_eq/=.
    + split; [done|]. by exists [], r.
    + destruct (IH pre eq_refl) as (-> & pre' & r' & -> & Hr').
      split; [done|]. by exists (EvProbe m r :: EvSwitch m true o' :: pre'), r'.
Qed.

Section Theorems.
Context `{SelectLib} `{IdentityHash} `{NodeCodec}.
Variables (hooks : FailoverHooks) (config : FailoverConfig).

Lemma do_switch_trace w n : w_trace (do_switch hooks w n).2 = w_trace w ++ [EvSwitch n true (do_switch hooks w n).1].
Proof. unfold do_switch. by destruct (fh_switch_node hooks w n true). Qed.

Lemma tunnel_trace active w :
  w_controller (tunnel_confirms_trouble hooks config active w).2 = w_controller w ∧
  ((w_trace (tunnel_confirms_trouble hooks config active w).2 = w_trace w ∧
    (tunnel_confirms_trouble hooks config active w).1 = false) ∨
   ∃ h, w_trace (tunnel_confirms_trouble hooks config active w).2 = w_trace w ++ [EvTelemetry active h] ∧
     ((tunnel_confirms_trouble hooks config active w).1 = true →
      ∃ health floor, h = Some health ∧ fc_tunnel_health_floor config = Some floor ∧ th_grade health < floor)).
Proof.
  unfold tunnel_confirms_trouble.
  destruct (fc_tunnel_health_floor config) as [floor|], (fh_tunnel_health hooks) as [hook|];
    simpl; split; try done; try (by left). right. exists (hook w active). split; [done|].
  destruct (hook w active) as [health|]; [|done]. intros Hl%Z.ltb_lt. by exists health, floor.
Qed.

Lemma rescore_trace cfg w s o w' s' :
  rescore hooks config cfg w s = Some (o, w', s') →
  w_controller w' = w_controller w ∧ fs_consecutive_failures s' = fs_consecutive_failures s ∧
  (w_trace w' = w_trace w ∨ ∃ r, w_trace w' = w_trace w ++ [EvRescore r]).
Proof.
  unfold rescore. destruct (candidate_nodes w) as [l|e]; [|by intros [= <- <- <-]; auto].
  unfold do_rescore. destruct (fh_rescore hooks w l cfg _) as [[scores|e]|]; cbn; intros E; simplify_eq;
    split_and!; eauto.
Qed.

(** What the kernel's telemetry says when it confirms the trouble of a node. *)
Definition below_floor (active : CanonicalNode) (w : World) : Prop :=
  ∃ hook health floor, fh_tunnel_health hooks = Some hook ∧ hook w active = Some health ∧
    fc_tunnel_health_floor config = Some floor ∧ th_grade health < floor.

Lemma tunnel_confirms active w w2 :
  tunnel_confirms_trouble hooks config active w = (true, w2) → below_floor active w.
Proof.
  unfold tunnel_confirms_trouble, below_floor.
  destruct (fc_tunnel_health_floor config) as [floor|], (fh_tunnel_health hooks) as [hook|]; try done.
  destruct (hook w active) as [health|] eqn:Eh; [|done]. intros [= Hl%Z.ltb_lt _]. by exists hook, health, floor.
Qed.

(** The last hook that ran was a successful switch to [n], which left [w']. *)
Definition switched (w0 : World) (n : CanonicalNode) (w' : World) : Prop :=
  ∃ msg, fh_switch_node hooks w0 n true = (Ok msg, w_controller w').
Definition last_switch_of (ev : list HookEvent) (n : CanonicalNode) : Prop :=
  ∃ msg, last ev = Some (EvSwitch n true (Ok msg)).

Lemma last_switch_of_cons e ev n : last_switch_of ev n → last_switch_of (e :: ev) n.
Proof. intros [msg Hl]. exists msg. by rewrite last_cons, Hl. Qed.

Lemma do_switch_Ok w n msg w' : do_switch hooks w n = (Ok msg, w') → switched w n w'.
Proof.
  unfold do_switch, switched. destruct (fh_switch_node hooks w n true) as [r c] eqn:E.
  intros [= -> <-]. simpl. by exists msg.
Qed.

(** The confirmation loop: its trace, and what its answer means. *)
Lemma confirm_loop_trace cfg nodes ranked saw w s a w' s' :
  confirm_loop hooks cfg nodes ranked saw w s = Some (a, w', s') →
  ∃ ev, w_trace w' = w_trace w ++ ev ∧ confirmed ev ∧
    (EvDegrade ∈ ev → ranked = [] ∧ saw = false ∧ ev = [EvDegrade] ∧ a = Degraded) ∧
    match a with
    | Switched _ => fs_consecutive_failures s' = O ∧ ∃ n w0, switched w0 n w' ∧ last_switch_of ev n
    | Degraded => ev = [EvDegrade]
    | Unconfirmed => w_controller w' = w_controller w
    | ActionError _ => True
    | _ => False
    end.
Proof.
  revert saw w. induction ranked as [|entry ranked IH]; intros saw w E; cbn [confirm_loop] in E.
  - destruct saw; injection E as <- <- <-.
    + exists []. rewrite app_nil_r. split_and!; auto with watchdog. intros Hx. inversion Hx.
    + exists [EvDegrade]. split_and!; auto with watchdog.
  - destruct (nodes !! rn_node_index entry) as [n|]; [|discriminate]. simpl in E.
    set (r := fh_probe hooks w n cfg) in *. destruct (passed r) eqn:Er.
    + pose proof (do_switch_trace (happened w (EvProbe n r)) n) as Ht.
      destruct (do_switch hooks (happened w (EvProbe n r)) n) as [o w2] eqn:Es. simpl in Ht.
      injection E as E. exists [EvProbe n r; EvSwitch n true o].
      split_and!; [|auto with watchdog| |].
      * destruct o; simplify_eq; rewrite Ht; simpl; by rewrite <-app_assoc.
      * intros Hx. set_solver.
      * destruct o as [lbl|e]; simplify_eq/=; [split; [done|]|done].
        exists n, (happened w (EvProbe n r)). split; [by eapply do_switch_Ok|by exists lbl].
    + destruct (IH true (happened w (EvProbe n r)) E) as (ev & Ht & Hc & Hd & Ha).
      exists (EvProbe n r :: ev). split_and!.
      * rewrite Ht; simpl; by rewrite <-app_assoc.
      * auto with watchdog.
      * intros [Hx|Hx]%elem_of_cons; [done|]. by destruct (Hd Hx) as (_ & ? & _).
      * destruct a; try done.
        -- destruct Ha as (Hf & m & w0 & Hs & Hl). split; [done|]. exists m, w0.
           by split; [|apply last_switch_of_cons].
        -- exfalso. rewrite Ha in Hd. by destruct (Hd ltac:(left)) as (_ & ? & _).
Qed.

Lemma heal_loop_trace cfg candidates scores w s a w' s' :
  heal_loop hooks cfg candidates scores w s = Some (a, w', s') →
  ∃ ev, w_trace w' = w_trace w ++ ev ∧ confirmed ev ∧ EvDegrade ∉ ev ∧
    match a with
    | Healed _ => fs_consecutive_failures s' = O ∧ ∃ n w0, switched w0 n w' ∧ last_switch_of ev n
    | Degraded => ∀ n o, EvSwitch n true (Ok o) ∉ ev
    | _ => False
    end.
Proof.
  revert w. induction scores as [|score scores IH]; intros w E; cbn [heal_loop] in E.
  { injection E as <- <- <-. exists []. rewrite app_nil_r. split_and!; auto with watchdog; set_solver. }
  destruct (candidates !! cs_node_index score) as [n|]; [|discriminate]. simpl in E.
  set (r := fh_probe hooks w n cfg) in *. destruct (passed r) eqn:Er.
  - pose proof (do_switch_trace (happened w (EvProbe n r)) n) as Ht.
    destruct (do_switch hooks (happened w (EvProbe n r)) n) as [o w2] eqn:Es. simpl in Ht.
    destruct o as [lbl|e].
    + injection E as <- <- <-. exists [EvProbe n r; EvSwitch n true (Ok lbl)].
      split_and!; auto with watchdog; [rewrite Ht; simpl; by rewrite <-app_assoc|set_solver|].
      exists n, (happened w (EvProbe n r)). split; [by eapply do_switch_Ok|by exists lbl].
    + destruct (IH _ E) as (ev & Ht' & Hc & Hd & Ha).
      exists (EvProbe n r :: EvSwitch n true (Err e) :: ev).
      split_and!; auto with watchdog; [by rewrite Ht', Ht, <-!app_assoc|set_solver|].
      destruct a; try done; [set_solver|]. destruct Ha as (Hf & m & w0 & Hs & Hl). split; [done|].
      exists m, w0. split; [done|]. by do 2 apply last_switch_of_cons.
  - destruct (IH _ E) as (ev & Ht' & Hc & Hd & Ha). exists (EvProbe n r :: ev).
    split_and!; auto with watchdog; [rewrite Ht'; simpl; by rewrite <-app_assoc|set_solver|].
    destruct a; try done; [set_solver|]. destruct Ha as (Hf & m & w0 & Hs & Hl). split; [done|].
    exists m, w0. by split; [|apply last_switch_of_cons].
Qed.

(** What an adoption knows of the node it switches to. *)
Definition adopted_from (w : World) (pre : list HookEvent) (n : CanonicalNode) : Prop :=
  ∃ ids nodes scores i, candidate_pairs w = Ok (ids, nodes) ∧ pre = [EvRescore (Ok scores)] ∧
    works scores i ∧ nodes !! i = Some n.

Lemma auto_adopt_trace cfg w s oa w' s' :
  auto_adopt hooks config cfg w s = Some (oa, w', s') →
  ∃ ev, w_trace w' = w_trace w ++ ev ∧ EvDegrade ∉ ev ∧
    (∀ pre n b o post, ev = pre ++ EvSwitch n b o :: post → b = true ∧ adopted_from w pre n) ∧
    match oa with
    | Some (AdoptedNode _) => fs_consecutive_failures s' = O ∧ ∃ n w0, switched w0 n w' ∧ last_switch_of ev n
    | Some Degraded | None => w_controller w' = w_controller w
    | Some (ActionError _) => True
    | _ => False
    end.
Proof.
  unfold auto_adopt. destruct (candidate_pairs w) as [[ids nodes]|e] eqn:Ep; intros E.
  2:{ injection E as <- <- <-. exists []. rewrite app_nil_r.
      split_and!; [done|set_solver| |done]. intros pre; by destruct pre. }
  destruct nodes as [|n0 nodes'] eqn:En.
  { injection E as <- <- <-. exists []. rewrite app_nil_r.
    split_and!; [done|set_solver| |done]. intros pre; by destruct pre. }
  rewrite <-En in *. clear En. unfold do_rescore in E.
  destruct (fh_rescore hooks w nodes cfg _) as [[scores|e]|] eqn:Er; cbn [mbind option_bind] in E; [| |discriminate].
  2:{ injection E as <- <- <-. eexists. split_and!; [done|set_solver| |done].
      intros [|x [|]]; naive_solver. }
  set (now := fh_now hooks _) in E. set (s1 := with_selector s _) in E.
  pose proof (ranked_works scores (as_tracks (fs_selector s1)) ids (as_config (fs_selector s1)) now) as Hw.
  change (fs_selector (with_shortlist s1 scores)) with (fs_selector s1) in E.
  destruct (rank_working_nodes scores (as_tracks (fs_selector s1)) ids (as_config (fs_selector s1)) now)
    as [|best rest].
  { injection E as <- <- <-. eexists. split_and!; [done|set_solver| |done]. intros [|x [|]]; naive_solver. }
  destruct (nodes !! rn_node_index best) as [n|] eqn:Hn; [|discriminate]. simpl in E.
  pose proof (do_switch_trace (happened w (EvRescore (Ok scores))) n) as Ht.
  destruct (do_switch hooks _ n) as [o w2] eqn:Es. simpl in Ht. exists [EvRescore (Ok scores); EvSwitch n true o].
  split_and!.
  - destruct o; injection E as <- <- <-; rewrite Ht; by rewrite <-app_assoc.
  - set_solver.
  - intros [|x [|y [|z pre]]] m b o' post Ev; simplify_eq/=. split; [done|].
    exists ids, nodes, scores, (rn_node_index best). split_and!; try done.
    apply Hw. exists best. split; [left|done].
  - destruct o as [lbl|e]; injection E as <- <- <-; [|done]. split; [done|].
    exists n, (happened w (EvRescore (Ok scores))). split; [by eapply do_switch_Ok|by exists lbl].
Qed.

Lemma escalate_trace cfg active w s a w' s' :
  escalate hooks config cfg active w s = Some (a, w', s') →
  ∃ ev, w_trace w' = w_trace w ++ ev ∧ confirmed ev ∧
    (EvDegrade ∈ ev → a = Degraded) ∧
    (a = Degraded → ∃ ids nodes scores, candidate_pairs w = Ok (ids, nodes) ∧
       fh_rescore hooks w nodes cfg (fc_rescore_limit config) = Some (Ok scores) ∧
       ev = [EvRescore (Ok scores); EvDegrade] ∧
       ∀ sc, sc ∈ scores → cs_passes sc = true → cs_label sc = label (meta active)) ∧
    match a with
    | Switched _ => fs_consecutive_failures s' = O ∧ ∃ n w0, switched w0 n w' ∧ last_switch_of ev n
    | Unconfirmed => w_controller w' = w_controller w
    | Degraded | ActionError _ => True
    | _ => False
    end.
Proof.
  unfold escalate. destruct (candidate_pairs w) as [[ids nodes]|e] eqn:Ep; intros E.
  2:{ injection E as <- <- <-. exists []. rewrite app_nil_r. split_and!; auto with watchdog; set_solver. }
  unfold do_rescore in E.
  destruct (fh_rescore hooks w nodes cfg _) as [[scores|e]|] eqn:Er; cbn [mbind option_bind] in E; [| |discriminate].
  2:{ injection E as <- <- <-. eexists. split_and!; eauto with watchdog; set_solver. }
  set (kept := List.filter _ scores) in E. set (now := fh_now hooks _) in E.
  set (s1 := with_selector s _) in E.
  change (fs_selector (with_shortlist s1 kept)) with (fs_selector s1) in E.
  apply confirm_loop_trace in E as (ev & Ht & Hc & Hd & Ha).
  exists (EvRescore (Ok scores) :: ev). split_and!.
  - rewrite Ht. simpl. by rewrite <-app_assoc.
  - auto with watchdog.
  - intros [Hx|Hx]%elem_of_cons; [done|]. by apply Hd.
  - intros ->. subst ev. exists ids, nodes, scores. split_and!; [done..|]. intros sc Hsc Hp.
    destruct (Hd ltac:(left)) as (Hr & _). destruct (String.eqb_spec (cs_label sc) (label (meta active))); [done|].
    exfalso. destruct (ranked_works kept (as_tracks (fs_selector s1)) ids (as_config (fs_selector s1)) now
      (cs_node_index sc)) as [Hw _]. destruct Hw as (r & Hin & _); [|rewrite Hr in Hin; inversion Hin].
    exists sc. split; [|done]. apply list_elem_of_In, filter_In. split; [by apply list_elem_of_In|].
    by destruct (String.eqb_spec (cs_label sc) (label (meta active))).
  - destruct a; try done. destruct Ha as (Hf & m & w0 & Hs & Hl). split; [done|]. exists m, w0.
    by split; [|apply last_switch_of_cons].
Qed.

(** After the probe of the active node: the trace, and the answer of each case. *)
Definition needed (corroborated : bool) : nat :=
  if corroborated then 1%nat else fc_required_consecutive_failures config.

Lemma on_pass_trace cfg w s a w' s' :
  on_pass hooks config cfg w s = Some (a, w', s') →
  (a = Healthy ∨ ∃ len, a = Rearmed len) ∧ w_controller w' = w_controller w ∧
  fs_consecutive_failures s' = O ∧ (w_trace w' = w_trace w ∨ ∃ r, w_trace w' = w_trace w ++ [EvRescore r]).
Proof.
  unfold on_pass. destruct (should_refresh_shortlist hooks config w (with_failures s 0)) as [b s1] eqn:Er.
  assert (fs_consecutive_failures s1 = O) as Hf by (unfold should_refresh_shortlist in Er; by injection Er as _ <-).
  destruct b; [|by intros [= <- <- <-]; auto].
  pose proof (rescore_trace cfg w s1) as Ht. destruct (rescore hooks config cfg w s1) as [[[[len|] w2] s2]|];
    cbn; intros E; simplify_eq; destruct (Ht _ _ _ eq_refl) as (Hw & Hs & Htr); split_and!; eauto; simpl; congruence.
Qed.

Lemma on_failure_trace cfg active w s a w' s' :
  on_failure hooks config cfg active w s = Some (a, w', s') →
  ∃ ev, w_trace w' = w_trace w ++ ev ∧ confirmed ev ∧
  let failures := S (fs_consecutive_failures s) in
  let '(corroborated, w1) := tunnel_confirms_trouble hooks config active w in
  if (failures <? needed corroborated)%nat
  then a = Inspecting failures ∧ w_controller w' = w_controller w ∧ fs_consecutive_failures s' = failures ∧
    EvDegrade ∉ ev
  else if younger hooks w1 (ct_last_auto_switch (w_controller w)) (fc_cooldown_after_auto_switch config)
  then a = Cooldown ∧ w_controller w' = w_controller w ∧ fs_consecutive_failures s' = failures ∧
    EvDegrade ∉ ev
  else ∃ ev1, w_trace w' = w_trace w1 ++ ev1 ∧ (EvDegrade ∈ ev → EvDegrade ∈ ev1) ∧
    escalate hooks config cfg active w1 (with_failures s failures) = Some (a, w', s').
Proof.
  unfold on_failure. pose proof (tunnel_trace active w) as [Hwc Htt].
  destruct (tunnel_confirms_trouble hooks config active w) as [co w1] eqn:Et. simpl in Hwc, Htt.
  assert (∃ ev0, w_trace w1 = w_trace w ++ ev0 ∧ confirmed ev0 ∧ EvDegrade ∉ ev0) as (ev0 & Ht0 & Hc0 & Hd0).
  { destruct Htt as [[Ht _]|(h & Ht & _)]; [exists []|exists [EvTelemetry active h]];
      rewrite ?app_nil_r; split_and!; auto with watchdog; set_solver. }
  fold (needed co). destruct (_ <? needed co)%nat.
  - pose proof (rescore_trace cfg w1 (with_failures s (S (fs_consecutive_failures s)))) as Hr.
    destruct (rescore hooks config cfg w1 _) as [[[o w2] s2]|]; cbn; intros E; simplify_eq.
    destruct (Hr _ _ _ eq_refl) as (Hc & Hf & [Htr|[r Htr]]).
    + exists ev0. by rewrite Htr, Hc, Hf, Hwc.
    + exists (ev0 ++ [EvRescore r]). rewrite Htr, Ht0, Hc, Hf, Hwc. split_and!; try done.
      * by rewrite <-app_assoc.
      * apply confirmed_app; auto with watchdog.
      * set_solver.
  - rewrite <-Hwc. destruct (younger hooks w1 _ _); intros E.
    + injection E as <- <- <-. exists ev0. by rewrite Hwc.
    + pose proof E as E'. apply escalate_trace in E' as (ev1 & Ht & Hc & Hd & _).
      exists (ev0 ++ ev1). rewrite Ht, Ht0. split_and!; [by rewrite <-app_assoc|by apply confirmed_app|].
      exists ev1. rewrite <-Ht0. split_and!; [done|set_solver|done].
Qed.

(** ** Theorems *)

Lemma switch_is_confirmed_cases (w : World) (s : FailoverStatus) (a : FailoverAction) (w' : World) (s' : FailoverStatus) :
  run_failover_cycle hooks config w s = Some (a, w', s') →
  ∃ ev, w_trace w' = w_trace w ++ ev ∧
    ∀ pre n automatic outcome post, ev = pre ++ EvSwitch n automatic outcome :: post →
      automatic = true ∧
      ((∃ pre' r, pre = pre' ++ [EvProbe n r] ∧ passed r = true) ∨
       (ct_active_node (w_controller w) = None ∧ ct_degraded (w_controller w) = false ∧
        adopted_from w pre n)).
Proof.
  assert (∀ ev, confirmed ev → ∀ pre n automatic (outcome : result Error string) post,
    ev = pre ++ EvSwitch n automatic outcome :: post → automatic = true ∧
      ((∃ pre' r, pre = pre' ++ [EvProbe n r] ∧ passed r = true) ∨
       (ct_active_node (w_controller w) = None ∧ ct_degraded (w_controller w) = false ∧
        adopted_from w pre n))) as Hc.
  { intros ev Hc pre n b o post E. destruct (confirmed_split ev pre n b o post Hc E) as [-> Hp]. auto. }
  unfold run_failover_cycle. set (cfg := scatter_config _). set (sv := with_view s _ _). intros E.
  destruct (ct_degraded (w_controller w)) eqn:Ed.
  { unfold heal_or_stay_degraded in E. destruct (candidate_nodes w) as [l|e].
    2:{ injection E as <- <- <-. exists []. rewrite app_nil_r. split; [done|]. apply Hc. auto with watchdog. }
    unfold do_rescore in E.
    destruct (fh_rescore hooks w l cfg _) as [[scores|e]|] eqn:Er; cbn [mbind option_bind] in E; [| |discriminate].
    2:{ injection E as <- <- <-. eexists. split; [done|]. apply Hc. auto with watchdog. }
    apply heal_loop_trace in E as (ev & Ht & Hcf & _).
    exists (EvRescore (Ok scores) :: ev). split; [rewrite Ht; simpl; by rewrite <-app_assoc|].
    apply Hc. auto with watchdog. }
  destruct (ct_active_node (w_controller w)) as [active|] eqn:Ea.
  2:{ destruct (fc_auto_select_on_idle config).
      - destruct (auto_adopt hooks config cfg w sv) as [[[oa w1] s1]|] eqn:Eo; [|discriminate].
        injection E as <- <- <-. apply auto_adopt_trace in Eo as (ev & Ht & _ & Hs & _).
        exists ev. split; [done|]. intros pre n b o post Ev. destruct (Hs _ _ _ _ _ Ev) as [-> Had]. auto.
      - injection E as <- <- <-. exists []. rewrite app_nil_r. split; [done|]. apply Hc. auto with watchdog. }
  destruct (younger hooks w _ _).
  { injection E as <- <- <-. exists []. rewrite app_nil_r. split; [done|]. apply Hc. auto with watchdog. }
  unfold do_probe in E. set (r := fh_probe hooks w active cfg) in *.
  assert (∃ ev, w_trace w' = w_trace (happened w (EvProbe active r)) ++ ev ∧ confirmed ev) as (ev & Ht & Hcf).
  { destruct (passed r).
    - apply on_pass_trace in E as (_ & _ & _ & [Ht|[x Ht]]); [exists []; rewrite app_nil_r|exists [EvRescore x]];
        auto with watchdog.
    - apply on_failure_trace in E as (ev & Ht & Hcf & _). by exists ev. }
  exists (EvProbe active r :: ev). split; [rewrite Ht; simpl; by rewrite <-app_assoc|].
  apply Hc. auto with watchdog.
Qed.

(** C2. Every switch of a cycle is automatic and is either of a node whose probe
    passed in the very step before it, or, with no active node and no degraded
    state, the adoption of a catalog node that passed its quorum in the scoring
    just done. *)
Theorem switch_is_confirmed (w : World) (s : FailoverStatus) (a : FailoverAction) (w' : World) (s' : FailoverStatus) :
  run_failover_cycle hooks config w s = Some (a, w', s') →
  ∃ ev, w_trace w' = w_trace w ++ ev ∧
    ∀ pre n automatic outcome post, ev = pre ++ EvSwitch n automatic outcome :: post →
      automatic = true ∧
      ((∃ pre' r, pre = pre' ++ [EvProbe n r] ∧ passed r = true) ∨
       (ct_active_node (w_controller w) = None ∧ ct_degraded (w_controller w) = false ∧
        adopted_from w pre n)).
Proof. apply switch_is_confirmed_cases. Qed.

(** C4. What a cycle does with an active node.  In the courtesy window of a manual
    switch it does nothing at all; a node that passes is never left, whatever the
    kernel says; a node that fails is only inspected until it failed often enough
    in a row, once if the kernel's telemetry is below the floor too, then it is
    left alone during the cooldown, and only then does the cycle escalate. *)
Theorem cycle_decision (w : World) (s : FailoverStatus) (a : FailoverAction) (w' : World) (s' : FailoverStatus)
    (active : CanonicalNode) :
  run_failover_cycle hooks config w s = Some (a, w', s') →
  ct_degraded (w_controller w) = false → ct_active_node (w_controller w) = Some active →
  let c := w_controller w in
  let report := fh_probe hooks w active (scatter_config (ct_settings c)) in
  let w1 := happened w (EvProbe active report) in
  let failures := S (fs_consecutive_failures s) in
  if younger hooks w (ct_last_manual_switch c) (fc_min_time_since_manual_switch config)
  then a = ManualWindow ∧ w' = w
  else if passed report
  then (a = Healthy ∨ ∃ len, a = Rearmed len) ∧ w_controller w' = c ∧ fs_consecutive_failures s' = O
  else
    let '(corroborated, w2) := tunnel_confirms_trouble hooks config active w1 in
    (corroborated = true → ∃ hook health floor, fh_tunnel_health hooks = Some hook ∧
       hook w1 active = Some health ∧ fc_tunnel_health_floor config = Some floor ∧ th_grade health < floor) ∧
    if (failures <? needed corroborated)%nat
    then a = Inspecting failures ∧ w_controller w' = c ∧ fs_consecutive_failures s' = failures
    else if younger hooks w2 (ct_last_auto_switch c) (fc_cooldown_after_auto_switch config)
    then a = Cooldown ∧ w_controller w' = c ∧ fs_consecutive_failures s' = failures
    else match a with
         | Switched _ => fs_consecutive_failures s' = O ∧ ∃ n w0, switched w0 n w'
         | Unconfirmed => w_controller w' = c
         | Degraded | ActionError _ => True
         | _ => False
         end.
Proof.
  intros E Hd Ha. unfold run_failover_cycle in E. rewrite Hd, Ha in E.
  cbv zeta in *. set (cfg := scatter_config (ct_settings (w_controller w))) in *.
  set (sv := with_view s _ _) in E.
  destruct (younger hooks w (ct_last_manual_switch _) _); [by injection E as <- <- <-|].
  unfold do_probe in E. set (r := fh_probe hooks w active cfg) in *. destruct (passed r).
  { apply on_pass_trace in E as (Hac & Hc & Hf & _). exact (conj Hac (conj Hc Hf)). }
  apply on_failure_trace in E as (ev & _ & _ & Hcase).
  destruct (tunnel_confirms_trouble hooks config active (happened w (EvProbe active r))) as [co w2] eqn:Et.
  change (fs_consecutive_failures sv) with (fs_consecutive_failures s) in Hcase.
  simpl in Hcase. split; [intros ->; by eapply tunnel_confirms|]. destruct (_ <? needed co)%nat; [tauto|].
  destruct (younger hooks w2 _ _); [tauto|].
  destruct Hcase as (ev1 & _ & _ & He). apply escalate_trace in He as (ev2 & _ & _ & _ & _ & He).
  destruct a; try done.
  - destruct He as (Hf & n & w0 & Hs & _). split; [done|]. by exists n, w0.
  - rewrite He. pose proof (tunnel_trace active (happened w (EvProbe active r))) as [Hw _]. by rewrite Et in Hw.
Qed.

(** What must hold for a cycle to drop the tunnel of [active]: the decisions up to the
    escalation, with the worlds they were taken in, and the scoring of the catalog
    that ends it. *)
Definition degrades_from (w : World) (failed_before : nat) (active : CanonicalNode) (w' : World) : Prop :=
  let c := w_controller w in
  let cfg := scatter_config (ct_settings c) in
  let report := fh_probe hooks w active cfg in
  let w1 := happened w (EvProbe active report) in
  ∃ corroborated w2 ids nodes scores,
    younger hooks w (ct_last_manual_switch c) (fc_min_time_since_manual_switch config) = false ∧
    passed report = false ∧
    tunnel_confirms_trouble hooks config active w1 = (corroborated, w2) ∧
    (corroborated = true → below_floor active w1) ∧
    ((if corroborated then 1%nat else fc_required_consecutive_failures config) ≤ S failed_before)%nat ∧
    younger hooks w2 (ct_last_auto_switch c) (fc_cooldown_after_auto_switch config) = false ∧
    candidate_pairs w2 = Ok (ids, nodes) ∧
    fh_rescore hooks w2 nodes cfg (fc_rescore_limit config) = Some (Ok scores) ∧
    w_trace w' = w_trace w2 ++ [EvRescore (Ok scores); EvDegrade] ∧
    ∀ sc, sc ∈ scores → cs_passes sc = true → cs_label sc = label (meta active).

Lemma on_failure_degrades active (w : World) (s : FailoverStatus) a w' s' ev :
  let cfg := scatter_config (ct_settings (w_controller w)) in
  let w1 := happened w (EvProbe active (fh_probe hooks w active cfg)) in
  younger hooks w (ct_last_manual_switch (w_controller w)) (fc_min_time_since_manual_switch config) = false →
  passed (fh_probe hooks w active cfg) = false →
  on_failure hooks config cfg active w1 s = Some (a, w', s') →
  w_trace w' = w_trace w1 ++ ev → EvDegrade ∈ ev →
  a = Degraded ∧ degrades_from w (fs_consecutive_failures s) active w'.
Proof.
  intros cfg w1 Hy Hr E Ht Hx. apply on_failure_trace in E as (ev' & Ht' & _ & Hcase).
  rewrite Ht in Ht'. apply app_inv_head in Ht' as <-.
  pose proof (tunnel_trace active w1) as [Hwc _].
  destruct (tunnel_confirms_trouble hooks config active w1) as [co w2] eqn:Et. cbv zeta beta iota in Hcase.
  destruct (Nat.ltb_spec (S (fs_consecutive_failures s)) (needed co)) as [|Hn];
    [by destruct Hcase as (_ & _ & _ & Hno)|].
  destruct (younger hooks w2 _ _) eqn:Ey; [by destruct Hcase as (_ & _ & _ & Hno)|].
  destruct Hcase as (ev1 & Ht1 & Hin & He).
  apply escalate_trace in He as (ev2 & Ht2 & _ & Hda & Hds & _).
  rewrite Ht1 in Ht2. apply app_inv_head in Ht2 as <-. specialize (Hda (Hin Hx)). split; [done|].
  destruct (Hds Hda) as (ids & nodes & scores & Ep & Es & -> & Hpass).
  exists co, w2, ids, nodes, scores. split_and!; try done. intros ->. by eapply tunnel_confirms.
Qed.


(** *** No panic *)

(** A rescoring returns, and its scores are of the candidates it was given. *)
Definition rescores_in_range : Prop := ∀ w l cfg k,
  ∃ r, fh_rescore hooks w l cfg k = Some r ∧
    ∀ scores sc, r = Ok scores → sc ∈ scores → (cs_node_index sc < length l)%nat.

Lemma do_rescore_total w l cfg :
  rescores_in_range → ∃ r, do_rescore hooks config w l cfg = Some (r, happened w (EvRescore r)) ∧
    ∀ scores sc, r = Ok scores → sc ∈ scores → (cs_node_index sc < length l)%nat.
Proof.
  intros Hr. unfold do_rescore. destruct (Hr w l cfg (fc_rescore_limit config)) as (r & -> & Hi). by exists r.
Qed.

Lemma rescore_total cfg w s : rescores_in_range → is_Some (rescore hooks config cfg w s).
Proof.
  intros Hr. unfold rescore. destruct (candidate_nodes w) as [l|e]; [|done].
  destruct (do_rescore_total w l cfg Hr) as (r & -> & _). by destruct r.
Qed.

Lemma confirm_loop_total cfg (nodes : list CanonicalNode) ranked saw w s :
  (∀ r, r ∈ ranked → (rn_node_index r < length nodes)%nat) →
  is_Some (confirm_loop hooks cfg nodes ranked saw w s).
Proof.
  revert saw w. induction ranked as [|r ranked IH]; intros saw w Hr; cbn [confirm_loop]; [by destruct saw|].
  destruct (lookup_lt_is_Some_2 nodes (rn_node_index r)) as [n ->]; [apply Hr; left|]. simpl.
  destruct (passed _); [by destruct (do_switch hooks _ n)|].
  apply IH. intros r' Hr'. apply Hr. by right.
Qed.

Lemma heal_loop_total cfg (candidates : list CanonicalNode) scores w s :
  (∀ sc, sc ∈ scores → (cs_node_index sc < length candidates)%nat) →
  is_Some (heal_loop hooks cfg candidates scores w s).
Proof.
  revert w. induction scores as [|sc scores IH]; intros w Hr; cbn [heal_loop]; [done|].
  destruct (lookup_lt_is_Some_2 candidates (cs_node_index sc)) as [n ->]; [apply Hr; left|]. simpl.
  assert (∀ sc', sc' ∈ scores → (cs_node_index sc' < length candidates)%nat) as Hr'
    by (intros sc' Hsc'; apply Hr; by right).
  destruct (passed _); [|by apply IH]. destruct (do_switch hooks _ n) as [[?|?] ?]; [done|by apply IH].
Qed.

Lemma works_in_range (l : list CanonicalNode) scores i :
  (∀ sc, sc ∈ scores → (cs_node_index sc < length l)%nat) → works scores i → (i < length l)%nat.
Proof. intros Hr (sc & Hsc & _ & <-). by apply Hr. Qed.

Lemma escalate_total cfg active w s : rescores_in_range → is_Some (escalate hooks config cfg active w s).
Proof.
  intros Hr. unfold escalate. destruct (candidate_pairs w) as [[ids nodes]|e]; [|done].
  destruct (do_rescore_total w nodes cfg Hr) as ([scores|e] & -> & Hi); [|done]. cbn [mbind option_bind].
  apply confirm_loop_total. intros r Hin. set (kept := List.filter _ scores) in Hin.
  apply (works_in_range nodes scores); [by intros sc; apply Hi|].
  assert (works kept (rn_node_index r)) as (sc & Hsc & Hp & Hn) by (eapply ranked_works; by exists r).
  exists sc. split; [|done]. apply list_elem_of_In. apply list_elem_of_In, filter_In in Hsc. tauto.
Qed.

Lemma auto_adopt_total cfg w s : rescores_in_range → is_Some (auto_adopt hooks config cfg w s).
Proof.
  intros Hr. unfold auto_adopt. destruct (candidate_pairs w) as [[ids nodes]|e]; [|done].
  destruct nodes as [|n0 nodes'] eqn:En; [done|]. rewrite <-En. clear En.
  destruct (do_rescore_total w nodes cfg Hr) as ([scores|e] & -> & Hi); [|done]. cbn [mbind option_bind].
  destruct (rank_working_nodes scores _ ids _ _) as [|best rest] eqn:Erank; [done|].
  destruct (lookup_lt_is_Some_2 nodes (rn_node_index best)) as [n ->].
  { apply (works_in_range nodes scores); [by intros sc; apply Hi|]. eapply ranked_works. exists best.
    split; [rewrite Erank; left|done]. }
  simpl. by destruct (do_switch hooks _ n) as [[?|?] ?].
Qed.

Lemma run_failover_cycle_total w s :
  rescores_in_range → is_Some (run_failover_cycle hooks config w s).
Proof.
  intros Hr. unfold run_failover_cycle. set (cfg := scatter_config _).
  destruct (ct_degraded _).
  { unfold heal_or_stay_degraded. destruct (candidate_nodes w) as [l|e]; [|done].
    destruct (do_rescore_total w l cfg Hr) as ([scores|e] & -> & Hi); [|done]. apply heal_loop_total.
    intros sc Hsc. apply list_elem_of_In, filter_In in Hsc as [Hsc _]. apply (Hi scores); [done|].
    by apply list_elem_of_In. }
  destruct (ct_active_node _) as [active|].
  - destruct (younger _ _ _ _); [done|]. simpl. destruct (passed _).
    + unfold on_pass. destruct (should_refresh_shortlist _ _ _ _) as [[] s1]; [|done].
      by destruct (rescore_total cfg (happened w (EvProbe active (fh_probe hooks w active cfg))) s1 Hr)
        as [[[[len|] w2] s2] ->].
    + unfold on_failure. destruct (tunnel_confirms_trouble _ _ _ _) as [co w1]. destruct (_ <? _)%nat.
      * match goal with |- context [rescore _ _ _ _ ?sv] =>
          by destruct (rescore_total cfg w1 sv Hr) as [[[? ?] ?] ->] end.
      * destruct (younger _ _ _ _); [done|]. by apply escalate_total.
  - destruct (fc_auto_select_on_idle config); [|done].
    match goal with |- context [auto_adopt _ _ _ _ ?sv] =>
      by destruct (auto_adopt_total cfg w sv Hr) as [[[oa w1] s1] ->] end.
Qed.
End Theorems.

Section Real.
Context `{SelectLib} `{IdentityHash} `{NodeCodec} `{AdapterLib} `{CoreLib} `{ControllerLib}.
Variables (trial : World → ScatterConfig → CanonicalNode → result Error ScatterReport)
  (sweep : World → list CanonicalNode → PreflightConfig → list CheapOutcome)
  (io : World → SwitchIo) (now utc_secs : World → Z) (config : FailoverConfig).
Notation hooks := (real_hooks trial sweep io now utc_secs).

Lemma real_rescores_in_range :
  (∀ w l p, (length (sweep w l p) ≤ length l)%nat) → rescores_in_range hooks.
Proof.
  intros Hs w l cfg k. simpl.
  destruct (tiered_shortlist_cases (sweep w) (trial w cfg) l PreflightConfig_default cfg k (Hs w l _)) as (ranked & E & _).
  rewrite E. exists (Ok ranked). split; [done|]. intros scores sc [= <-] Hin.
  by eapply tiered_shortlist_in_range; [|exact E|].
Qed.

(** A switch of the production hooks that succeeded. *)
Definition lands_on (c : Controller) (n : CanonicalNode) : Prop :=
  ct_active_node c = Some n ∧ ct_degraded c = false ∧ is_Some (ct_last_auto_switch c) ∧
  ∃ rendered, render_config (ct_settings c) n = Ok rendered ∧ core_check (Some rendered) = Ok () ∧
    sv_file (ct_supervisor c) = Some rendered.

Lemma switched_lands w0 n w' : switched hooks w0 n w' → lands_on (w_controller w') n.
Proof.
  intros [msg E]. simpl in E.
  pose proof (switch_node_cases (io w0) (now w0) (w_controller w0) n true) as Hc. rewrite E in Hc.
  destruct Hc as (_ & Hset & Hses & (rendered & Hr & Hk & Hf & _) & _). unfold session in Hses.
  injection Hses as Ha Hauto _ Hd. unfold lands_on. rewrite Ha, Hd, Hauto, Hset. eauto 10.
Qed.

(** C5. With the production hooks a cycle never panics, and when it reports a
    switch, a recovery or an adoption the controller is on that node: it is
    active, not degraded, freshly stamped, and the file the core reads is that
    node's configuration, which the core accepted. *)
Theorem real_cycle (w : World) (s : FailoverStatus) :
  (∀ w l p, (length (sweep w l p) ≤ length l)%nat) →
  ∃ a w' s', run_failover_cycle hooks config w s = Some (a, w', s') ∧
    match a with
    | Switched _ | Healed _ | AdoptedNode _ =>
        fs_consecutive_failures s' = O ∧ ∃ n, lands_on (w_controller w') n
    | _ => True
    end.
Proof.
  intros Hs. destruct (run_failover_cycle_total hooks config w s (real_rescores_in_range Hs)) as [[[a w'] s'] E].
  exists a, w', s'. split; [done|].
  assert (∀ s0 : FailoverStatus, (fs_consecutive_failures s0 = O ∧ ∃ n w0, switched hooks w0 n w') →
            fs_consecutive_failures s0 = O ∧ ∃ n, lands_on (w_controller w') n) as Hland.
  { intros s0 (Hf & n & w0 & Hsw). split; [done|]. exists n. by eapply switched_lands. }
  unfold run_failover_cycle in E. set (cfg := scatter_config _) in E. destruct (ct_degraded _).
  { unfold heal_or_stay_degraded in E. destruct (candidate_nodes w) as [l|e]; [|by simplify_eq].
    unfold do_rescore in E. destruct (fh_rescore _ w l cfg _) as [[scores|e]|]; cbn [mbind option_bind] in E;
      [|by simplify_eq|done].
    apply heal_loop_trace in E as (ev & _ & _ & _ & Ha).
    destruct a; try done. apply Hland. destruct Ha as (Hf & n & w0 & Hsw & _). split; [done|]. by exists n, w0. }
  destruct (ct_active_node _) as [active|].
  - destruct (younger _ _ _ _); [by simplify_eq|]. simpl in E. destruct (passed _).
    { apply on_pass_trace in E as ([->|[len ->]] & _); done. }
    apply on_failure_trace in E as (ev & _ & _ & Hcase).
    destruct (tunnel_confirms_trouble _ _ _ _) as [co w2]. cbv zeta beta iota in Hcase.
    destruct (_ <? _)%nat; [by destruct Hcase as (-> & _)|].
    destruct (younger _ _ _ _); [by destruct Hcase as (-> & _)|].
    destruct Hcase as (ev1 & _ & _ & He). apply escalate_trace in He as (ev2 & _ & _ & _ & _ & Ha).
    destruct a; try done. apply Hland. destruct Ha as (Hf & n & w0 & Hsw & _). split; [done|]. by exists n, w0.
  - destruct (fc_auto_select_on_idle config); [|by simplify_eq].
    destruct (auto_adopt _ _ _ _ _) as [[[oa w1] s1]|] eqn:Eo; [|discriminate]. injection E as <- <- <-.
    apply auto_adopt_trace in Eo as (ev & _ & _ & _ & Ha).
    destruct oa as [[]|]; try done. apply Hland. destruct Ha as (Hf & n & w0 & Hsw & _). split; [done|]. by exists n, w0.
Qed.
End Real.

(** ** Witnesses *)

#[local] Existing Instances sample_hash Controller.sample_codec AutoSelect.sample_select.

(** A catalog of one working node, "DE"; the active node, "FR", fails. *)
Definition failing_world (trace : list HookEvent) : World :=
  {| w_controller := with_session stocked_controller (Some (sample_node 1 "FR")) None None false;
     w_trace := trace |}.
Definition sample_hooks (scores : list CandidateScore) : FailoverHooks :=
  {| fh_probe := λ _ n _, Ok (sample_scatter (if String.eqb (label (meta n)) "DE" then [40; 60] else []));
     fh_rescore := λ _ _ _ _, Some (Ok scores);
     fh_switch_node := λ w n _, (Ok "switched"%stdpp,
       with_session (w_controller w) (Some n) (Some 7) None false);
     fh_degrade := λ w, degrade_to_direct (w_controller w);
     fh_tunnel_health := Some (λ _ _, None);
     fh_now := λ _, 1000 * SECOND; fh_utc_secs := λ _, 0 |}.
Definition working_scores : list CandidateScore := [sample_score 0 true 9 60].
Definition failed_once : FailoverStatus := with_failures FailoverStatus_default 1.
Definition the_cycle (scores : list CandidateScore) : FailoverAction * World * FailoverStatus :=
  default (Idle, failing_world [], failed_once)
    (run_failover_cycle (sample_hooks scores) FailoverConfig_default (failing_world []) failed_once).

Definition is_switch_action (a : FailoverAction) : bool :=
  match a with Switched _ | Healed _ | AdoptedNode _ => true | _ => false end.

Lemma the_cycle_runs scores :
  is_Some (run_failover_cycle (sample_hooks scores) FailoverConfig_default (failing_world []) failed_once) →
  run_failover_cycle (sample_hooks scores) FailoverConfig_default (failing_world []) failed_once =
  Some ((the_cycle scores).1.1, (the_cycle scores).1.2, (the_cycle scores).2).
Proof. unfold the_cycle. intros [[[a w] s] ->]. done. Qed.

Lemma switch_is_confirmed_witness :
  (the_cycle working_scores).1.1 = Switched "switched" ∧
  ∃ ev, w_trace (the_cycle working_scores).1.2 = [] ++ ev ∧ length ev = 5%nat.
Proof.
  split; [vm_compute; reflexivity|].
  destruct (switch_is_confirmed (sample_hooks working_scores) FailoverConfig_default (failing_world [])
    failed_once _ _ _ (the_cycle_runs working_scores ltac:(vm_compute; eexists; reflexivity)))
    as (ev & E & _).
  exists ev. split; [exact E|]. simpl app in E. rewrite <-E. vm_compute. reflexivity.
Defined.

Lemma cycle_decision_witness :
  ∃ n w0, switched (sample_hooks working_scores) w0 n (the_cycle working_scores).1.2.
Proof.
  pose proof (cycle_decision (sample_hooks working_scores) FailoverConfig_default (failing_world [])
    failed_once _ _ _ (sample_node 1 "FR")
    (the_cycle_runs working_scores ltac:(vm_compute; eexists; reflexivity)) eq_refl eq_refl) as Hc.
  vm_compute in Hc. exact (proj2 (proj2 Hc)).
Defined.


#[local] Existing Instance Adapter.sample_printer.
#[local] Instance sample_core : CoreLib :=
  {| core_binary := "sing-box"; core_config_path := "config.json"; core_check _ := Ok () |}.
#[local] Instance sample_controller_lib : ControllerLib := {| to_vec_pretty _ := Ok "config"%stdpp |}.
Definition sample_real : FailoverHooks :=
  real_hooks (λ _ _ n, Ok (sample_scatter (if String.eqb (label (meta n)) "DE" then [40; 60] else [])))
    (λ _ l _, map (λ _, {| co_latency := Some 30; co_dead := false |}) l)
    (λ _, si_fine) (λ _, 1000 * SECOND) (λ _, 0).

Lemma real_cycle_witness :
  ∃ a w' s' n, run_failover_cycle sample_real FailoverConfig_default (failing_world []) failed_once =
                 Some (a, w', s') ∧ lands_on (w_controller w') n.
Proof.
  destruct (real_cycle (λ _ _ n, Ok (sample_scatter (if String.eqb (label (meta n)) "DE" then [40; 60] else [])))
    (λ _ l _, map (λ _, {| co_latency := Some 30; co_dead := false |}) l)
    (λ _, si_fine) (λ _, 1000 * SECOND) (λ _, 0) FailoverConfig_default (failing_world []) failed_once)
    as (a & w' & s' & E & Ha); [intros _ l _; rewrite length_map; lia|].
  assert (is_switch_action a = true) as Hsw.
  { assert ((λ r, is_switch_action r.1.1) <$> run_failover_cycle sample_real FailoverConfig_default
              (failing_world []) failed_once = Some true) as Hr by (vm_compute; reflexivity).
    unfold sample_real in Hr. rewrite E in Hr. by injection Hr. }
  destruct a; try discriminate Hsw; destruct Ha as (_ & n & Hn);
    exact (ex_intro _ _ (ex_intro _ w' (ex_intro _ s' (ex_intro _ n (conj E Hn))))).
Defined.

(** The courtesy window is looked at once, before the trial of the active node: a
    manual switch that falls between that and the end of the cycle is overridden,
    however young it is. *)
Definition user_switched_meanwhile : World :=
  {| w_controller := (switch_node si_fine (1000 * SECOND) (w_controller (failing_world [])) (sample_node 1 "NL") false).2;
     w_trace := [EvProbe (sample_node 1 "FR") (Ok (sample_scatter []))] |}.
Lemma manual_switch_during_cycle_overridden :
  let w := user_switched_meanwhile in
  ct_active_node (w_controller w) = Some (sample_node 1 "NL") ∧
  younger sample_real w (ct_last_manual_switch (w_controller w))
    (fc_min_time_since_manual_switch FailoverConfig_default) = true ∧
  (λ r, (r.1.1, ct_active_node (w_controller r.1.2))) <$>
    on_failure sample_real FailoverConfig_default (scatter_config (ct_settings (w_controller w)))
      (sample_node 1 "FR") w failed_once =
  Some (Switched "switched to DE", Some (sample_node 1 "DE")).
Proof. split_and!; vm_compute; reflexivity. Qed.

(** An index out of range unwinds the cycle: a sweep with more outcomes than nodes. *)
Lemma overlong_sweep_panics :
  run_failover_cycle
    (real_hooks (λ _ _ _, Ok (sample_scatter [])) (λ _ _ _, repeat {| co_latency := Some 30; co_dead := false |} 2)
       (λ _, si_fine) (λ _, 1000 * SECOND) (λ _, 0))
    FailoverConfig_default (failing_world []) failed_once = None.
Proof. vm_compute. reflexivity. Qed.
