(* ===== verification/WatchdogThread.v ===== *)
(** The watchdog's thread and its handle ([EgressWatchdog] of
    [crates/controller/src/proxy_controller.rs]): the loop that runs a failover cycle
    under the lock of the status, the stop flag, the join, the drop, and the readers
    of the status.

    The thread, the owner of the handle and the readers interleave freely.  A cycle
    is one step of the thread, over whatever the world is then; a cycle that panics
    leaves the status as it was at that point, which can be anything. *)

From S2P Require Import Prelude RustStr Ir Metadata Uri Json Adapter Repository Store Egress Score F64 SocketHealth AutoSelect Supervisor Controller Watchdog.

(** ** State *)

(** Before the flag is read, before the lock is taken, in a cycle, asleep, out of the
    loop, unwound by a panic. *)
Inductive ThreadPhase := AtTop | AtLock | InCycle | Sleeping | Ended | Crashed.
#[export] Instance ThreadPhase_eq_dec : EqDecision ThreadPhase.
Proof. solve_decision. Defined.
Inductive LockHolder := TheThread | AReader.
(** The owner: it holds the handle, is joining in [stop], has returned from it, or
    has dropped the handle. *)
Inductive Owner := Holding | Joining | Stopped | DroppedIt.

Record Watchdog := {
  wt_phase : ThreadPhase; wt_stop : bool; wt_lock : option LockHolder; wt_owner : Owner;
  wt_status : FailoverStatus; wt_cycles : nat
}.
(** [EgressWatchdog::start]. *)
Definition watchdog_start : Watchdog :=
  {| wt_phase := AtTop; wt_stop := false; wt_lock := None; wt_owner := Holding;
     wt_status := FailoverStatus_default; wt_cycles := 0 |}.

Definition at_phase (p : ThreadPhase) (x : Watchdog) : Watchdog :=
  {| wt_phase := p; wt_stop := wt_stop x; wt_lock := wt_lock x; wt_owner := wt_owner x;
     wt_status := wt_status x; wt_cycles := wt_cycles x |}.
Definition locked_by (h : option LockHolder) (x : Watchdog) : Watchdog :=
  {| wt_phase := wt_phase x; wt_stop := wt_stop x; wt_lock := h; wt_owner := wt_owner x;
     wt_status := wt_status x; wt_cycles := wt_cycles x |}.
Definition raise_stop (o : Owner) (x : Watchdog) : Watchdog :=
  {| wt_phase := wt_phase x; wt_stop := true; wt_lock := wt_lock x; wt_owner := o;
     wt_status := wt_status x; wt_cycles := wt_cycles x |}.
Definition after_cycle (p : ThreadPhase) (s : FailoverStatus) (x : Watchdog) : Watchdog :=
  {| wt_phase := p; wt_stop := wt_stop x; wt_lock := None; wt_owner := wt_owner x;
     wt_status := s; wt_cycles := S (wt_cycles x) |}.
Definition owner_is (o : Owner) (x : Watchdog) : Watchdog :=
  {| wt_phase := wt_phase x; wt_stop := wt_stop x; wt_lock := wt_lock x; wt_owner := o;
     wt_status := wt_status x; wt_cycles := wt_cycles x |}.

Section Thread.
Context `{SelectLib} `{IdentityHash} `{NodeCodec}.
Variables (hooks : FailoverHooks) (config : FailoverConfig).

(** A step of the thread. *)
Inductive thread_step : Watchdog → Watchdog → Prop :=
| th_break x : wt_phase x = AtTop → wt_stop x = true → thread_step x (at_phase Ended x)
| th_go x : wt_phase x = AtTop → wt_stop x = false → thread_step x (at_phase AtLock x)
| th_lock x : wt_phase x = AtLock → wt_lock x = None →
    thread_step x (locked_by (Some TheThread) (at_phase InCycle x))
| th_cycle x w w' s : wt_phase x = InCycle → watchdog_turn hooks config w (wt_status x) = Some (w', s) →
    thread_step x (after_cycle Sleeping s x)
| th_panic x w s : wt_phase x = InCycle → watchdog_turn hooks config w (wt_status x) = None →
    thread_step x (after_cycle Crashed s x)
| th_wake x : wt_phase x = Sleeping → thread_step x (at_phase AtTop x).

(** A step of the owner or of a reader. *)
Inductive other_step : Watchdog → Watchdog → Prop :=
| ow_flag x : wt_owner x = Holding → other_step x (raise_stop Joining x)
| ow_join x : wt_owner x = Joining → (wt_phase x = Ended ∨ wt_phase x = Crashed) →
    other_step x (owner_is Stopped x)
| ow_drop x : wt_owner x = Holding → other_step x (raise_stop DroppedIt x)
| rd_lock x : wt_lock x = None → other_step x (locked_by (Some AReader) x)
| rd_unlock x : wt_lock x = Some AReader → other_step x (locked_by None x).

Definition watchdog_step (x y : Watchdog) : Prop := thread_step x y ∨ other_step x y.

(** ** Invariant *)

Definition stopping (o : Owner) : bool := match o with Holding => false | _ => true end.
Definition finished (p : ThreadPhase) : bool :=
  match p with Ended | Crashed => true | _ => false end.

(** One turn from some world. *)
Definition turned (s s' : FailoverStatus) : Prop := ∃ w w', watchdog_turn hooks config w s = Some (w', s').

Record watchdog_inv (x : Watchdog) : Prop := {
  wi_lock : wt_lock x = Some TheThread ↔ wt_phase x = InCycle;
  wi_stop : wt_stop x = stopping (wt_owner x);
  wi_ended : wt_phase x = Ended → wt_stop x = true;
  wi_joined : wt_owner x = Stopped → finished (wt_phase x) = true;
  wi_status : wt_phase x = Crashed ∨ nsteps turned (wt_cycles x) FailoverStatus_default (wt_status x)
}.

Lemma watchdog_start_inv : watchdog_inv watchdog_start.
Proof. split; simpl; try done. right. constructor. Qed.

Lemma watchdog_step_inv x y : watchdog_step x y → watchdog_inv x → watchdog_inv y.
Proof.
  intros [[]|[]] [Hl Hst He Hj Hn]; split; simpl in *; try (subst; intuition congruence);
    try match goal with E : wt_phase _ = _ |- _ → false = true => by rewrite E in Hj end.
  - destruct Hn as [Hn|Hn]; [congruence|right]. eapply nsteps_r; [exact Hn|]. by eexists _, _.
  - match goal with E : wt_owner _ = _ |- _ => by rewrite Hst, E end.
  - intros _. match goal with E : wt_phase _ = Ended ∨ _ |- _ => by destruct E as [->| ->] end.
Qed.

Lemma watchdog_reachable x : rtc watchdog_step watchdog_start x → watchdog_inv x.
Proof.
  intros Hr. eapply (rtc_preserves _ watchdog_inv watchdog_step_inv); [exact Hr|apply watchdog_start_inv].
Qed.

(** ** Stopping *)

(** The cycles the thread still starts once the flag is up, and the steps it takes. *)
Definition cycles_left (p : ThreadPhase) : nat :=
  match p with AtLock | InCycle => 1 | _ => 0 end.
Definition steps_left (p : ThreadPhase) : nat :=
  match p with AtLock => 4 | InCycle => 3 | Sleeping => 2 | AtTop => 1 | _ => 0 end.

Lemma stop_stays x y : watchdog_step x y → wt_stop x = true → wt_stop y = true.
Proof. intros [[]|[]]; done. Qed.

Lemma thread_winds_down x y :
  thread_step x y → wt_stop x = true →
  (steps_left (wt_phase y) < steps_left (wt_phase x))%nat ∧
  (wt_cycles y + cycles_left (wt_phase y) = wt_cycles x + cycles_left (wt_phase x))%nat.
Proof. intros []; simpl; intros; repeat match goal with H : wt_phase _ = _ |- _ => rewrite H end; simpl; try lia; congruence. Qed.

Lemma others_leave_thread x y :
  other_step x y → wt_phase y = wt_phase x ∧ wt_cycles y = wt_cycles x ∧ wt_status y = wt_status x.
Proof. intros []; done. Qed.

Lemma winding_down x y :
  rtc watchdog_step x y → wt_stop x = true →
  (steps_left (wt_phase y) ≤ steps_left (wt_phase x))%nat ∧
  (wt_cycles y + cycles_left (wt_phase y) = wt_cycles x + cycles_left (wt_phase x))%nat.
Proof.
  induction 1 as [|x y z [Ht|Ho] _ IH]; intros Hs; [lia| |].
  - destruct (thread_winds_down _ _ Ht Hs). specialize (IH (stop_stays _ _ (or_introl Ht) Hs)). lia.
  - destruct (others_leave_thread _ _ Ho) as (Hp & Hc & _).
    specialize (IH (stop_stays _ _ (or_intror Ho) Hs)). rewrite Hp, Hc in IH. lia.
Qed.

(** What the thread needs to move: the readers to let go of the lock. *)
Lemma thread_moves (w : World) x :
  finished (wt_phase x) = false → (wt_phase x = AtLock → wt_lock x = None) → ∃ y, thread_step x y.
Proof.
  intros Hf Hlock. destruct (wt_phase x) eqn:Ep; try discriminate Hf.
  - destruct (wt_stop x) eqn:Es; eexists; [by eapply th_break|by eapply th_go].
  - eexists. eapply th_lock; [done|by apply Hlock].
  - destruct (watchdog_turn hooks config w (wt_status x)) as [[w' s]|] eqn:E; eexists;
      [by eapply th_cycle|by eapply (th_panic x w FailoverStatus_default)].
  - eexists. by eapply th_wake.
Qed.

Lemma lock_can_be_freed x :
  watchdog_inv x → wt_phase x = AtLock →
  ∃ y, rtc watchdog_step x y ∧ wt_lock y = None ∧ wt_phase y = wt_phase x ∧ wt_stop y = wt_stop x.
Proof.
  intros [Hl _ _ _ _] Hp. destruct (wt_lock x) as [[]|] eqn:E; [| |by exists x].
  - destruct Hl as [Hl _]. specialize (Hl eq_refl). congruence.
  - exists (locked_by None x). split; [|done]. apply rtc_once. right. by apply rd_unlock.
Qed.

Lemma thread_ends (w : World) x :
  watchdog_inv x → wt_stop x = true → ∃ y, rtc watchdog_step x y ∧ finished (wt_phase y) = true.
Proof.
  remember (steps_left (wt_phase x)) as n eqn:En. revert x En.
  induction (lt_wf n) as [n _ IH]. intros x -> Hi Hs. destruct (finished (wt_phase x)) eqn:Ef; [by exists x|].
  assert (∃ x', rtc watchdog_step x x' ∧ wt_phase x' = wt_phase x ∧ wt_stop x' = true ∧
          (wt_phase x' = AtLock → wt_lock x' = None)) as (x' & Hx & Hp & Hs' & Hlock).
  { destruct (ThreadPhase_eq_dec (wt_phase x) AtLock) as [Ha|Ha].
    - destruct (lock_can_be_freed x Hi Ha) as (x' & Hx & Hl & Hp & Hst). exists x'. split_and!; congruence || done.
    - exists x. by split_and!. }
  destruct (thread_moves w x') as [y Hy]; [by rewrite Hp|done|].
  assert (watchdog_inv y) as Hiy.
  { eapply watchdog_step_inv; [by left|]. by eapply (rtc_preserves _ watchdog_inv watchdog_step_inv). }
  destruct (thread_winds_down _ _ Hy Hs') as [Hlt _].
  rewrite Hp in Hlt. destruct (IH _ Hlt y eq_refl Hiy) as (z & Hz & Hf);
    [by eapply (stop_stays x'); [left|]|].
  exists z. split; [|done]. etrans; [exact Hx|]. eapply rtc_l; [by left|done].
Qed.

Lemma finished_still x y :
  rtc watchdog_step x y → finished (wt_phase x) = true →
  wt_phase y = wt_phase x ∧ wt_cycles y = wt_cycles x ∧ wt_status y = wt_status x.
Proof.
  induction 1 as [|x y z [Ht|Ho] _ IH]; intros Hf; [done| |].
  - destruct Ht; simpl in *; match goal with H : wt_phase _ = _ |- _ => by rewrite H in Hf end.
  - destruct (others_leave_thread _ _ Ho) as (Hp & Hc & Hst). rewrite <-Hp in Hf.
    destruct (IH Hf) as (-> & -> & ->). done.
Qed.

(** ** Theorem *)

End Thread.

(** ** Witness *)

#[local] Existing Instance sample_select.
#[local] Existing Instance wide_hash.
#[local] Existing Instance Controller.sample_codec.

(** Stopped while its first cycle runs. *)
Definition stopped_in_cycle : Watchdog :=
  raise_stop Joining (locked_by (Some TheThread) (at_phase InCycle (at_phase AtLock watchdog_start))).

