(* ===== verification/Failover.v ===== *)
(** The watchdog over the testbed: the failover cycle of [Watchdog] with the
    production hooks of [crates/controller/src/proxy_controller.rs], whose trials are
    the ones [Testbed] runs through a core.

    The observations of a trial depend on the world it is run in, which tells how far
    its cycle had come; everything else is the two components' own.  A trial that
    never returns is taken as one that failed, so that the cycles here include every
    cycle that returns. *)

From S2P Require Import Prelude RustStr Ir Metadata Uri Json Adapter Repository Store Egress Probe Score F64 SocketHealth AutoSelect Supervisor Controller Testbed Watchdog.

(** ** Genuine events *)

(** A trace that grew by events each of which is right after the trace before it. *)
Definition grew (P : list HookEvent → HookEvent → Prop) (w w' : World) : Prop :=
  ∃ ev, w_trace w' = w_trace w ++ ev ∧ ∀ pre e post, ev = pre ++ e :: post → P (w_trace w ++ pre) e.

Lemma grew_refl P w : grew P w w.
Proof. exists []. split; [by rewrite app_nil_r|by intros []]. Qed.
Lemma grew_trans P w1 w2 w3 : grew P w1 w2 → grew P w2 w3 → grew P w1 w3.
Proof.
  intros (e1 & E1 & F1) (e2 & E2 & F2). exists (e1 ++ e2). split; [by rewrite E2, E1, <-app_assoc|].
  intros pre e post Ev. apply app_eq_inv in Ev as [(k & -> & Ek)|(k & -> & ->)].
  - destruct k as [|e' k].
    + specialize (F2 [] e post (eq_sym Ek)). rewrite E1, app_nil_r in F2. by rewrite app_nil_r in F2.
    + injection Ek as -> _. by apply (F1 pre e' k).
  - specialize (F2 k e post eq_refl). by rewrite E1, <-app_assoc in F2.
Qed.
Lemma grew_event (P : list HookEvent → HookEvent → Prop) w w' e :
  w_trace w' = w_trace w ++ [e] → P (w_trace w) e → grew P w w'.
Proof.
  intros E Hp. exists [e]. split; [done|]. intros [|x pre] e' post [= -> Ev]; [by rewrite app_nil_r|].
  by destruct pre.
Qed.

Create HintDb grew discriminated.
#[local] Hint Resolve grew_refl : grew.

Section Genuine.
Context `{SelectLib} `{IdentityHash} `{NodeCodec}.
Variables (hooks : FailoverHooks) (config : FailoverConfig).
Variables (c : Controller) (cfg : ScatterConfig).

(** The report of a probe is its hook's for that node in the world of that moment, and
    the scores of a rescoring are its hook's for the catalog of the controller the
    cycle began with. *)
Definition genuine (before : list HookEvent) (e : HookEvent) : Prop :=
  match e with
  | EvProbe n r => ∃ w, w_trace w = before ∧ r = fh_probe hooks w n cfg
  | EvRescore r => ∃ w l, w_trace w = before ∧ w_controller w = c ∧ candidate_nodes w = Ok l ∧
      fh_rescore hooks w l cfg (fc_rescore_limit config) = Some r
  | _ => True
  end.

Lemma probe_grew w n : grew genuine w (do_probe hooks w n cfg).2.
Proof. eapply grew_event; [done|]. by exists w. Qed.
Lemma switch_grew w n : grew genuine w (do_switch hooks w n).2.
Proof. eapply grew_event; [apply do_switch_trace|done]. Qed.
Lemma rescore_hook_grew w l r w' :
  w_controller w = c → candidate_nodes w = Ok l → do_rescore hooks config w l cfg = Some (r, w') →
  grew genuine w w'.
Proof.
  unfold do_rescore. intros Hc Hl E.
  destruct (fh_rescore hooks w l cfg _) as [r'|] eqn:Er; [|discriminate E]. injection E as <- <-.
  eapply grew_event; [done|]. by exists w, l.
Qed.
#[local] Hint Resolve probe_grew switch_grew : grew.

Lemma pairs_nodes w ids l : candidate_pairs w = Ok (ids, l) → candidate_nodes w = Ok l.
Proof. unfold candidate_nodes. by intros ->. Qed.

Lemma rescore_grew w s o w' s' :
  w_controller w = c → rescore hooks config cfg w s = Some (o, w', s') → grew genuine w w'.
Proof.
  intros Hc. unfold rescore. destruct (candidate_nodes w) as [l|e] eqn:El; intros E.
  2:{ injection E as <- <- <-. apply grew_refl. }
  pose proof (rescore_hook_grew w l) as Hg.
  destruct (do_rescore hooks config w l cfg) as [[[scores|e] w1]|]; [..|discriminate E];
    injection E as <- <- <-; by eapply Hg.
Qed.

Lemma tunnel_grew active w : grew genuine w (tunnel_confirms_trouble hooks config active w).2.
Proof.
  destruct (tunnel_trace hooks config active w) as [_ [[Ht _]|(h & Ht & _)]].
  - exists []. split; [by rewrite Ht, app_nil_r|by intros []].
  - by eapply grew_event.
Qed.

Lemma confirm_loop_grew nodes ranked saw w s a w' s' :
  confirm_loop hooks cfg nodes ranked saw w s = Some (a, w', s') → grew genuine w w'.
Proof.
  revert saw w. induction ranked as [|entry ranked IH]; intros saw w E; cbn [confirm_loop] in E.
  - destruct saw; injection E as <- <- <-; [apply grew_refl|by eapply grew_event].
  - destruct (nodes !! rn_node_index entry) as [n|]; [|discriminate E]. cbn [mbind option_bind] in E.
    pose proof (probe_grew w n) as Hp. destruct (do_probe hooks w n cfg) as [r w1].
    eapply grew_trans; [exact Hp|]. destruct (passed r); [|by eapply IH].
    pose proof (switch_grew w1 n) as Hs. destruct (do_switch hooks w1 n) as [[lbl|e] w2];
      injection E as <- <- <-; exact Hs.
Qed.

Lemma heal_loop_grew candidates scores w s a w' s' :
  heal_loop hooks cfg candidates scores w s = Some (a, w', s') → grew genuine w w'.
Proof.
  revert w. induction scores as [|score scores IH]; intros w E; cbn [heal_loop] in E.
  { injection E as <- <- <-. apply grew_refl. }
  destruct (candidates !! cs_node_index score) as [n|]; [|discriminate E]. cbn [mbind option_bind] in E.
  pose proof (probe_grew w n) as Hp. destruct (do_probe hooks w n cfg) as [r w1].
  eapply grew_trans; [exact Hp|]. destruct (passed r); [|by eapply IH].
  pose proof (switch_grew w1 n) as Hs. destruct (do_switch hooks w1 n) as [[lbl|e] w2].
  - injection E as <- <- <-. exact Hs.
  - eapply grew_trans; [exact Hs|by eapply IH].
Qed.

Lemma escalate_grew active w s a w' s' :
  w_controller w = c → escalate hooks config cfg active w s = Some (a, w', s') → grew genuine w w'.
Proof.
  intros Hc. unfold escalate. destruct (candidate_pairs w) as [[ids nodes]|e] eqn:Ep; intros E.
  2:{ injection E as <- <- <-. apply grew_refl. }
  destruct (do_rescore hooks config w nodes cfg) as [[[scores|e] w1]|] eqn:Er; [..|discriminate E];
    pose proof (rescore_hook_grew w nodes _ _ Hc (pairs_nodes _ _ _ Ep) Er) as Hg; cbn [mbind option_bind] in E.
  - eapply grew_trans; [exact Hg|by eapply confirm_loop_grew].
  - injection E as <- <- <-. exact Hg.
Qed.

Lemma auto_adopt_grew w s oa w' s' :
  w_controller w = c → auto_adopt hooks config cfg w s = Some (oa, w', s') → grew genuine w w'.
Proof.
  intros Hc. unfold auto_adopt. destruct (candidate_pairs w) as [[ids [|n0 nodes]]|e] eqn:Ep; intros E;
    [by injection E as <- <- <-; apply grew_refl| |by injection E as <- <- <-; apply grew_refl].
  destruct (do_rescore hooks config w (n0 :: nodes) cfg) as [[[scores|e] w1]|] eqn:Er; [..|discriminate E];
    pose proof (rescore_hook_grew w (n0 :: nodes) _ _ Hc (pairs_nodes _ _ _ Ep) Er) as Hg;
    cbn [mbind option_bind] in E.
  2:{ injection E as <- <- <-. exact Hg. }
  destruct (rank_working_nodes _ _ _ _ _) as [|best rest]; [by injection E as <- <- <-|].
  destruct (_ !! rn_node_index best) as [n|]; [|discriminate E]. cbn [mbind option_bind] in E.
  eapply grew_trans; [exact Hg|]. pose proof (switch_grew w1 n) as Hs.
  destruct (do_switch hooks w1 n) as [[lbl|e] w2]; injection E as <- <- <-; exact Hs.
Qed.

Lemma on_pass_grew w s a w' s' :
  w_controller w = c → on_pass hooks config cfg w s = Some (a, w', s') → grew genuine w w'.
Proof.
  intros Hc. unfold on_pass. destruct (should_refresh_shortlist hooks config w (with_failures s 0)) as [b s1].
  destruct b; [|intros [= <- <- <-]; apply grew_refl]. pose proof (rescore_grew w s1) as Hg.
  destruct (rescore hooks config cfg w s1) as [[[[len|] w2] s2]|]; [..|done];
    intros [= <- <- <-]; by eapply Hg.
Qed.

Lemma on_failure_grew active w s a w' s' :
  w_controller w = c → on_failure hooks config cfg active w s = Some (a, w', s') → grew genuine w w'.
Proof.
  intros Hc. unfold on_failure. pose proof (tunnel_grew active w) as Hg.
  pose proof (tunnel_trace hooks config active w) as [Hwc _].
  destruct (tunnel_confirms_trouble hooks config active w) as [co w1]. simpl in Hg, Hwc.
  rewrite Hc in Hwc. intros E. eapply grew_trans; [exact Hg|]. destruct (_ <? _)%nat.
  - pose proof (rescore_grew w1 (with_failures s (S (fs_consecutive_failures s)))) as Hr.
    destruct (rescore hooks config cfg w1 _) as [[[o w2] s2]|]; [|discriminate E].
    injection E as <- <- <-. by eapply Hr.
  - destruct (younger _ _ _ _); [by injection E as <- <- <-; apply grew_refl|]. by eapply escalate_grew.
Qed.
End Genuine.

Lemma cycle_grew `{SelectLib} `{IdentityHash} `{NodeCodec} hooks config w s a w' s' :
  run_failover_cycle hooks config w s = Some (a, w', s') →
  grew (genuine hooks config (w_controller w) (scatter_config (ct_settings (w_controller w)))) w w'.
Proof.
  unfold run_failover_cycle. set (cfg := scatter_config _). set (sv := with_view s _ _). intros E.
  destruct (ct_degraded (w_controller w)).
  { unfold heal_or_stay_degraded in E. destruct (candidate_nodes w) as [l|e] eqn:El.
    2:{ injection E as <- <- <-. apply grew_refl. }
    destruct (do_rescore hooks config w l cfg) as [[[scores|e] w1]|] eqn:Er; [..|discriminate E];
      pose proof (rescore_hook_grew hooks config (w_controller w) cfg w l _ _ eq_refl El Er) as Hg;
      cbn [mbind option_bind] in E; [|by injection E as <- <- <-].
    eapply grew_trans; [exact Hg|by eapply heal_loop_grew]. }
  destruct (ct_active_node (w_controller w)) as [active|].
  - destruct (younger _ _ _ _); [by injection E as <- <- <-; apply grew_refl|].
    pose proof (probe_grew hooks config (w_controller w) cfg w active) as Hp.
    assert (w_controller (do_probe hooks w active cfg).2 = w_controller w) as Hc by done.
    destruct (do_probe hooks w active cfg) as [r w1]. simpl in Hc. eapply grew_trans; [exact Hp|].
    destruct (passed r); [by eapply on_pass_grew|by eapply on_failure_grew].
  - destruct (fc_auto_select_on_idle config); [|by injection E as <- <- <-; apply grew_refl].
    destruct (auto_adopt hooks config cfg w sv) as [[[oa w1] s1]|] eqn:Eo; [|discriminate E].
    injection E as <- <- <-. by eapply auto_adopt_grew.
Qed.

(** ** The production watchdog *)

Section Production.
Context `{SelectLib} `{IdentityHash} `{NodeCodec} `{AdapterLib} `{EgressLib} `{CoreLib} `{ControllerLib}.
Context `{SingBox} `{TestbedLib}.
Variables (env : World → CanonicalNode → TrialIo) (binary : string)
  (sweep : World → list CanonicalNode → PreflightConfig → list CheapOutcome)
  (io : World → SwitchIo) (now utc_secs : World → Z).

(** [FailoverHooks::real]. *)
Definition production_hooks : FailoverHooks :=
  real_hooks (λ w cfg n, node_trial (env w) binary cfg n) sweep io now utc_secs.

(** The event right before a switch to [n], in a world of this cycle's past: the trial
    of [n] that was run there, or a shortlist that was made there of the catalog and
    in which [n] passed. *)
Definition tried_in (config : FailoverConfig) (cfg : ScatterConfig) (w0 : World) (n : CanonicalNode)
    (e : HookEvent) : Prop :=
  (∃ r, e = EvProbe n (Ok r) ∧ node_trial (env w0) binary cfg n = Ok r ∧ sr_passes r = true) ∨
  (∃ nodes ranked sc, e = EvRescore (Ok ranked) ∧ candidate_nodes w0 = Ok nodes ∧
    tiered_shortlist (sweep w0) (node_trial (env w0) binary cfg) nodes PreflightConfig_default cfg
      (fc_rescore_limit config) = Some ranked ∧
    sc ∈ ranked ∧ cs_passes sc = true ∧ nodes !! cs_node_index sc = Some n).

Lemma tried_proven config cfg w0 n e :
  (∀ w n, sound_env (env w) cfg n) →
  (∀ w l p, (length (sweep w l p) ≤ length l)%nat) →
  tried_in config cfg w0 n e → proven binary cfg (env w0 n) n.
Proof.
  intros Henv Hs [(r & -> & Hr & Hp)|(nodes & ranked & sc & -> & Hl & Hr & Hsc & Hp & Hn)].
  - by eapply node_trial_proven.
  - destruct (shortlist_row_proven (sweep w0) (env w0) binary nodes PreflightConfig_default cfg
      (fc_rescore_limit config) ranked sc) as (n' & Hn' & Hpr); [by apply Forall_forall|done..|congruence].
Qed.

(** C1. The watchdog only ever switches to a node that is proven: whatever the
    network, the cores, the daemon and the clock do, every switch of a cycle with the
    production hooks that returns is automatic, and the event right before it is, at
    that point of this very cycle and under the settings the cycle began with, the
    trial of that node, which passed, or, when a node is adopted, the scoring of the
    catalog in which it passed.  That trial found a port; this program's binary
    checked and accepted the configuration compiled from that node for that port,
    was spawned without an error to run the file of that port, which held it, and
    enough distinct operators gave the answer expected of them through that port. *)
Theorem switch_is_proven (config : FailoverConfig) (w : World) (s : FailoverStatus) (a : FailoverAction)
    (w' : World) (s' : FailoverStatus) :
  let cfg := scatter_config (ct_settings (w_controller w)) in
  (∀ w n, sound_env (env w) cfg n) →
  (∀ w l p, (length (sweep w l p) ≤ length l)%nat) →
  run_failover_cycle production_hooks config w s = Some (a, w', s') →
  ∃ ev, w_trace w' = w_trace w ++ ev ∧
    ∀ pre n automatic outcome post, ev = pre ++ EvSwitch n automatic outcome :: post →
      automatic = true ∧
      ∃ before e w0, pre = before ++ [e] ∧ w_trace w0 = w_trace w ++ before ∧
        tried_in config cfg w0 n e ∧ proven binary cfg (env w0 n) n.
Proof.
  intros cfg Henv Hsweep E. pose proof (cycle_grew _ _ _ _ _ _ _ E) as (ev & Ht & Hg). fold cfg in Hg.
  destruct (switch_is_confirmed_cases _ _ _ _ _ _ _ E) as (ev' & Ht' & Hsw).
  rewrite Ht in Ht'. apply app_inv_head in Ht' as <-. exists ev. split; [done|].
  intros pre n automatic outcome post Eev. destruct (Hsw _ _ _ _ _ Eev) as [-> Hwhy]. split; [done|].
  enough (∃ before e w0, pre = before ++ [e] ∧ w_trace w0 = w_trace w ++ before ∧ tried_in config cfg w0 n e)
    as (before & e & w0 & ? & ? & Htry) by (exists before, e, w0; eauto using tried_proven).
  destruct Hwhy as [(pre' & r & -> & Hpass)|(_ & _ & ids & nodes & scores & i & Ep & -> & Hworks & Hi)].
  - rewrite <-app_assoc in Eev. destruct (Hg _ _ _ Eev) as (w0 & Hw0 & Hr). simpl in Hr.
    exists pre', (EvProbe n r), w0. split_and!; [done|done|]. left.
    destruct r as [r|e]; [|discriminate Hpass]. by exists r.
  - destruct (Hg [] (EvRescore (Ok scores)) _ Eev) as (w0 & l & Hw0 & Hc & Hl & Hr). simpl in Hr.
    exists [], (EvRescore (Ok scores)), w0. split_and!; [done|done|]. right.
    apply pairs_nodes in Ep. unfold candidate_nodes, candidate_pairs in Ep, Hl. rewrite Hc, Ep in Hl.
    injection Hl as <-. destruct Hworks as (sc & Hsc & Hp & <-). exists nodes, scores, sc.
    destruct (tiered_shortlist _ _ _ _ _ _) as [ranked|]; [|discriminate Hr]. injection Hr as ->.
    split_and!; try done. unfold candidate_nodes, candidate_pairs. by rewrite Hc.
Qed.
End Production.

(** ** Witness *)

#[local] Existing Instances sample_hash Controller.sample_codec AutoSelect.sample_select.
#[local] Existing Instances Adapter.sample_printer Testbed.sample_durations Testbed.sample_pretty
  Testbed.sample_box Testbed.sample_testbed_lib Watchdog.sample_core.

(** The catalog's node answers the operators that want an empty 204; the trial of the
    active node finds no port. *)
Definition sample_env (_ : World) (n : CanonicalNode) : TrialIo :=
  {| tr_port := if String.eqb (label (meta n)) "DE" then Ok 40000 else bail "no port";
     tr_boot := sample_boot 3 (Some (60 * SECOND)); tr_seed := 1; tr_dials _ _ := sample_dial;
     tr_sent := seq 0 (length (sample_targets (scatter_config (ProxySettings_default None)) 1)) |}.
Definition sample_sweep (_ : World) (l : list CanonicalNode) (_ : PreflightConfig) : list CheapOutcome :=
  map (λ _, {| co_latency := Some 30; co_dead := false |}) l.
Definition sample_production : FailoverHooks :=
  production_hooks sample_env "sing-box" sample_sweep (λ _, si_fine) (λ _, 1000 * SECOND) (λ _, 0).

Lemma switch_is_proven_witness :
  ∃ a w' s' n w0,
    run_failover_cycle sample_production FailoverConfig_default (failing_world []) failed_once = Some (a, w', s') ∧
    length (w_trace w') = 5%nat ∧ length (w_trace w0) = 3%nat ∧ label (meta n) = "DE" ∧
    proven "sing-box" (scatter_config (ProxySettings_default None)) (sample_env w0 n) n.
Proof.
  destruct (run_failover_cycle sample_production FailoverConfig_default (failing_world []) failed_once)
    as [[[a w'] s']|] eqn:E; [|vm_compute in E; discriminate E].
  assert ((λ o, match o with Some (_, w1, _) => Some (length (w_trace w1), match last (w_trace w1) with
           Some (EvSwitch n _ _) => label (meta n) | _ => EmptyString end) | None => None end)
    (run_failover_cycle sample_production FailoverConfig_default (failing_world []) failed_once) =
    Some (5%nat, "DE"%stdpp)) as El by (vm_compute; reflexivity).
  rewrite E in El. injection El as Elen Elast.
  destruct (switch_is_proven sample_env "sing-box" sample_sweep (λ _, si_fine) (λ _, 1000 * SECOND) (λ _, 0)
    FailoverConfig_default (failing_world []) failed_once a w' s') as (ev & Ht & Hsw).
  - intros w n. split; [apply sample_paced|].
    apply (scatter_run_in_order (scatter_config (ProxySettings_default None)) 1). simpl. lia.
  - intros w0 l p. unfold sample_sweep. rewrite length_map. lia.
  - exact E.
  - simpl app in Ht. rewrite Ht in Elast, Elen.
    destruct (last ev) as [[| |n automatic outcome| |]|] eqn:Ev; try discriminate Elast.
    apply last_Some in Ev as [pre Ev].
    destruct (Hsw pre n automatic outcome [] Ev) as (_ & before & e & w0 & -> & Hw0 & _ & Hp).
    exists a, w', s', n, w0. split; [reflexivity|]. rewrite Ht, Hw0. split; [exact Elen|].
    split; [|exact (conj Elast Hp)]. rewrite Ev, !length_app in Elen. simpl in Elen |- *. lia.
Defined.
