(* ===== verification/Netfilter.v ===== *)
(** The routing backend of the daemon ([crates/netd/src/netfilter.rs]): the
    nftables ruleset, the [ip] commands of the policy routing, and the order in
    which they are run, undone and ignored.

    A command is a value and its outcome a function [run] of the commands run so
    far, so that a command that fails because of an earlier one can be expressed;
    what the backend does is the trace it leaves.  What the rendered text means
    to nftables is specified by an abstract table, printed to exactly that text,
    and by the evaluation of its chains on a packet. *)

From S2P Require Import Prelude RustStr.
Import Net.

(** ** Settings *)

(** [Option<Ipv4Addr>] is an optional [V4]. *)
Record TProxySettings := {
  tp_tproxy_port : Z; tp_proxy_fwmark : Z; tp_table_id : Z;
  tp_dns_ipv4 : option IpAddr;
  tp_bypass_subnets : list string; tp_bypass_subnets_v6 : list string;
  tp_core_uid : option Z
}.

Definition LOCAL_BYPASS_V4 : list string := ["127.0.0.0/8"; "169.254.0.0/16"].
Definition LOCAL_BYPASS_V6 : list string := ["::1/128"; "fe80::/10"; "fc00::/7"].

(** [trait RoutingBackend], over the state [K] of the machine. *)
Class RoutingBackend (K : Type) := {
  backend_enable : TProxySettings → K → result Error () * K;
  backend_disable : option TProxySettings → K → result Error () * K
}.

(** ** Arguments of [ip] *)

(** [{:#x}] of a [u32]. *)
Definition show_hex (z : Z) : string :=
  let nibble (i : Z) := z / 16 ^ i mod 16 in
  "0x" +:+ of_bytes (map hex_digit (drop_while (Z.eqb 0) (map nibble [7; 6; 5; 4; 3; 2; 1]) ++ [nibble 0])).

Inductive Op := Add | Del.
#[export] Instance Op_eq_dec : EqDecision Op.
Proof. solve_decision. Defined.

Definition rule_args (v4 : bool) (op : Op) (s : TProxySettings) : list string :=
  ["ip"] ++ (if v4 then [] else ["-6"]) ++ ["rule"] ++
  [match op with Add => "add" | Del => "del" end] ++
  ["fwmark"] ++ [show_hex (tp_proxy_fwmark s)] ++ ["lookup"] ++ [show_Z (tp_table_id s)].

Definition route_args (v4 : bool) (op : Op) (s : TProxySettings) : list string :=
  ["ip"] ++ (if v4 then [] else ["-6"]) ++ ["route"] ++
  [match op with Add => "add" | Del => "flush" end] ++
  (if bool_decide (op = Add) then ["local"; if v4 then "0.0.0.0/0" else "::/0"; "dev"; "lo"] else []) ++
  ["table"] ++ [show_Z (tp_table_id s)].

(** ** The ruleset *)

Definition push_cidr (cidrs : list string) (cidr : string) : list string :=
  if bool_decide (cidr ∈ cidrs) then cidrs else cidrs ++ [cidr].
Definition cidr_list (configured defaults : list string) : list string :=
  foldl push_cidr defaults configured.
Definition cidr_set (configured defaults : list string) : string :=
  str_join ", " (cidr_list configured defaults).

Definition nl : string := String "010" "".
Definition tab : string := String "009" "".

Definition render_ruleset (s : TProxySettings) : string :=
  let mark := show_hex (tp_proxy_fwmark s) in
  let port := show_Z (tp_tproxy_port s) in
  let bypass_v4 := cidr_set (tp_bypass_subnets s) LOCAL_BYPASS_V4 in
  let bypass_v6 := cidr_set (tp_bypass_subnets_v6 s) LOCAL_BYPASS_V6 in
  let uid_bypass := match tp_core_uid s with
    | Some uid => tab +:+ tab +:+ "meta skuid " +:+ show_Z uid +:+ " return" +:+ nl
    | None => "" end in
  "table inet myproxy {" +:+ nl +:+
  tab +:+ "set bypass_v4 {" +:+ nl +:+
  tab +:+ tab +:+ "type ipv4_addr" +:+ nl +:+
  tab +:+ tab +:+ "flags interval" +:+ nl +:+
  tab +:+ tab +:+ "elements = { " +:+ bypass_v4 +:+ " }" +:+ nl +:+
  tab +:+ "}" +:+ nl +:+
  tab +:+ "set bypass_v6 {" +:+ nl +:+
  tab +:+ tab +:+ "type ipv6_addr" +:+ nl +:+
  tab +:+ tab +:+ "flags interval" +:+ nl +:+
  tab +:+ tab +:+ "elements = { " +:+ bypass_v6 +:+ " }" +:+ nl +:+
  tab +:+ "}" +:+ nl +:+
  tab +:+ "chain prerouting {" +:+ nl +:+
  tab +:+ tab +:+ "type filter hook prerouting priority mangle; policy accept;" +:+ nl +:+
  tab +:+ tab +:+ "ip daddr @bypass_v4 return" +:+ nl +:+
  tab +:+ tab +:+ "ip6 daddr @bypass_v6 return" +:+ nl +:+
  tab +:+ tab +:+ "meta mark " +:+ mark +:+ " return" +:+ nl +:+
  tab +:+ tab +:+ "meta l4proto { tcp, udp } tproxy to :" +:+ port +:+ " meta mark set " +:+ mark +:+
    " accept" +:+ nl +:+
  tab +:+ "}" +:+ nl +:+
  tab +:+ "chain output {" +:+ nl +:+
  tab +:+ tab +:+ "type route hook output priority mangle; policy accept;" +:+ nl +:+
  tab +:+ tab +:+ "meta mark " +:+ mark +:+ " return" +:+ nl +:+
  tab +:+ tab +:+ "meta l4proto { tcp, udp } th dport 53 meta mark set " +:+ mark +:+ " accept" +:+ nl +:+
  uid_bypass +:+ tab +:+ tab +:+ "ip daddr @bypass_v4 return" +:+ nl +:+
  tab +:+ tab +:+ "ip6 daddr @bypass_v6 return" +:+ nl +:+
  tab +:+ tab +:+ "meta l4proto { tcp, udp } meta mark set " +:+ mark +:+ " accept" +:+ nl +:+
  tab +:+ "}" +:+ nl +:+
  "}" +:+ nl.

(** ** Commands *)

(** What the backend runs: [binary --version], [ip] with its arguments, and
    [nft -f -] with its standard input. *)
Inductive Command :=
| Probe (binary : string)
| Ip (args : list string)
| Nft (ruleset : string).
#[export] Instance Command_eq_dec : EqDecision Command.
Proof. solve_decision. Defined.

(** How a command ends: it cannot be spawned, its standard input breaks, it
    cannot be waited for, or it exits with a status and what it printed. *)
Inductive Outcome :=
| CannotSpawn (error : string)
| BrokenStdin (error : string)
| CannotWait (error : string)
| Exited (success : bool) (stderr : string).

(** The machine: its user, and the outcome of a command after others. *)
Class Machine := {
  euid : Z;
  run : list Command → Command → Outcome
}.

(** Fallible code that runs commands, over the trace of those it ran. *)
Definition Sh (A : Type) : Type := list Command → result Error A * list Command.
#[export] Instance Sh_ret : MRet Sh := λ A a t, (Ok a, t).
#[export] Instance Sh_bind : MBind Sh := λ A B k m t,
  match m t with
  | (Ok a, t) => k a t
  | (Err e, t) => (Err e, t)
  end.

Section Backend.
Context `{Machine}.

Definition exec (c : Command) : Sh Outcome := λ t, (Ok (run t c), t ++ [c]).
Definition lift {A} (r : result Error A) : Sh A := λ t, (r, t).
(** [let _ = m]. *)
Definition ignored {A} (m : Sh A) : Sh () := λ t, (Ok (), (m t).2).

(** One turn of the loop over the two binaries. *)
Definition ensure_binary (binary : string) : Sh () :=
  o ← exec (Probe binary);
  lift match o with
       | Exited _ _ => Ok ()
       | _ => bail ("required binary `" +:+ binary +:+ "` is not available")
       end.

Definition ensure_prerequisites : Sh () :=
  if negb (euid =? 0) then lift (bail "nftables backend requires root privileges")
  else _ ← ensure_binary "nft"; ensure_binary "ip".

Definition apply_ruleset (ruleset : string) : Sh () :=
  o ← exec (Nft ruleset);
  lift match o with
       | CannotSpawn e => Err ["failed to run `nft -f -`"; e]
       | BrokenStdin e => Err ["failed to write ruleset to nft"; e]
       | CannotWait e => Err [e]
       | Exited true _ => Ok ()
       | Exited false stderr => bail ("nft rejected the ruleset: " +:+ trim (from_utf8_lossy stderr))
       end.

Definition run_ip (args : list string) : Sh () :=
  o ← exec (Ip args);
  lift match o with
       | CannotSpawn e | BrokenStdin e | CannotWait e =>
         Err ["failed to run `" +:+ str_join " " args +:+ "`"; e]
       | Exited true _ => Ok ()
       | Exited false stderr =>
         bail ("`ip` rejected arguments `" +:+ str_join " " args +:+ "`: " +:+
               trim (from_utf8_lossy stderr))
       end.

Definition install_policy_routing (s : TProxySettings) : Sh () :=
  _ ← run_ip (rule_args true Add s);
  _ ← run_ip (route_args true Add s);
  _ ← run_ip (rule_args false Add s);
  run_ip (route_args false Add s).

Definition remove_policy_routing (s : TProxySettings) : Sh () :=
  _ ← ignored (run_ip (rule_args true Del s));
  _ ← ignored (run_ip (route_args true Del s));
  _ ← ignored (run_ip (rule_args false Del s));
  ignored (run_ip (route_args false Del s)).

(** The last step of [enable]: the ruleset, or the policy routing rolled back. *)
Definition apply_or_rollback (s : TProxySettings) : Sh () := λ t,
  match apply_ruleset (render_ruleset s) t with
  | (Ok _, t) => (Ok (), t)
  | (Err e, t) =>
    (_ ← remove_policy_routing s;
     lift (context "nftables ruleset failed; policy routing was rolled back" (Err e))) t
  end.

(** [NftablesBackend::enable]. *)
Definition enable (s : TProxySettings) : Sh () :=
  _ ← ensure_prerequisites;
  _ ← install_policy_routing s;
  apply_or_rollback s.

(** [NftablesBackend::disable]. *)
Definition disable (s : option TProxySettings) : Sh () :=
  _ ← ignored (apply_ruleset "delete table inet myproxy");
  match s with
  | Some s => remove_policy_routing s
  | None => mret ()
  end.

Definition NftablesBackend : RoutingBackend (list Command) :=
  {| backend_enable := enable; backend_disable := disable |}.
End Backend.

(** ** What the ruleset means

    The statements nftables is given, each with its conditions, and the verdict of
    a base chain on a packet: the first rule whose conditions hold decides, and a
    packet no rule decides is accepted as it is, which is also what [return] does. *)

Inductive Cond :=
| DaddrIn (v6 : bool)      (** the destination is in the set of that family *)
| MarkIs (mark : Z)
| TcpOrUdp
| DportIs (port : Z)
| SkuidIs (uid : Z).
Inductive Action :=
| Return
| SetMark (mark : Z)                  (** [meta mark set _ accept] *)
| Tproxy (port mark : Z).             (** [tproxy to :_ meta mark set _ accept] *)
Record Rule := { r_conds : list Cond; r_action : Action }.

Record Table := {
  t_bypass_v4 : list string; t_bypass_v6 : list string;
  t_prerouting : list Rule; t_output : list Rule
}.

Definition table_of (s : TProxySettings) : Table :=
  let m := tp_proxy_fwmark s in
  {| t_bypass_v4 := cidr_list (tp_bypass_subnets s) LOCAL_BYPASS_V4;
     t_bypass_v6 := cidr_list (tp_bypass_subnets_v6 s) LOCAL_BYPASS_V6;
     t_prerouting :=
       [ {| r_conds := [DaddrIn false]; r_action := Return |};
         {| r_conds := [DaddrIn true]; r_action := Return |};
         {| r_conds := [MarkIs m]; r_action := Return |};
         {| r_conds := [TcpOrUdp]; r_action := Tproxy (tp_tproxy_port s) m |} ];
     t_output :=
       [ {| r_conds := [MarkIs m]; r_action := Return |};
         {| r_conds := [TcpOrUdp; DportIs 53]; r_action := SetMark m |} ] ++
       match tp_core_uid s with
       | Some uid => [ {| r_conds := [SkuidIs uid]; r_action := Return |} ]
       | None => []
       end ++
       [ {| r_conds := [DaddrIn false]; r_action := Return |};
         {| r_conds := [DaddrIn true]; r_action := Return |};
         {| r_conds := [TcpOrUdp]; r_action := SetMark m |} ] |}.

Definition print_cond (c : Cond) : string :=
  match c with
  | DaddrIn false => "ip daddr @bypass_v4"
  | DaddrIn true => "ip6 daddr @bypass_v6"
  | MarkIs m => "meta mark " +:+ show_hex m
  | TcpOrUdp => "meta l4proto { tcp, udp }"
  | DportIs p => "th dport " +:+ show_Z p
  | SkuidIs uid => "meta skuid " +:+ show_Z uid
  end.
Definition print_action (a : Action) : string :=
  match a with
  | Return => "return"
  | SetMark m => "meta mark set " +:+ show_hex m +:+ " accept"
  | Tproxy port m => "tproxy to :" +:+ show_Z port +:+ " meta mark set " +:+ show_hex m +:+ " accept"
  end.
Definition print_rule (r : Rule) : string :=
  str_join " " (map print_cond (r_conds r) ++ [print_action (r_action r)]).
Definition print_line (depth : nat) (text : string) : string :=
  foldr String.append (text +:+ nl) (repeat tab depth).
Definition print_block (depth : nat) (head : string) (body : list string) : list string :=
  [print_line depth (head +:+ " {")] ++ body ++ [print_line depth "}"].
Definition print_set (name type : string) (elements : list string) : list string :=
  print_block 1 ("set " +:+ name)
    (map (print_line 2) ["type " +:+ type; "flags interval"; "elements = { " +:+ str_join ", " elements +:+ " }"]).
Definition print_chain (name hook : string) (rules : list Rule) : list string :=
  print_block 1 ("chain " +:+ name)
    (map (print_line 2) (("type " +:+ hook +:+ " priority mangle; policy accept;") :: map print_rule rules)).
Definition print_table (t : Table) : string :=
  foldr String.append "" (print_block 0 "table inet myproxy"
    (print_set "bypass_v4" "ipv4_addr" (t_bypass_v4 t) ++
     print_set "bypass_v6" "ipv6_addr" (t_bypass_v6 t) ++
     print_chain "prerouting" "filter hook prerouting" (t_prerouting t) ++
     print_chain "output" "route hook output" (t_output t))).

Inductive L4 := Tcp | Udp | OtherL4.
Record Packet := {
  pk_mark : Z; pk_l4 : L4; pk_dport : Z; pk_dst : IpAddr;
  pk_uid : option Z                  (** of the local socket, if there is one *)
}.
Definition with_mark (p : Packet) (m : Z) : Packet :=
  {| pk_mark := m; pk_l4 := pk_l4 p; pk_dport := pk_dport p; pk_dst := pk_dst p; pk_uid := pk_uid p |}.

(** Which addresses a CIDR element of a set covers is nftables' business. *)
Class Cidrs := { covers : string → IpAddr → bool }.

Section Evaluation.
Context `{Cidrs}.

Definition is_v6 (ip : IpAddr) : bool := match ip with V4 _ _ _ _ => false | V6 _ => true end.
Definition tcp_or_udp (p : Packet) : bool := match pk_l4 p with OtherL4 => false | _ => true end.
(** Whether the sets of the table exempt the packet's destination. *)
Definition bypassed (t : Table) (p : Packet) : bool :=
  existsb (λ c, covers c (pk_dst p)) (if is_v6 (pk_dst p) then t_bypass_v6 t else t_bypass_v4 t).

Definition holds (t : Table) (p : Packet) (c : Cond) : bool :=
  match c with
  | DaddrIn v6 => bool_decide (is_v6 (pk_dst p) = v6) && bypassed t p
  | MarkIs m => pk_mark p =? m
  | TcpOrUdp => tcp_or_udp p
  | DportIs port => tcp_or_udp p && (pk_dport p =? port)
  | SkuidIs uid => bool_decide (pk_uid p = Some uid)
  end.

(** The packet as it leaves the chain, and the port of the local proxy it is
    handed to, if any. *)
Fixpoint chain (t : Table) (rules : list Rule) (p : Packet) : Packet * option Z :=
  match rules with
  | [] => (p, None)
  | r :: rules =>
    if forallb (holds t p) (r_conds r) then
      match r_action r with
      | Return => (p, None)
      | SetMark m => (with_mark p m, None)
      | Tproxy port m => (with_mark p m, Some port)
      end
    else chain t rules p
  end.

Definition output (t : Table) (p : Packet) : Packet := (chain t (t_output t) p).1.
Definition prerouting (t : Table) (p : Packet) : Packet * option Z := chain t (t_prerouting t) p.
End Evaluation.

(** ** The ruleset: what is printed, and what it does *)

Lemma push_cidr_elem cidrs c x : x ∈ push_cidr cidrs c ↔ x ∈ cidrs ∨ x = c.
Proof.
  unfold push_cidr. case_bool_decide.
  - split; [by left|]. by intros [?| ->].
  - rewrite elem_of_app, list_elem_of_singleton. done.
Qed.

Lemma push_cidr_nodup cidrs c : NoDup cidrs → NoDup (push_cidr cidrs c).
Proof.
  intros Hd. unfold push_cidr. case_bool_decide; [done|].
  apply NoDup_app. split_and!; [done| |apply NoDup_singleton].
  intros x Hx ->%list_elem_of_singleton. done.
Qed.

(** The sets hold the defaults first, then what is configured, each once. *)
Lemma cidr_list_spec configured defaults :
  NoDup defaults →
  NoDup (cidr_list configured defaults) ∧
  defaults `prefix_of` cidr_list configured defaults ∧
  ∀ x, x ∈ cidr_list configured defaults ↔ x ∈ defaults ∨ x ∈ configured.
Proof.
  unfold cidr_list. revert defaults.
  induction configured as [|c configured IH]; intros defaults Hd; simpl.
  { split_and!; [done|done|]. intros x. rewrite elem_of_nil. naive_solver. }
  destruct (IH (push_cidr defaults c) (push_cidr_nodup _ _ Hd)) as (Hn & Hp & He).
  split_and!; [done| |].
  - etrans; [|exact Hp]. unfold push_cidr. case_bool_decide; [done|by eexists].
  - intros x. rewrite He, push_cidr_elem, elem_of_cons. naive_solver.
Qed.

Lemma string_app_assoc (a b c : string) : (a +:+ b) +:+ c = a +:+ (b +:+ c).
Proof. induction a as [|x a IH]; [done|]. rewrite !append_String. by rewrite IH. Qed.

(** Concatenations are compared by their leaves, from left to right. *)
Inductive rope := Leaf (s : string) | Join (a b : rope).
Fixpoint rope_string (r : rope) : string :=
  match r with Leaf s => s | Join a b => rope_string a +:+ rope_string b end.
Fixpoint leaves (r : rope) (k : string) : string :=
  match r with Leaf s => s +:+ k | Join a b => leaves a (leaves b k) end.

Lemma leaves_string r k : leaves r k = rope_string r +:+ k.
Proof.
  revert k. induction r as [s|a IHa b IHb]; intros k; simpl; [done|].
  by rewrite IHa, IHb, string_app_assoc.
Qed.

Lemma rope_eq r1 r2 : leaves r1 EmptyString = leaves r2 EmptyString → rope_string r1 = rope_string r2.
Proof. by rewrite !leaves_string, !append_empty_r. Qed.

Ltac rope_of t :=
  lazymatch t with
  | ?a +:+ ?b => let ra := rope_of a in let rb := rope_of b in constr:(Join ra rb)
  | _ => constr:(Leaf t)
  end.
Ltac by_leaves :=
  lazymatch goal with
  | |- ?a = ?b =>
    let ra := rope_of a in let rb := rope_of b in
    apply (rope_eq ra rb); vm_compute; reflexivity
  end.

(** The rendered text is the abstract table, printed. *)
Lemma render_is_print s : render_ruleset s = print_table (table_of s).
Proof.
  unfold render_ruleset, print_table, print_set, print_chain, print_block, print_line, table_of, cidr_set.
  destruct (tp_core_uid s) as [uid|];
    cbn [map app foldr repeat t_bypass_v4 t_bypass_v6 t_prerouting t_output]; unfold print_rule, str_join;
    cbn [map app print_cond print_action r_conds r_action String.concat];
    generalize (show_hex (tp_proxy_fwmark s)) as m; generalize (show_Z (tp_tproxy_port s)) as port;
    try generalize (show_Z uid) as u; intros;
    generalize (String.concat ", " (cidr_list (tp_bypass_subnets s) LOCAL_BYPASS_V4)) as b4;
    generalize (String.concat ", " (cidr_list (tp_bypass_subnets_v6 s) LOCAL_BYPASS_V6)) as b6; intros.
  all: by_leaves.
Qed.

Section Ruleset.
Context `{Cidrs}.

(** Whose packets [output] marks: TCP and UDP, to port 53 whatever the destination
    and the user, and otherwise neither to an exempt destination nor by the core. *)
Definition intercepts (s : TProxySettings) (p : Packet) : bool :=
  tcp_or_udp p &&
  ((pk_dport p =? 53) ||
   negb (bypassed (table_of s) p) &&
   match tp_core_uid s with Some uid => bool_decide (pk_uid p ≠ Some uid) | None => true end).

Lemma with_mark_id p : with_mark p (pk_mark p) = p.
Proof. by destruct p. Qed.

Lemma daddr_cases t p :
  bool_decide (is_v6 (pk_dst p) = false) && bypassed t p = negb (is_v6 (pk_dst p)) && bypassed t p ∧
  bool_decide (is_v6 (pk_dst p) = true) && bypassed t p = is_v6 (pk_dst p) && bypassed t p.
Proof. by destruct (is_v6 (pk_dst p)). Qed.

Lemma output_spec s p :
  output (table_of s) p =
    if intercepts s p then with_mark p (tp_proxy_fwmark s) else p.
Proof.
  unfold output, intercepts. destruct (daddr_cases (table_of s) p) as [E4 E6].
  set (t := table_of s) in *. unfold t at 2. destruct (tp_core_uid s) as [uid|] eqn:Eu;
    unfold table_of; rewrite Eu; cbn -[bypassed]; rewrite E4, E6;
    (destruct (pk_mark p =? tp_proxy_fwmark s) eqn:Em;
      [apply Z.eqb_eq in Em; rewrite <-Em, with_mark_id; cbn; by case_match|]); cbn -[bypassed].
  all: destruct (tcp_or_udp p); cbn -[bypassed]; [|repeat case_match; done].
  all: destruct (pk_dport p =? 53); cbn -[bypassed]; [done|].
  - destruct (decide (pk_uid p = Some uid)) as [Ep|Ep].
    + rewrite (bool_decide_eq_true_2 _ Ep), (bool_decide_eq_false_2 (pk_uid p ≠ Some uid)) by naive_solver.
      by rewrite andb_false_r.
    + rewrite (bool_decide_eq_false_2 _ Ep), (bool_decide_eq_true_2 _ Ep). cbn.
      by destruct (is_v6 (pk_dst p)), (bypassed t p).
  - by destruct (is_v6 (pk_dst p)), (bypassed t p).
Qed.

Lemma prerouting_spec s p :
  prerouting (table_of s) p =
    if tcp_or_udp p && negb (bypassed (table_of s) p) && negb (pk_mark p =? tp_proxy_fwmark s)
    then (with_mark p (tp_proxy_fwmark s), Some (tp_tproxy_port s)) else (p, None).
Proof.
  unfold prerouting. destruct (daddr_cases (table_of s) p) as [E4 E6].
  set (t := table_of s) in *. cbn -[bypassed]. rewrite E4, E6.
  by destruct (is_v6 (pk_dst p)), (bypassed t p), (pk_mark p =? tp_proxy_fwmark s), (tcp_or_udp p).
Qed.

(** C30. The ruleset given to nftables is the abstract table, printed, and does
    what its documentation says of the output hook: a packet that carries the
    mark, such as the core's own, is left alone; DNS is intercepted whatever its
    destination and user; other TCP and UDP packets are intercepted unless their
    destination is exempt or the core sent them; nothing else is touched, and a
    second pass changes nothing.  The prerouting hook hands to the proxy exactly
    the unmarked TCP and UDP packets to destinations that are not exempt; so it
    never hands over a packet the output hook has marked. *)
Theorem ruleset_spec (s : TProxySettings) :
  render_ruleset s = print_table (table_of s) ∧
  ∀ p,
    output (table_of s) p =
      (if intercepts s p then with_mark p (tp_proxy_fwmark s) else p) ∧
    (pk_mark p = tp_proxy_fwmark s → output (table_of s) p = p) ∧
    output (table_of s) (output (table_of s) p) = output (table_of s) p ∧
    prerouting (table_of s) p =
      (if tcp_or_udp p && negb (bypassed (table_of s) p) && negb (pk_mark p =? tp_proxy_fwmark s)
       then (with_mark p (tp_proxy_fwmark s), Some (tp_tproxy_port s)) else (p, None)) ∧
    (intercepts s p = true → (prerouting (table_of s) (output (table_of s) p)).2 = None).
Proof.
  split; [apply render_is_print|]. intros p. rewrite (output_spec s (output _ p)), (output_spec s p).
  split_and!; [done| | |apply prerouting_spec|].
  - intros <-. rewrite with_mark_id. by destruct (intercepts s p).
  - destruct (intercepts s p) eqn:E; rewrite ?E; [by destruct (intercepts s _)|done].
  - intros ->. rewrite prerouting_spec. simpl. by rewrite Z.eqb_refl, andb_false_r.
Qed.
End Ruleset.

(** ** The commands, their order and their failures *)

Lemma Sh_bind_run {A B} (m : Sh A) (k : A → Sh B) t :
  (m ≫= k) t = match m t with (Ok a, t) => k a t | (Err e, t) => (Err e, t) end.
Proof. done. Qed.

Section Traces.
Context `{Machine}.

Definition succeeds (t : list Command) (c : Command) : bool :=
  match run t c with Exited b _ => b | _ => false end.
Fixpoint all_succeed (t cs : list Command) : bool :=
  match cs with [] => true | c :: cs => succeeds t c && all_succeed (t ++ [c]) cs end.

Definition probes : list Command := [Probe "nft"; Probe "ip"].
Definition policy_args (op : Op) (s : TProxySettings) : list (list string) :=
  [rule_args true op s; route_args true op s; rule_args false op s; route_args false op s].
Definition policy (op : Op) (s : TProxySettings) : list Command := map Ip (policy_args op s).

Lemma exec_bind {A} c (k : Outcome → Sh A) t : (exec c ≫= k) t = k (run t c) (t ++ [c]).
Proof. done. Qed.

Lemma run_ip_spec args t :
  (run_ip args t).2 = t ++ [Ip args] ∧ is_ok (run_ip args t).1 = succeeds t (Ip args).
Proof. unfold run_ip, succeeds. rewrite exec_bind. by destruct (run t (Ip args)) as [| | |[] ?]. Qed.

Lemma apply_ruleset_spec ruleset t :
  (apply_ruleset ruleset t).2 = t ++ [Nft ruleset] ∧
  is_ok (apply_ruleset ruleset t).1 = succeeds t (Nft ruleset).
Proof. unfold apply_ruleset, succeeds. rewrite exec_bind. by destruct (run t (Nft ruleset)) as [| | |[] ?]. Qed.

(** Running commands until one fails: what was run is the ones that succeeded
    and the one that did not. *)
Fixpoint run_all (l : list (list string)) : Sh () :=
  match l with [] => mret () | args :: l => _ ← run_ip args; run_all l end.

Lemma run_all_spec l t :
  match run_all l t with
  | (Ok _, t') => t' = t ++ map Ip l ∧ all_succeed t (map Ip l) = true
  | (Err _, t') => ∃ pre a post, l = pre ++ a :: post ∧ t' = t ++ map Ip pre ++ [Ip a] ∧
                     all_succeed t (map Ip pre) = true ∧ succeeds (t ++ map Ip pre) (Ip a) = false
  end.
Proof.
  revert t. induction l as [|a l IH]; intros t; cbn [run_all].
  { unfold mret, Sh_ret. by rewrite app_nil_r. }
  rewrite Sh_bind_run. destruct (run_ip_spec a t) as [Et Eo].
  destruct (run_ip a t) as [[[]|e] t1]; simpl in Et, Eo; subst t1.
  - specialize (IH (t ++ [Ip a])). destruct (run_all l (t ++ [Ip a])) as [[[]|e] t2]; simpl.
    + destruct IH as [-> IH]. rewrite <-Eo, IH. split; [by rewrite <-app_assoc|done].
    + destruct IH as (pre & b & post & -> & -> & Hs & Hf). exists (a :: pre), b, post. simpl.
      rewrite <-Eo. split_and!; [done|by rewrite <-app_assoc|done|by rewrite <-app_assoc in Hf].
  - exists [], a, l. simpl. rewrite app_nil_r. done.
Qed.

Lemma install_policy_routing_run s t :
  install_policy_routing s t = run_all (policy_args Add s) t.
Proof.
  unfold install_policy_routing. cbn [run_all policy_args].
  do 3 (rewrite !Sh_bind_run;
        match goal with |- context [run_ip ?a ?u] => destruct (run_ip a u) as [[[]|?] ?] end; [|done]).
  rewrite !Sh_bind_run. by destruct (run_ip (route_args false Add s) _) as [[[]|?] ?].
Qed.

(** Removal runs its four commands whatever they answer, and never fails. *)
Lemma remove_policy_routing_run s t :
  remove_policy_routing s t = (Ok (), t ++ policy Del s).
Proof.
  unfold remove_policy_routing, ignored. rewrite !Sh_bind_run.
  repeat (rewrite (proj1 (run_ip_spec _ _)) || rewrite Sh_bind_run).
  unfold policy. cbn [map policy_args]. by rewrite <-!app_assoc.
Qed.

(** Whether a command can be run at all. *)
Definition runs (t : list Command) (c : Command) : bool :=
  match run t c with Exited _ _ => true | _ => false end.

Lemma ensure_binary_spec b t :
  (ensure_binary b t).2 = t ++ [Probe b] ∧ is_ok (ensure_binary b t).1 = runs t (Probe b).
Proof. unfold ensure_binary, runs. rewrite exec_bind. by destruct (run t (Probe b)). Qed.

Lemma ensure_prerequisites_spec t :
  match ensure_prerequisites t with
  | (Ok _, t') => euid = 0 ∧ t' = t ++ probes
  | (Err _, t') => (euid ≠ 0 ∧ t' = t) ∨
                   ∃ pre c post, euid = 0 ∧ probes = pre ++ c :: post ∧ t' = t ++ pre ++ [c] ∧
                     runs (t ++ pre) c = false
  end.
Proof.
  unfold ensure_prerequisites. destruct (euid =? 0) eqn:E; simpl.
  2: { apply Z.eqb_neq in E. by left. }
  apply Z.eqb_eq in E. rewrite Sh_bind_run. destruct (ensure_binary_spec "nft" t) as [E1 R1].
  destruct (ensure_binary "nft" t) as [[[]|e] t1]; simpl in E1, R1; subst t1.
  - destruct (ensure_binary_spec "ip" (t ++ [Probe "nft"])) as [E2 R2].
    destruct (ensure_binary "ip" _) as [[[]|e] t2]; simpl in E2, R2; subst t2; rewrite <-app_assoc; [done|].
    right. by exists [Probe "nft"], (Probe "ip"), [].
  - right. exists [], (Probe "nft"), [Probe "ip"]. by rewrite app_nil_r.
Qed.

Lemma all_succeed_app t cs ds :
  all_succeed t (cs ++ ds) = all_succeed t cs && all_succeed (t ++ cs) ds.
Proof.
  revert t. induction cs as [|c cs IH]; intros t; simpl; [by rewrite app_nil_r|].
  by rewrite IH, <-app_assoc, andb_assoc.
Qed.

(** Where [enable] stops, and what it leaves behind. *)
Inductive EnableTrace (s : TProxySettings) (t : list Command) : bool → list Command → Prop :=
| EnableNotRoot :
    euid ≠ 0 → EnableTrace s t false []
| EnableMissing pre c post :
    euid = 0 → probes = pre ++ c :: post → runs (t ++ pre) c = false →
    EnableTrace s t false (pre ++ [c])
| EnableIpFailed pre a post :
    policy_args Add s = pre ++ a :: post →
    all_succeed (t ++ probes) (map Ip pre) = true →
    succeeds (t ++ probes ++ map Ip pre) (Ip a) = false →
    EnableTrace s t false (probes ++ map Ip pre ++ [Ip a])
| EnableNftFailed :
    all_succeed (t ++ probes) (policy Add s) = true →
    succeeds (t ++ probes ++ policy Add s) (Nft (render_ruleset s)) = false →
    EnableTrace s t false (probes ++ policy Add s ++ [Nft (render_ruleset s)] ++ policy Del s)
| EnableDone :
    euid = 0 →
    all_succeed (t ++ probes) (policy Add s ++ [Nft (render_ruleset s)]) = true →
    EnableTrace s t true (probes ++ policy Add s ++ [Nft (render_ruleset s)]).

Lemma enable_cases s t :
  ∃ cs, (enable s t).2 = t ++ cs ∧ EnableTrace s t (is_ok (enable s t).1) cs.
Proof.
  unfold enable. rewrite Sh_bind_run. pose proof (ensure_prerequisites_spec t) as Hp.
  destruct (ensure_prerequisites t) as [[[]|e] t1].
  2: { destruct Hp as [[Hu ->]|(pre & c & post & Hu & Ep & -> & Hr)].
       - exists []. rewrite app_nil_r. split; [done|by constructor].
       - exists (pre ++ [c]). split; [done|by econstructor]. }
  destruct Hp as [Hu ->]. rewrite Sh_bind_run, install_policy_routing_run.
  pose proof (run_all_spec (policy_args Add s) (t ++ probes)) as Hi.
  destruct (run_all _ _) as [[[]|e] t2].
  2: { destruct Hi as (pre & a & post & Ea & -> & Hs & Hf). exists (probes ++ map Ip pre ++ [Ip a]).
       split; [by rewrite !app_assoc|]. rewrite <-app_assoc in Hf. by econstructor. }
  destruct Hi as [-> Hs]. unfold apply_or_rollback.
  destruct (apply_ruleset_spec (render_ruleset s) ((t ++ probes) ++ map Ip (policy_args Add s))) as [En Eo].
  destruct (apply_ruleset _ _) as [[[]|e] t3]; cbn [fst snd is_ok] in En, Eo; subst t3.
  - exists (probes ++ policy Add s ++ [Nft (render_ruleset s)]). split; [by rewrite <-!app_assoc|].
    apply EnableDone; [done|]. rewrite all_succeed_app. unfold policy. rewrite Hs. cbn [all_succeed andb].
    by rewrite <-Eo.
  - rewrite Sh_bind_run, remove_policy_routing_run.
    exists (probes ++ policy Add s ++ [Nft (render_ruleset s)] ++ policy Del s).
    split; [by rewrite <-!app_assoc|]. apply EnableNftFailed; [done|]. by rewrite <-app_assoc in Eo.
Qed.

Lemma disable_run s t :
  disable s t = (Ok (), t ++ [Nft "delete table inet myproxy"] ++
                          match s with Some s => policy Del s | None => [] end).
Proof.
  unfold disable, ignored. rewrite Sh_bind_run, (proj1 (apply_ruleset_spec _ _)).
  destruct s as [s|]; [rewrite remove_policy_routing_run; by rewrite <-app_assoc|done].
Qed.

(** C38. Enabling runs the checks, the four [ip] commands and one nftables
    transaction, in that order, and answers success exactly when it ran them all
    as root and every one that changes something succeeded.  When the transaction
    fails the four additions are undone, in their order, whatever the undoing
    answers; when an [ip] command fails the ones before it stay.  Disabling
    always succeeds: it deletes the table and then, knowing the settings, undoes
    the four additions. *)
Theorem backend_spec (s : TProxySettings) (t : list Command) :
  (∃ cs, (enable s t).2 = t ++ cs ∧ EnableTrace s t (is_ok (enable s t).1) cs) ∧
  (∀ o, disable o t = (Ok (), t ++ [Nft "delete table inet myproxy"] ++
                                 match o with Some s => policy Del s | None => [] end)).
Proof. split; [apply enable_cases|intros o; apply disable_run]. Qed.
End Traces.

(** ** Enabling twice *)

(** The kernel refuses to add a rule that is already there. *)
Class RefusesDuplicates `{Machine} : Prop := {
  duplicate_rule : ∀ t u s,
    succeeds t (Ip (rule_args true Add s)) = true → Ip (rule_args true Del s) ∉ u →
    succeeds (t ++ [Ip (rule_args true Add s)] ++ u) (Ip (rule_args true Add s)) = false
}.

Section Twice.
Context `{RefusesDuplicates}.

Lemma adds_no_del s : Ip (rule_args true Del s) ∉ policy Add s.
Proof. unfold policy, policy_args. cbn [map]. rewrite !elem_of_cons, elem_of_nil. naive_solver. Qed.

Lemma second_enable_fails s t u :
  is_ok (enable s t).1 = true → Ip (rule_args true Del s) ∉ u →
  is_ok (enable s ((enable s t).2 ++ u)).1 = false.
Proof.
  intros He Hu. destruct (enable_cases s t) as (cs & -> & Ht). rewrite He in Ht.
  inversion Ht as [| | | |_ Ha]; subst. clear Ht He.
  set (t0 := t ++ probes ++ policy Add s ++ [Nft (render_ruleset s)]) in *.
  destruct (enable_cases s (t0 ++ u)) as (cs & _ & Ht).
  destruct (is_ok (enable s (t0 ++ u)).1) eqn:He; [|done].
  inversion Ht as [| | | |_ Hb]; subst. exfalso.
  rewrite all_succeed_app in Ha, Hb. apply andb_true_iff in Ha as [Ha _], Hb as [Hb _].
  set (first := rule_args true Add s) in *.
  set (more := map Ip [route_args true Add s; rule_args false Add s; route_args false Add s]).
  change (policy Add s) with (Ip first :: more) in Ha, Hb. simpl in Ha, Hb.
  apply andb_true_iff in Ha as [Ha _], Hb as [Hb _].
  assert ((t0 ++ u) ++ probes =
          (t ++ probes) ++ [Ip first] ++ (more ++ [Nft (render_ruleset s)] ++ u ++ probes)) as E.
  { unfold t0. change (policy Add s) with (Ip first :: more). cbn [app]. by rewrite <-!app_assoc. }
  rewrite E in Hb. pose proof (duplicate_rule _ (more ++ [Nft (render_ruleset s)] ++ u ++ probes) s Ha) as Hd.
  cbv delta [first] in Hb. rewrite Hd in Hb; [done|].
  pose proof (adds_no_del s) as Hn. change (policy Add s) with (Ip first :: more) in Hn.
  rewrite elem_of_cons in Hn. unfold probes. rewrite !elem_of_app, !elem_of_cons, elem_of_nil. naive_solver.
Qed.
End Twice.
