(* ===== verification/Netd.v ===== *)
(** The privileged daemon ([crates/netd/src/main.rs] and
    [crates/netd-proto/src/lib.rs]): the protocol's messages, the validation of a
    request, the session that owns the routing, the heartbeat watchdog, and the
    life of one connection.

    Each critical section of the daemon's mutex is a function of its state, and
    the handlers are their compositions around the calls to the backend, which is
    any instance of [RoutingBackend].  The handlers run as tasks: [step] is the
    relation of the interleavings of their critical sections and backend calls, in
    which the watchdog looks at the state only once its sleep is over; [prompt_step]
    keeps the runs whose watchdog is never late by more than a bound.  An [Instant]
    is a number of milliseconds. *)

From S2P Require Import Prelude RustStr Netfilter.
Import Net.

(** ** The protocol *)

Definition PROTOCOL_VERSION : Z := 1.
Definition WATCHDOG_TIMEOUT_SECS : Z := 5.
Definition HEARTBEAT_INTERVAL_SECS : Z := 2.
Definition MAX_FRAME_BYTES : Z := 64 * 1024.

Inductive NetdRequest :=
| Handshake (client_version : Z)
| EnableRouting (session_id tproxy_port proxy_fwmark table_id : Z) (dns_ipv4 : option IpAddr)
    (bypass_subnets bypass_subnets_v6 : list string) (core_uid : option Z)
| DisableRouting (session_id : Z)
| Heartbeat (session_id sequence : Z).

Inductive NetdResponse :=
| HandshakeOk (daemon_version session_id : Z)
| RoutingEnabled
| RoutingDisabled
| HeartbeatAck (sequence : Z)
| State (routing_active : bool)
| Error_ (message : string).

(** ** Validation *)

(** The ipnet crate. *)
Class IpNet := {
  Ipv4Net : Type;
  Ipv6Net : Type;
  parse_v4net : string → result string Ipv4Net;
  parse_v6net : string → result string Ipv6Net;
  v4_prefix_len : Ipv4Net → Z;
  v6_prefix_len : Ipv6Net → Z;
  show_v4net : Ipv4Net → string;
  show_v6net : Ipv6Net → string
}.

Record RoutingConfig `{IpNet} := {
  rc_tproxy_port : Z; rc_proxy_fwmark : Z; rc_table_id : Z;
  rc_dns_ipv4 : option IpAddr;
  rc_bypass_subnets : list Ipv4Net; rc_bypass_subnets_v6 : list Ipv6Net;
  rc_core_uid : option Z
}.

Section Validation.
Context `{IpNet}.

(** [TProxySettings::from]. *)
Definition settings_of (c : RoutingConfig) : TProxySettings :=
  {| tp_tproxy_port := rc_tproxy_port c; tp_proxy_fwmark := rc_proxy_fwmark c;
     tp_table_id := rc_table_id c; tp_dns_ipv4 := rc_dns_ipv4 c;
     tp_bypass_subnets := map show_v4net (rc_bypass_subnets c);
     tp_bypass_subnets_v6 := map show_v6net (rc_bypass_subnets_v6 c);
     tp_core_uid := rc_core_uid c |}.

(** [Ipv4Addr::is_unspecified], [is_multicast], [is_broadcast]. *)
Definition is_unspecified (ip : IpAddr) : bool :=
  match ip with V4 a b c d => (a =? 0) && (b =? 0) && (c =? 0) && (d =? 0) | V6 _ => false end.
Definition is_multicast (ip : IpAddr) : bool :=
  match ip with V4 a _ _ _ => in_range 224 239 a | V6 _ => false end.
Definition is_broadcast (ip : IpAddr) : bool :=
  match ip with V4 a b c d => (a =? 255) && (b =? 255) && (c =? 255) && (d =? 255) | V6 _ => false end.

(** [if condition { bail!(message) }]. *)
Definition bail_if (condition : bool) (message : string) : result Error () :=
  if condition then bail message else Ok ().

(** The two loops over the subnets. *)
Fixpoint parse_subnets_v4 (subnets : list string) : result Error (list Ipv4Net) :=
  match subnets with
  | [] => Ok []
  | subnet :: subnets =>
    network ← map_err (λ e, ["invalid IPv4 subnet: " +:+ subnet; e]%stdpp) (parse_v4net subnet);
    _ ← bail_if (v4_prefix_len network =? 0) "the default route cannot be a bypass subnet";
    cons network <$> parse_subnets_v4 subnets
  end.
Fixpoint parse_subnets_v6 (subnets : list string) : result Error (list Ipv6Net) :=
  match subnets with
  | [] => Ok []
  | subnet :: subnets =>
    network ← map_err (λ e, ["invalid IPv6 subnet: " +:+ subnet; e]%stdpp) (parse_v6net subnet);
    _ ← bail_if (v6_prefix_len network =? 0) "the default route cannot be a bypass subnet";
    cons network <$> parse_subnets_v6 subnets
  end.

(** The two [if let]s. *)
Definition check_dns (dns_ipv4 : option IpAddr) : result Error () :=
  match dns_ipv4 with
  | Some ip => bail_if (is_unspecified ip || is_multicast ip || is_broadcast ip) "DNS address is not routable"
  | None => Ok ()
  end.
Definition check_uid (core_uid : option Z) : result Error () :=
  match core_uid with
  | Some uid => bail_if ((uid =? 0) || (uid =? U32_MAX)) "proxy core UID must be a real user id"
  | None => Ok ()
  end.

Definition validate_config (tproxy_port proxy_fwmark table_id : Z) (dns_ipv4 : option IpAddr)
    (bypass_subnets bypass_subnets_v6 : list string) (core_uid : option Z) : result Error RoutingConfig :=
  _ ← bail_if (negb (in_range 1024 65535 tproxy_port)) "tproxy port must be between 1024 and 65535";
  _ ← bail_if ((proxy_fwmark =? 0) || (proxy_fwmark =? U32_MAX))
        "proxy firewall mark is outside the supported range";
  _ ← bail_if (negb (in_range 1 252 table_id)) "routing table must be between 1 and 252";
  _ ← check_dns dns_ipv4;
  _ ← check_uid core_uid;
  _ ← bail_if (256 <? Z.of_nat (length bypass_subnets)) "too many bypass subnets";
  _ ← bail_if (256 <? Z.of_nat (length bypass_subnets_v6)) "too many IPv6 bypass subnets";
  parsed ← parse_subnets_v4 bypass_subnets;
  parsed_v6 ← parse_subnets_v6 bypass_subnets_v6;
  Ok {| rc_tproxy_port := tproxy_port; rc_proxy_fwmark := proxy_fwmark; rc_table_id := table_id;
        rc_dns_ipv4 := dns_ipv4; rc_bypass_subnets := parsed; rc_bypass_subnets_v6 := parsed_v6;
        rc_core_uid := core_uid |}.
End Validation.

(** ** The state, one critical section at a time *)

Record DaemonState `{IpNet} := {
  ds_active_session : option Z;
  ds_routing_active : bool;
  ds_last_heartbeat : Z;
  ds_routing_config : option RoutingConfig
}.

(** [require_controller]. *)
Definition require_controller (request_session connection_session : Z) : result Error () :=
  bail_if (negb (request_session =? connection_session)) "session does not own the controller".

Definition heartbeat_allowed (active_session : option Z) (routing_active : bool) (session_id : Z) : bool :=
  routing_active && bool_decide (active_session = Some session_id).

Section Sections.
Context `{IpNet}.

Definition initial_state (now : Z) : DaemonState :=
  {| ds_active_session := None; ds_routing_active := false; ds_last_heartbeat := now;
     ds_routing_config := None |}.

Definition claim_controller (now session_id : Z) (d : DaemonState) : result Error () * DaemonState :=
  if bool_decide (is_Some (ds_active_session d)) && bool_decide (ds_active_session d ≠ Some session_id)
  then (bail "another controller session is already active", d)
  else (Ok (), {| ds_active_session := Some session_id; ds_routing_active := ds_routing_active d;
                  ds_last_heartbeat := now; ds_routing_config := ds_routing_config d |}).

Definition release_session (session_id : Z) (d : DaemonState) : DaemonState :=
  if bool_decide (ds_active_session d = Some session_id)
  then {| ds_active_session := None; ds_routing_active := ds_routing_active d;
          ds_last_heartbeat := ds_last_heartbeat d; ds_routing_config := ds_routing_config d |}
  else d.

(** The last section of enabling. *)
Definition commit_enable (now : Z) (config : RoutingConfig) (d : DaemonState) : DaemonState :=
  {| ds_active_session := ds_active_session d; ds_routing_active := true;
     ds_last_heartbeat := now; ds_routing_config := Some config |}.

(** The two sections of [rollback]. *)
Definition rollback_settings (d : DaemonState) : option TProxySettings := settings_of <$> ds_routing_config d.
Definition commit_rollback (d : DaemonState) : DaemonState :=
  {| ds_active_session := None; ds_routing_active := false;
     ds_last_heartbeat := ds_last_heartbeat d; ds_routing_config := None |}.

(** The section of a heartbeat. *)
Definition heartbeat (now session_id : Z) (d : DaemonState) : result Error () * DaemonState :=
  if negb (heartbeat_allowed (ds_active_session d) (ds_routing_active d) session_id)
  then (bail "session does not own the active controller", d)
  else (Ok (), {| ds_active_session := ds_active_session d; ds_routing_active := ds_routing_active d;
                  ds_last_heartbeat := now; ds_routing_config := ds_routing_config d |}).

(** The watchdog's test; [elapsed] saturates at zero. *)
Definition expired (now : Z) (d : DaemonState) : bool :=
  ds_routing_active d && (WATCHDOG_TIMEOUT_SECS * 1000 <? saturating_sub now (ds_last_heartbeat d)).

(** The decision of a connection that ends. *)
Definition should_rollback (session_id : Z) (d : DaemonState) : bool :=
  bool_decide (ds_active_session d = Some session_id) && ds_routing_active d.
End Sections.

(** [NoopBackend]. *)
Definition NoopBackend : RoutingBackend () :=
  {| backend_enable := λ _ k, (Ok (), k); backend_disable := λ _ k, (Ok (), k) |}.

(** The interception of a backend reduced to whether it is in place: what any
    machine that does as it is told looks like. *)
Definition Switched : RoutingBackend bool :=
  {| backend_enable := λ _ _, (Ok (), true); backend_disable := λ _ _, (Ok (), false) |}.

(** ** The handlers, run without interference *)

(** What the daemon shares: its state, and the machine the backend acts on. *)
Record AppState `{IpNet} (K : Type) := { app_state : DaemonState; app_kernel : K }.
Arguments app_state {_ _} _.
Arguments app_kernel {_ _} _.
Arguments Build_AppState {_ _} _ _.

(** What a frame of a connection brings: a request, or the error of the codec or
    of the decoder. *)
Inductive Frame := Decoded (request : NetdRequest) | Broken (error : Error).

(** One turn of a connection: the frame, the two readings of the clock its
    handling may take, and how sending the response went. *)
Record Turn := { tn_frame : Frame; tn_now : Z; tn_later : Z; tn_sent : result Error () }.

(** [authorize_uid], with the value of [MYPROXY_NETD_ALLOWED_UID]. *)
Definition authorize_uid (uid : Z) (configured : option string) : result Error () :=
  if uid =? 0 then Ok ()
  else match configured with
       | None => Err ["MYPROXY_NETD_ALLOWED_UID must be configured for non-root clients";
                      "environment variable not found"]%stdpp
       | Some s =>
         match parse_uint 32 s with
         | None => Err ["MYPROXY_NETD_ALLOWED_UID is not numeric"; parse_int_error s]%stdpp
         | Some allowed => bail_if (negb (uid =? allowed)) "client UID is not authorized"
         end
       end.

(** [fetch_add] on the counter of sessions: the old value, and the new counter. *)
Definition next_session_id (next : Z) : Z * Z := (next, wrapping_add 64 next 1).

(** The handshake's answer to the first frame: whether a session is allocated. *)
Definition accept_handshake (first : option Frame) : result Error () :=
  match first with
  | None => bail "client closed before handshake"
  | Some (Broken e) => Err e
  | Some (Decoded (Handshake v)) => bail_if (negb (v =? PROTOCOL_VERSION)) "protocol version mismatch"
  | Some (Decoded _) => bail "handshake is required before other requests"
  end.

(** [Err(error) => NetdResponse::Error(error.to_string())]. *)
Definition response_of (r : result Error NetdResponse) : NetdResponse :=
  match r with Ok response => response | Err e => Error_ (error_to_string e) end.

Section Handlers.
Context `{IpNet} {K : Type} `{RoutingBackend K}.

Definition with_state (app : AppState K) (d : DaemonState) : AppState K :=
  {| app_state := d; app_kernel := app_kernel app |}.

Definition rollback (app : AppState K) : result Error () * AppState K :=
  let '(r, k) := backend_disable (rollback_settings (app_state app)) (app_kernel app) in
  match r with
  | Err e => (Err e, {| app_state := app_state app; app_kernel := k |})
  | Ok _ => (Ok (), {| app_state := commit_rollback (app_state app); app_kernel := k |})
  end.

Definition enable_routing (now later session_id : Z) (config : RoutingConfig) (app : AppState K)
  : result Error NetdResponse * AppState K :=
  match claim_controller now session_id (app_state app) with
  | (Err e, d) => (Err e, with_state app d)
  | (Ok _, d) =>
    match backend_enable (settings_of config) (app_kernel app) with
    | (Err e, k) => (Err e, {| app_state := release_session session_id d; app_kernel := k |})
    | (Ok _, k) => (Ok RoutingEnabled, {| app_state := commit_enable later config d; app_kernel := k |})
    end
  end.

Definition process_request (now later : Z) (request : NetdRequest) (session_id : Z) (app : AppState K)
  : result Error NetdResponse * AppState K :=
  match request with
  | EnableRouting request_session port mark table dns subnets subnets_v6 uid =>
    match require_controller request_session session_id with
    | Err e => (Err e, app)
    | Ok _ =>
      match validate_config port mark table dns subnets subnets_v6 uid with
      | Err e => (Err e, app)
      | Ok config => enable_routing now later session_id config app
      end
    end
  | DisableRouting request_session =>
    match require_controller request_session session_id with
    | Err e => (Err e, app)
    | Ok _ => let '(r, app) := rollback app in ((λ _, RoutingDisabled) <$> r, app)
    end
  | Heartbeat request_session sequence =>
    match require_controller request_session session_id with
    | Err e => (Err e, app)
    | Ok _ =>
      let '(r, d) := heartbeat now session_id (app_state app) in
      ((λ _, HeartbeatAck sequence) <$> r, with_state app d)
    end
  | Handshake _ => (bail "handshake may only be sent once", app)
  end.

(** One turn of the watchdog's loop; a failed rollback is only logged. *)
Definition watchdog_tick (now : Z) (app : AppState K) : AppState K :=
  if expired now (app_state app) then (rollback app).2 else app.

(** The end of a connection whose stream ended. *)
Definition close_session (session_id : Z) (app : AppState K) : result Error () * AppState K :=
  if should_rollback session_id (app_state app) then rollback app
  else (Ok (), with_state app (release_session session_id (app_state app))).

(** The loop of a connection: a broken frame, or a response that cannot be sent,
    ends it at once.  The responses are those that were sent. *)
Fixpoint serve (session_id : Z) (turns : list Turn) (app : AppState K)
  : result Error () * list NetdResponse * AppState K :=
  match turns with
  | [] => let '(r, app) := close_session session_id app in (r, [], app)
  | turn :: turns =>
    match tn_frame turn with
    | Broken e => (Err e, [], app)
    | Decoded request =>
      let '(r, app) := process_request (tn_now turn) (tn_later turn) request session_id app in
      match tn_sent turn with
      | Err e => (Err e, [], app)
      | Ok _ =>
        let '(result, sent, app) := serve session_id turns app in
        (result, response_of r :: sent, app)
      end
    end
  end.

(** [handle_client], from the peer's credentials on: the daemon's counter is
    threaded through, and [greeted] is how sending the handshake's answer went. *)
Definition handle_client (uid : Z) (configured : option string) (first : option Frame)
    (greeted : result Error ()) (turns : list Turn) (next : Z) (app : AppState K)
  : result Error () * list NetdResponse * Z * AppState K :=
  match _ ← authorize_uid uid configured; accept_handshake first with
  | Err e => (Err e, [], next, app)
  | Ok _ =>
    let '(session_id, next) := next_session_id next in
    match greeted with
    | Err e => (Err e, [], next, app)
    | Ok _ =>
      let '(result, sent, app) := serve session_id turns app in
      (result, HandshakeOk PROTOCOL_VERSION session_id :: sent, next, app)
    end
  end.
End Handlers.

(** ** The handlers as tasks that interleave

    A connection's task is named by its session, the watchdog's by [None]; each
    step runs one critical section or one backend call of one task. *)

Inductive Task `{IpNet} :=
| Idle                                          (** between requests; the watchdog asleep *)
| Claimed (config : RoutingConfig)              (** before the backend enables *)
| Installed (config : RoutingConfig)            (** the backend enabled *)
| Refused                                       (** the backend refused *)
| RollingBack (last : bool)                     (** decided, before the settings are read *)
| Disabling (last : bool) (settings : option TProxySettings)
| Disabled (last : bool).                       (** the backend disabled *)

(** [w_wake] is when the sleep of the watchdog's loop ends. *)
Record DaemonWorld `{IpNet} (K : Type) := {
  w_app : AppState K;
  w_now : Z;
  w_wake : Z;
  w_next : Z;
  w_tasks : gmap (option Z) Task
}.
Arguments w_app {_ _} _.
Arguments w_now {_ _} _.
Arguments w_wake {_ _} _.
Arguments w_next {_ _} _.
Arguments w_tasks {_ _} _.

Section Interleaving.
Context `{IpNet} {K : Type} `{RoutingBackend K}.

Definition w_state (w : DaemonWorld K) : DaemonState := app_state (w_app w).
Definition w_kernel (w : DaemonWorld K) : K := app_kernel (w_app w).

(** The sleep between two looks of the watchdog: [HEARTBEAT_INTERVAL_SECS.min(1)]. *)
Definition WATCH_INTERVAL : Z := Z.min HEARTBEAT_INTERVAL_SECS 1 * 1000.
(** A task that becomes [Idle] is the watchdog going to sleep. *)
Definition falls_asleep (i : option Z) (t : option Task) : bool :=
  match i, t with None, Some Idle => true | _, _ => false end.

Definition update (w : DaemonWorld K) (d : DaemonState) (k : K) (i : option Z) (t : option Task) : DaemonWorld K :=
  {| w_app := {| app_state := d; app_kernel := k |}; w_now := w_now w;
     w_wake := if falls_asleep i t then w_now w + WATCH_INTERVAL else w_wake w; w_next := w_next w;
     w_tasks := match t with Some t => <[i := t]> (w_tasks w) | None => delete i (w_tasks w) end |}.

Definition initial_world (now : Z) (k : K) : DaemonWorld K :=
  {| w_app := {| app_state := initial_state now; app_kernel := k |}; w_now := now;
     w_wake := now + WATCH_INTERVAL; w_next := 1; w_tasks := {[None := Idle]} |}.

(** What a task does after a rollback: the connection that ends is gone. *)
Definition after_rollback (last : bool) : option Task := if last then None else Some Idle.

Inductive step (w : DaemonWorld K) : DaemonWorld K → Prop :=
| step_time later :
    w_now w ≤ later →
    step w {| w_app := w_app w; w_now := later; w_wake := w_wake w; w_next := w_next w; w_tasks := w_tasks w |}
| step_connect :
    w_next w < U64_MAX →
    step w {| w_app := w_app w; w_now := w_now w; w_wake := w_wake w; w_next := (next_session_id (w_next w)).2;
              w_tasks := <[Some (next_session_id (w_next w)).1 := Idle]> (w_tasks w) |}
| step_leave sid :                     (* an early return: no section is run *)
    w_tasks w !! Some sid = Some Idle →
    step w (update w (w_state w) (w_kernel w) (Some sid) None)
| step_close sid :
    w_tasks w !! Some sid = Some Idle → should_rollback sid (w_state w) = true →
    step w (update w (w_state w) (w_kernel w) (Some sid) (Some (RollingBack true)))
| step_release sid :
    w_tasks w !! Some sid = Some Idle → should_rollback sid (w_state w) = false →
    step w (update w (release_session sid (w_state w)) (w_kernel w) (Some sid) None)
| step_claim sid port mark table dns subnets subnets_v6 uid config d :
    w_tasks w !! Some sid = Some Idle →
    validate_config port mark table dns subnets subnets_v6 uid = Ok config →
    claim_controller (w_now w) sid (w_state w) = (Ok (), d) →
    step w (update w d (w_kernel w) (Some sid) (Some (Claimed config)))
| step_enable_ok i config k :
    w_tasks w !! i = Some (Claimed config) →
    backend_enable (settings_of config) (w_kernel w) = (Ok (), k) →
    step w (update w (w_state w) k i (Some (Installed config)))
| step_enable_err i config e k :
    w_tasks w !! i = Some (Claimed config) →
    backend_enable (settings_of config) (w_kernel w) = (Err e, k) →
    step w (update w (w_state w) k i (Some Refused))
| step_commit i config :
    w_tasks w !! i = Some (Installed config) →
    step w (update w (commit_enable (w_now w) config (w_state w)) (w_kernel w) i (Some Idle))
| step_refused sid :
    w_tasks w !! Some sid = Some Refused →
    step w (update w (release_session sid (w_state w)) (w_kernel w) (Some sid) (Some Idle))
| step_disable sid :
    w_tasks w !! Some sid = Some Idle →
    step w (update w (w_state w) (w_kernel w) (Some sid) (Some (RollingBack false)))
| step_heartbeat sid d :
    w_tasks w !! Some sid = Some Idle →
    heartbeat (w_now w) sid (w_state w) = (Ok (), d) →
    step w (update w d (w_kernel w) (Some sid) (Some Idle))
| step_watch :                         (* the watchdog looks, and sleeps again *)
    w_tasks w !! None = Some Idle → w_wake w ≤ w_now w → expired (w_now w) (w_state w) = false →
    step w (update w (w_state w) (w_kernel w) None (Some Idle))
| step_watchdog :
    w_tasks w !! None = Some Idle → w_wake w ≤ w_now w → expired (w_now w) (w_state w) = true →
    step w (update w (w_state w) (w_kernel w) None (Some (RollingBack false)))
| step_read i last :
    w_tasks w !! i = Some (RollingBack last) →
    step w (update w (w_state w) (w_kernel w) i (Some (Disabling last (rollback_settings (w_state w)))))
| step_disable_ok i last settings k :
    w_tasks w !! i = Some (Disabling last settings) →
    backend_disable settings (w_kernel w) = (Ok (), k) →
    step w (update w (w_state w) k i (Some (Disabled last)))
| step_disable_err i last settings e k :
    w_tasks w !! i = Some (Disabling last settings) →
    backend_disable settings (w_kernel w) = (Err e, k) →
    step w (update w (w_state w) k i (after_rollback last))
| step_rolled_back i last :
    w_tasks w !! i = Some (Disabled last) →
    step w (update w (commit_rollback (w_state w)) (w_kernel w) i (after_rollback last)).

(** A step after which the watchdog is not late: its look at the state, and the
    rollback it then decides on, end within [delay] of the end of its sleep. *)
Definition prompt_step (delay : Z) (w w' : DaemonWorld K) : Prop :=
  step w w' ∧ w_now w' ≤ w_wake w' + delay.
End Interleaving.

(** ** What validation accepts *)

Lemma bail_if_cases (b : bool) msg : bail_if b msg = if b then Err [msg] else Ok ().
Proof. by destruct b. Qed.

Section ValidationSpec.
Context `{IpNet}.

Definition v4_acceptable (subnet : string) (n : Ipv4Net) : Prop :=
  parse_v4net subnet = Ok n ∧ v4_prefix_len n ≠ 0.
Definition v6_acceptable (subnet : string) (n : Ipv6Net) : Prop :=
  parse_v6net subnet = Ok n ∧ v6_prefix_len n ≠ 0.

Lemma parse_subnets_v4_spec subnets :
  match parse_subnets_v4 subnets with
  | Ok ns => Forall2 v4_acceptable subnets ns
  | Err _ => ¬ ∃ ns, Forall2 v4_acceptable subnets ns
  end.
Proof.
  induction subnets as [|s subnets IH]; simpl; [constructor|].
  destruct (parse_v4net s) as [n|e] eqn:En; simpl.
  2: { intros [ns Hf]. inversion Hf as [|? ? ? ? [Hn _]]. congruence. }
  rewrite bail_if_cases. destruct (v4_prefix_len n =? 0) eqn:Ep; simpl.
  { intros [ns Hf]. inversion Hf as [|? ? ? ? [Hn Hz]]. apply Z.eqb_eq in Ep. congruence. }
  apply Z.eqb_neq in Ep. destruct (parse_subnets_v4 subnets) as [ns|e]; simpl; [by constructor|].
  intros [ns Hf]. inversion Hf; subst. by apply IH; eexists.
Qed.

Lemma parse_subnets_v6_spec subnets :
  match parse_subnets_v6 subnets with
  | Ok ns => Forall2 v6_acceptable subnets ns
  | Err _ => ¬ ∃ ns, Forall2 v6_acceptable subnets ns
  end.
Proof.
  induction subnets as [|s subnets IH]; simpl; [constructor|].
  destruct (parse_v6net s) as [n|e] eqn:En; simpl.
  2: { intros [ns Hf]. inversion Hf as [|? ? ? ? [Hn _]]. congruence. }
  rewrite bail_if_cases. destruct (v6_prefix_len n =? 0) eqn:Ep; simpl.
  { intros [ns Hf]. inversion Hf as [|? ? ? ? [Hn Hz]]. apply Z.eqb_eq in Ep. congruence. }
  apply Z.eqb_neq in Ep. destruct (parse_subnets_v6 subnets) as [ns|e]; simpl; [by constructor|].
  intros [ns Hf]. inversion Hf; subst. by apply IH; eexists.
Qed.

Definition dns_ok (dns : option IpAddr) : Prop :=
  ∀ ip, dns = Some ip → is_unspecified ip = false ∧ is_multicast ip = false ∧ is_broadcast ip = false.
Definition uid_ok (uid : option Z) : Prop := ∀ u, uid = Some u → u ≠ 0 ∧ u ≠ U32_MAX.

Lemma check_dns_spec dns : match check_dns dns with Ok _ => dns_ok dns | Err _ => ¬ dns_ok dns end.
Proof.
  unfold dns_ok. destruct dns as [ip|]; simpl; [|done]. rewrite bail_if_cases.
  destruct (is_unspecified ip) eqn:U, (is_multicast ip) eqn:M, (is_broadcast ip) eqn:B; simpl;
    try (intros Hx; destruct (Hx ip eq_refl) as (? & ? & ?); congruence).
  by intros ? [= <-].
Qed.

Lemma check_uid_spec uid : match check_uid uid with Ok _ => uid_ok uid | Err _ => ¬ uid_ok uid end.
Proof.
  unfold uid_ok. destruct uid as [u|]; simpl; [|done]. rewrite bail_if_cases.
  destruct ((u =? 0) || (u =? U32_MAX)) eqn:E; simpl.
  - intros Hx. specialize (Hx u eq_refl). lia.
  - intros ? [= <-]. lia.
Qed.

(** The ranges of the scalar parameters. *)
Definition parameters_ok (port mark table : Z) (dns : option IpAddr) (uid : option Z)
    (subnets subnets_v6 : list string) : Prop :=
  (1024 ≤ port ≤ 65535) ∧ (mark ≠ 0 ∧ mark ≠ U32_MAX) ∧ (1 ≤ table ≤ 252) ∧
  dns_ok dns ∧ uid_ok uid ∧
  (Z.of_nat (length subnets) ≤ 256) ∧ (Z.of_nat (length subnets_v6) ≤ 256).

(** A configuration is accepted exactly when the port, the mark and the table
    are in range, the DNS address is routable, the core's user is a real one, and
    every subnet (at most 256 of each family) parses and is not a default route;
    what is accepted is what was asked, with the subnets parsed in order. *)
Lemma validate_config_spec (port mark table : Z) (dns : option IpAddr)
    (subnets subnets_v6 : list string) (uid : option Z) :
  match validate_config port mark table dns subnets subnets_v6 uid with
  | Ok c =>
    parameters_ok port mark table dns uid subnets subnets_v6 ∧
    Forall2 v4_acceptable subnets (rc_bypass_subnets c) ∧
    Forall2 v6_acceptable subnets_v6 (rc_bypass_subnets_v6 c) ∧
    rc_tproxy_port c = port ∧ rc_proxy_fwmark c = mark ∧ rc_table_id c = table ∧
    rc_dns_ipv4 c = dns ∧ rc_core_uid c = uid
  | Err _ =>
    ¬ (parameters_ok port mark table dns uid subnets subnets_v6 ∧
       (∃ ns, Forall2 v4_acceptable subnets ns) ∧ (∃ ns, Forall2 v6_acceptable subnets_v6 ns))
  end.
Proof.
  unfold validate_config, parameters_ok, in_range. rewrite !bail_if_cases.
  destruct ((1024 <=? port) && (port <=? 65535)) eqn:E1; simpl; [|intros ((? & _) & _); lia].
  destruct ((mark =? 0) || (mark =? U32_MAX)) eqn:E2; simpl; [intros ((_ & ? & _) & _); lia|].
  destruct ((1 <=? table) && (table <=? 252)) eqn:E3; simpl; [|intros ((_ & _ & ? & _) & _); lia].
  pose proof (check_dns_spec dns) as Hd. destruct (check_dns dns) as [[]|e]; simpl; [|tauto].
  pose proof (check_uid_spec uid) as Hu. destruct (check_uid uid) as [[]|e]; simpl; [|tauto].
  destruct (256 <? Z.of_nat (length subnets)) eqn:E4; simpl; [intros (? & _); lia|].
  destruct (256 <? Z.of_nat (length subnets_v6)) eqn:E5; simpl; [intros (? & _); lia|].
  pose proof (parse_subnets_v4_spec subnets) as H4. pose proof (parse_subnets_v6_spec subnets_v6) as H6.
  destruct (parse_subnets_v4 subnets) as [ns4|]; simpl; [|tauto].
  destruct (parse_subnets_v6 subnets_v6) as [ns6|]; simpl; [|tauto].
  split_and!; try done; lia.
Qed.
End ValidationSpec.

(** ** What a request does *)

Section Requests.
Context `{IpNet} {K : Type} `{RoutingBackend K}.

(** The session a request names. *)
Definition request_session (r : NetdRequest) : option Z :=
  match r with
  | Handshake _ => None
  | EnableRouting s _ _ _ _ _ _ _ | DisableRouting s | Heartbeat s _ => Some s
  end.
(** The configuration a request asks for, if it is a valid one. *)
Definition request_config (r : NetdRequest) : option RoutingConfig :=
  match r with
  | EnableRouting _ port mark table dns subnets subnets_v6 uid =>
    res_ok (validate_config port mark table dns subnets subnets_v6 uid)
  | _ => None
  end.

Lemma claim_controller_cases now sid d :
  (claim_controller now sid d =
     (Ok (), {| ds_active_session := Some sid; ds_routing_active := ds_routing_active d;
                ds_last_heartbeat := now; ds_routing_config := ds_routing_config d |}) ∧
   (ds_active_session d = None ∨ ds_active_session d = Some sid)) ∨
  (∃ e, claim_controller now sid d = (Err e, d)) ∧
   ∃ s, ds_active_session d = Some s ∧ s ≠ sid.
Proof.
  unfold claim_controller. destruct (ds_active_session d) as [s|].
  - destruct (decide (s = sid)) as [->|Hs].
    + left. rewrite (bool_decide_eq_false_2 (Some sid ≠ Some sid)) by naive_solver. rewrite andb_false_r. auto.
    + right. rewrite !bool_decide_eq_true_2 by naive_solver. simpl. unfold bail. eauto.
  - left. rewrite (bool_decide_eq_false_2 (is_Some None)) by (by intros [? ?]). auto.
Qed.

Lemma heartbeat_cases now sid d :
  (heartbeat now sid d =
     (Ok (), {| ds_active_session := ds_active_session d; ds_routing_active := ds_routing_active d;
                ds_last_heartbeat := now; ds_routing_config := ds_routing_config d |}) ∧
   ds_routing_active d = true ∧ ds_active_session d = Some sid) ∨
  (∃ e, heartbeat now sid d = (Err e, d)) ∧
   ¬ (ds_routing_active d = true ∧ ds_active_session d = Some sid).
Proof.
  unfold heartbeat, heartbeat_allowed. destruct (ds_routing_active d); simpl.
  2: { right. split; [by eexists|naive_solver]. }
  case_bool_decide; simpl; [by left|]. right. split; [by eexists|naive_solver].
Qed.

Lemma require_controller_cases r sid :
  require_controller r sid = if r =? sid then Ok () else Err ["session does not own the controller"].
Proof. unfold require_controller. rewrite bail_if_cases. by destruct (r =? sid). Qed.

Lemma process_request_cases (now later sid : Z) (req : NetdRequest) (app : AppState K) :
  let '(r, app') := process_request now later req sid app in
  let d := app_state app in
  let d' := app_state app' in
  (request_session req ≠ Some sid → is_ok r = false ∧ app' = app) ∧
  match r with
  | Ok RoutingEnabled => ∃ config,
      request_config req = Some config ∧
      (ds_active_session d = None ∨ ds_active_session d = Some sid) ∧
      backend_enable (settings_of config) (app_kernel app) = (Ok (), app_kernel app') ∧
      d' = {| ds_active_session := Some sid; ds_routing_active := true;
              ds_last_heartbeat := later; ds_routing_config := Some config |}
  | Ok RoutingDisabled =>
      req = DisableRouting sid ∧
      backend_disable (settings_of <$> ds_routing_config d) (app_kernel app) = (Ok (), app_kernel app') ∧
      d' = commit_rollback d
  | Ok (HeartbeatAck n) =>
      req = Heartbeat sid n ∧ ds_routing_active d = true ∧ ds_active_session d = Some sid ∧
      app_kernel app' = app_kernel app ∧
      d' = {| ds_active_session := Some sid; ds_routing_active := true;
              ds_last_heartbeat := now; ds_routing_config := ds_routing_config d |}
  | Ok _ => False
  | Err _ =>
      ds_routing_active d' = ds_routing_active d ∧ ds_routing_config d' = ds_routing_config d ∧
      (d' = d ∨
       ∃ config e, request_config req = Some config ∧
         backend_enable (settings_of config) (app_kernel app) = (Err e, app_kernel app') ∧
         ds_active_session d' = None ∧ ds_last_heartbeat d' = now)
  end.
Proof.
  destruct app as [d k].
  destruct req as [v|s port mark table dns subnets subnets_v6 uid|s|s n]; simpl; [naive_solver|..];
    rewrite require_controller_cases; (destruct (Z.eqb_spec s sid) as [->|Hs]; [|by auto 10]).
  - destruct (validate_config port mark table dns subnets subnets_v6 uid) as [config|e];
      simpl; [|naive_solver].
    unfold enable_routing. simpl.
    destruct (claim_controller_cases now sid d) as [[-> Ho]|[[e ->] _]]; simpl; [|naive_solver].
    destruct (backend_enable (settings_of config) k) as [[[]|e] k'] eqn:Eb; simpl.
    + split; [naive_solver|]. eauto 10.
    + unfold release_session. simpl. rewrite bool_decide_eq_true_2 by done. simpl.
      split; [naive_solver|]. split_and!; [done|done|]. right. exists config, e. done.
  - unfold rollback. simpl. fold (rollback_settings d).
    destruct (backend_disable (rollback_settings d) k) as [[[]|e] k'] eqn:Eb; simpl; naive_solver.
  - destruct (heartbeat_cases now sid d) as [(-> & Ha & Ho)|[[e ->] _]]; simpl; [|naive_solver].
    rewrite Ha, Ho. naive_solver.
Qed.

(** What each answer of the daemon means.  Enabled: the request named its own
    session, its configuration is valid, no other session owned the routing, and
    the backend accepted it; the session owns the routing.  Disabled: the backend
    undid the settings in force, and nothing is owned.  A heartbeat is
    acknowledged only to the owner of active routing and moves only the time of
    the last one.  An error leaves whether routing is active, and with which
    configuration, as it was; and the whole state, unless it is the backend that
    refused. *)
Lemma process_request_spec (now later sid : Z) (req : NetdRequest) (app : AppState K) :
  let '(r, app') := process_request now later req sid app in
  let d := app_state app in
  let d' := app_state app' in
  (request_session req ≠ Some sid → is_ok r = false ∧ app' = app) ∧
  match r with
  | Ok RoutingEnabled => ∃ config,
      request_config req = Some config ∧
      (ds_active_session d = None ∨ ds_active_session d = Some sid) ∧
      backend_enable (settings_of config) (app_kernel app) = (Ok (), app_kernel app') ∧
      d' = {| ds_active_session := Some sid; ds_routing_active := true;
              ds_last_heartbeat := later; ds_routing_config := Some config |}
  | Ok RoutingDisabled =>
      req = DisableRouting sid ∧
      backend_disable (settings_of <$> ds_routing_config d) (app_kernel app) = (Ok (), app_kernel app') ∧
      d' = commit_rollback d
  | Ok (HeartbeatAck n) =>
      req = Heartbeat sid n ∧ ds_routing_active d = true ∧ ds_active_session d = Some sid ∧
      app_kernel app' = app_kernel app ∧
      d' = {| ds_active_session := Some sid; ds_routing_active := true;
              ds_last_heartbeat := now; ds_routing_config := ds_routing_config d |}
  | Ok _ => False
  | Err _ =>
      ds_routing_active d' = ds_routing_active d ∧ ds_routing_config d' = ds_routing_config d ∧
      (d' = d ∨
       ∃ config e, request_config req = Some config ∧
         backend_enable (settings_of config) (app_kernel app) = (Err e, app_kernel app') ∧
         ds_active_session d' = None ∧ ds_last_heartbeat d' = now)
  end.
Proof. apply process_request_cases. Qed.
End Requests.

(** ** Every interleaving *)

Section Invariant.
Context `{IpNet} {K : Type} `{RoutingBackend K}.

Definition validated (c : RoutingConfig) : Prop :=
  ∃ port mark table dns subnets subnets_v6 uid,
    validate_config port mark table dns subnets subnets_v6 uid = Ok c.
(** A task that is in the middle of enabling. *)
Definition enabling (t : Task) : Prop :=
  match t with Claimed _ | Installed _ | Refused => True | _ => False end.
Definition task_config (t : Task) : option RoutingConfig :=
  match t with Claimed c | Installed c => Some c | _ => None end.
(** What the watchdog's task can be. *)
Definition watching (t : Task) : Prop :=
  match t with Idle | RollingBack false | Disabling false _ | Disabled false => True | _ => False end.

(** Routing is active exactly when a configuration, a validated one, is in force;
    the last heartbeat is in the past; sessions are numbered before the next one;
    a session that owns the routing while it is not active is in the middle of
    enabling it; and the watchdog is never lost. *)
Record daemon_inv (w : DaemonWorld K) : Prop := {
  inv_active : ds_routing_active (w_state w) = true ↔ is_Some (ds_routing_config (w_state w));
  inv_validated : ∀ c, ds_routing_config (w_state w) = Some c → validated c;
  inv_clock : ds_last_heartbeat (w_state w) ≤ w_now w;
  inv_next : 1 ≤ w_next w ≤ U64_MAX;
  inv_fresh : ∀ sid, ds_active_session (w_state w) = Some sid → sid < w_next w;
  inv_sessions : ∀ sid, is_Some (w_tasks w !! Some sid) → sid < w_next w;
  inv_tasks : ∀ i t c, w_tasks w !! i = Some t → task_config t = Some c → validated c;
  inv_owner : ∀ sid, ds_active_session (w_state w) = Some sid → ds_routing_active (w_state w) = false →
                ∃ t, w_tasks w !! Some sid = Some t ∧ enabling t;
  inv_watchdog : ∃ t, w_tasks w !! None = Some t ∧ watching t
}.

Lemma initial_inv now k : daemon_inv (initial_world now k).
Proof.
  split; cbn; try done; try lia.
  - intros sid [t Ht]. by rewrite lookup_singleton_ne in Ht.
  - intros i t c [<- <-]%lookup_singleton_Some ?. done.
  - exists Idle. by rewrite lookup_singleton_eq.
Qed.

(** What a step does to the tasks. *)
Lemma update_tasks (w : DaemonWorld K) d k i ot j :
  w_tasks (update w d k i ot) !! j =
    if bool_decide (i = j) then ot else w_tasks w !! j.
Proof.
  destruct ot as [t|]; simpl; case_bool_decide; subst; by simplify_map_eq.
Qed.

(** The parts of the invariant that concern the state and the tasks, for a step
    that updates them: what is left to show of the new state and of the task. *)
Lemma update_inv (w : DaemonWorld K) d k i ot :
  daemon_inv w →
  (ds_routing_active d = true ↔ is_Some (ds_routing_config d)) →
  (∀ c, ds_routing_config d = Some c → validated c) →
  ds_last_heartbeat d ≤ w_now w →
  (∀ sid, ds_active_session d = Some sid → sid < w_next w) →
  is_Some (w_tasks w !! i) →
  (∀ t c, ot = Some t → task_config t = Some c → validated c) →
  (∀ sid, ds_active_session d = Some sid → ds_routing_active d = false →
     (i = Some sid ∧ ∃ t, ot = Some t ∧ enabling t) ∨
     (i ≠ Some sid ∧ ds_active_session (w_state w) = Some sid ∧ ds_routing_active (w_state w) = false)) →
  (i = None → ∃ t, ot = Some t ∧ watching t) →
  daemon_inv (update w d k i ot).
Proof.
  intros Hw Ha Hv Hc Hf Hi Ht Ho Hwd. split; cbn [w_state w_app app_state w_now w_next update]; try done.
  - apply inv_next, Hw.
  - intros sid. rewrite update_tasks. case_bool_decide as E; [|apply (inv_sessions _ Hw)].
    intros _. apply (inv_sessions _ Hw). by rewrite <-E.
  - intros j t c. rewrite update_tasks. case_bool_decide; [intros; by eapply Ht|apply (inv_tasks _ Hw)].
  - intros sid Hs Hr. destruct (Ho sid Hs Hr) as [(-> & t & -> & He)|(Hn & Hs' & Hr')].
    + exists t. by rewrite update_tasks, bool_decide_eq_true_2.
    + destruct (inv_owner _ Hw sid Hs' Hr') as (t & Et & He). exists t.
      by rewrite update_tasks, bool_decide_eq_false_2.
  - rewrite update_tasks. case_bool_decide as E; [by apply Hwd|apply (inv_watchdog _ Hw)].
Qed.

(** A task that is not enabling is not an owner without routing. *)
Lemma not_enabling_owner w i t sid :
  daemon_inv w → w_tasks w !! i = Some t → ¬ enabling t →
  ds_active_session (w_state w) = Some sid → ds_routing_active (w_state w) = false → i ≠ Some sid.
Proof.
  intros Hw Ht Hn Hs Hr ->. destruct (inv_owner _ Hw sid Hs Hr) as (t' & Et & He).
  rewrite Ht in Et. by injection Et as <-.
Qed.

Lemma release_session_cases sid d :
  release_session sid d = d ∧ ds_active_session d ≠ Some sid ∨
  ds_active_session (release_session sid d) = None ∧
  ds_routing_active (release_session sid d) = ds_routing_active d ∧
  ds_last_heartbeat (release_session sid d) = ds_last_heartbeat d ∧
  ds_routing_config (release_session sid d) = ds_routing_config d.
Proof. unfold release_session. case_bool_decide; [by right|by left]. Qed.

(** A step that leaves the state alone keeps the invariant if a task that was
    enabling still is, with no new configuration. *)
Lemma same_state_inv w k i t ot :
  daemon_inv w → w_tasks w !! i = Some t →
  (enabling t → ∃ t', ot = Some t' ∧ enabling t') →
  (∀ t' c, ot = Some t' → task_config t' = Some c → task_config t = Some c) →
  (i = None → watching t → ∃ t', ot = Some t' ∧ watching t') →
  daemon_inv (update w (w_state w) k i ot).
Proof.
  intros Hw Ht He Hc Hwd. apply update_inv; try apply Hw; [by eexists|..].
  - intros t' c Et Ec. by eapply (inv_tasks _ Hw), Hc.
  - intros sid Hs Hr. destruct (decide (i = Some sid)) as [->|Hi]; [|by right].
    left. split; [done|]. apply He. destruct (inv_owner _ Hw sid Hs Hr) as (t' & Et & ?).
    rewrite Ht in Et. by injection Et as <-.
  - intros ->. destruct (inv_watchdog _ Hw) as (t' & Et & ?). rewrite Ht in Et. injection Et as <-. by apply Hwd.
Qed.

(** The steps that change the state. *)
Lemma time_inv w later : daemon_inv w → w_now w ≤ later →
  daemon_inv {| w_app := w_app w; w_now := later; w_wake := w_wake w; w_next := w_next w; w_tasks := w_tasks w |}.
Proof. intros [] Hl. split; try done. cbn in *. unfold w_state in *. cbn. lia. Qed.

Lemma connect_inv w : daemon_inv w → w_next w < U64_MAX →
  daemon_inv {| w_app := w_app w; w_now := w_now w; w_wake := w_wake w; w_next := (next_session_id (w_next w)).2;
                w_tasks := <[Some (next_session_id (w_next w)).1 := Idle]> (w_tasks w) |}.
Proof.
  intros [A V C N F S T O W] Hn. unfold next_session_id. cbn [fst snd].
  assert (wrapping_add 64 (w_next w) 1 = w_next w + 1) as ->.
  { unfold wrapping_add. apply wrap_small. change (2 ^ 64) with (U64_MAX + 1). lia. }
  split; cbn; try done.
  - lia.
  - intros sid Hs%F. lia.
  - intros sid [t Ht]. rewrite lookup_insert_Some in Ht. destruct Ht as [[[= <-] _]|[_ Ht]]; [lia|].
    assert (sid < w_next w) by (apply S; by eexists). lia.
  - intros i t c [[<- <-]|[_ Ht]]%lookup_insert_Some Hc; [done|by eapply T].
  - intros sid Hs Hr. destruct (O sid Hs Hr) as (t & Et & He). exists t.
    apply F in Hs. by rewrite lookup_insert_ne by (intros [=]; lia).
  - destruct W as (t & Et & Ew). exists t. by rewrite lookup_insert_ne.
Qed.

Lemma release_inv w sid t ot : daemon_inv w → w_tasks w !! Some sid = Some t →
  (∀ t', ot = Some t' → task_config t' = None) →
  daemon_inv (update w (release_session sid (w_state w)) (w_kernel w) (Some sid) ot).
Proof.
  intros Hw Ht Hc. destruct (release_session_cases sid (w_state w)) as [[-> Hn]|(Ea & Er & El & Ec)];
    apply update_inv; rewrite ?Ea, ?Er, ?El, ?Ec; try apply Hw; try done; try (by eexists).
  all: try (intros t' c Et Ec'; rewrite (Hc t' Et) in Ec'; done).
  intros s Hs Hr. right. split_and!; [|done|done]. congruence.
Qed.

Lemma claim_inv w sid config d : daemon_inv w → w_tasks w !! Some sid = Some Idle → validated config →
  claim_controller (w_now w) sid (w_state w) = (Ok (), d) →
  daemon_inv (update w d (w_kernel w) (Some sid) (Some (Claimed config))).
Proof.
  intros Hw Ht Hv Hc. destruct (claim_controller_cases (w_now w) sid (w_state w)) as [[E _]|[[e E] _]];
    rewrite E in Hc; [|done]. injection Hc as <-.
  apply update_inv; cbn; try apply Hw; try done; try lia; try (by eexists).
  - intros s [= <-]. apply (inv_sessions _ Hw). by eexists.
  - by intros t c [= <-] [= <-].
  - intros s [= <-] Hr. left. split; [done|]. by eexists.
Qed.

Lemma commit_inv w i config : daemon_inv w → w_tasks w !! i = Some (Installed config) →
  daemon_inv (update w (commit_enable (w_now w) config (w_state w)) (w_kernel w) i (Some Idle)).
Proof.
  intros Hw Ht. apply update_inv; cbn; try apply Hw; try done; try lia; try (by eexists).
  - intros c [= <-]. by eapply (inv_tasks _ Hw).
  - by intros t c [= <-].
Qed.

Lemma heartbeat_inv w sid d : daemon_inv w → w_tasks w !! Some sid = Some Idle →
  heartbeat (w_now w) sid (w_state w) = (Ok (), d) →
  daemon_inv (update w d (w_kernel w) (Some sid) (Some Idle)).
Proof.
  intros Hw Ht Hh. destruct (heartbeat_cases (w_now w) sid (w_state w)) as [(E & Ha & Ho)|[[e E] _]];
    rewrite E in Hh; [|done]. injection Hh as <-.
  apply update_inv; cbn; try apply Hw; try done; try lia; try (by eexists).
  - intros t c [= <-] [=].
  - intros s _ Hr. congruence.
Qed.

Lemma rolled_back_inv w i last : daemon_inv w → w_tasks w !! i = Some (Disabled last) →
  daemon_inv (update w (commit_rollback (w_state w)) (w_kernel w) i (after_rollback last)).
Proof.
  intros Hw Ht. apply update_inv; cbn; try apply Hw; try done; try (by eexists).
  - intros t c. by destruct last; intros [= <-].
  - intros ->. destruct (inv_watchdog _ Hw) as (t & Et & Ew). rewrite Ht in Et. injection Et as <-.
    destruct last; [done|]. by exists Idle.
Qed.

Lemma step_inv w w' : step w w' → daemon_inv w → daemon_inv w'.
Proof.
  intros Hs Hw. destruct Hs.
  all: try (eapply same_state_inv; [done|eassumption|..];
    solve [naive_solver | match goal with b : bool |- _ => destruct b end; naive_solver]).
  - by apply time_inv.
  - by apply connect_inv.
  - by eapply release_inv; [..|intros ? [=]].
  - eapply claim_inv; [done|done| |done]. red. eauto 10.
  - by apply commit_inv.
  - eapply release_inv; [done|done|]. by intros ? [= <-].
  - by apply heartbeat_inv.
  - by apply rolled_back_inv.
Qed.

Lemma reachable_inv now k w : rtc step (initial_world now k) w → daemon_inv w.
Proof. intros Hr. eapply (rtc_preserves step daemon_inv step_inv); [exact Hr|apply initial_inv]. Qed.

(** C11. Whatever the interleaving of the connections and the watchdog, and
    whatever the backend answers: routing is active exactly when a configuration
    is in force, and it is one that validation accepted; the last heartbeat is not
    in the future; a new session never bears the number of the owner or of a
    session that is alive; a session that owns the routing while it is not active
    is in the middle of enabling it, so that ownership cannot leak; and the
    watchdog is never lost. *)
Theorem daemon_safety (now : Z) (k : K) (w : DaemonWorld K) :
  rtc step (initial_world now k) w →
  let d := w_state w in
  (ds_routing_active d = true ↔ is_Some (ds_routing_config d)) ∧
  (∀ c, ds_routing_config d = Some c → validated c) ∧
  ds_last_heartbeat d ≤ w_now w ∧
  (∀ sid, ds_active_session d = Some sid ∨ is_Some (w_tasks w !! Some sid) →
          sid ≠ (next_session_id (w_next w)).1) ∧
  (∀ sid, ds_active_session d = Some sid → ds_routing_active d = false →
          ∃ t, w_tasks w !! Some sid = Some t ∧ enabling t) ∧
  (∃ t, w_tasks w !! None = Some t ∧ watching t).
Proof.
  intros Hr. apply reachable_inv in Hr. destruct Hr as [A V C N F S T O W]. split_and!; try done.
  unfold next_session_id. cbn. intros sid [Hs%F|Hs%S]; lia.
Qed.

(** Who can do what, in any interleaving.  Routing becomes active only when a
    task commits a configuration its backend call installed; the time of the last
    heartbeat moves only to the present, and only by the owner of active routing,
    by a session that claims routing nobody else owns, or by such a commit; and
    ownership never passes from one session to another directly. *)
Lemma step_authority (now : Z) (k : K) (w w' : DaemonWorld K) :
  rtc step (initial_world now k) w → step w w' →
  let d := w_state w in
  let d' := w_state w' in
  let committed := ∃ i config, w_tasks w !! i = Some (Installed config) ∧ validated config ∧
                     d' = commit_enable (w_now w) config d in
  (ds_routing_active d = false → ds_routing_active d' = true → committed) ∧
  (ds_last_heartbeat d' ≠ ds_last_heartbeat d →
   ds_last_heartbeat d' = w_now w ∧
   ((∃ sid, ds_routing_active d = true ∧ ds_active_session d = Some sid ∧
            w_tasks w !! Some sid = Some Idle ∧ ds_active_session d' = Some sid) ∨
    (∃ sid, (ds_active_session d = None ∨ ds_active_session d = Some sid) ∧
            w_tasks w !! Some sid = Some Idle ∧ ds_active_session d' = Some sid) ∨
    committed)) ∧
  (∀ s s', ds_active_session d = Some s → ds_active_session d' = Some s' → s' = s).
Proof.
  intros Hr Hs. apply reachable_inv in Hr as Hw. destruct Hs as
    [later Hl|Hn|sid Ht|sid Ht Hr'|sid Ht Hr'|sid port mark table dns s4 s6 uid config d Ht Hv Hcl
    |i config k' Ht Hb|i config e k' Ht Hb|i config Ht|sid Ht|sid Ht|sid d Ht Hh|Ht Ha He|Ht Ha He|i last Ht
    |i last st k' Ht Hb|i last st e k' Ht Hb|i last Ht].
  all: unfold w_state in *; cbn in *.
  all: try (split_and!; [congruence|congruence|congruence]).
  - destruct (release_session_cases sid (app_state (w_app w))) as [[-> _]|(Ea & Er & El & _)];
      rewrite ?Ea, ?Er, ?El; split_and!; congruence.
  - destruct (claim_controller_cases (w_now w) sid (app_state (w_app w))) as [[E Ho]|[[e E] _]];
      rewrite E in Hcl; [|done]. injection Hcl as <-. cbn. split_and!; [congruence| |].
    + intros _. split; [done|]. right. left. by exists sid.
    + intros s s' Hs [= <-]. destruct Ho as [Ho|Ho]; congruence.
  - assert (validated config) as Hv by by eapply (inv_tasks _ Hw).
    split_and!; [intros _ _; eauto 10|intros _; split; [done|]; right; right; eauto 10|congruence].
  - destruct (release_session_cases sid (app_state (w_app w))) as [[-> _]|(Ea & Er & El & _)];
      rewrite ?Ea, ?Er, ?El; split_and!; congruence.
  - destruct (heartbeat_cases (w_now w) sid (app_state (w_app w))) as [(E & Ha & Ho)|[[e E] _]];
      rewrite E in Hh; [|done]. injection Hh as <-. cbn. split_and!; [congruence| |congruence].
    intros _. split; [done|]. left. by exists sid.
Qed.
End Invariant.

(** ** The watchdog alone *)

Section Watchdog.
Context `{IpNet} {K : Type} `{RoutingBackend K}.

(** A backend that can always disable. *)
Class Disables : Prop := {
  disables : ∀ s k, ∃ k', backend_disable s k = (Ok (), k')
}.
Context `{Disables}.

(** The tasks of the connections. *)
Definition clients (w : DaemonWorld K) : gmap (option Z) Task := delete None (w_tasks w).

Lemma update_clients w d k t : clients (update w d k None t) = clients w.
Proof.
  unfold clients, update. cbn. destruct t; [apply delete_insert_eq|apply delete_delete_eq].
Qed.

Definition routing_off (w : DaemonWorld K) : Prop :=
  ds_routing_active (w_state w) = false ∧ ds_active_session (w_state w) = None.

(** From any point of a rollback, the watchdog's own prompt steps finish it. *)
Definition taken_down (delay : Z) (w w' : DaemonWorld K) : Prop :=
  rtc (prompt_step delay) w w' ∧ routing_off w' ∧ clients w' = clients w ∧ w_now w' = w_now w.

Lemma taken_down_update delay (w : DaemonWorld K) d k t w' :
  prompt_step delay w (update w d k None t) → taken_down delay (update w d k None t) w' →
  taken_down delay w w'.
Proof.
  intros Hs (Hr & ? & Hc & ?). split_and!; [by eapply rtc_l|done|by rewrite Hc, update_clients|done].
Qed.

Lemma rollback_finishes delay w t :
  0 ≤ delay → w_now w ≤ w_wake w + delay →
  w_tasks w !! None = Some t → watching t → t ≠ Idle → ∃ w', taken_down delay w w'.
Proof.
  intros Hd.
  assert (∀ w, w_tasks w !! None = Some (Disabled false) → ∃ w', taken_down delay w w') as H3.
  { intros v Ht. eexists. split_and!; [eapply rtc_once; split; [eapply step_rolled_back, Ht|]|done| |done].
    - cbn. unfold WATCH_INTERVAL, HEARTBEAT_INTERVAL_SECS. lia.
    - apply update_clients. }
  assert (∀ w s, w_now w ≤ w_wake w + delay → w_tasks w !! None = Some (Disabling false s) →
    ∃ w', taken_down delay w w') as H2'.
  { intros v s Hp Ht. destruct (disables s (w_kernel v)) as [k' Hk].
    destruct (H3 (update v (w_state v) k' None (Some (Disabled false)))) as (w' & Hr); [apply lookup_insert_eq|].
    exists w'. eapply taken_down_update; [split; [by eapply step_disable_ok|done]|exact Hr]. }
  intros Hp Ht Hw Hn. destruct t as [| | | |[]|[]|[]]; try done; [|by eapply H2'|by apply H3].
  destruct (H2' (update w (w_state w) (w_kernel w) None
      (Some (Disabling false (rollback_settings (w_state w)))))  (rollback_settings (w_state w)))
    as (w' & Hr); [done|apply lookup_insert_eq|].
  exists w'. eapply taken_down_update; [split; [by eapply step_read|done]|exact Hr].
Qed.

(** While routing is active the watchdog's next look is due at the latest a sleep after
    the heartbeat's deadline. *)
Record timely (delay : Z) (w : DaemonWorld K) : Prop := {
  tm_prompt : w_now w ≤ w_wake w + delay;
  tm_wake : w_wake w ≤ w_now w + WATCH_INTERVAL;
  tm_active : ds_routing_active (w_state w) = true →
    w_wake w ≤ ds_last_heartbeat (w_state w) + WATCHDOG_TIMEOUT_SECS * 1000 + WATCH_INTERVAL
}.

Lemma release_session_clock sid d :
  ds_routing_active (release_session sid d) = ds_routing_active d ∧
  ds_last_heartbeat (release_session sid d) = ds_last_heartbeat d.
Proof. by destruct (release_session_cases sid d) as [[-> _]|(_ & -> & -> & _)]. Qed.

(** A section that does not age the heartbeat of active routing keeps this. *)
Lemma timely_update delay w d k i t :
  timely delay w → w_now w ≤ w_wake (update w d k i t) + delay →
  (ds_routing_active d = true →
     ds_last_heartbeat d = w_now w ∨
     ds_routing_active (w_state w) = true ∧ ds_last_heartbeat d = ds_last_heartbeat (w_state w) ∧
       (falls_asleep i t = true → w_now w ≤ ds_last_heartbeat d + WATCHDOG_TIMEOUT_SECS * 1000)) →
  timely delay (update w d k i t).
Proof.
  intros [Hp Hw Ha] Hp' Hd. split; [done|cbn; case_match; lia|].
  intros Hr. specialize (Hd Hr). revert Ha Hw Hd. cbn. unfold WATCHDOG_TIMEOUT_SECS, WATCH_INTERVAL, HEARTBEAT_INTERVAL_SECS.
  intros Ha Hw [->|(Hr' & -> & Hs)]; [destruct (falls_asleep i t); lia|].
  specialize (Ha Hr'). destruct (falls_asleep i t); [|lia]. specialize (Hs eq_refl). lia.
Qed.

Lemma timely_step delay w w' : prompt_step delay w w' → timely delay w → timely delay w'.
Proof.
  intros [Hs Hp] Hw. destruct Hs as
    [later Hl|Hn|sid Ht|sid Ht Hr'|sid Ht Hr'|sid port mark table dns s4 s6 uid config d Ht Hv Hcl
    |i config k' Ht Hb|i config e k' Ht Hb|i config Ht|sid Ht|sid Ht|sid d Ht Hh|Ht Ha He|Ht Ha He|i last Ht
    |i last st k' Ht Hb|i last st e k' Ht Hb|i last Ht].
  1,2: destruct Hw; split; [done|cbn in *; lia|done].
  all: apply timely_update; [done|done|].
  all: try (intros Hr; right; split_and!; [done|done|by destruct i]).
  all: try (by intros Hr; right).
  - destruct (release_session_clock sid (w_state w)) as [-> ->]. by right.
  - destruct (claim_controller_cases (w_now w) sid (w_state w)) as [[E _]|[[e E] _]]; rewrite E in Hcl; [|done].
    injection Hcl as <-. by left.
  - by left.
  - destruct (release_session_clock sid (w_state w)) as [-> ->]. by right.
  - destruct (heartbeat_cases (w_now w) sid (w_state w)) as [(E & _)|[[e E] _]]; rewrite E in Hh; [|done].
    injection Hh as <-. by left.
  - intros Hr. right. split_and!; [done|done|]. intros _. revert He. unfold expired. rewrite Hr. cbn.
    rewrite Z.ltb_ge. unfold saturating_sub. lia.
  - destruct (disables st (w_kernel w)) as [k2 E2]. congruence.
Qed.

Lemma timely_reachable delay now k w :
  0 ≤ delay → rtc (prompt_step delay) (initial_world now k) w → timely delay w.
Proof.
  intros Hd Hr. eapply (rtc_preserves (prompt_step delay) (timely delay)); [apply timely_step|exact Hr|].
  split; cbn; [|done|done]. unfold WATCH_INTERVAL, HEARTBEAT_INTERVAL_SECS. lia.
Qed.

Lemma prompt_reachable delay now k w :
  rtc (prompt_step delay) (initial_world now k) w → daemon_inv w.
Proof.
  intros Hr. apply (reachable_inv now k). induction Hr as [|x y z [Hs _] _ IH]; [done|by eapply rtc_l].
Qed.

(** The look at the end of the watchdog's sleep. *)
Definition woken (w : DaemonWorld K) : DaemonWorld K :=
  {| w_app := w_app w; w_now := Z.max (w_now w) (w_wake w); w_wake := w_wake w; w_next := w_next w;
     w_tasks := w_tasks w |}.

Lemma woken_step delay w : 0 ≤ delay → timely delay w → prompt_step delay w (woken w).
Proof. intros Hd [Hp _ _]. split; [apply step_time; lia|cbn [woken w_now w_wake]; lia]. Qed.

(** The look that finds the heartbeat too old. *)
Lemma woken_expired delay w :
  0 ≤ delay → timely delay w → w_tasks w !! None = Some Idle →
  expired (w_now (woken w)) (w_state w) = true →
  ∃ w', rtc (prompt_step delay) w w' ∧ routing_off w' ∧ clients w' = clients w ∧ w_now w' = w_now (woken w).
Proof.
  intros Hd Hw Ht He. pose proof (woken_step _ _ Hd Hw) as S1. pose proof (timely_step _ _ _ S1 Hw) as Hw1.
  set (w2 := update (woken w) (w_state w) (w_kernel w) None (Some (RollingBack false))).
  assert (prompt_step delay (woken w) w2) as S2
    by (split; [apply (step_watchdog (woken w)); [done|cbn; lia|done]|apply Hw1]).
  destruct (rollback_finishes delay w2 (RollingBack false)) as (w' & Hr & Ho & Hc & Et);
    [done|apply Hw1|apply lookup_insert_eq|done|done|].
  exists w'. split_and!; [|done|by rewrite Hc; apply (update_clients (woken w))|done].
  eapply rtc_l; [exact S1|]. by eapply rtc_l; [exact S2|].
Qed.

Lemma watchdog_takes_down (n : nat) delay w :
  0 ≤ delay → timely delay w → w_tasks w !! None = Some Idle → ds_routing_active (w_state w) = true →
  ds_last_heartbeat (w_state w) + WATCHDOG_TIMEOUT_SECS * 1000 < w_wake w + Z.of_nat n * WATCH_INTERVAL →
  ∃ w', rtc (prompt_step delay) w w' ∧ routing_off w' ∧ clients w' = clients w ∧
    w_now w ≤ w_now w' ≤
      Z.max (w_now w) (ds_last_heartbeat (w_state w) + WATCHDOG_TIMEOUT_SECS * 1000 + WATCH_INTERVAL).
Proof.
  intros Hd. revert w. induction n as [|n IH]; intros w Hw Ht Ha Hn;
    pose proof (tm_active _ _ Hw Ha) as Hwake;
    (destruct (expired (w_now (woken w)) (w_state w)) eqn:He;
     [destruct (woken_expired delay w) as (w' & ? & ? & ? & Et); try done;
      exists w'; split_and!; try done; rewrite Et; cbn; lia|]).
  all: pose proof He as Hold; revert Hold; unfold expired; rewrite Ha; cbn [andb woken w_now];
    rewrite Z.ltb_ge; unfold saturating_sub; intros Hold.
  - exfalso. lia.
  - pose proof (woken_step _ _ Hd Hw) as S1.
    set (w2 := update (woken w) (w_state w) (w_kernel w) None (Some Idle)).
    assert (prompt_step delay (woken w) w2) as S2.
    { split; [apply (step_watch (woken w)); [done|cbn; lia|done]|].
      cbn. unfold WATCH_INTERVAL, HEARTBEAT_INTERVAL_SECS. lia. }
    destruct (IH w2) as (w' & Hr & Ho & Hc & Hb);
      [by do 2 (eapply timely_step; [eassumption|])|apply lookup_insert_eq|done|cbn; lia|].
    exists w'. split_and!; [|done|by rewrite Hc; apply (update_clients (woken w))|revert Hb; cbn; lia..].
    eapply rtc_l; [exact S1|]. by eapply rtc_l; [exact S2|].
Qed.

End Watchdog.

(** ** The handlers are runs of the steps *)

Section Adequacy.
Context `{IpNet} {K : Type} `{RoutingBackend K}.

Definition with_app (w : DaemonWorld K) (app : AppState K) : DaemonWorld K :=
  {| w_app := app; w_now := w_now w; w_wake := w_wake w; w_next := w_next w; w_tasks := w_tasks w |}.

Lemma update_update (w : DaemonWorld K) d k d' k' i t t' :
  falls_asleep i t = false → update (update w d k i t) d' k' i t' = update w d' k' i t'.
Proof.
  intros Hf. unfold update. cbn. rewrite Hf. f_equal. destruct t, t'; simpl;
    rewrite ?insert_insert_eq, ?insert_delete_eq, ?delete_insert_eq, ?delete_delete_eq; done.
Qed.

Lemma update_same (w : DaemonWorld K) d k sid t :
  w_tasks w !! Some sid = Some t →
  update w d k (Some sid) (Some t) = with_app w {| app_state := d; app_kernel := k |}.
Proof. intros Ht. unfold update, with_app. f_equal. by apply insert_id. Qed.

Lemma update_lookup (w : DaemonWorld K) d k i t : w_tasks (update w d k i (Some t)) !! i = Some t.
Proof. apply lookup_insert_eq. Qed.

(** One more step of the same task. *)
Lemma update_step (w : DaemonWorld K) d k d' k' i t t' w' :
  falls_asleep i t = false →
  (step (update w d k i t) (update (update w d k i t) d' k' i t')) →
  rtc step (update w d' k' i t') w' → rtc step (update w d k i t) w'.
Proof. intros Hf. rewrite update_update by done. apply rtc_l. Qed.

Lemma rollback_steps (w : DaemonWorld K) i last :
  rtc step (update w (w_state w) (w_kernel w) i (Some (RollingBack last)))
    (update w (app_state (rollback (w_app w)).2) (app_kernel (rollback (w_app w)).2) i (after_rollback last)).
Proof.
  destruct w as [[d k] now next tasks]. unfold w_state, w_kernel. cbn [w_app app_state app_kernel].
  eapply update_step; [by destruct i|eapply step_read, update_lookup|]. unfold w_state, w_kernel. cbn [w_app app_state app_kernel update].
  unfold rollback. cbn [app_state app_kernel].
  destruct (backend_disable (rollback_settings d) k) as [[[]|e] k'] eqn:Eb; cbn [snd app_state app_kernel].
  - eapply update_step; [by destruct i|eapply step_disable_ok; [apply update_lookup|exact Eb]|].
    unfold w_state, w_kernel. cbn [w_app app_state app_kernel update].
    eapply update_step; [by destruct i|eapply step_rolled_back, update_lookup|]. apply rtc_refl.
  - eapply update_step; [by destruct i|eapply step_disable_err; [apply update_lookup|exact Eb]|].
    unfold w_state, w_kernel. cbn [w_app app_state app_kernel update]. apply rtc_refl.
Qed.

(** The same, started and ended between requests. *)
Lemma rollback_run (w : DaemonWorld K) sid :
  w_tasks w !! Some sid = Some Idle →
  step w (update w (w_state w) (w_kernel w) (Some sid) (Some (RollingBack false))) →
  rtc step w (with_app w (rollback (w_app w)).2).
Proof.
  intros Ht Hs. eapply rtc_l; [exact Hs|]. pose proof (rollback_steps w (Some sid) false) as Hr.
  unfold after_rollback in Hr. rewrite (update_same _ _ _ _ _ Ht) in Hr.
  by destruct (rollback (w_app w)).2.
Qed.

Lemma enable_routing_run (w : DaemonWorld K) sid config :
  w_tasks w !! Some sid = Some Idle → validated config →
  rtc step w (with_app w (enable_routing (w_now w) (w_now w) sid config (w_app w)).2).
Proof.
  intros Ht (port & mark & table & dns & s4 & s6 & uid & Hv). destruct w as [[d k] now next tasks] eqn:Ew.
  unfold enable_routing. cbn [w_app app_state app_kernel w_now].
  destruct (claim_controller now sid d) as [[[]|e] d1] eqn:Ec; cbn [snd].
  2: { destruct (claim_controller_cases now sid d) as [[E _]|[[e' E] _]]; rewrite E in Ec;
       simplify_eq. apply rtc_refl. }
  rewrite <-Ew in Ht |- *.
  eapply rtc_l; [eapply (step_claim w sid _ _ _ _ _ _ _ config d1); [done|exact Hv|by subst]|].
  destruct (backend_enable (settings_of config) k) as [[[]|e] k'] eqn:Eb; cbn [snd].
  - eapply update_step; [done|eapply step_enable_ok; [apply update_lookup|by subst]|].
    eapply update_step; [done|eapply step_commit, update_lookup|].
    rewrite update_same by done. subst w. apply rtc_refl.
  - eapply update_step; [done|eapply step_enable_err; [apply update_lookup|by subst]|].
    eapply update_step; [done|eapply step_refused, update_lookup|].
    rewrite update_same by done. subst w. apply rtc_refl.
Qed.

(** The handlers are what the interleaving relation says when nothing comes
    in between: a request handled at one instant, a turn of the watchdog's loop once
    its sleep is over, which ends asleep again, and the end of a connection are runs
    of the steps, from and to the same states. *)
Lemma handlers_are_runs (w : DaemonWorld K) :
  (∀ sid req, w_tasks w !! Some sid = Some Idle →
     rtc step w (with_app w (process_request (w_now w) (w_now w) req sid (w_app w)).2)) ∧
  (w_tasks w !! None = Some Idle → w_wake w ≤ w_now w →
     let app := watchdog_tick (w_now w) (w_app w) in
     rtc step w (update w (app_state app) (app_kernel app) None (Some Idle))) ∧
  (∀ sid, w_tasks w !! Some sid = Some Idle →
     let app := (close_session sid (w_app w)).2 in
     rtc step w (update w (app_state app) (app_kernel app) (Some sid) None)).
Proof.
  assert (with_app w (w_app w) = w) as Ew by by destruct w.
  split_and!.
  - intros sid req Ht. destruct req as [v|s port mark table dns s4 s6 uid|s|s n]; cbn [process_request];
      rewrite ?require_controller_cases; cbn [snd]; [by rewrite Ew|..];
      (destruct (s =? sid); cbn [snd]; [|by rewrite Ew]).
    + destruct (validate_config port mark table dns s4 s6 uid) as [config|e] eqn:Hv; cbn [snd]; [|by rewrite Ew].
      apply enable_routing_run; [done|]. red. eauto 10.
    + pose proof (rollback_run w sid Ht (step_disable w sid Ht)) as Hr.
      by destruct (rollback (w_app w)).
    + destruct (heartbeat_cases (w_now w) sid (w_state w)) as [[E _]|[[e E] _]];
        unfold w_state in E; rewrite E; cbn [snd]; unfold with_state.
      * apply rtc_once. rewrite <-(update_same w _ _ sid Idle Ht). by apply step_heartbeat.
      * replace {| app_state := app_state (w_app w); app_kernel := app_kernel (w_app w) |}
          with (w_app w) by by destruct (w_app w). by rewrite Ew.
  - intros Ht Hwake. unfold watchdog_tick. destruct (expired (w_now w) (app_state (w_app w))) eqn:He.
    + eapply rtc_l; [by apply step_watchdog|]. apply (rollback_steps w None false).
    + apply rtc_once. by apply step_watch.
  - intros sid Ht. unfold close_session. destruct (should_rollback sid (app_state (w_app w))) eqn:Hr.
    + eapply rtc_l; [by apply step_close|]. apply (rollback_steps w (Some sid) true).
    + apply rtc_once. by apply step_release.
Qed.

Lemma step_clock (w w' : DaemonWorld K) :
  step w w' → w_wake w ≤ w_now w + WATCH_INTERVAL →
  w_now w ≤ w_now w' ∧ w_wake w ≤ w_wake w' ∧ w_wake w' ≤ w_now w' + WATCH_INTERVAL.
Proof. intros Hs Hw. destruct Hs; cbn; repeat case_match; lia. Qed.

(** A run that ends before the watchdog's sleep does is prompt. *)
Lemma before_waking (w w' : DaemonWorld K) :
  rtc step w w' → w_wake w ≤ w_now w + WATCH_INTERVAL → w_now w' ≤ w_wake w → rtc (prompt_step 0) w w'.
Proof.
  induction 1 as [|w w1 w' Hs Hr IH]; [done|]. intros Hw Hn. destruct (step_clock _ _ Hs Hw) as (? & ? & ?).
  assert (w_now w1 ≤ w_now w').
  { clear -Hr. induction Hr as [|x y z Hs _ IH]; [done|]. etrans; [|exact IH]. destruct Hs; cbn; lia. }
  eapply rtc_l; [split; [exact Hs|lia]|]. apply IH; lia.
Qed.
End Adequacy.

(** ** A whole connection *)

(** What it is for a backend to be exact: enabling puts the interception in place
    or changes nothing, disabling removes it or changes nothing. *)
Class Exact {K} `{RoutingBackend K} (installed : K → bool) : Prop := {
  exact_enable : ∀ s k, installed (backend_enable s k).2 =
                   if is_ok (backend_enable s k).1 then true else installed k;
  exact_disable : ∀ s k, installed (backend_disable s k).2 =
                   if is_ok (backend_disable s k).1 then false else installed k
}.

Section Connection.
Context `{IpNet} {K : Type} `{RoutingBackend K}.

Definition in_sync (installed : K → bool) (app : AppState K) : Prop :=
  installed (app_kernel app) = ds_routing_active (app_state app).

Section Exactly.
Context (installed : K → bool) `{!Exact installed}.

Lemma rollback_in_sync app : in_sync installed app → in_sync installed (rollback app).2.
Proof.
  unfold in_sync, rollback. intros Hs. pose proof (exact_disable (rollback_settings (app_state app)) (app_kernel app)) as He.
  destruct (backend_disable _ _) as [[[]|e] k]; cbn in *; congruence.
Qed.

Lemma release_session_active sid d : ds_routing_active (release_session sid d) = ds_routing_active d.
Proof. unfold release_session. by case_bool_decide. Qed.

Lemma process_request_in_sync now later req sid app :
  in_sync installed app → in_sync installed (process_request now later req sid app).2.
Proof.
  intros Hs. destruct req as [v|s port mark table dns s4 s6 uid|s|s n]; cbn [process_request]; [done|..];
    rewrite require_controller_cases; (destruct (s =? sid); [|done]).
  - destruct (validate_config port mark table dns s4 s6 uid) as [config|e]; [|done].
    unfold enable_routing.
    destruct (claim_controller_cases now sid (app_state app)) as [[-> _]|[[e ->] _]]; [|by destruct app].
    pose proof (exact_enable (settings_of config) (app_kernel app)) as He.
    destruct (backend_enable _ _) as [[[]|e] k]; unfold in_sync; cbn in He |- *; [done|].
    rewrite release_session_active, He. exact Hs.
  - pose proof (rollback_in_sync app Hs) as Hr. by destruct (rollback app) as [[] ?].
  - destruct (heartbeat_cases now sid (app_state app)) as [(-> & _)|[[e ->] _]]; done.
Qed.

Lemma close_in_sync sid app : in_sync installed app → in_sync installed (close_session sid app).2.
Proof.
  intros Hs. unfold close_session. case_match; [by apply rollback_in_sync|].
  unfold in_sync. cbn. by rewrite release_session_active.
Qed.

Lemma serve_in_sync sid turns app : in_sync installed app → in_sync installed (serve sid turns app).2.
Proof.
  revert app. induction turns as [|turn turns IH]; intros app Hs; simpl.
  { pose proof (close_in_sync sid app Hs). by destruct (close_session sid app) as [[] ?]. }
  destruct (tn_frame turn) as [req|e]; [|done].
  pose proof (process_request_in_sync (tn_now turn) (tn_later turn) req sid app Hs) as Hp.
  destruct (process_request _ _ _ _ _) as [r app']. destruct (tn_sent turn); [|done].
  specialize (IH app' Hp). by destruct (serve sid turns app') as [[? ?] ?].
Qed.
End Exactly.

(** A connection that ends in order owns nothing. *)
Lemma serve_releases sid turns app r sent app' :
  serve sid turns app = (r, sent, app') → is_ok r = true → ds_active_session (app_state app') ≠ Some sid.
Proof.
  revert app sent. induction turns as [|turn turns IH]; intros app sent; simpl.
  - destruct (close_session sid app) as [r1 app1] eqn:Ec. intros [= <- <- <-] Hr. revert Ec Hr.
    unfold close_session, rollback. destruct (should_rollback sid (app_state app)).
    + destruct (backend_disable _ _) as [[[]|e] k]; by intros [= <- <-].
    + intros [= <- <-] _. cbn.
      destruct (release_session_cases sid (app_state app)) as [[-> Hn]|[-> _]]; done.
  - destruct (tn_frame turn) as [req|e]; [|by intros [= <- <- <-]].
    destruct (process_request _ _ _ _ _) as [r1 app1]. destruct (tn_sent turn); [|by intros [= <- <- <-]].
    destruct (serve sid turns app1) as [[r2 sent2] app2] eqn:Es. intros [= <- <- <-]. by eapply IH.
Qed.

(** A session that does not own the routing, and does not ask to disable it,
    changes nothing. *)
Definition disabling (turn : Turn) : bool :=
  match tn_frame turn with Decoded (DisableRouting _) => true | _ => false end.

Lemma process_request_stranger now later req sid s app :
  ds_active_session (app_state app) = Some s → s ≠ sid →
  (∀ x, req ≠ DisableRouting x) →
  (process_request now later req sid app).2 = app.
Proof.
  intros Ho Hs Hd. destruct app as [d k]. cbn in Ho.
  destruct req as [v|x port mark table dns s4 s6 uid|x|x n]; cbn [process_request]; [done|..];
    rewrite ?require_controller_cases; (destruct (x =? sid); [|done]).
  - destruct (validate_config port mark table dns s4 s6 uid) as [config|e]; [|done].
    unfold enable_routing. cbn. destruct (claim_controller_cases now sid d) as [[_ [?|?]]|[[e ->] _]]; congruence || done.
  - by destruct (Hd x).
  - cbn. destruct (heartbeat_cases now sid d) as [(_ & _ & ?)|[[e ->] _]]; congruence || done.
Qed.

Lemma serve_stranger sid turns app s :
  ds_active_session (app_state app) = Some s → s ≠ sid → existsb disabling turns = false →
  (serve sid turns app).2 = app.
Proof.
  intros Ho Hs. induction turns as [|turn turns IH]; simpl.
  - intros _. unfold close_session, should_rollback, release_session. rewrite Ho.
    rewrite bool_decide_eq_false_2 by congruence. cbn. by destruct app.
  - intros [Hd Ht]%orb_false_iff. unfold disabling in Hd. destruct (tn_frame turn) as [req|e]; [|done].
    pose proof (process_request_stranger (tn_now turn) (tn_later turn) req sid s app Ho Hs) as Hp.
    destruct (process_request _ _ _ _ _) as [r app1]. cbn in Hp. rewrite Hp by (intros x ->; done).
    destruct (tn_sent turn); [|done]. specialize (IH Ht). by destruct (serve sid turns app) as [[? ?] ?].
Qed.

(** C31. One connection, from its first frame to its end, that no other connection and
    no turn of the watchdog comes in between (where they do, [daemon_safety] says
    what still holds and [rollback_race] what does not).  It is served only to the
    authorised user and after a handshake in the daemon's version; otherwise it is
    answered nothing and changes nothing.  If it ends in order it owns nothing any
    more; if another session owns the routing and it never asks to disable, it
    changes nothing at all; and over an exact backend, if it found the interception
    in place exactly when the daemon says that routing is active, it leaves it so. *)
Theorem handle_client_spec (uid : Z) (configured : option string) (first : option Frame)
    (greeted : result Error ()) (turns : list Turn) (next : Z) (app : AppState K) :
  let '(r, sent, next', app') := handle_client uid configured first greeted turns next app in
  (is_ok (authorize_uid uid configured) = false ∨ is_ok (accept_handshake first) = false →
     is_ok r = false ∧ sent = [] ∧ next' = next ∧ app' = app) ∧
  (sent ≠ [] → head sent = Some (HandshakeOk PROTOCOL_VERSION next) ∧
     is_ok (authorize_uid uid configured) = true ∧ first = Some (Decoded (Handshake PROTOCOL_VERSION))) ∧
  (is_ok r = true → ds_active_session (app_state app') ≠ Some next) ∧
  (∀ s, ds_active_session (app_state app) = Some s → s ≠ next → existsb disabling turns = false → app' = app) ∧
  (∀ installed, Exact installed → in_sync installed app → in_sync installed app').
Proof.
  unfold handle_client. destruct (authorize_uid uid configured) as [[]|e]; cbn; [|naive_solver].
  destruct (accept_handshake first) as [[]|e] eqn:Ef; cbn; [|naive_solver].
  destruct greeted as [[]|e]; [|naive_solver].
  destruct (serve next turns app) as [[r sent] app'] eqn:Es. cbn. split_and!.
  - naive_solver.
  - intros _. split_and!; [done|done|]. destruct first as [[[v| | |]|]|]; try done. cbn in Ef.
    rewrite bail_if_cases in Ef. destruct (Z.eqb_spec v PROTOCOL_VERSION); [by subst|done].
  - intros Hr. by eapply serve_releases.
  - intros s Ho Hs Hd. pose proof (serve_stranger next turns app s Ho Hs Hd) as E. by rewrite Es in E.
  - intros installed Hx Hs. pose proof (serve_in_sync installed next turns app Hs) as E. by rewrite Es in E.
Qed.
End Connection.

(** ** Two defects *)

Section Defects.
Context `{IpNet}.

#[local] Existing Instance Switched.

(** The section that claims, where it succeeds. *)
Lemma claim_free now sid d :
  ds_active_session d = None ∨ ds_active_session d = Some sid →
  claim_controller now sid d =
    (Ok (), {| ds_active_session := Some sid; ds_routing_active := ds_routing_active d;
               ds_last_heartbeat := now; ds_routing_config := ds_routing_config d |}).
Proof.
  intros Ho. destruct (claim_controller_cases now sid d) as [[E _]|[_ (s & Es & Hs)]]; [done|].
  destruct Ho; congruence.
Qed.

(** A whole enabling by session 1. *)
Lemma enabling_run (w : DaemonWorld bool) config :
  w_tasks w !! Some 1 = Some Idle → validated config →
  ds_active_session (w_state w) = None ∨ ds_active_session (w_state w) = Some 1 →
  rtc step w
    (with_app w {| app_state := {| ds_active_session := Some 1; ds_routing_active := true;
                                   ds_last_heartbeat := w_now w; ds_routing_config := Some config |};
                   app_kernel := true |}).
Proof.
  intros Ht Hv Ho. pose proof (enable_routing_run w 1 config Ht Hv) as Hr.
  unfold enable_routing in Hr. rewrite (claim_free _ _ _ Ho) in Hr. exact Hr.
Qed.

(** The world in which session 1 is connected and has enabled [config]; the watchdog
    was put to sleep at the start, at time 0. *)
Definition attended (config : RoutingConfig) (now : Z) (tasks : gmap (option Z) Task) : DaemonWorld bool :=
  {| w_app := {| app_state := {| ds_active_session := Some 1; ds_routing_active := true;
                                 ds_last_heartbeat := now; ds_routing_config := Some config |};
                 app_kernel := true |};
     w_now := now; w_wake := WATCH_INTERVAL; w_next := 2; w_tasks := tasks |}.

Lemma attended_reachable config :
  validated config →
  rtc step (initial_world 0 false) (attended config 0 (<[Some 1 := Idle]> {[None := Idle]})).
Proof.
  intros Hv. eapply rtc_l; [by apply step_connect|].
  change ((next_session_id (w_next (initial_world 0 false))).2) with 2.
  change ((next_session_id (w_next (initial_world 0 false))).1) with 1.
  pose proof (enabling_run {| w_app := w_app (initial_world 0 false); w_now := 0; w_wake := WATCH_INTERVAL; w_next := 2;
                              w_tasks := <[Some 1 := Idle]> {[None := Idle]} |} config) as Hr.
  cbv [initial_world w_app w_now w_wake w_tasks w_next with_app attended] in Hr |- *. apply Hr; [done|done|by left].
Qed.

(** The rollback reads the settings, disables and clears the state in three
    separate steps, and an enabling of the owner that falls between the last two
    is undone on paper only: the daemon can come to rest with the interception in
    place, nobody owning it and routing not active, so that the watchdog and the
    end of every connection leave it there. *)
Lemma rollback_race (config : RoutingConfig) :
  validated config →
  ∃ w, rtc step (initial_world 0 false) w ∧
    w_kernel w = true ∧ routing_off w ∧
    (∀ i t, w_tasks w !! i = Some t → t = Idle) ∧
    (∀ now, watchdog_tick now (w_app w) = w_app w) ∧
    (∀ sid, close_session sid (w_app w) = (Ok (), w_app w)).
Proof.
  intros Hv. set (tasks := <[Some 1 := Idle]> ({[None := Idle]} : gmap (option Z) Task)).
  set (w0 := attended config 0 tasks).
  set (w1 := {| w_app := w_app w0; w_now := 5001; w_wake := WATCH_INTERVAL; w_next := 2; w_tasks := tasks |}).
  set (w2 := update w1 (w_state w1) true None (Some (RollingBack false))).
  set (w3 := update w2 (w_state w1) true None (Some (Disabling false (Some (settings_of config))))).
  set (w4 := update w3 (w_state w1) false None (Some (Disabled false))).
  set (w5 := attended config 5001 (w_tasks w4)).
  exists (update w5 (commit_rollback (w_state w5)) true None (Some Idle)). split_and!; try done.
  - etrans; [by apply (attended_reachable config)|].
    assert (step w0 w1) as S1 by by apply (step_time w0 5001).
    assert (step w1 w2) as S2 by exact (step_watchdog w1 eq_refl ltac:(done) eq_refl).
    assert (step w2 w3) as S3 by exact (step_read w2 None false eq_refl).
    assert (step w3 w4) as S4 by exact (step_disable_ok w3 None false _ false eq_refl eq_refl).
    pose proof (enabling_run w4 config eq_refl Hv (or_intror eq_refl)) as S5.
    pose proof (step_rolled_back w5 None false eq_refl) as S6.
    do 4 (eapply rtc_l; [eassumption|]). etrans; [exact S5|]. apply rtc_once. exact S6.
  - intros i t. cbn. rewrite !insert_insert_eq. unfold tasks. intros Ht.
    repeat (apply lookup_insert_Some in Ht as [[_ <-]|[_ Ht]]; [done|]).
    by apply lookup_singleton_Some in Ht as [_ <-].
Qed.
End Defects.

(** ** Enabling again *)

Section Again.
Context `{IpNet} `{RefusesDuplicates}.
#[local] Existing Instance NftablesBackend.

Lemma reenable_cases (now later now' later' sid seq : Z) (req : NetdRequest)
    (app : AppState (list Command)) :
  let first := process_request now later req sid app in
  first.1 = Ok RoutingEnabled →
  let second := process_request now' later' req sid first.2 in
  is_ok second.1 = false ∧
  ds_routing_active (app_state second.2) = true ∧
  ds_active_session (app_state second.2) = None ∧
  is_ok (process_request now' later' (Heartbeat sid seq) sid second.2).1 = false ∧
  (∀ t, now' + WATCHDOG_TIMEOUT_SECS * 1000 < t →
     ds_routing_active (app_state (watchdog_tick t second.2)) = false).
Proof.
  intros first Hf. unfold first in *. clear first. destruct app as [d k].
  destruct req as [v|s port mark table dns s4 s6 uid|s|s n]; cbn [process_request] in *; [done|..];
    rewrite ?require_controller_cases in *; (destruct (Z.eqb_spec s sid) as [->|]; [|done]).
  2: { by destruct (rollback _) as [[] ?]. }
  2: { by destruct (heartbeat _ _ _) as [[] ?]. }
  destruct (validate_config port mark table dns s4 s6 uid) as [config|e]; [|done].
  set (s := settings_of config) in *. unfold enable_routing in *. cbn [app_state app_kernel] in *.
  destruct (claim_controller_cases now sid d) as [[Ec _]|[[e Ec] _]]; rewrite Ec in *; [|done]. clear Ec.
  pose proof (second_enable_fails s k []) as Hs. rewrite app_nil_r in Hs.
  cbn [backend_enable NftablesBackend] in *. fold s in Hf |- *.
  destruct (enable s k) as [[[]|e] k1]; [|done]. cbn [snd app_state app_kernel commit_enable].
  rewrite claim_free by by right. cbn [backend_enable NftablesBackend]. fold s.
  specialize (Hs eq_refl (not_elem_of_nil _)). cbn in Hs.
  destruct (enable s k1) as [[[]|e] k2]; [done|].
  unfold release_session. cbn. rewrite bool_decide_eq_true_2 by done. cbn.
  split_and!; try done.
  - unfold require_controller, bail_if. rewrite Z.eqb_refl. cbn. unfold heartbeat, heartbeat_allowed. cbn.
    by rewrite bool_decide_eq_false_2.
  - intros t Ht. unfold watchdog_tick, expired. cbn.
    rewrite (proj2 (Z.ltb_lt _ _)) by (unfold saturating_sub, WATCHDOG_TIMEOUT_SECS in *; lia).
    unfold rollback. cbn. by rewrite disable_run.
Qed.

(** On a machine whose [ip] refuses a rule that is already there, the session
    that has just enabled routing cannot enable it again with the same
    parameters, as a controller does at every switch of node: the answer is an
    error, after which routing is still active and its owner forgotten, so that
    the session's heartbeats are refused and the watchdog takes routing down. *)
Lemma reenable_loses_owner (now later now' later' sid seq : Z) (req : NetdRequest)
    (app : AppState (list Command)) :
  let first := process_request now later req sid app in
  first.1 = Ok RoutingEnabled →
  let second := process_request now' later' req sid first.2 in
  is_ok second.1 = false ∧
  ds_routing_active (app_state second.2) = true ∧
  ds_active_session (app_state second.2) = None ∧
  is_ok (process_request now' later' (Heartbeat sid seq) sid second.2).1 = false ∧
  (∀ t, now' + WATCHDOG_TIMEOUT_SECS * 1000 < t →
     ds_routing_active (app_state (watchdog_tick t second.2)) = false).
Proof. apply reenable_cases. Qed.
End Again.

(** ** Witnesses *)

(** Subnets kept as their text; [0.0.0.0/0] and [::/0] are the default routes. *)
Definition text_net : IpNet :=
  {| Ipv4Net := string; Ipv6Net := string;
     parse_v4net := λ s, if bool_decide (s = EmptyString) then Err "invalid IP address syntax" else Ok s;
     parse_v6net := λ s, if bool_decide (s = EmptyString) then Err "invalid IP address syntax" else Ok s;
     v4_prefix_len := λ s, if bool_decide (s = "0.0.0.0/0") then 0 else 8;
     v6_prefix_len := λ s, if bool_decide (s = "::/0") then 0 else 8;
     show_v4net := id; show_v6net := id |}.
#[local] Existing Instance text_net.

Definition sample_request (sid : Z) : NetdRequest :=
  EnableRouting sid 12345 1 100 (Some (V4 1 1 1 1)) ["10.0.0.0/8"] ["fc00::/7"] None.
Definition sample_config : RoutingConfig :=
  {| rc_tproxy_port := 12345; rc_proxy_fwmark := 1; rc_table_id := 100;
     rc_dns_ipv4 := Some (V4 1 1 1 1); rc_bypass_subnets := (["10.0.0.0/8"] : list Ipv4Net);
     rc_bypass_subnets_v6 := (["fc00::/7"] : list Ipv6Net); rc_core_uid := None |}.

Lemma sample_validated : validated sample_config.
Proof.
  exists 12345, 1, 100, (Some (V4 1 1 1 1)), ["10.0.0.0/8"], ["fc00::/7"], None. vm_compute. reflexivity.
Qed.

Lemma rollback_race_witness :
  ∃ w : DaemonWorld bool, w_kernel w = true ∧ ds_routing_active (w_state w) = false.
Proof.
  destruct (rollback_race sample_config sample_validated) as (w & _ & Hk & [Hr _] & _). by exists w.
Defined.

(** A machine that remembers which [ip] commands are in force. *)
Fixpoint undone_by (args : list string) : list string :=
  match args with
  | [] => []
  | a :: args => if bool_decide (a = "add") then "del" :: args else a :: undone_by args
  end.
Definition is_rule (args : list string) : bool := bool_decide ("rule" ∈ args).
Definition in_force (args : list string) (t : list Command) : bool :=
  foldl (λ b c, if bool_decide (c = Ip args) then true
                else if bool_decide (c = Ip (undone_by args)) then false else b) false t.
Definition kernel_machine : Machine :=
  {| euid := 0;
     run := λ t c, match c with
       | Ip args => if is_rule args && in_force args t then Exited false "RTNETLINK answers: File exists"
                    else Exited true ""
       | _ => Exited true ""
       end |}.
#[local] Existing Instances kernel_machine NftablesBackend.

Lemma kernel_refuses : RefusesDuplicates.
Proof.
  split. intros t u s _ Hu. unfold succeeds. cbn -[in_force app].
  assert (in_force (rule_args true Add s) (t ++ [Ip (rule_args true Add s)] ++ u) = true) as E.
  { unfold in_force. rewrite !foldl_app. cbn [foldl]. rewrite bool_decide_eq_true_2 by done.
    change (undone_by (rule_args true Add s)) with (rule_args true Del s).
    revert Hu. induction u as [|c u IH]; intros Hu; [done|]. apply not_elem_of_cons in Hu as [Hc Hu].
    cbn [foldl]. rewrite (bool_decide_eq_false_2 (c = Ip (rule_args true Del s))) by congruence.
    case_bool_decide; by apply IH. }
  change ["ip"; "rule"; "add"; "fwmark"; show_hex (tp_proxy_fwmark s); "lookup"; show_Z (tp_table_id s)]
    with (rule_args true Add s).
  by rewrite E.
Qed.

Lemma reenable_loses_owner_witness :
  ds_active_session (app_state (process_request 10 11 (sample_request 1) 1
    (process_request (K := list Command) 0 1 (sample_request 1) 1
       {| app_state := initial_state 0; app_kernel := [] |}).2).2) = None.
Proof.
  pose proof kernel_refuses.
  eapply (reenable_loses_owner 0 1 10 11 1 0 (sample_request 1) {| app_state := initial_state 0; app_kernel := [] |}).
  vm_compute. reflexivity.
Defined.

#[local] Existing Instance Switched.

Lemma switched_disables : Disables (K := bool).
Proof. split. intros s k. by exists false. Qed.

Definition attended_sample : DaemonWorld bool := attended sample_config 0 (<[Some 1 := Idle]> {[None := Idle]}).


Lemma daemon_safety_witness : is_Some (ds_routing_config (w_state attended_sample)).
Proof.
  apply (daemon_safety 0 false attended_sample); [apply attended_reachable, sample_validated|reflexivity].
Defined.

(** The owner beats a second later. *)
Definition late : DaemonWorld bool :=
  {| w_app := w_app attended_sample; w_now := 1000; w_wake := WATCH_INTERVAL; w_next := 2; w_tasks := w_tasks attended_sample |}.
Definition beaten : DaemonWorld bool :=
  update late {| ds_active_session := Some 1; ds_routing_active := true; ds_last_heartbeat := 1000;
                 ds_routing_config := Some sample_config |} true (Some 1) (Some Idle).

Lemma late_reachable : rtc step (initial_world 0 false) late.
Proof.
  eapply rtc_r; [apply attended_reachable, sample_validated|]. by apply (step_time attended_sample 1000).
Qed.

Lemma beaten_step : step late beaten.
Proof. by apply (step_heartbeat late 1). Qed.

Lemma step_authority_witness : ds_last_heartbeat (w_state beaten) = w_now late.
Proof.
  destruct (step_authority 0 false late beaten late_reachable beaten_step) as (_ & Hb & _).
  apply Hb. intros E. vm_compute in E. discriminate E.
Defined.
