(* ===== verification/NetdMain.v ===== *)
(** The start of the daemon ([main] of [crates/netd/src/main.rs]): who may run it,
    its socket, the backend it chooses and the state it serves.

    The environment and the outcomes of the system calls are data. *)

From S2P Require Import Prelude Netfilter Netd.

Definition DEFAULT_SOCKET_PATH : string := "/run/myproxy/netd.sock".

Inductive BackendChoice := NftablesChoice | NoopChoice.

Record StartEnv := {
  se_root : bool;                        (** [geteuid() == 0] *)
  se_backend : option string;            (** [MYPROXY_NETD_BACKEND] *)
  se_socket : option string;             (** [MYPROXY_NETD_SOCKET] *)
  se_exists : bool;                      (** something is at the socket's path *)
  se_parent : bool;                      (** the path has a parent directory *)
  se_remove : option string; se_mkdir : option string; se_chmod_dir : option string;
  se_bind : option string; se_chmod : option string
}.

Definition choose_backend (env : StartEnv) : BackendChoice :=
  if bool_decide (se_backend env = Some "netfilter"%stdpp) && se_root env then NftablesChoice else NoopChoice.

Definition socket_path (env : StartEnv) : string := default DEFAULT_SOCKET_PATH (se_socket env).

Definition prepare_socket (env : StartEnv) (path : string) : result Error () :=
  _ ← if se_exists env then context ("failed to remove " +:+ path) (os_fault (se_remove env)) else Ok ();
  if se_parent env then _ ← os_fault (se_mkdir env); os_fault (se_chmod_dir env) else Ok ().

Section Start.
Context `{IpNet}.

(** Up to the accept loop: the socket's path, the backend and the state. *)
Definition daemon_start (env : StartEnv) (now : Z) : result Error (string * BackendChoice * DaemonState) :=
  if negb (se_root env)
  then bail "myproxy-netd must run as root or with equivalent network capabilities" else
  let path := socket_path env in
  _ ← prepare_socket env path;
  _ ← context ("failed to bind " +:+ path) (os_fault (se_bind env));
  _ ← os_fault (se_chmod env);
  Ok (path, choose_backend env, initial_state now).

(** The daemon serves only as root; it then starts with nobody in control and no
    routing, and the kernel is left alone exactly when the environment does not ask
    for netfilter. *)
Lemma daemon_start_spec (env : StartEnv) (now : Z) path backend d :
  daemon_start env now = Ok (path, backend, d) →
  se_root env = true ∧ path = socket_path env ∧ d = initial_state now ∧
  (backend = NftablesChoice ↔ se_backend env = Some "netfilter"%stdpp) ∧
  se_bind env = None ∧ se_chmod env = None.
Proof.
  unfold daemon_start, choose_backend. destruct (se_root env); [|done]. cbn [negb].
  destruct (prepare_socket env (socket_path env)) as [[]|]; [|done].
  destruct (se_bind env); [done|]. destruct (se_chmod env); [done|]. simpl. intros [= <- <- <-].
  case_bool_decide; naive_solver.
Qed.

(** The fallback of [choose_backend] for a daemon that is not root is never taken:
    such a daemon does not start. *)
Lemma unprivileged_daemon_refuses (env : StartEnv) (now : Z) :
  se_root env = false →
  daemon_start env now = bail "myproxy-netd must run as root or with equivalent network capabilities" ∧
  choose_backend env = NoopChoice.
Proof. unfold daemon_start, choose_backend. intros ->. by rewrite andb_false_r. Qed.
End Start.

(** ** The accept loop *)

(** The connections served, each in a task of its own, and the error that ends the
    daemon: the first [accept] that fails. *)
Fixpoint accept_loop (accepts : list (option string)) : nat * option Error :=
  match accepts with
  | [] => (0%nat, None)
  | Some msg :: _ => (0%nat, Some ["accept failed"; msg]%stdpp)
  | None :: accepts => let '(served, e) := accept_loop accepts in (S served, e)
  end.

(** The loop goes on exactly while every [accept] succeeds: one failure, a shortage
    of descriptors included, ends the process with its tasks and its watchdog, and
    nothing then takes down the routing it may have put up. *)
Lemma accept_loop_spec accepts :
  match accept_loop accepts with
  | (served, None) => served = length accepts ∧ Forall (λ a, a = None) accepts
  | (served, Some _) =>
      ∃ msg rest, accepts = repeat None served ++ Some msg :: rest
  end.
Proof.
  induction accepts as [|[msg|] accepts IH]; simpl; [done|by exists msg, accepts|].
  destruct (accept_loop accepts) as [served [e|]].
  - destruct IH as (msg & rest & ->). by exists msg, rest.
  - destruct IH as [-> Hf]. split; [done|by constructor].
Qed.
