(* ===== verification/NetdClient.v ===== *)
(** The daemon's client ([crates/controller/src/netd_client.rs]): frames, the
    handshake and its retries, one request at a time, the heartbeat and its
    sequence, and the conversation of a client with the daemon of [Netd].

    A connected stream is the bytes that arrived and were not read; the outcome of
    the system calls of one exchange, with the bytes that arrive before its
    deadline, is data.  The mutex makes each operation one transition; [Heartbeats]
    interleaves them.  bincode is a parameter. *)

From S2P Require Import Prelude RustStr Ir Uri Adapter Repository Egress Supervisor Controller Netfilter Netd.

(** bincode's encoding of the two message types. *)
Class Bincode := {
  serialize_request : NetdRequest → result Error string;
  deserialize_request : string → result Error NetdRequest;
  serialize_response : NetdResponse → result Error string;
  deserialize_response : string → result Error NetdResponse
}.
(** What is encoded is decoded. *)
Class BincodeLaws `{Bincode} := {
  request_decodes : ∀ r s, serialize_request r = Ok s → deserialize_request s = Ok r;
  response_decodes : ∀ r s, serialize_response r = Ok s → deserialize_response s = Ok r
}.

(** ** Frames *)

(** [u32::to_be_bytes] and [from_be_bytes]. *)
Definition to_be_bytes (z : Z) : string :=
  String (char_of (z / 16777216 mod 256)) (String (char_of (z / 65536 mod 256))
    (String (char_of (z / 256 mod 256)) (String (char_of (z mod 256)) ""))).
Definition from_be_bytes (s : string) : Z := foldl (λ z a, z * 256 + byte_of a) 0 (bytes s).

(** [frame_read_exact] of [n] bytes of what arrived; what was read is gone even when it
    is not enough. *)
Definition frame_read_exact (n : nat) (error : string) (input : string) : result Error string * string :=
  if (String.length input <? n)%nat then (Err [error], EmptyString)
  else (Ok (String.substring 0 n input), String.substring n (String.length input - n) input).

(** What [write_frame] puts on the wire for a payload. *)
Definition frame_of (payload : string) : string := to_be_bytes (str_len payload) +:+ payload.

Section Frames.
Context `{Bincode}.

(** [write_frame]: the bytes written; [sent] is how the writes went. *)
Definition write_frame (sent : result Error ()) (request : NetdRequest) : result Error string :=
  payload ← serialize_request request;
  if MAX_FRAME_BYTES <? str_len payload
  then bail ("request frame too large: " +:+ show_Z (str_len payload) +:+ " bytes")
  else _ ← sent; Ok (frame_of payload).

(** [read_response], with the error of a read that comes up short, and what is
    left to read. *)
Definition read_response (error : string) (input : string) : result Error NetdResponse * string :=
  match frame_read_exact 4 error input with
  | (Err e, rest) => (Err e, rest)
  | (Ok prefix, rest) =>
    let length := from_be_bytes prefix in
    if (length =? 0) || (MAX_FRAME_BYTES <? length)
    then (bail ("invalid netd frame length " +:+ show_Z length), rest)
    else
      match frame_read_exact (Z.to_nat length) error rest with
      | (Err e, rest) => (Err e, rest)
      | (Ok payload, rest) => (context "invalid netd response payload" (deserialize_response payload), rest)
      end
  end.
End Frames.

(** ** The client *)

Record ClientInner := { ci_stream : option string; ci_session_id : Z; ci_sequence : Z }.

(** One exchange over the stream: cloning it and setting its timeouts, writing,
    what arrives before the deadline, and the error of a read that comes up short. *)
Record Exchange := {
  xc_setup : result Error (); xc_sent : result Error (); xc_arrived : string; xc_error : string
}.
(** One attempt to connect, and the exchange of the handshake. *)
Record Attempt := { at_connect : result Error (); at_exchange : Exchange }.

(** [{other:?}]; an error is always handled before. *)
Definition debug_response (r : NetdResponse) : string :=
  match r with
  | HandshakeOk v s =>
    "HandshakeOk { daemon_version: " +:+ show_Z v +:+ ", session_id: " +:+ show_Z s +:+ " }"
  | RoutingEnabled => "RoutingEnabled"
  | RoutingDisabled => "RoutingDisabled"
  | HeartbeatAck n => "HeartbeatAck { sequence: " +:+ show_Z n +:+ " }"
  | State b => "State { routing_active: " +:+ (if b then "true" else "false") +:+ " }"
  | Error_ _ => "Error"
  end.

Section Client.
Context `{Bincode}.

(** [handshake]: the new stream and the session. *)
Definition handshake (version : Z) (a : Attempt) : result Error (string * Z) :=
  let x := at_exchange a in
  _ ← at_connect a;
  _ ← xc_setup x;
  _ ← write_frame (xc_sent x) (Handshake version);
  let '(reply, rest) := read_response (xc_error x) (xc_arrived x) in
  reply ← reply;
  match reply with
  | HandshakeOk _ session_id => Ok (rest, session_id)
  | Error_ message => bail ("netd rejected handshake: " +:+ message)
  | other => bail ("unexpected handshake reply: " +:+ debug_response other)
  end.

(** The loop of [reconnect]; [attempts] are the outcomes in order, of which it
    makes three at most. *)
Fixpoint reconnect_loop (version : Z) (attempt : nat) (attempts : list Attempt) : result Error (string * Z) :=
  match attempts with
  | [] => Err ["reconnect + handshake failed"]
  | a :: attempts =>
    match handshake version a with
    | Ok r => Ok r
    | Err e => if (3 <=? S attempt)%nat then Err ("reconnect + handshake failed" :: e)%stdpp
               else reconnect_loop version (S attempt) attempts
    end
  end.

Definition reconnect (version : Z) (attempts : list Attempt) (c : ClientInner)
  : result Error () * ClientInner :=
  match reconnect_loop version 0 attempts with
  | Err e => (Err e, c)
  | Ok (stream, session_id) =>
    (Ok (), {| ci_stream := Some stream; ci_session_id := session_id; ci_sequence := ci_sequence c |})
  end.

(** [NetdClient::new]. *)
Definition client_new (version : Z) (attempts : list Attempt) : result Error ClientInner :=
  match reconnect version attempts {| ci_stream := None; ci_session_id := 0; ci_sequence := 0 |} with
  | (Ok _, c) => Ok c
  | (Err e, _) => Err e
  end.

Definition with_stream (c : ClientInner) (stream : string) : ClientInner :=
  {| ci_stream := Some stream; ci_session_id := ci_session_id c; ci_sequence := ci_sequence c |}.

(** What the exchange adds to the unread bytes, once the request is written. *)
Definition send_locked (x : Exchange) (request : NetdRequest) (c : ClientInner)
  : result Error NetdResponse * ClientInner :=
  match ci_stream c with
  | None => (bail "netd connection is closed", c)
  | Some unread =>
    match xc_setup x with
    | Err e => (Err e, with_stream c (unread +:+ xc_arrived x))
    | Ok _ =>
      match context "send request" (write_frame (xc_sent x) request) with
      | Err e => (Err e, with_stream c (unread +:+ xc_arrived x))
      | Ok _ =>
        let '(reply, rest) := read_response (xc_error x) (unread +:+ xc_arrived x) in
        (context "read response" reply, with_stream c rest)
      end
    end
  end.

(** The request of [enable_routing]. *)
Definition enable_request (session_id : Z) (spec : RoutingSpec) : NetdRequest :=
  EnableRouting session_id (rs_tproxy_port spec) (rs_fwmark spec) (rs_table_id spec)
    (rs_dns_ipv4 spec) (rs_bypass_subnets spec) (rs_bypass_subnets_v6 spec) (rs_core_uid spec).

Definition client_enable_routing (x : Exchange) (spec : RoutingSpec) (c : ClientInner)
  : result Error () * ClientInner :=
  let '(reply, c) := send_locked x (enable_request (ci_session_id c) spec) c in
  (match reply with
   | Ok RoutingEnabled => Ok ()
   | Ok (Error_ message) => bail ("netd: " +:+ message)
   | Ok other => bail ("unexpected netd reply to EnableRouting: " +:+ debug_response other)
   | Err e => Err ("netd enable_routing" :: e)%stdpp
   end, c).

Definition client_disable_routing (x : Exchange) (c : ClientInner) : result Error () * ClientInner :=
  let '(reply, c) := send_locked x (DisableRouting (ci_session_id c)) c in
  (match reply with
   | Ok RoutingDisabled => Ok ()
   | Ok (Error_ message) => bail ("netd: " +:+ message)
   | Ok other => bail ("unexpected netd reply to DisableRouting: " +:+ debug_response other)
   | Err e => Err ("netd disable_routing" :: e)%stdpp
   end, c).

Definition client_heartbeat (x : Exchange) (c : ClientInner) : result Error Z * ClientInner :=
  let sequence := ci_sequence c in
  let counted := wrapping_add 64 (ci_sequence c) 1 in
  let '(reply, c) := send_locked x (Heartbeat (ci_session_id c) sequence) c in
  let c := if is_ok reply
           then {| ci_stream := ci_stream c; ci_session_id := ci_session_id c; ci_sequence := counted |}
           else c in
  (match reply with
   | Ok (HeartbeatAck acked) => Ok acked
   | Ok (Error_ message) => bail ("netd: " +:+ message)
   | Ok other => bail ("unexpected netd reply to Heartbeat: " +:+ debug_response other)
   | Err e => Err ("netd heartbeat" :: e)%stdpp
   end, c).

(** One turn of the heartbeat thread. *)
Definition heartbeat_turn (version : Z) (x : Exchange) (attempts : list Attempt) (c : ClientInner)
  : ClientInner :=
  let '(r, c) := client_heartbeat x c in
  if is_ok r then c else (reconnect version attempts c).2.
End Client.

(** ** Frames round trip *)

Lemma to_be_bytes_length z : String.length (to_be_bytes z) = 4%nat.
Proof. done. Qed.

Lemma from_to_be_bytes z : 0 ≤ z ≤ U32_MAX → from_be_bytes (to_be_bytes z) = z.
Proof.
  intros Hz. unfold from_be_bytes, to_be_bytes. cbn [bytes foldl].
  rewrite !byte_of_char_of by (apply Z.mod_pos_bound; lia). Z.div_mod_to_equations; lia.
Qed.

Lemma substring_app_l s t : String.substring 0 (String.length s) (s +:+ t) = s.
Proof. induction s as [|a s IH]; [by destruct t|]. rewrite append_String. simpl. by rewrite IH. Qed.

Lemma substring_all s : String.substring 0 (String.length s) s = s.
Proof. induction s as [|a s IH]; [done|]. simpl. by rewrite IH. Qed.

Lemma substring_app_r s t : String.substring (String.length s) (String.length t) (s +:+ t) = t.
Proof.
  induction s as [|a s IH]; [apply substring_all|]. rewrite append_String. simpl. exact IH.
Qed.

Lemma read_bytes_app error s t : frame_read_exact (String.length s) error (s +:+ t) = (Ok s, t).
Proof.
  unfold frame_read_exact. rewrite append_length.
  rewrite (proj2 (Nat.ltb_ge _ _)) by lia. rewrite substring_app_l.
  replace (String.length s + String.length t - String.length s)%nat with (String.length t) by lia.
  by rewrite substring_app_r.
Qed.

Lemma read_exact_short n error s :
  (String.length s < n)%nat → frame_read_exact n error s = (Err [error], EmptyString).
Proof. intros Hl. unfold frame_read_exact. by rewrite (proj2 (Nat.ltb_lt _ _)). Qed.

(** A payload that fits a frame. *)
Definition fits (payload : string) : Prop := 1 ≤ str_len payload ≤ MAX_FRAME_BYTES.

Section RoundTrip.
Context `{BincodeLaws}.

Lemma read_response_frame error payload rest :
  fits payload →
  read_response error (frame_of payload +:+ rest) =
    (context "invalid netd response payload" (deserialize_response payload), rest).
Proof.
  unfold fits, MAX_FRAME_BYTES. intros Hp. unfold read_response, frame_of. rewrite string_app_assoc.
  rewrite <-(to_be_bytes_length (str_len payload)), read_bytes_app, from_to_be_bytes by lia.
  rewrite (proj2 (Z.eqb_neq _ _)) by lia.
  rewrite (proj2 (Z.ltb_ge MAX_FRAME_BYTES _)) by (unfold MAX_FRAME_BYTES; lia). cbn.
  unfold str_len. rewrite Nat2Z.id, read_bytes_app. done.
Qed.

(** A response whose encoding fits a frame, as the daemon sends it. *)
Definition sends (response : NetdResponse) (wire : string) : Prop :=
  ∃ payload, serialize_response response = Ok payload ∧ fits payload ∧ wire = frame_of payload.

Lemma read_response_sent error response wire rest :
  sends response wire → read_response error (wire +:+ rest) = (Ok response, rest).
Proof.
  intros (payload & Es & Hf & ->). rewrite read_response_frame by done.
  by rewrite (response_decodes _ _ Es).
Qed.

(** The frame a peer decodes: a big-endian length, then that many bytes. *)
Definition unframe (input : string) : option (string * string) :=
  match frame_read_exact 4 "" input with
  | (Ok prefix, rest) =>
    if MAX_FRAME_BYTES <? from_be_bytes prefix then None
    else match frame_read_exact (Z.to_nat (from_be_bytes prefix)) "" rest with
         | (Ok payload, rest) => Some (payload, rest)
         | _ => None
         end
  | _ => None
  end.

Lemma unframe_frame payload rest :
  str_len payload ≤ MAX_FRAME_BYTES → unframe (frame_of payload +:+ rest) = Some (payload, rest).
Proof.
  unfold unframe, frame_of, MAX_FRAME_BYTES. intros Hl. rewrite string_app_assoc.
  rewrite <-(to_be_bytes_length (str_len payload)), read_bytes_app, from_to_be_bytes by (unfold str_len in *; lia).
  rewrite (proj2 (Z.ltb_ge _ _)) by lia. unfold str_len. by rewrite Nat2Z.id, read_bytes_app.
Qed.

(** Reading as many responses as there are frames. *)
Fixpoint read_responses (n : nat) (error : string) (input : string) : list (result Error NetdResponse) * string :=
  match n with
  | O => ([], input)
  | S n =>
    let '(r, rest) := read_response error input in
    let '(rs, rest) := read_responses n error rest in (r :: rs, rest)
  end.

(** C39. Frames round trip in both directions.  What the client writes is one
    frame, which the daemon's codec splits off whatever follows it and decodes to
    the request; a request too large for a frame is refused and nothing is
    written.  The responses of the daemon, however many were written before the
    client reads, are read back one by one, in order, and leave what follows
    them; a length that is zero or too large is refused. *)
Theorem frames_roundtrip :
  (∀ request sent wire, write_frame sent request = Ok wire →
     ∀ rest, ∃ payload, unframe (wire +:+ rest) = Some (payload, rest) ∧
                        deserialize_request payload = Ok request) ∧
  (∀ request payload sent, serialize_request request = Ok payload → MAX_FRAME_BYTES < str_len payload →
     is_ok (write_frame sent request) = false) ∧
  (∀ n error rest, 0 ≤ n ≤ U32_MAX → n = 0 ∨ MAX_FRAME_BYTES < n →
     is_ok (read_response error (to_be_bytes n +:+ rest)).1 = false) ∧
  (∀ responses wires error rest, Forall2 sends responses wires →
     read_responses (length responses) error (foldr String.append rest wires) = (map Ok responses, rest)).
Proof.
  split_and!.
  - intros request sent wire Hw rest. unfold write_frame in Hw. bind_inv Hw as payload Es.
    destruct (MAX_FRAME_BYTES <? str_len payload) eqn:El; [done|]. apply Z.ltb_ge in El.
    destruct sent as [[]|]; [|done]. injection Hw as <-. exists payload.
    split; [by apply unframe_frame|by apply request_decodes].
  - intros request payload sent Es Hl. unfold write_frame. rewrite Es. cbn.
    by rewrite (proj2 (Z.ltb_lt _ _)).
  - intros n error rest Hn Hz. unfold read_response.
    rewrite <-(to_be_bytes_length n), read_bytes_app, from_to_be_bytes by done.
    destruct (Z.eqb_spec n 0) as [|Hn0]; [done|]. by rewrite (proj2 (Z.ltb_lt _ _)) by lia.
  - intros responses wires error rest Hf. induction Hf as [|r w rs ws Hr _ IH]; [done|]. cbn [length foldr read_responses].
    by rewrite (read_response_sent error r w _ Hr), IH.
Qed.
End RoundTrip.

(** ** The client and the daemon *)

Section Conversation.
Context `{BincodeLaws} `{IpNet} {K : Type} `{RoutingBackend K}.

(** An exchange in which the request arrives and the daemon's answer comes back in
    time. *)
Definition answered (x : Exchange) (answer : result Error NetdResponse) : Prop :=
  xc_setup x = Ok () ∧ xc_sent x = Ok () ∧ sends (response_of answer) (xc_arrived x).

(** A client in step with the daemon: it is connected and has read everything. *)
Definition in_step (sid : Z) (c : ClientInner) : Prop :=
  ci_stream c = Some EmptyString ∧ ci_session_id c = sid.

(** A request that fits a frame. *)
Definition sendable (request : NetdRequest) : Prop :=
  ∃ payload, serialize_request request = Ok payload ∧ str_len payload ≤ MAX_FRAME_BYTES.

Lemma send_locked_answered x request answer c :
  answered x answer → ci_stream c = Some EmptyString → sendable request →
  send_locked x request c = (Ok (response_of answer), with_stream c EmptyString).
Proof.
  intros (Es & Ew & Ha) Hc (payload & Ep & Hl). unfold send_locked, write_frame.
  rewrite Hc, Es, Ew, Ep. cbn. rewrite (proj2 (Z.ltb_ge MAX_FRAME_BYTES _)) by done. cbn [context map_err].
  rewrite append_nil_l, <-(append_empty_r (xc_arrived x)).
  by rewrite (read_response_sent _ _ _ _ Ha).
Qed.

Lemma with_stream_step c : ci_stream c = Some EmptyString → with_stream c EmptyString = c.
Proof. destruct c. cbn. by intros ->. Qed.

Lemma client_enable_answered (now later sid : Z) (c : ClientInner) (spec : RoutingSpec) (x : Exchange)
    (app : AppState K) :
  in_step sid c →
  let request := enable_request sid spec in
  let '(answer, app') := process_request now later request sid app in
  sendable request → answered x answer →
  let '(r, c') := client_enable_routing x spec c in
  c' = c ∧ is_ok r = is_ok answer ∧
  (is_ok r = true → ds_routing_active (app_state app') = true ∧ ds_active_session (app_state app') = Some sid).
Proof.
  intros [Hc Hi]. pose proof (with_stream_step c Hc) as Ec. cbv zeta.
  pose proof (process_request_cases now later sid (enable_request sid spec) app) as Hp.
  destruct (process_request _ _ _ _ _) as [answer app'] eqn:Er. destruct Hp as [_ Hp]. intros Hs Ha.
  unfold client_enable_routing. rewrite Hi, (send_locked_answered _ _ _ _ Ha Hc Hs), Ec.
  destruct answer as [[]|e]; cbn; try done; [|by destruct Hp|by destruct Hp as [? _]].
  destruct Hp as (config & _ & _ & _ & ->). done.
Qed.

Lemma client_disable_answered (now later sid : Z) (c : ClientInner) (x : Exchange) (app : AppState K) :
  in_step sid c →
  let '(answer, app') := process_request now later (DisableRouting sid) sid app in
  sendable (DisableRouting sid) → answered x answer →
  let '(r, c') := client_disable_routing x c in
  c' = c ∧ is_ok r = is_ok answer ∧
  (is_ok r = true → ds_routing_active (app_state app') = false).
Proof.
  intros [Hc Hi]. pose proof (with_stream_step c Hc) as Ec.
  pose proof (process_request_cases now later sid (DisableRouting sid) app) as Hp.
  destruct (process_request _ _ _ _ _) as [answer app'] eqn:Er. destruct Hp as [_ Hp]. intros Hs Ha.
  unfold client_disable_routing. rewrite Hi, (send_locked_answered _ _ _ _ Ha Hc Hs), Ec.
  destruct answer as [[]|e]; cbn; try done; [by destruct Hp as (config & E & _)| |by destruct Hp as [? _]].
  destruct Hp as (_ & _ & ->). done.
Qed.

Lemma client_heartbeat_answered (now later sid : Z) (c : ClientInner) (x : Exchange) (app : AppState K) :
  in_step sid c →
  let request := Heartbeat sid (ci_sequence c) in
  let '(answer, app') := process_request now later request sid app in
  sendable request → answered x answer →
  let '(r, c') := client_heartbeat x c in
  in_step sid c' ∧ ci_sequence c' = wrapping_add 64 (ci_sequence c) 1 ∧
  (is_ok r = true ↔ ds_routing_active (app_state app) = true ∧ ds_active_session (app_state app) = Some sid) ∧
  (∀ n, r = Ok n → n = ci_sequence c).
Proof.
  intros [Hc Hi]. pose proof (with_stream_step c Hc) as Ec. cbv zeta.
  pose proof (heartbeat_cases now sid (app_state app)) as Hh. cbn [process_request].
  rewrite require_controller_cases, Z.eqb_refl.
  destruct (heartbeat now sid (app_state app)) as [answer d]. intros Hs Ha.
  unfold client_heartbeat. rewrite Hi, (send_locked_answered _ _ _ _ Ha Hc Hs), Ec.
  destruct Hh as [(E & Hr & Ho)|[[e E] Hn]]; injection E as -> ->; cbn; split_and!; try done; naive_solver.
Qed.

(** C40. A client in step with the daemon learns what the daemon did, and stays in
    step, as long as its request is carried and the answer to it comes back whole and
    within the timeout (an answer that comes later puts them out of step,
    [late_answer_shifts]): its enabling succeeds exactly when the daemon enabled what the
    specification says, its disabling exactly when the daemon rolled back, and its
    heartbeat exactly when its session owns active routing, in which case it is
    the sequence it sent that is acknowledged; the sequence advances modulo 2^64 at
    every answer. *)
Theorem client_and_daemon (now later sid : Z) (c : ClientInner) (spec : RoutingSpec) (x : Exchange)
    (app : AppState K) :
  in_step sid c →
  (let request := enable_request sid spec in
   let '(answer, app') := process_request now later request sid app in
   sendable request → answered x answer →
   let '(r, c') := client_enable_routing x spec c in
   c' = c ∧ is_ok r = is_ok answer ∧
   (is_ok r = true → ds_routing_active (app_state app') = true ∧ ds_active_session (app_state app') = Some sid)) ∧
  (let '(answer, app') := process_request now later (DisableRouting sid) sid app in
   sendable (DisableRouting sid) → answered x answer →
   let '(r, c') := client_disable_routing x c in
   c' = c ∧ is_ok r = is_ok answer ∧
   (is_ok r = true → ds_routing_active (app_state app') = false)) ∧
  (let request := Heartbeat sid (ci_sequence c) in
   let '(answer, app') := process_request now later request sid app in
   sendable request → answered x answer →
   let '(r, c') := client_heartbeat x c in
   in_step sid c' ∧ ci_sequence c' = wrapping_add 64 (ci_sequence c) 1 ∧
   (is_ok r = true ↔ ds_routing_active (app_state app) = true ∧ ds_active_session (app_state app) = Some sid) ∧
   (∀ n, r = Ok n → n = ci_sequence c)).
Proof.
  intros Hc. split_and!; [by apply client_enable_answered|by apply client_disable_answered
                         |by apply client_heartbeat_answered].
Qed.

(** An owner that keeps beating. *)
Inductive Event := Beat (at_ : Z) (x : Exchange) | Tick (at_ : Z).

(** What a heartbeat at some time does, and what the daemon answers to it. *)
Definition beat (t : Z) (c : ClientInner) (app : AppState K) : result Error NetdResponse * AppState K :=
  process_request t t (Heartbeat (ci_session_id c) (ci_sequence c)) (ci_session_id c) app.

Fixpoint converse (events : list Event) (c : ClientInner) (app : AppState K)
  : list (result Error Z) * ClientInner * AppState K :=
  match events with
  | [] => ([], c, app)
  | Tick t :: events => converse events c (watchdog_tick t app)
  | Beat t x :: events =>
    let '(acks, c', app') := converse events (client_heartbeat x c).2 (beat t c app).2 in
    ((client_heartbeat x c).1 :: acks, c', app')
  end.

(** Every turn of the watchdog comes within the timeout of the last heartbeat. *)
Fixpoint paced (last : Z) (events : list Event) : Prop :=
  match events with
  | [] => True
  | Tick t :: events => t ≤ last + WATCHDOG_TIMEOUT_SECS * 1000 ∧ paced last events
  | Beat t _ :: events => paced t events
  end.
(** Every heartbeat is carried and answered in time. *)
Fixpoint carried (events : list Event) (c : ClientInner) (app : AppState K) : Prop :=
  match events with
  | [] => True
  | Tick t :: events => carried events c (watchdog_tick t app)
  | Beat t x :: events =>
    sendable (Heartbeat (ci_session_id c) (ci_sequence c)) ∧ answered x (beat t c app).1 ∧
    carried events (client_heartbeat x c).2 (beat t c app).2
  end.

Definition beats (events : list Event) : nat :=
  length (List.filter (λ e, match e with Beat _ _ => true | Tick _ => false end) events).
(** The sequences that follow [n]. *)
Fixpoint sequences (n : Z) (count : nat) : list (result Error Z) :=
  match count with O => [] | S count => Ok n :: sequences (wrapping_add 64 n 1) count end.

Lemma converse_attended events c app sid last :
  in_step sid c → ds_active_session (app_state app) = Some sid → ds_routing_active (app_state app) = true →
  ds_last_heartbeat (app_state app) = last → paced last events → carried events c app →
  let '(acks, c', app') := converse events c app in
  acks = sequences (ci_sequence c) (beats events) ∧ in_step sid c' ∧
  app_kernel app' = app_kernel app ∧ ds_routing_active (app_state app') = true ∧
  ds_active_session (app_state app') = Some sid ∧
  ds_routing_config (app_state app') = ds_routing_config (app_state app).
Proof.
  revert c app last. induction events as [|[t x|t] events IH]; intros c app last [Hc Hi] Ho Ha Hl Hp Hd; simpl.
  - done.
  - destruct Hd as (Hs & Hx & Hd). cbn [paced] in Hp.
    unfold beat in *. cbn [process_request] in *. rewrite require_controller_cases, Z.eqb_refl in *.
    rewrite Hi in *. destruct (heartbeat_cases t sid (app_state app)) as [(E & _ & _)|[_ Hn]]; [|by destruct Hn].
    rewrite E in *. cbn [fst snd] in *.
    assert (client_heartbeat x c = (Ok (ci_sequence c),
      {| ci_stream := ci_stream c; ci_session_id := ci_session_id c; ci_sequence := wrapping_add 64 (ci_sequence c) 1 |}))
      as Ec.
    { unfold client_heartbeat. rewrite Hi, (send_locked_answered _ _ _ _ Hx Hc Hs), with_stream_step by done.
      cbn. by rewrite Hi. }
    rewrite Ec in *. cbn [fst snd] in *.
    match type of Hd with carried _ ?c1 ?a1 => specialize (IH c1 a1 t (conj Hc Hi) Ho Ha eq_refl Hp Hd) end.
    destruct (converse events _ _) as [[acks c'] app']. destruct IH as (-> & ? & ? & ? & ? & ?).
    cbn [beats List.filter length sequences ci_sequence]. done.
  - destruct Hp as [Ht Hp].
    assert (watchdog_tick t app = app) as Et.
    { unfold watchdog_tick, expired. rewrite Ha, Hl. cbn.
      by rewrite (proj2 (Z.ltb_ge _ _)) by (unfold saturating_sub, WATCHDOG_TIMEOUT_SECS in *; lia). }
    cbn [carried] in Hd. rewrite Et in *. by apply (IH c app last).
Qed.

(** A client that has enabled routing and whose heartbeats are carried and
    answered keeps it: as long as no turn of the watchdog comes more than the
    timeout after the last heartbeat, every heartbeat is acknowledged with its own
    sequence, counted from the client's modulo 2^64, and routing stays as it was,
    with the same configuration, the same owner and nothing done to the machine. *)
Lemma attended_routing_stays (events : list Event) (c : ClientInner) (app : AppState K) (sid : Z) :
  in_step sid c → ds_active_session (app_state app) = Some sid → ds_routing_active (app_state app) = true →
  paced (ds_last_heartbeat (app_state app)) events → carried events c app →
  let '(acks, c', app') := converse events c app in
  acks = sequences (ci_sequence c) (beats events) ∧ in_step sid c' ∧
  app_kernel app' = app_kernel app ∧ ds_routing_active (app_state app') = true ∧
  ds_active_session (app_state app') = Some sid ∧
  ds_routing_config (app_state app') = ds_routing_config (app_state app).
Proof. intros Hc Ho Ha. by apply converse_attended. Qed.

(** An answer that comes after its deadline stays unread, and every request after
    it is answered by the one before. *)
Lemma late_answer_shifts request x c late answer wire :
  ci_stream c = Some late → sends answer late → sendable request →
  xc_setup x = Ok () → xc_sent x = Ok () → xc_arrived x = wire →
  send_locked x request c = (Ok answer, with_stream c wire).
Proof.
  intros Hc Ha (payload & Ep & Hl) Hs Hw <-. unfold send_locked, write_frame. rewrite Hc, Hs, Hw, Ep. cbn.
  rewrite (proj2 (Z.ltb_ge MAX_FRAME_BYTES _)) by done. cbn [context map_err].
  by rewrite (read_response_sent _ _ _ _ Ha).
Qed.
End Conversation.

(** ** Reconnection *)

Section Reconnection.
Context `{Bincode}.

Lemma reconnect_loop_three version a1 a2 a3 more :
  reconnect_loop version 0 (a1 :: a2 :: a3 :: more) =
    match handshake version a1 with
    | Ok r => Ok r
    | Err _ =>
      match handshake version a2 with
      | Ok r => Ok r
      | Err _ => context "reconnect + handshake failed" (handshake version a3)
      end
    end.
Proof.
  cbn. destruct (handshake version a1); [done|]. destruct (handshake version a2); [done|].
  by destruct (handshake version a3).
Qed.

(** Reconnecting makes three attempts at most: it takes the stream and the
    session of the first of them whose handshake is accepted, keeping the sequence
    of heartbeats, and when all three fail it reports the last failure and leaves
    the client as it was. *)
Lemma reconnect_spec (version : Z) (a1 a2 a3 : Attempt) (more : list Attempt) (c : ClientInner) :
  let '(r, c') := reconnect version (a1 :: a2 :: a3 :: more) c in
  let refused a := is_ok (handshake version a) = false in
  let adopted a := ∃ stream sid, handshake version a = Ok (stream, sid) ∧
    c' = {| ci_stream := Some stream; ci_session_id := sid; ci_sequence := ci_sequence c |} in
  match r with
  | Ok _ => adopted a1 ∨ refused a1 ∧ (adopted a2 ∨ refused a2 ∧ adopted a3)
  | Err e => refused a1 ∧ refused a2 ∧ c' = c ∧
             ∃ cause, handshake version a3 = Err cause ∧ e = ("reconnect + handshake failed" :: cause)%stdpp
  end.
Proof.
  unfold reconnect. rewrite reconnect_loop_three.
  destruct (handshake version a1) as [[s1 i1]|e1]; [left; eauto|].
  destruct (handshake version a2) as [[s2 i2]|e2]; [right; split; [done|]; left; eauto|].
  destruct (handshake version a3) as [[s3 i3]|e3]; cbn; [|eauto 10].
  right. split; [done|]. right. split; [done|]. eauto.
Qed.
End Reconnection.

(** ** The controller, the client and the daemon *)

Section Composition.
Context `{AdapterLib} `{CoreLib} `{ControllerLib} `{BincodeLaws} `{IpNet} `{RefusesDuplicates}.
#[local] Existing Instance NftablesBackend.

(** The controller's switch, its client and the daemon over nftables do not
    compose: when the daemon's machine refuses a rule that is already there, a
    switch of node that follows a successful one, with every message carried and
    answered in time and the same settings, fails at the daemon, and what the
    first switch had enabled is left without an owner. *)
Lemma second_switch_fails (t1 t1' t2 t2' now1 now2 sid : Z) (n1 n2 : CanonicalNode) (a1 a2 : bool)
    (ctl : Controller) (cl : ClientInner) (x1 x2 : Exchange) (io1 io2 : SwitchIo)
    (app : AppState (list Command)) :
  let spec := routing_spec (ct_settings ctl) in
  let request := enable_request sid spec in
  let first := process_request t1 t1' request sid app in
  let second := process_request t2 t2' request sid first.2 in
  is_Some (ct_netd ctl) → in_step sid cl → sendable request →
  answered x1 first.1 → answered x2 second.1 →
  si_netd io1 = (client_enable_routing x1 spec cl).1 →
  si_netd io2 = (client_enable_routing x2 spec (client_enable_routing x1 spec cl).2).1 →
  let switch1 := switch_node io1 now1 ctl n1 a1 in
  is_ok switch1.1 = true →
  is_ok (switch_node io2 now2 switch1.2 n2 a2).1 = false ∧
  ds_routing_active (app_state second.2) = true ∧ ds_active_session (app_state second.2) = None.
Proof.
  cbv zeta. set (spec := routing_spec (ct_settings ctl)). intros Hn Hc Hs Hx1 Hx2 Hi1 Hi2 Hw1.
  pose proof (client_enable_answered t1 t1' sid cl spec x1 app Hc) as He1. cbv zeta in He1.
  pose proof (reenable_cases t1 t1' t2 t2' sid 0 (enable_request sid spec) app) as Hr. cbv zeta in Hr.
  pose proof (process_request_cases t1 t1' sid (enable_request sid spec) app) as Hp.
  destruct (process_request t1 t1' (enable_request sid spec) sid app) as [r1 app1]. cbn [fst snd] in *.
  specialize (He1 Hs Hx1). destruct (client_enable_routing x1 spec cl) as [c1 cl1]. cbn [fst snd] in *.
  destruct He1 as (-> & E1 & _).
  pose proof (switch_node_cases io1 now1 ctl n1 a1) as Hsw.
  destruct (switch_node io1 now1 ctl n1 a1) as [w1 ctl1]. cbn [fst snd] in *.
  destruct Hsw as (_ & Est & Hw). destruct w1; [|done]. destruct Hw as (_ & _ & Hk & Ect).
  specialize (Hk Hn). rewrite Hi1 in Hk. rewrite Hk in E1. cbn in E1.
  assert (r1 = Ok RoutingEnabled) as ->.
  { destruct Hp as [_ Hp]. destruct r1 as [[]|]; try done; by destruct Hp as [? _]. }
  destruct (Hr eq_refl) as (Hf & Ha & Ho & _). split; [|done].
  pose proof (client_enable_answered t2 t2' sid cl spec x2 app1 Hc) as He2. cbv zeta in He2.
  destruct (process_request t2 t2' (enable_request sid spec) sid app1) as [r2 app2]. cbn [fst snd] in *.
  specialize (He2 Hs Hx2). destruct (client_enable_routing x2 spec cl) as [c2 cl2]. cbn [fst snd] in *.
  destruct He2 as (_ & E2 & _). rewrite Hf in E2.
  pose proof (switch_node_cases io2 now2 ctl1 n2 a2) as Hsw.
  destruct (switch_node io2 now2 ctl1 n2 a2) as [w2 ctl2]. cbn [fst snd] in *.
  destruct Hsw as (_ & _ & Hw2). destruct w2; [|done]. destruct Hw2 as (_ & _ & Hk2 & _).
  rewrite Hi2 in Hk2. rewrite Hk2 in E2; [done|]. rewrite Ect. destruct Hn as [calls ->]. by eexists.
Qed.
End Composition.

(** ** Witnesses *)

(** An encoding of the messages: their number among all messages, in binary. *)
Fixpoint bits_of (p : positive) : string :=
  match p with
  | xH => "."
  | xO p => String "0" (bits_of p)
  | xI p => String "1" (bits_of p)
  end.
Fixpoint of_bits (s : string) : option positive :=
  match s with
  | EmptyString => None
  | String c s =>
    if Ascii.eqb c "."%char then Some 1%positive
    else (if Ascii.eqb c "0"%char then xO else xI) <$> of_bits s
  end.
Lemma of_bits_of p : of_bits (bits_of p) = Some p.
Proof. induction p as [p IH|p IH|]; simpl; rewrite ?IH; done. Qed.

#[local] Instance IpAddr_dec : EqDecision IpAddr.
Proof. solve_decision. Defined.
#[local] Instance NetdRequest_dec : EqDecision NetdRequest.
Proof. solve_decision. Defined.
#[local] Instance NetdResponse_dec : EqDecision NetdResponse.
Proof. solve_decision. Defined.

#[local] Instance IpAddr_countable : Countable IpAddr.
Proof.
  apply (inj_countable' (λ ip, match ip with V4 a b c d => inl (a, b, c, d) | V6 l => inr l end)
    (λ s, match s with inl (a, b, c, d) => V4 a b c d | inr l => V6 l end)).
  by intros [].
Defined.
#[local] Instance NetdRequest_countable : Countable NetdRequest.
Proof.
  apply (inj_countable' (λ r, match r with
      | Handshake v => inl (inl v)
      | EnableRouting s p m t d b b6 u => inl (inr (s, p, m, t, d, b, b6, u))
      | DisableRouting s => inr (inl s)
      | Heartbeat s n => inr (inr (s, n))
      end)
    (λ s, match s with
      | inl (inl v) => Handshake v
      | inl (inr (s, p, m, t, d, b, b6, u)) => EnableRouting s p m t d b b6 u
      | inr (inl s) => DisableRouting s
      | inr (inr (s, n)) => Heartbeat s n
      end)).
  by intros [].
Defined.
#[local] Instance NetdResponse_countable : Countable NetdResponse.
Proof.
  apply (inj_countable' (λ r, match r with
      | HandshakeOk v s => inl (inl (v, s))
      | RoutingEnabled => inl (inr true)
      | RoutingDisabled => inl (inr false)
      | HeartbeatAck n => inr (inl n)
      | State b => inr (inr (inl b))
      | Error_ m => inr (inr (inr m))
      end)
    (λ s, match s with
      | inl (inl (v, s)) => HandshakeOk v s
      | inl (inr true) => RoutingEnabled
      | inl (inr false) => RoutingDisabled
      | inr (inl n) => HeartbeatAck n
      | inr (inr (inl b)) => State b
      | inr (inr (inr m)) => Error_ m
      end)).
  by intros [].
Defined.

Definition unbits {A} `{Countable A} (s : string) : result Error A :=
  ok_or (p ← of_bits s; decode p) ["malformed"]%stdpp.
Definition sample_bincode : Bincode :=
  {| serialize_request := λ r, Ok (bits_of (encode r)); deserialize_request := unbits;
     serialize_response := λ r, Ok (bits_of (encode r)); deserialize_response := unbits |}.
#[local] Existing Instance sample_bincode.

Lemma unbits_encode {A} `{Countable A} (a : A) : unbits (bits_of (encode a)) = Ok a.
Proof. unfold unbits. rewrite of_bits_of. simpl. by rewrite decode_encode. Qed.

#[local] Instance sample_bincode_laws : BincodeLaws.
Proof. split; intros r s [= <-]; apply unbits_encode. Qed.

#[local] Existing Instances text_net Switched.

(** The exchange in which an answer comes back in time. *)
Definition timely (answer : result Error NetdResponse) : Exchange :=
  {| xc_setup := Ok (); xc_sent := Ok ();
     xc_arrived := frame_of (bits_of (encode (response_of answer))); xc_error := "timed out" |}.
Definition fits_b (s : string) : bool := in_range 1 MAX_FRAME_BYTES (str_len s).

Lemma timely_answered answer :
  fits_b (bits_of (encode (response_of answer))) = true → answered (timely answer) answer.
Proof.
  unfold fits_b, in_range. intros Hf. split_and!; [done|done|]. eexists. split_and!; [done| |done].
  unfold fits. lia.
Qed.

Lemma sendable_b request :
  fits_b (bits_of (encode request)) = true → sendable request.
Proof. unfold fits_b, in_range. intros Hf. eexists. split; [done|]. lia. Qed.

Definition connected (sid : Z) : ClientInner :=
  {| ci_stream := Some EmptyString; ci_session_id := sid; ci_sequence := U64_MAX |}.
Definition owned : AppState bool :=
  {| app_state := {| ds_active_session := Some 1; ds_routing_active := true; ds_last_heartbeat := 0;
                     ds_routing_config := Some sample_config |}; app_kernel := true |}.
Definition two_beats : list Event :=
  [Tick 3000; Beat 4000 (timely (Ok (HeartbeatAck U64_MAX))); Tick 9000;
   Beat 9000 (timely (Ok (HeartbeatAck 0))); Tick 14000].

(** The sequence wraps around. *)
Lemma attended_routing_stays_witness :
  (converse two_beats (connected 1) owned).1.1 = [Ok U64_MAX; Ok 0].
Proof.
  pose proof (attended_routing_stays two_beats (connected 1) owned 1) as Hw.
  destruct (converse two_beats (connected 1) owned) as [[acks c'] app'].
  destruct Hw as [-> _]; [done|done|done| | |vm_compute; reflexivity].
  - vm_compute. repeat split; discriminate.
  - cbn [carried two_beats].
    split_and!; [apply sendable_b|apply (timely_answered (Ok (HeartbeatAck U64_MAX)))
                |apply sendable_b|apply (timely_answered (Ok (HeartbeatAck 0)))|exact I]; vm_compute; reflexivity.
Defined.

Lemma frames_roundtrip_witness :
  read_responses 2 "" (frame_of (bits_of (encode RoutingEnabled)) +:+
                       (frame_of (bits_of (encode (HeartbeatAck 7))) +:+ "next")) =
    ([Ok RoutingEnabled; Ok (HeartbeatAck 7)], "next").
Proof.
  destruct frames_roundtrip as (_ & _ & _ & Hr).
  apply (Hr [RoutingEnabled; HeartbeatAck 7]
    [frame_of (bits_of (encode RoutingEnabled)); frame_of (bits_of (encode (HeartbeatAck 7)))] "" "next").
  repeat constructor; eexists; (split; [reflexivity|split; [|reflexivity]]); vm_compute; split; discriminate.
Defined.

Lemma client_and_daemon_witness :
  is_ok (client_disable_routing (timely (Ok RoutingDisabled)) (connected 1)).1 = true.
Proof.
  destruct (client_and_daemon 0 0 1 (connected 1) (routing_spec (ProxySettings_default None))
    (timely (Ok RoutingDisabled)) owned (conj eq_refl eq_refl)) as (_ & Hd & _).
  change (process_request 0 0 (DisableRouting 1) 1 owned) with
    (Ok RoutingDisabled : result Error NetdResponse, with_state {| app_state := app_state owned; app_kernel := false |}
       (commit_rollback (app_state owned))) in Hd.
  cbv beta iota in Hd.
  assert (sendable (DisableRouting 1)) as Hs by (apply sendable_b; vm_compute; reflexivity).
  specialize (Hd Hs (timely_answered (Ok RoutingDisabled) ltac:(vm_compute; reflexivity))).
  destruct (client_disable_routing _ _) as [r c']. destruct Hd as (_ & Hr & _). exact Hr.
Defined.

Section SecondSwitch.
#[local] Existing Instances kernel_machine NftablesBackend Adapter.sample_printer.
#[local] Instance core_accepts : CoreLib :=
  {| core_binary := "sing-box"; core_config_path := "config.json"; core_check _ := Ok () |}.
#[local] Instance prints : ControllerLib := {| to_vec_pretty _ := Ok "config"%stdpp |}.

Definition attached : Controller :=
  controller_open Db_empty None true (ProxySettings_default None).
Definition spec0 : RoutingSpec := routing_spec (ct_settings attached).
Definition request0 : NetdRequest := enable_request 1 spec0.
Definition fresh : AppState (list Command) := {| app_state := initial_state 0; app_kernel := [] |}.
Definition first0 : result Error NetdResponse * AppState (list Command) := process_request 0 1 request0 1 fresh.
Definition second0 : result Error NetdResponse * AppState (list Command) := process_request 10 11 request0 1 first0.2.
Definition io0 (answer : result Error NetdResponse) : SwitchIo :=
  {| si_core := io_fine; si_netd := (client_enable_routing (timely answer) spec0 (connected 1)).1 |}.

Lemma second_switch_fails_witness :
  is_ok (switch_node (io0 second0.1) 11 (switch_node (io0 first0.1) 1 attached (sample_node 1 "DE") false).2
           (sample_node 2 "FR") true).1 = false.
Proof.
  pose proof kernel_refuses.
  apply (second_switch_fails 0 1 10 11 1 11 1 (sample_node 1 "DE") (sample_node 2 "FR") false true attached
    (connected 1) (timely first0.1) (timely second0.1) (io0 first0.1) (io0 second0.1) fresh).
  - vm_compute. eexists. reflexivity.
  - split; reflexivity.
  - apply sendable_b. vm_compute. reflexivity.
  - apply timely_answered. vm_compute. reflexivity.
  - apply timely_answered. vm_compute. reflexivity.
  - reflexivity.
  - unfold io0. cbn [si_netd]. vm_compute. reflexivity.
  - vm_compute. reflexivity.
Defined.
End SecondSwitch.
