(* ===== verification/Heartbeats.v ===== *)
(** The heartbeat thread at work ([NetdClient::start_heartbeat] in
    [crates/controller/src/netd_client.rs] with [process_request], the end of
    [handle_client] and [spawn_watchdog] in [crates/netd/src/main.rs]).

    One world joins the client, its thread, the calls of the controller and the
    daemon.  A heartbeat and the reconnection that follows a refused one are two
    critical sections of the client's mutex: the controller's calls, the daemon
    noticing a dropped connection and the turns of its watchdog come between them.
    The link carries every message in time, so that what goes wrong here does not
    come from the network; a handler of the daemon is one step, [Netd.step] being
    where they are taken apart, and its watchdog may look at any instant, the daemon's
    own looks, a second apart, being among those. *)

From S2P Require Import Prelude RustStr Ir Adapter Egress Supervisor Controller Netfilter Netd NetdClient.

(** Where the thread is: not started, asleep between two turns of its loop, or
    after a heartbeat that failed, before it takes the mutex again. *)
Inductive Thread := Unstarted | Sleeping | Reconnecting.

(** [lk_next] is the daemon's counter of sessions; [lk_closing] are the sessions
    whose connection the client dropped and whose task has not seen it yet. *)
Record Link `{IpNet} (K : Type) := {
  lk_client : ClientInner;
  lk_app : AppState K;
  lk_now : Z;
  lk_next : Z;
  lk_closing : gset Z;
  lk_thread : Thread
}.
Arguments lk_client {_ _} _.
Arguments lk_app {_ _} _.
Arguments lk_now {_ _} _.
Arguments lk_next {_ _} _.
Arguments lk_closing {_ _} _.
Arguments lk_thread {_ _} _.

Section Link.
Context `{BincodeLaws} `{IpNet} {K : Type} `{RoutingBackend K}.

Definition lk_session (w : Link K) : Z := ci_session_id (lk_client w).
Definition lk_state (w : Link K) : DaemonState := app_state (lk_app w).

(** An attempt whose handshake the daemon accepts with a session. *)
Definition accepts (version : Z) (a : Attempt) (session : Z) : Prop :=
  at_connect a = Ok () ∧ sendable (Handshake version) ∧
  answered (at_exchange a) (Ok (HandshakeOk PROTOCOL_VERSION session)).

(** A request of the client is carried, and answered in time. *)
Definition carried_over (w : Link K) (later : Z) (request : NetdRequest) (x : Exchange) (app : AppState K) : Prop :=
  lk_now w ≤ later ∧
  let '(answer, app') := process_request (lk_now w) later request (lk_session w) (lk_app w) in
  sendable request ∧ answered x answer ∧ app = app'.

(** ** The steps *)

Definition with_app (w : Link K) (app : AppState K) : Link K :=
  {| lk_client := lk_client w; lk_app := app; lk_now := lk_now w; lk_next := lk_next w;
     lk_closing := lk_closing w; lk_thread := lk_thread w |}.
(** After an exchange: the client, the daemon, the clock, and the thread. *)
Definition exchanged (w : Link K) (c : ClientInner) (app : AppState K) (later : Z) (t : Thread) : Link K :=
  {| lk_client := c; lk_app := app; lk_now := later; lk_next := lk_next w;
     lk_closing := lk_closing w; lk_thread := t |}.

(** The thread's heartbeat, whatever the daemon answers it. *)
Inductive beat_step (w : Link K) : Link K → Prop :=
| beat x app :
    lk_thread w = Sleeping →
    carried_over w (lk_now w) (Heartbeat (lk_session w) (ci_sequence (lk_client w))) x app →
    beat_step w (exchanged w (client_heartbeat x (lk_client w)).2 app (lk_now w)
                  (if is_ok (client_heartbeat x (lk_client w)).1 then Sleeping else Reconnecting)).

(** What the thread, the daemon and the clock do. *)
Inductive own_step (w : Link K) : Link K → Prop :=
| own_time later :
    lk_now w ≤ later → own_step w (exchanged w (lk_client w) (lk_app w) later (lk_thread w))
| own_start :
    lk_thread w = Unstarted →
    own_step w (exchanged w (lk_client w) (lk_app w) (lk_now w) Sleeping)
| own_beat w' : beat_step w w' → own_step w w'
| own_reconnect refused a session next :
    lk_thread w = Reconnecting →
    Forall (λ b, is_ok (handshake PROTOCOL_VERSION b) = false) refused → (length refused ≤ 2)%nat →
    accepts PROTOCOL_VERSION a session → lk_next w ≤ session < next →
    own_step w {| lk_client := (reconnect PROTOCOL_VERSION (refused ++ [a]) (lk_client w)).2;
                  lk_app := lk_app w; lk_now := lk_now w; lk_next := next;
                  lk_closing := {[lk_session w]} ∪ lk_closing w; lk_thread := Sleeping |}
| own_give_up refused next :
    lk_thread w = Reconnecting →
    Forall (λ b, is_ok (handshake PROTOCOL_VERSION b) = false) refused → (length refused = 3)%nat →
    lk_next w ≤ next →
    own_step w {| lk_client := (reconnect PROTOCOL_VERSION refused (lk_client w)).2;
                  lk_app := lk_app w; lk_now := lk_now w; lk_next := next;
                  lk_closing := lk_closing w; lk_thread := Sleeping |}
| own_close session :
    session ∈ lk_closing w →
    own_step w {| lk_client := lk_client w; lk_app := (close_session session (lk_app w)).2;
                  lk_now := lk_now w; lk_next := lk_next w;
                  lk_closing := lk_closing w ∖ {[session]}; lk_thread := lk_thread w |}
| own_tick : own_step w (with_app w (watchdog_tick (lk_now w) (lk_app w))).

(** What the controller does with the client. *)
Inductive call_step (w : Link K) : Link K → Prop :=
| call_enable spec x app later :
    carried_over w later (enable_request (lk_session w) spec) x app →
    call_step w (exchanged w (client_enable_routing x spec (lk_client w)).2 app later (lk_thread w))
| call_disable x app later :
    carried_over w later (DisableRouting (lk_session w)) x app →
    call_step w (exchanged w (client_disable_routing x (lk_client w)).2 app later (lk_thread w)).

Definition link_step (w w' : Link K) : Prop := own_step w w' ∨ call_step w w'.

(** A client that has just connected, and a daemon that has just started. *)
Definition link_start (c : ClientInner) (now : Z) (k : K) : Link K :=
  {| lk_client := c; lk_app := {| app_state := initial_state now; app_kernel := k |}; lk_now := now;
     lk_next := ci_session_id c + 1; lk_closing := ∅; lk_thread := Unstarted |}.

(** ** Reconnecting *)

(** The handshake of an attempt that is accepted, and what reconnecting does then. *)
Lemma handshake_accepted version a session :
  accepts version a session → handshake version a = Ok (EmptyString, session).
Proof.
  intros (Hc & (payload & Ep & Hl) & Hs & Hw & Ha). unfold handshake, write_frame.
  rewrite Hc, Hs, Ep, Hw. cbn. rewrite (proj2 (Z.ltb_ge MAX_FRAME_BYTES _)) by done. cbn.
  rewrite <-(append_empty_r (xc_arrived _)), (read_response_sent _ _ _ _ Ha). done.
Qed.

Lemma reconnect_loop_refused version n refused more :
  Forall (λ b, is_ok (handshake version b) = false) refused → (n + length refused ≤ 2)%nat →
  reconnect_loop version n (refused ++ more) = reconnect_loop version (n + length refused) more.
Proof.
  intros Hr. revert n. induction Hr as [|b refused Hb _ IH]; intros n; cbn [length app]; intros Hl;
    [by rewrite Nat.add_0_r|].
  cbn [reconnect_loop]. destruct (handshake version b); [done|].
  rewrite (proj2 (Nat.leb_gt 3 (S n))) by lia. rewrite IH by lia. by rewrite <-Nat.add_succ_comm.
Qed.

Lemma reconnect_accepted version refused a session c :
  Forall (λ b, is_ok (handshake version b) = false) refused → (length refused ≤ 2)%nat →
  accepts version a session →
  reconnect version (refused ++ [a]) c =
    (Ok (), {| ci_stream := Some EmptyString; ci_session_id := session; ci_sequence := ci_sequence c |}).
Proof.
  intros Hr Hl Ha. unfold reconnect. rewrite reconnect_loop_refused by done. cbn [reconnect_loop].
  by rewrite (handshake_accepted _ _ _ Ha).
Qed.

Lemma reconnect_refused version attempts c :
  Forall (λ b, is_ok (handshake version b) = false) attempts → (reconnect version attempts c).2 = c.
Proof.
  intros Hr. unfold reconnect.
  assert (∀ n, ∃ e, reconnect_loop version n attempts = Err e) as Hl.
  { induction Hr as [|b attempts Hb _ IH]; intros n; cbn; [by eexists|].
    destruct (handshake version b) as [|e]; [done|].
    case_match; [by eexists|apply IH]. }
  by destruct (Hl 0%nat) as [e ->].
Qed.
(** ** The daemon's part

    The backends of the daemon always answer that they disabled. *)
Context `{!Disables (K := K)}.

Lemma rolled_back app :
  (rollback app).1 = Ok () ∧ app_state (rollback app).2 = commit_rollback (app_state app).
Proof.
  unfold rollback. by destruct (disables (rollback_settings (app_state app)) (app_kernel app)) as [k ->].
Qed.

(** Who owns the routing, if it is active and somebody does. *)
Definition attributed (owners : gset Z) (d : DaemonState) : Prop :=
  (∀ s, ds_active_session d = Some s → ds_routing_active d = true ∧ s ∈ owners) ∧
  (ds_routing_active d = true ↔ is_Some (ds_routing_config d)).

Lemma commit_rollback_attributed owners d : attributed owners (commit_rollback d).
Proof. split; cbn; [done|]. split; [done|]. by intros []. Qed.

Lemma attributed_owner owners owners' d :
  attributed owners d → (∀ s, ds_active_session d = Some s → s ∈ owners → s ∈ owners') →
  attributed owners' d.
Proof. intros [Ho Hc] Hs. split; [|done]. intros s E. destruct (Ho s E). eauto. Qed.

Lemma request_attributed owners now later sid request app :
  sid ∈ owners → attributed owners (app_state app) →
  attributed owners (app_state (process_request now later request sid app).2).
Proof.
  intros Hs Ha. pose proof (process_request_cases now later sid request app) as Hp.
  destruct (process_request now later request sid app) as [r app']. destruct Hp as [_ Hp]. cbn [snd].
  destruct r as [[]|e]; try done.
  - destruct Hp as (config & _ & _ & _ & ->). split; cbn; [by intros s [= <-]|done].
  - destruct Hp as (_ & _ & ->). apply commit_rollback_attributed.
  - destruct Hp as (_ & Hr & Ho & _ & ->). destruct Ha as [_ Hc]. rewrite Hr in Hc.
    split; cbn; [by intros s [= <-]|done].
  - destruct Hp as (Hr & Hc & [->|(config & e' & _ & _ & Ho & _)]); [done|].
    split; [by rewrite Ho|]. rewrite Hr, Hc. apply Ha.
Qed.

(** The recorded heartbeat is never in the future. *)
Lemma request_clock now later sid request app :
  now ≤ later → ds_last_heartbeat (app_state app) ≤ now →
  ds_last_heartbeat (app_state (process_request now later request sid app).2) ≤ later.
Proof.
  intros Hl Hn. pose proof (process_request_cases now later sid request app) as Hp.
  destruct (process_request now later request sid app) as [r app']. destruct Hp as [_ Hp]. cbn [snd].
  destruct r as [[]|e]; try done.
  - by destruct Hp as (config & _ & _ & _ & ->).
  - destruct Hp as (_ & _ & ->). cbn. lia.
  - by destruct Hp as (_ & _ & _ & _ & ->).
  - destruct Hp as (_ & _ & [->|(config & e' & _ & _ & _ & ->)]); lia.
Qed.

Lemma close_clock sid app :
  ds_last_heartbeat (app_state (close_session sid app).2) = ds_last_heartbeat (app_state app).
Proof.
  unfold close_session. case_match; [by rewrite (proj2 (rolled_back app))|].
  cbn. unfold release_session. by case_bool_decide.
Qed.
Lemma tick_clock now app :
  ds_last_heartbeat (app_state (watchdog_tick now app)) = ds_last_heartbeat (app_state app).
Proof. unfold watchdog_tick. case_match; [by rewrite (proj2 (rolled_back app))|done]. Qed.

Lemma close_attributed owners sid app :
  attributed owners (app_state app) →
  attributed (owners ∖ {[sid]}) (app_state (close_session sid app).2).
Proof.
  intros Ha. unfold close_session, should_rollback. case_match.
  - rewrite (proj2 (rolled_back app)). apply commit_rollback_attributed.
  - cbn. unfold release_session. case_bool_decide as Eo.
    + split; cbn; [done|apply Ha].
    + eapply attributed_owner; [exact Ha|]. intros s E Hs. set_solver.
Qed.

Lemma tick_attributed owners now app :
  attributed owners (app_state app) → attributed owners (app_state (watchdog_tick now app)).
Proof.
  intros Ha. unfold watchdog_tick. case_match; [|done].
  rewrite (proj2 (rolled_back app)). apply commit_rollback_attributed.
Qed.
(** ** The invariant *)

(** The sessions whose connection the daemon still has. *)
Definition lk_open (w : Link K) : gset Z := {[lk_session w]} ∪ lk_closing w.

Record link_inv (w : Link K) : Prop := {
  li_step : in_step (lk_session w) (lk_client w);
  li_closed : lk_session w ∉ lk_closing w;
  li_next : ∀ s, s ∈ lk_open w → s < lk_next w;
  li_owner : attributed (lk_open w) (lk_state w);
  li_clock : ds_last_heartbeat (lk_state w) ≤ lk_now w
}.

Lemma link_start_inv c now k : in_step (ci_session_id c) c → link_inv (link_start c now k).
Proof.
  intros Hc. split; [done|set_solver| | |].
  - unfold lk_open, lk_session. cbn. intros s. rewrite union_empty_r_L, elem_of_singleton. lia.
  - split; cbn; [done|]. split; [done|]. by intros [].
  - done.
Qed.

(** An exchange of the client's changes neither its session nor its connection. *)
Lemma exchanged_inv w c app later t request x :
  link_inv w → carried_over w later request x app → in_step (lk_session w) c →
  link_inv (exchanged w c app later t).
Proof.
  intros [Hs Hcl Hn Ho Hk] [Hlater Hc] Hc'. pose proof (proj2 Hc') as Ei.
  assert (lk_session (exchanged w c app later t) = lk_session w) as Es by done.
  pose proof (request_attributed (lk_open w) (lk_now w) later (lk_session w) request (lk_app w)) as Ha.
  pose proof (request_clock (lk_now w) later (lk_session w) request (lk_app w) Hlater Hk) as Hl.
  destruct (process_request _ _ _ _ _) as [answer app']. destruct Hc as (_ & _ & ->).
  split; unfold lk_open; rewrite ?Es; try done. apply Ha; [set_solver|done].
Qed.

(** A heartbeat is acknowledged exactly if the client owns active routing. *)
Lemma beat_carried w later x app :
  link_inv w → carried_over w later (Heartbeat (lk_session w) (ci_sequence (lk_client w))) x app →
  let '(r, c) := client_heartbeat x (lk_client w) in
  in_step (lk_session w) c ∧
  (is_ok r = true ↔ ds_routing_active (lk_state w) = true ∧ ds_active_session (lk_state w) = Some (lk_session w)) ∧
  (if is_ok r then app_kernel app = app_kernel (lk_app w) ∧
     app_state app = {| ds_active_session := Some (lk_session w); ds_routing_active := true;
                        ds_last_heartbeat := lk_now w; ds_routing_config := ds_routing_config (lk_state w) |}
   else app = lk_app w).
Proof.
  intros Hi [_ Hc]. pose proof (client_heartbeat_answered (lk_now w) later (lk_session w) (lk_client w) x (lk_app w)
    (li_step _ Hi)) as Hb. cbv zeta in Hb.
  pose proof (process_request_cases (lk_now w) later (lk_session w)
    (Heartbeat (lk_session w) (ci_sequence (lk_client w))) (lk_app w)) as Hp.
  revert Hc Hb Hp. cbn [process_request]. rewrite require_controller_cases, Z.eqb_refl.
  destruct (heartbeat_cases (lk_now w) (lk_session w) (lk_state w)) as [(E & Hr & Ho)|[[e E] Hno]];
    unfold lk_state in *; rewrite E; cbn; intros (Hs & Hx & ->) Hb _; specialize (Hb Hs Hx);
    destruct (client_heartbeat x (lk_client w)) as [r c]; destruct Hb as (Hst & _ & Hok & _).
  - rewrite (proj2 Hok) by done. split_and!; [done|done|done|]. cbn. by rewrite Hr, Ho.
  - destruct (is_ok r); [naive_solver|]. split_and!; [done|done|]. by destruct (lk_app w).
Qed.

Lemma own_step_inv w w' : link_inv w → own_step w w' → link_inv w'.
Proof.
  intros Hi. destruct Hi as [Hs Hcl Hn Ho Hk] eqn:Ei. clear Ei. destruct 1.
  - split; try done. cbn. unfold lk_state in *. cbn. lia.
  - done.
  - match goal with Hb : beat_step _ _ |- _ => destruct Hb as [x app ? ?] end.
    eapply exchanged_inv; [done|done|]. pose proof (beat_carried w (lk_now w) x app Hi) as Hb.
    destruct (client_heartbeat x (lk_client w)) as [r c]. by destruct Hb.
  - rewrite (reconnect_accepted _ _ _ session) by done.
    split; unfold lk_open, lk_session in *; cbn.
    + done.
    + intros Hin. assert (session < lk_next w); [apply Hn|]; [set_solver|lia].
    + intros s. rewrite !elem_of_union, !elem_of_singleton. intros [->|Hin]; [lia|].
      assert (s < lk_next w); [apply Hn; set_solver|lia].
    + eapply attributed_owner; [done|]. set_solver.
    + done.
  - rewrite reconnect_refused by done. split; [done|done| |done|done].
    intros s Hin. specialize (Hn s Hin). cbn. lia.
  - split; [done|set_solver|set_solver| |].
    + unfold lk_open. cbn. change (lk_session _) with (lk_session w) at 1.
      eapply attributed_owner; [by apply close_attributed|]. set_solver.
    + unfold lk_state. cbn. by rewrite close_clock.
  - split; try done; [by apply tick_attributed|]. unfold lk_state. cbn. by rewrite tick_clock.
Qed.

Lemma call_step_inv w w' : link_inv w → call_step w w' → link_inv w'.
Proof.
  intros Hi [spec x app later Hc|x app later Hc]; (eapply exchanged_inv; [done|done|]); destruct Hc as [_ Hc].
  - pose proof (client_enable_answered (lk_now w) later (lk_session w) (lk_client w) spec x (lk_app w) (li_step _ Hi)) as He.
    cbv zeta in He. destruct (process_request _ _ _ _ _) as [answer app']. destruct Hc as (Hs & Hx & _).
    specialize (He Hs Hx). destruct (client_enable_routing _ _ _) as [r c]. destruct He as (-> & _). apply (li_step _ Hi).
  - pose proof (client_disable_answered (lk_now w) later (lk_session w) (lk_client w) x (lk_app w) (li_step _ Hi)) as He.
    cbv zeta in He. destruct (process_request _ _ _ _ _) as [answer app']. destruct Hc as (Hs & Hx & _).
    specialize (He Hs Hx). destruct (client_disable_routing _ _) as [r c]. destruct He as (-> & _). apply (li_step _ Hi).
Qed.

Lemma link_reachable c now k w :
  in_step (ci_session_id c) c → rtc link_step (link_start c now k) w → link_inv w.
Proof.
  intros Hc Hr. eapply (rtc_preserves link_step link_inv); [|exact Hr|by apply link_start_inv].
  intros w1 w2 [Ho|Hcall] Hi; [by eapply own_step_inv|by eapply call_step_inv].
Qed.
(** ** What the thread keeps, and what it does not bring back *)

Definition routing (w : Link K) : bool := ds_routing_active (lk_state w).
(** What stays: the machine and the configuration in force. *)
Definition undisturbed (w w' : Link K) : Prop :=
  app_kernel (lk_app w') = app_kernel (lk_app w) ∧
  ds_routing_config (lk_state w') = ds_routing_config (lk_state w).

Lemma inactive_step w w' :
  link_inv w → own_step w w' → routing w = false →
  routing w' = false ∧ undisturbed w w'.
Proof.
  intros Hi Hs Hr. unfold routing, undisturbed, lk_state in *. destruct Hs; cbn; try done.
  - match goal with Hb : beat_step _ _ |- _ => destruct Hb as [x app ? ?] end. cbn.
    pose proof (beat_carried w (lk_now w) x app Hi) as Hb.
    match goal with Hc : carried_over _ _ _ _ _ |- _ => specialize (Hb Hc) end.
    destruct (client_heartbeat x (lk_client w)) as [r c]. destruct Hb as (_ & Hok & Hb). cbn [fst snd].
    destruct (is_ok r); [|by rewrite Hb]. destruct (proj1 Hok eq_refl) as [Ha _].
    unfold lk_state in Ha. congruence.
  - unfold close_session, should_rollback. rewrite Hr, andb_false_r. cbn.
    unfold release_session. by case_bool_decide.
  - unfold watchdog_tick, expired. by rewrite Hr.
Qed.

(** The client owns active routing, its thread is not about to reconnect, and its
    last heartbeat is not too old. *)
Definition attended (w : Link K) : Prop :=
  routing w = true ∧ ds_active_session (lk_state w) = Some (lk_session w) ∧ lk_thread w ≠ Reconnecting ∧
  lk_now w ≤ ds_last_heartbeat (lk_state w) + WATCHDOG_TIMEOUT_SECS * 1000.
(** A run in which the thread beats in time, [last] being when it last did: no other
    step ends later than the timeout after the thread's own last heartbeat, whatever
    the daemon recorded of it. *)
Inductive kept_up (last : Z) (w : Link K) : Link K → Prop :=
| kept_stop : kept_up last w w
| kept_beat w1 w' : beat_step w w1 → kept_up (lk_now w) w1 w' → kept_up last w w'
| kept_other w1 w' :
    own_step w w1 → lk_now w1 ≤ last + WATCHDOG_TIMEOUT_SECS * 1000 → kept_up last w1 w' → kept_up last w w'.

(** A heartbeat of the owner is acknowledged, and recorded. *)
Lemma attended_beat w w' :
  link_inv w → beat_step w w' → attended w →
  attended w' ∧ lk_session w' = lk_session w ∧ undisturbed w w' ∧ ds_last_heartbeat (lk_state w') = lk_now w.
Proof.
  intros Hi Hs (Hr & Ho & Hth & Hn). unfold attended, routing, undisturbed in *. destruct Hs as [x app Ht Hc].
  pose proof (beat_carried w (lk_now w) x app Hi Hc) as Hb.
  unfold exchanged, lk_session, lk_state in *. cbn [lk_client lk_app lk_now lk_thread].
  destruct (client_heartbeat x (lk_client w)) as [r c]. destruct Hb as ([_ Es] & Hok & Hb). cbn [fst snd].
  rewrite (proj2 Hok) in * by done. destruct Hb as [-> ->]. cbn. unfold WATCHDOG_TIMEOUT_SECS.
  rewrite Es. split_and!; done || lia.
Qed.

Lemma attended_step w w' :
  link_inv w → own_step w w' → lk_now w' ≤ ds_last_heartbeat (lk_state w) + WATCHDOG_TIMEOUT_SECS * 1000 →
  attended w →
  attended w' ∧ lk_session w' = lk_session w ∧ undisturbed w w' ∧
  ds_last_heartbeat (lk_state w) ≤ ds_last_heartbeat (lk_state w').
Proof.
  intros Hi Hs Ht Ha. pose proof Ha as (Hr & Ho & Hth & Hn).
  destruct Hs as [later Hl| |w' Hb|refused a session next Hrec|refused next Hrec|session Hin|].
  1,2: unfold attended, routing, undisturbed, exchanged, lk_session, lk_state in *; cbn in *; split_and!; done || lia.
  - destruct (attended_beat w w' Hi Hb Ha) as (? & ? & ? & El). pose proof (li_clock _ Hi).
    split_and!; (done || lia).
  - done.
  - done.
  - assert (session ≠ lk_session w) as Hne by (intros ->; by apply (li_closed _ Hi)).
    assert ((close_session session (lk_app w)).2 = lk_app w) as Ec.
    { unfold close_session, should_rollback, release_session. fold (lk_state w). rewrite Ho, !bool_decide_eq_false_2 by congruence.
      cbn. unfold with_state, lk_state. by destruct (lk_app w). }
    unfold attended, routing, undisturbed, lk_session, lk_state in *. cbn [lk_client lk_app lk_now lk_thread].
    rewrite Ec. split_and!; done || lia.
  - assert (watchdog_tick (lk_now w) (lk_app w) = lk_app w) as Et.
    { unfold watchdog_tick, expired. fold (lk_state w).
      by rewrite (proj2 (Z.ltb_ge _ _)), andb_false_r by (unfold saturating_sub, WATCHDOG_TIMEOUT_SECS in *; lia). }
    unfold attended, routing, undisturbed, lk_session, lk_state, with_app in *. cbn [lk_client lk_app lk_now lk_thread].
    rewrite Et. split_and!; done || lia.
Qed.

Lemma attended_kept last w w' :
  kept_up last w w' → link_inv w → attended w → last ≤ ds_last_heartbeat (lk_state w) →
  attended w' ∧ lk_session w' = lk_session w ∧ undisturbed w w'.
Proof.
  induction 1 as [last w|last w w1 w' Hb _ IH|last w w1 w' Hs Ht _ IH]; intros Hi Ha Hl.
  - by split_and!.
  - destruct (attended_beat w w1 Hi Hb Ha) as (Ha1 & E1 & [Hk1 Hc1] & El).
    destruct IH as (Ha' & E' & [Hk' Hc']); [by eapply own_step_inv, own_beat|done|lia|].
    split_and!; [done|congruence|split; congruence].
  - destruct (attended_step w w1 Hi Hs ltac:(lia) Ha) as (Ha1 & E1 & [Hk1 Hc1] & El).
    destruct IH as (Ha' & E' & [Hk' Hc']); [by eapply own_step_inv|done|lia|].
    split_and!; [done|congruence|split; congruence].
Qed.
(** An enabling that is reported as done leaves the routing to the client. *)
Lemma enabled_attended w spec x app later :
  link_inv w → carried_over w later (enable_request (lk_session w) spec) x app →
  is_ok (client_enable_routing x spec (lk_client w)).1 = true →
  let w' := exchanged w (client_enable_routing x spec (lk_client w)).2 app later (lk_thread w) in
  routing w' = true ∧ ds_active_session (lk_state w') = Some (lk_session w') ∧
  ds_last_heartbeat (lk_state w') = later ∧ lk_session w' = lk_session w.
Proof.
  intros Hi [_ Hc] Hok.
  pose proof (client_enable_answered (lk_now w) later (lk_session w) (lk_client w) spec x (lk_app w) (li_step _ Hi)) as He.
  pose proof (process_request_cases (lk_now w) later (lk_session w) (enable_request (lk_session w) spec) (lk_app w)) as Hp.
  cbv zeta in He. unfold routing, exchanged, lk_session, lk_state in *. cbn [lk_app lk_client].
  destruct (process_request _ _ _ _ _) as [answer app']. destruct Hc as (Hs & Hx & ->).
  specialize (He Hs Hx). destruct (client_enable_routing _ _ _) as [r c]. destruct He as (-> & E & _).
  cbn [fst snd] in *. rewrite Hok in E. destruct Hp as [_ Hp]. destruct answer as [[]|]; try done.
  - by destruct Hp as (config & _ & _ & _ & ->).
  - by destruct Hp.
  - by destruct Hp.
Qed.

(** ** Theorem *)


(** ** Where it is lost *)

(** A heartbeat of a client that owns no active routing is refused, and the thread
    goes on to replace a connection that works. *)
Lemma idle_heartbeat_reconnects w x app :
  link_inv w → routing w = false → lk_thread w = Sleeping →
  carried_over w (lk_now w) (Heartbeat (lk_session w) (ci_sequence (lk_client w))) x app →
  ∃ w', own_step w w' ∧ lk_thread w' = Reconnecting ∧ lk_app w' = lk_app w ∧ lk_session w' = lk_session w.
Proof.
  intros Hi Hr Ht Hc. eexists. split; [by eapply own_beat, beat|].
  pose proof (beat_carried w (lk_now w) x app Hi Hc) as Hb. unfold lk_session. cbn.
  destruct (client_heartbeat x (lk_client w)) as [r c]. destruct Hb as ([_ Es] & Hok & Hb). cbn [fst snd].
  destruct (is_ok r); [destruct (proj1 Hok eq_refl); unfold routing in Hr; congruence|]. done.
Qed.

(** An enabling that comes between a heartbeat that failed and the reconnection is
    reported as done, on the connection that is then dropped: the daemon rolls it
    back, and the client's new session owns nothing. *)
Lemma enabling_lost_to_reconnection w spec x app later a session next :
  link_inv w → lk_thread w = Reconnecting →
  carried_over w later (enable_request (lk_session w) spec) x app →
  is_ok (client_enable_routing x spec (lk_client w)).1 = true →
  accepts PROTOCOL_VERSION a session → lk_next w ≤ session < next →
  let enabled := exchanged w (client_enable_routing x spec (lk_client w)).2 app later (lk_thread w) in
  routing enabled = true ∧ ∃ w', rtc own_step enabled w' ∧ routing w' = false ∧ lk_session w' = session.
Proof.
  intros Hi Ht Hc Hok Ha Hn enabled.
  destruct (enabled_attended w spec x app later Hi Hc Hok) as (Hr & Ho & _ & Es). fold enabled in Hr, Ho, Es.
  split; [done|]. eexists. split.
  { eapply rtc_l; [eapply (own_reconnect enabled [] a session next); [done|by constructor|cbn; lia|done|done]|].
    eapply rtc_once, (own_close _ (lk_session enabled)). cbn. set_solver. }
  split.
  - unfold routing, lk_state in *. cbn [lk_app]. unfold close_session, should_rollback. rewrite Ho, Hr.
    rewrite bool_decide_eq_true_2 by done. cbn [andb]. by rewrite (proj2 (rolled_back _)).
  - unfold lk_session. cbn [lk_client]. by rewrite (reconnect_accepted _ [] a session) by (done || cbn; lia).
Qed.

(** Before the thread is started nothing refreshes the heartbeat, and routing is
    taken down by the first turn of the watchdog after the timeout. *)
Lemma unattended_routing_ends w w' :
  rtc own_step w w' → lk_thread w' = Unstarted →
  ds_last_heartbeat (lk_state w') = ds_last_heartbeat (lk_state w) ∧
  (ds_last_heartbeat (lk_state w) + WATCHDOG_TIMEOUT_SECS * 1000 < lk_now w' →
   ∃ w'', own_step w' w'' ∧ routing w'' = false).
Proof.
  intros Hr Ht. assert (lk_thread w = Unstarted ∧
    ds_last_heartbeat (lk_state w') = ds_last_heartbeat (lk_state w)) as [_ El].
  { induction Hr as [|w w1 w' Hs _ IH]; [done|]. destruct (IH Ht) as [Ht1 ->]. clear -Hs Ht1 Disables0.
    destruct Hs; cbn in *; try done; try congruence.
    - match goal with Hb : beat_step _ _ |- _ => destruct Hb end. cbn in *. by destruct (is_ok _).
    - split; [done|]. unfold lk_state. cbn. apply close_clock.
    - split; [done|]. unfold lk_state. cbn. apply tick_clock. }
  split; [done|]. intros Hl. eexists. split; [apply own_tick|].
  unfold routing, lk_state, with_app, watchdog_tick in *. cbn [lk_app].
  destruct (expired (lk_now w') (app_state (lk_app w'))) eqn:Ee; [by rewrite (proj2 (rolled_back _))|].
  unfold expired in Ee. rewrite (proj2 (Z.ltb_lt _ _)), andb_true_r in Ee; [done|].
  rewrite El. unfold saturating_sub. lia.
Qed.
End Link.

(** ** Concrete runs *)

#[local] Existing Instances text_net Switched sample_bincode sample_bincode_laws switched_disables
  NetdRequest_dec NetdRequest_countable NetdResponse_dec NetdResponse_countable.

(** A client whose session is the daemon's first, and a machine with nothing in place. *)
Definition link0 : Link bool := link_start (connected 1) 0 false.
Definition ask (w : Link bool) (later : Z) (request : NetdRequest) : result Error NetdResponse * AppState bool :=
  process_request (lk_now w) later request (lk_session w) (lk_app w).
Definition enabled_at (w : Link bool) (later : Z) : Link bool :=
  let '(answer, app) := ask w later (enable_request (lk_session w) spec0) in
  exchanged w (client_enable_routing (timely answer) spec0 (lk_client w)).2 app later (lk_thread w).
Definition beaten_at (w : Link bool) : Link bool :=
  let '(answer, app) := ask w (lk_now w) (Heartbeat (lk_session w) (ci_sequence (lk_client w))) in
  exchanged w (client_heartbeat (timely answer) (lk_client w)).2 app (lk_now w)
    (if is_ok (client_heartbeat (timely answer) (lk_client w)).1 then Sleeping else Reconnecting).
Definition slept (w : Link bool) (later : Z) : Link bool :=
  exchanged w (lk_client w) (lk_app w) later (lk_thread w).
Definition started (w : Link bool) : Link bool := exchanged w (lk_client w) (lk_app w) (lk_now w) Sleeping.

(** Both the request and the answer fit a frame. *)
Definition carries (w : Link bool) (later : Z) (request : NetdRequest) : bool :=
  (lk_now w <=? later) && fits_b (bits_of (encode request)) &&
  fits_b (bits_of (encode (response_of (ask w later request).1))).

Lemma carries_over w later request :
  carries w later request = true →
  carried_over w later request (timely (ask w later request).1) (ask w later request).2.
Proof.
  unfold carries. intros [[Hl%Z.leb_le Hr]%andb_true_iff Ha]%andb_true_iff. split; [done|].
  unfold ask in *. destruct (process_request _ _ _ _ _) as [answer app]. cbn [fst snd] in *.
  split_and!; [by apply sendable_b|by apply timely_answered|done].
Qed.

Lemma enabled_step w later :
  carries w later (enable_request (lk_session w) spec0) = true → call_step w (enabled_at w later).
Proof.
  intros Hc%carries_over. unfold enabled_at. destruct (ask _ _ _) as [answer app]. by eapply call_enable.
Qed.
Lemma beat_taken w :
  lk_thread w = Sleeping → carries w (lk_now w) (Heartbeat (lk_session w) (ci_sequence (lk_client w))) = true →
  beat_step w (beaten_at w).
Proof.
  intros Ht Hc%carries_over. unfold beaten_at. destruct (ask _ _ _) as [answer app]. by eapply beat.
Qed.

(** Routing enabled, the thread started, and a heartbeat every three seconds. *)
Definition up : Link bool := started (enabled_at link0 10).
Definition three : Link bool := beaten_at (slept up 3000).
Definition six : Link bool := beaten_at (slept three 6000).
Definition kept : Link bool := slept six 9000.

Lemma up_reachable : rtc link_step link0 up.
Proof.
  apply (rtc_l _ _ (enabled_at link0 10)); [right; apply enabled_step; vm_compute; reflexivity|].
  apply rtc_once. left. apply own_start. vm_compute. reflexivity.
Qed.

Lemma slept_kept w later last w' :
  (lk_now w <=? later) && (later <=? last + WATCHDOG_TIMEOUT_SECS * 1000) = true →
  kept_up last (slept w later) w' → kept_up last w w'.
Proof.
  intros [H1%Z.leb_le H2%Z.leb_le]%andb_true_iff Hk. eapply kept_other; [by apply own_time|exact H2|exact Hk].
Qed.

Lemma kept_run : kept_up 10 up kept.
Proof.
  apply (slept_kept _ 3000); [vm_compute; reflexivity|].
  apply (kept_beat _ _ three); [apply beat_taken; vm_compute; reflexivity|].
  apply (slept_kept _ 6000); [vm_compute; reflexivity|].
  apply (kept_beat _ _ six); [apply beat_taken; vm_compute; reflexivity|].
  apply (slept_kept _ 9000); [vm_compute; reflexivity|]. apply kept_stop.
Qed.


(** The race: the thread is started before anything is enabled, and its first
    heartbeat is refused; the controller then enables routing, which succeeds; the
    thread reconnects, and the daemon takes down what the old connection owned. *)
Definition refused_first : Link bool := beaten_at (started link0).
Definition handshake_attempt : Attempt :=
  {| at_connect := Ok (); at_exchange := timely (Ok (HandshakeOk PROTOCOL_VERSION 2)) |}.

Lemma heartbeat_race :
  rtc link_step link0 refused_first ∧
  let enabled := enabled_at refused_first 10 in
  link_step refused_first enabled ∧ routing enabled = true ∧ app_kernel (lk_app enabled) = true ∧
  ∃ w', rtc own_step enabled w' ∧ routing w' = false ∧ lk_session w' = 2.
Proof.
  assert (rtc link_step link0 refused_first) as Hr.
  { apply (rtc_l _ _ (started link0)); [left; by apply own_start|].
    apply rtc_once. left. apply own_beat, beat_taken; vm_compute; reflexivity. }
  assert (carries refused_first 10 (enable_request (lk_session refused_first) spec0) = true) as Hc
    by (vm_compute; reflexivity).
  split; [done|]. intros enabled. split; [right; by apply enabled_step|].
  apply carries_over in Hc. destruct (ask refused_first 10 _) as [answer app] eqn:Ea. cbn [fst snd] in Hc.
  assert (link_inv refused_first) as Hi by (eapply link_reachable; [|exact Hr]; by split).
  assert (answer = Ok RoutingEnabled ∧ app_kernel app = true) as [-> Hk].
  { vm_compute in Ea. by injection Ea as <- <-. }
  destruct (enabling_lost_to_reconnection refused_first spec0 (timely (Ok RoutingEnabled)) app 10 handshake_attempt 2 3 Hi) as (Ha & Hl);
    [vm_compute; reflexivity|exact Hc|vm_compute; reflexivity| |by vm_compute|].
  - split_and!; [done|apply sendable_b; vm_compute; reflexivity|].
    apply timely_answered. vm_compute. reflexivity.
  - unfold enabled, enabled_at. rewrite Ea. split_and!; [exact Ha|exact Hk|exact Hl].
Qed.
