(* ===== verification/Gui.v ===== *)
(** The application window ([crates/gui/src/main.rs]): start-up, the handlers of its
    buttons, the health it shows for a measurement, and its status lines.

    A handler that runs in a thread of its own is the list of results it enqueues and
    the status it sets, given whether [slint::Weak::upgrade] gives it the window
    there; [Dispatcher] carries the results on and [ViewModel] shows
    them. *)

From S2P Require Import Prelude RustStr Ir Metadata Uri Clash Ingest Json Adapter Repository Store ViewModel Dispatcher Egress Probe Score AutoSelect Supervisor Controller Watchdog.

(** ** The health of a measurement *)

Definition REACHABILITY_HEALTH_CEILING : Z := 55.

Definition reachability_health (alive : bool) (latency_ms : option Z) : Z :=
  if negb alive then 0
  else clampZ 0 REACHABILITY_HEALTH_CEILING (REACHABILITY_HEALTH_CEILING - default 400 latency_ms / 12).

Definition verified_health (passes : bool) (latency_ms : option Z) : Z :=
  if negb passes then 0
  else match latency_ms with
       | Some latency => 100 - Z.min (latency / 8) 90
       | None => 100
       end.

(** [UiDispatcher::new(16_384)]. *)
Definition UI_QUEUE_CAPACITY : nat := Z.to_nat 16384.

(** ** The socket preflight *)

(** What one outcome of the preflight is written as: nothing when it is unknown. *)
Definition preflight_result (id : Z) (o : ProbeOutcome) : option ProbeResult :=
  if is_unknown o then None
  else Some {| pr_node_id := id; pr_latency_ms := default UNTESTED_LATENCY (po_latency_ms o);
               pr_health_score := reachability_health (ProbeOutcome_alive o) (po_latency_ms o);
               pr_verified := false |}.

(** The loop over the targets zipped with the outcomes; the counters are reachable,
    unknown and dead. *)
Record Preflight := { pt_reachable : Z; pt_unknown : Z; pt_dead : Z; pt_results : list ProbeResult }.
Definition preflight_step (p : Preflight) (row : (Z * CanonicalNode) * ProbeOutcome) : Preflight :=
  let '((id, _), o) := row in
  match preflight_result id o with
  | None => {| pt_reachable := pt_reachable p; pt_unknown := pt_unknown p + 1; pt_dead := pt_dead p;
               pt_results := pt_results p |}
  | Some r =>
    {| pt_reachable := if ProbeOutcome_alive o then pt_reachable p + 1 else pt_reachable p;
       pt_unknown := pt_unknown p;
       pt_dead := if ProbeOutcome_alive o then pt_dead p else pt_dead p + 1;
       pt_results := pt_results p ++ [r] |}
  end.
Definition preflight_start : Preflight :=
  {| pt_reachable := 0; pt_unknown := 0; pt_dead := 0; pt_results := [] |}.
Definition preflight (targets : list (Z * CanonicalNode)) (outcomes : list ProbeOutcome) : Preflight :=
  foldl preflight_step preflight_start (zip targets outcomes).

Definition preflight_status (p : Preflight) (targets : nat) : string :=
  "Socket preflight: " +:+ show_Z (pt_reachable p) +:+ " reachable, " +:+ show_Z (pt_unknown p) +:+
  " unconfirmed, " +:+ show_Z (pt_dead p) +:+ " dead (of " +:+ show_Z (Z.of_nat targets) +:+
  ") — reachability only, run Rescore egress for verified quality".

(** The made-up burst of a store without a catalog. *)
Definition simulated_result (id : Z) : ProbeResult :=
  let latency := 25 + wrapping_mul 32 id 37 mod 550 in
  {| pr_node_id := id; pr_latency_ms := latency;
     pr_health_score := reachability_health true (Some latency); pr_verified := false |}.

Definition probe_engine : ProbeEngine :=
  ProbeEngine_new {| pc_concurrency_limit := 512;
                     pc_connect_timeout := pc_connect_timeout ProbeConfig_default;
                     pc_udp_reply_window := pc_udp_reply_window ProbeConfig_default |}.

(** [on_probe_all_clicked], given whether the thread can upgrade its handle, the
    targets, whether a runtime can be built (or the error), the network and the joined
    tasks, and the ids of the current store. *)
Definition on_probe_all (upgraded : bool) (targets : result Error (list (Z * CanonicalNode))) (runtime : option string)
    (nets : nat → Network) (joined : nat → bool) (ids : list Z) : list ProbeResult * option string :=
  let status text := if upgraded then Some text else None in
  match targets with
  | Ok ((_ :: _) as targets) =>
    match runtime with
    | None =>
      let p := preflight targets (probe_batch probe_engine nets joined (map snd targets) L4Ping) in
      (pt_results p, status (preflight_status p (length targets)))
    | Some error => ([], status ("Probe runtime failed: " +:+ error))
    end
  | _ => (map simulated_result ids, status "Simulated burst (no persisted catalog; import a subscription)")
  end.

(** ** The egress rescore *)

Definition rescore_result (targets : list (Z * CanonicalNode)) (s : CandidateScore) : option ProbeResult :=
  '(id, _) ← targets !! cs_node_index s;
  let latency := (λ d, wrap 16 (as_millis d)) <$> cs_median_latency s in
  Some {| pr_node_id := id; pr_latency_ms := default UNTESTED_LATENCY latency;
          pr_health_score := verified_health (cs_passes s) latency; pr_verified := cs_passes s |}.

(** [on_rescore_egress_clicked], given the shortlist of the targets' nodes; the
    statuses before and after.  The thread returns at once when it cannot upgrade its
    handle. *)
Definition on_rescore (upgraded : bool) (targets : result Error (list (Z * CanonicalNode)))
    (shortlist : list CanonicalNode → list CandidateScore) : list ProbeResult * list string :=
  if negb upgraded then ([], []) else
  let before := "Rescoring egress (cheap sweep, then quorum scatter on finalists)..." in
  match targets with
  | Ok ((_ :: _) as targets) =>
    let ranked := shortlist (map snd targets) in
    match ranked with
    | [] => ([], [before; "Rescore found nothing alive (all candidates dead at the socket level)"]%stdpp)
    | _ =>
      let results := omap (rescore_result targets) ranked in
      (results, [before; "Rescore: " +:+ show_Z (Z.of_nat (length (List.filter cs_passes ranked))) +:+ "/" +:+
                         show_Z (Z.of_nat (length results)) +:+ " candidates passed quorum"]%stdpp)
    end
  | _ => ([], [before; "Rescore needs a real subscription catalog, not demo nodes"]%stdpp)
  end.

(** ** Importing *)

Section Import_.
Context `{IdentityHash} `{NodeCodec} `{Sqlite} `{ParserLib} `{YamlLib} `{Unicode}.

(** [on_import_subscription]: the controller, the replaced store if it gets there,
    and the status. *)
Definition on_import (uuid : string) (now : Z) (c : Controller) (raw : string)
  : Controller * option DenseNodeStore * string :=
  let failed c e := (c, None, "Import failed: " +:+ error_alternate e) in
  if bool_decide (trim raw = EmptyString) then failed c ["empty import payload"]%stdpp else
  let '(res, c) := import_subscription uuid now c raw "Imported" "clipboard" in
  match res with
  | Err e => failed c e
  | Ok r =>
    if bool_decide (successful_nodes (rf_report r) = []) then failed c ["no supported nodes found in that payload"]%stdpp
    else match hydrate_from_db (ct_db c) with
         | Err e => failed c e
         | Ok store => (c, Some store, "Imported " +:+ show_Z (Z.of_nat (store_len store)) +:+ " new node(s)")
         end
  end.
End Import_.

(** ** Status lines *)

Definition watchdog_summary (s : FailoverStatus) : string :=
  if fs_degraded s then "Egress watchdog: DEGRADED to direct — hunting for a live node" else
  let active := default "no active node" (fs_active_node s) in
  match fs_last_action s with
  | None => "Egress watchdog: monitoring " +:+ active
  | Some Healthy => "Egress watchdog: " +:+ active +:+ " healthy"
  | Some (Inspecting failures) =>
    "Egress watchdog: inspecting " +:+ active +:+ " (" +:+ show_Z (Z.of_nat failures) +:+ " consecutive misses)"
  | Some (Rearmed shortlist) =>
    "Egress watchdog: shortlist refreshed (" +:+ show_Z (Z.of_nat shortlist) +:+ " candidates)"
  | Some (Switched label) => "Egress watchdog: auto-switched to " +:+ label
  | Some (AdoptedNode label) => "Egress watchdog: auto-selected " +:+ label +:+ " (verified)"
  | Some Watchdog.Unconfirmed => "Egress watchdog: candidate failed confirmation, staying on " +:+ active
  | Some Degraded => "Egress watchdog: degraded to direct"
  | Some (Healed label) => "Egress watchdog: healed, tunnel restored via " +:+ label
  | Some ManualWindow => "Egress watchdog: deferring to manual control"
  | Some Cooldown => "Egress watchdog: in post-switch cooldown"
  | Some Idle => "Egress watchdog: idle (no active node)"
  | Some (ActionError error) => "Egress watchdog: error — " +:+ error
  end.

(** One turn of the thread that polls the watchdog, which ends where it cannot upgrade
    its handle: the summary, and the active node if there is one. *)
Definition poller_turn (upgraded : bool) (s : FailoverStatus) : option (string * option string) :=
  if upgraded then Some (watchdog_summary s, fs_active_node s) else None.

Definition initial_status (count : Z) : string :=
  if count =? 0 then "Empty catalog — import a subscription to get started"
  else show_Z count +:+ " nodes from local catalog".

(** ** Start-up *)

Definition has_flag (args : list string) (flag : string) : bool := existsb (String.eqb flag) args.

(** [args.windows(2).find(…)]. *)
Fixpoint flag_value (args : list string) (flag : string) : option string :=
  match args with
  | a :: ((v :: _) as rest) => if String.eqb a flag then Some v else flag_value rest flag
  | _ => None
  end.

(** [Path::join] of a relative part. *)
Definition path_join (base part : string) : string :=
  match last (bytes base) with
  | None => part
  | Some c => if Ascii.eqb c "/" then base +:+ part else base +:+ "/" +:+ part
  end.
Definition default_db_path (env : string → option string) (temp_dir : string) : string :=
  let base := match env "XDG_DATA_HOME"%stdpp with
              | Some d => d
              | None => match env "HOME"%stdpp with
                        | Some home => path_join home ".local/share"
                        | None => temp_dir
                        end
              end in
  path_join (path_join base "myproxy") "myproxy.db".

Record Startup := {
  su_demo_requested : bool; su_demo_count : Z; su_db_path : string; su_singbox : string; su_watchdog : bool
}.
Definition startup (env : string → option string) (temp_dir : string) (args : list string) : Startup :=
  {| su_demo_requested := has_flag args "--demo-nodes";
     su_demo_count := default 10000 (flag_value args "--demo-nodes" ≫= parse_uint 64);
     su_db_path := default (default_db_path env temp_dir) (flag_value args "--data-dir");
     su_singbox := default "/usr/bin/sing-box"
                     (match flag_value args "--sing-box" with None => env "SING_BOX_BIN"%stdpp | s => s end);
     su_watchdog := negb (has_flag args "--no-egress-watchdog") |}.

Definition DEMO_COUNTRIES : list string := ["DE"; "US"; "JP"; "NL"; "SG"; "UN"]%stdpp.
Definition DEMO_PROTOCOLS : list ProtocolKind := [KVless; KTrojan; KShadowsocks; KHysteria2; KTuic].

(** [{id:05}]. *)
Definition pad_zeros (w : nat) (s : string) : string := of_bytes (repeat "0"%char (w - String.length s)) +:+ s.

Definition demo_row (offset : nat) : HotNodeRow :=
  let o := Z.of_nat offset in
  let id := wrap 32 (o + 1) in
  {| hr_id := id;
     hr_country_code := default "" (DEMO_COUNTRIES !! (offset mod 6)%nat);
     hr_latency_ms := if o mod 7 =? 0 then UNTESTED_LATENCY else 30 + o mod 600;
     hr_health_score := 30 + o mod 71;
     hr_name := "Demo node " +:+ pad_zeros 5 (show_Z id);
     hr_protocol := default KVless (DEMO_PROTOCOLS !! (offset mod 5)%nat);
     hr_source_sub_ids := [o mod 3 + 1] |}.
Definition demo_store `{Unicode} (count : Z) : DenseNodeStore :=
  from_hot_rows (map demo_row (seq 0 (Z.to_nat count))).

(** The store of the first frame, and its status. *)
Definition initial_store `{Unicode} (s : Startup) (hydrated : result Error DenseNodeStore) : DenseNodeStore :=
  match hydrated with
  | Ok store =>
    if negb (su_demo_requested s) && negb (store_len store =? 0)%nat then store else demo_store (su_demo_count s)
  | Err _ => demo_store (su_demo_count s)
  end.

(** ** Health *)

(** C37. The health of a node that is merely reachable never exceeds its ceiling and
    is always below that of a verified node measured at the same latency; a dead one
    has none.  The promise that it never out-ranks a verified node holds while that
    one's latency is below 368 ms (strictly, below 360); from 368 ms on it does not:
    some merely reachable node is shown above it, although a verified node never
    falls below 10.  A reachable node without a round trip stands between the dead
    and the nodes verified within half a second. *)
Theorem honesty_bounds (a b : Z) :
  in_u 16 a → in_u 16 b →
  let reachable l := reachability_health true (Some l) in
  let verified l := verified_health true (Some l) in
  0 ≤ reachable a ≤ REACHABILITY_HEALTH_CEILING ∧ 10 ≤ verified b ≤ 100 ∧
  reachable a < verified a ∧
  (b < 360 → reachable a < verified b) ∧ (b < 368 → reachable a ≤ verified b) ∧
  (368 ≤ b → verified b < reachable 0) ∧
  reachability_health false (Some a) = 0 ∧ verified_health false (Some a) = 0 ∧
  (b ≤ 500 → 0 < reachability_health true None < verified b).
Proof.
  unfold in_u, umax, reachability_health, verified_health, REACHABILITY_HEALTH_CEILING, clampZ. cbn.
  intros Ha Hb. Z.div_mod_to_equations. lia.
Qed.

(** ** The preflight *)

Section Preflight.
Context (nets : nat → Network).

(** The probe of one target. *)
Definition probed (i : nat) (n : CanonicalNode) : ProbeOutcome := outcome_at probe_engine nets L4Ping i n.

Lemma preflight_results_from p rows :
  pt_results (foldl preflight_step p rows) = pt_results p ++ omap (λ row, preflight_result row.1.1 row.2) rows ∧
  pt_reachable (foldl preflight_step p rows) + pt_unknown (foldl preflight_step p rows) +
    pt_dead (foldl preflight_step p rows) =
  pt_reachable p + pt_unknown p + pt_dead p + Z.of_nat (length rows).
Proof.
  revert p. induction rows as [|[[id n] o] rows IH]; intros p.
  { csimpl. rewrite app_nil_r. split; [done|lia]. }
  cbn [foldl]. destruct (IH (preflight_step p (id, n, o))) as [-> ->]. clear IH. csimpl.
  destruct (preflight_result id o) as [r|]; cbn [pt_results pt_reachable pt_unknown pt_dead].
  - rewrite <-app_assoc. split; [done|]. destruct (ProbeOutcome_alive o); lia.
  - split; [done|]. lia.
Qed.

(** The rows of the loop when no task was lost. *)
Lemma preflight_rows (targets : list (Z * CanonicalNode)) :
  zip targets (probe_batch probe_engine nets (λ _, true) (map snd targets) L4Ping) =
  imap (λ i t, (t, probed i t.2)) targets.
Proof.
  rewrite batch_joined by done. fold probed. change (outcome_at probe_engine nets L4Ping) with probed.
  generalize probed. induction targets as [|t l IH]; intros f; [done|].
  cbn [map]. rewrite !imap_cons. cbn [zip zip_with]. f_equal. apply (IH (f ∘ S)).
Qed.

Lemma omap_imap_fmap {A B C} (f : nat → A → B) (g : B → option C) l :
  omap g (imap f l) = omap id (imap (λ i x, g (f i x)) l).
Proof.
  revert f. induction l as [|x l IH]; intros f; [done|]. rewrite !imap_cons. csimpl.
  destruct (g (f 0%nat x)); csimpl; [f_equal|]; apply (IH (f ∘ S)).
Qed.

(** Each target gives at most one result, which is that of its own node, and the
    three counts of the status add up to the targets. *)
Lemma preflight_spec (targets : list (Z * CanonicalNode)) :
  let p := preflight targets (probe_batch probe_engine nets (λ _, true) (map snd targets) L4Ping) in
  pt_results p = omap id (imap (λ i t, preflight_result t.1 (probed i t.2)) targets) ∧
  pt_reachable p + pt_unknown p + pt_dead p = Z.of_nat (length targets).
Proof.
  cbv zeta. unfold preflight. rewrite preflight_rows.
  destruct (preflight_results_from preflight_start (imap (λ i t, (t, probed i t.2)) targets)) as [E1 E2].
  rewrite E1, E2, omap_imap_fmap, length_imap. split; [done|]. cbn. lia.
Qed.

(** A lost task gives the result of the next node to its own. *)
Lemma lost_task_misattributes t0 t1 targets :
  is_unknown (probed 1 t1.2) = false →
  let p := preflight (t0 :: t1 :: targets)
             (probe_batch probe_engine nets (λ j, negb (j =? 0)%nat) (map snd (t0 :: t1 :: targets)) L4Ping) in
  ∃ r, head (pt_results p) = Some r ∧ pr_node_id r = t0.1 ∧
       pr_latency_ms r = default UNTESTED_LATENCY (po_latency_ms (probed 1 t1.2)).
Proof.
  intros Hu. cbv zeta. unfold preflight, probe_engine. rewrite lost_task_shifts. fold probe_engine.
  cbn [map]. rewrite !imap_cons. cbn [take drop app zip zip_with foldl preflight_step].
  destruct t0 as [id n]. unfold probed in *. cbn [fst snd]. set (o := outcome_at probe_engine nets L4Ping 1 t1.2) in *.
  change ((outcome_at _ nets L4Ping ∘ S) 0%nat t1.2) with o. unfold preflight_result. rewrite Hu.
  match goal with |- context [foldl preflight_step ?p ?l] => destruct (preflight_results_from p l) as [-> _] end.
  cbn. eexists. split_and!; reflexivity.
Qed.
End Preflight.

(** ** From the click to the arena *)

(** What a run enqueues. *)
Definition enqueued (es : list Event) : list ProbeResult :=
  omap (λ e, match e with Enqueued r => Some r | _ => None end) es.

(** A queue with room accepts everything, whatever else happens meanwhile. *)
Lemma accepted_all drain view d es :
  (length (dp_queue d) + length (enqueued es) ≤ dp_capacity d)%nat → accepted drain view d es = enqueued es.
Proof.
  unfold enqueued. revert d. induction es as [|e es IH]; intros d Hl; [done|]. cbn [accepted].
  destruct e as [r|now up|]; csimpl in *.
  - cbn [length] in Hl. assert (fits d = true) as Hf by (unfold fits; apply Nat.ltb_lt; lia). rewrite Hf.
    cbn [app]. f_equal. apply IH. cbn [on_event enqueue dp_queue dp_capacity]. rewrite Hf, length_app. cbn [length]. lia.
  - apply IH. unfold metric_turn, metric_body. destruct (dp_running d); [|done].
    destruct (publish_now d _ now); cbn [dp_queue dp_capacity length]; lia.
  - by apply IH.
Qed.

Lemma enqueued_count es : length (List.filter is_enqueued es) = length (enqueued es).
Proof. unfold enqueued. induction es as [|[] es IH]; csimpl; [done|by f_equal|done|done]. Qed.

(** In a list of results of distinct nodes the last of a node is its only one. *)
Lemma last_update_unique rs r :
  NoDup (map pr_node_id rs) → r ∈ rs → last_update (pr_node_id r) (map update_of rs) = Some (update_of r).
Proof.
  intros Hn Hr. destruct (last_update (pr_node_id r) (map update_of rs)) as [u|] eqn:E.
  - apply last_update_elem in E as [(r' & -> & Hr')%list_elem_of_fmap Hid]. cbn in Hid. do 2 f_equal.
    apply list_elem_of_lookup in Hr as [i Hi]. apply list_elem_of_lookup in Hr' as [j Hj].
    assert (i = j) as ->; [|congruence].
    eapply (NoDup_lookup (map pr_node_id rs)); [done|by apply lookup_map_Some|].
    rewrite <-Hid. by apply lookup_map_Some.
  - exfalso. unfold last_update in E. apply (list_elem_of_fmap_2 update_of), list_elem_of_In, in_rev in Hr.
    pose proof (List.find_none _ _ E _ Hr) as Hf. cbn in Hf. by rewrite Z.eqb_refl in Hf.
Qed.

Lemma last_update_absent rs id : id ∉ map pr_node_id rs → last_update id (map update_of rs) = None.
Proof.
  intros Hn. destruct (last_update id (map update_of rs)) as [u|] eqn:E; [|done].
  apply last_update_elem in E as [(r & -> & Hr)%list_elem_of_fmap <-]. exfalso. apply Hn.
  cbn. by apply list_elem_of_fmap_2.
Qed.

Lemma elem_of_results (targets : list (Z * CanonicalNode)) nets r :
  r ∈ omap id (imap (λ i t, preflight_result t.1 (probed nets i t.2)) targets) ↔
  ∃ i id n, targets !! i = Some (id, n) ∧ preflight_result id (probed nets i n) = Some r.
Proof.
  rewrite list_elem_of_omap. split.
  - intros (o & Ho & <-). apply list_elem_of_lookup in Ho as [i Hi]. rewrite list_lookup_imap in Hi.
    destruct (targets !! i) as [[id n]|] eqn:E; simplify_eq/=. by exists i, id, n.
  - intros (i & id & n & Hi & Hr). exists (Some r). split; [|done]. apply list_elem_of_lookup. exists i.
    rewrite list_lookup_imap, Hi. cbn. by f_equal.
Qed.

Lemma preflight_result_id id o r : preflight_result id o = Some r → pr_node_id r = id.
Proof. unfold preflight_result. destruct (is_unknown o); intros; by simplify_eq/=. Qed.

Lemma results_ids_NoDup (targets : list (Z * CanonicalNode)) (f : nat → CanonicalNode → ProbeOutcome) :
  NoDup (map fst targets) →
  NoDup (map pr_node_id (omap id (imap (λ i t, preflight_result t.1 (f i t.2)) targets))) ∧
  ∀ j, j ∈ map pr_node_id (omap id (imap (λ i t, preflight_result t.1 (f i t.2)) targets)) → j ∈ map fst targets.
Proof.
  revert f. induction targets as [|[id n] l IH]; intros f Hn; [done|].
  apply NoDup_cons in Hn as [Hid Hn]. destruct (IH (λ i, f (S i)) Hn) as [Hd Hin].
  rewrite imap_cons. csimpl. destruct (preflight_result id (f 0%nat n)) as [r|] eqn:E; csimpl.
  - apply preflight_result_id in E. rewrite E. split.
    + apply NoDup_cons. split; [|exact Hd]. intros Hx. by apply Hid, Hin.
    + intros j [->|Hj]%elem_of_cons; [by left|]. right. by apply Hin.
  - split; [exact Hd|]. intros j Hj. right. by apply Hin.
Qed.

Lemma reachability_health_range alive l : 0 ≤ reachability_health alive l ≤ REACHABILITY_HEALTH_CEILING.
Proof. unfold reachability_health. destruct alive; [apply clampZ_range; done|done]. Qed.

(** The worker whose first turn gets no window. *)
Lemma off_thread_ends drain view x cap t0 es now up before first after :
  es = before ++ Turned first false :: after → Forall not_turned before → first < t0 + METRIC_PUBLISH_INTERVAL →
  let d := run drain view (dispatcher_new cap t0 x) es in
  dp_running d = false ∧ dp_snapshot d = x ∧ dp_snapshot (metric_turn drain now up d) = x.
Proof.
  intros -> Hb Hf d.
  destruct (off_thread_worker_publishes_nothing drain view x cap t0 before first after Hb Hf) as [Hr Hs].
  split_and!; [done|done|]. unfold metric_turn. fold d in Hr. by rewrite Hr.
Qed.


(** ** The rescore *)

Lemma omap_Forall2 {A B} (f : A → option B) l k : Forall2 (λ x y, f x = Some y) l k → omap f l = k.
Proof. induction 1 as [|x y l k Hx _ IH]; csimpl; [done|]. by rewrite Hx, IH. Qed.

(** Over targets the shortlist indexes, every candidate gives one result, for the
    node it names and marked verified exactly when it passed; one that did not pass
    has no health, one that did at least 10. *)
Lemma rescore_spec targets shortlist :
  targets ≠ [] →
  (∀ s, s ∈ shortlist (map snd targets) → (cs_node_index s < length targets)%nat) →
  let results := (on_rescore true (Ok targets) shortlist).1 in
  length results = length (shortlist (map snd targets)) ∧
  ∀ i s, shortlist (map snd targets) !! i = Some s →
    ∃ r j n, results !! i = Some r ∧ targets !! cs_node_index s = Some (j, n) ∧ pr_node_id r = j ∧
      pr_verified r = cs_passes s ∧ (if cs_passes s then 10 ≤ pr_health_score r ≤ 100 else pr_health_score r = 0).
Proof.
  intros Hne Hidx. cbv zeta. destruct targets as [|t l]; [done|]. unfold on_rescore. cbn [negb]. set (targets := t :: l) in *.
  set (ranked := shortlist (map snd targets)) in *.
  assert (∃ rs, (match ranked with [] => [] | _ => omap (rescore_result targets) ranked end) = rs ∧
    Forall2 (λ s r, rescore_result targets s = Some r) ranked rs) as (rs & Ers & Hrs).
  { destruct (mapM_is_Some_2 (rescore_result targets) ranked) as [rs Em].
    - apply Forall_forall. intros s Hs. apply Hidx, lookup_lt_is_Some in Hs as [[j n] Hj].
      unfold compose, rescore_result. rewrite Hj. by eexists.
    - exists rs. apply mapM_Some_1 in Em. split; [|done].
      pose proof (omap_Forall2 _ _ _ Em) as Eo. by destruct ranked. }
  assert ((match ranked with
           | [] => ([], ["Rescoring egress (cheap sweep, then quorum scatter on finalists)...";
                         "Rescore found nothing alive (all candidates dead at the socket level)"]%stdpp)
           | _ => _ end).1 = rs) as -> by (rewrite <-Ers; by destruct ranked).
  split; [symmetry; by eapply Forall2_length|]. intros i s Hi.
  eapply Forall2_lookup_l in Hrs as (r & Hr & Er); [|done]. unfold rescore_result in Er.
  destruct (targets !! cs_node_index s) as [[j n]|]; [|done]. injection Er as Er.
  subst r. eexists _, j, n. split_and!; [exact Hr|done|done|done|]. cbn [pr_health_score]. unfold verified_health.
  destruct (cs_passes s); cbn -[Z.min Z.div Z.sub fmap]; [|reflexivity]. destruct (_ <$> _) as [l'|] eqn:El; [|lia].
  assert (0 ≤ l'); [|Z.div_mod_to_equations; lia].
  destruct (cs_median_latency s); simplify_eq/=. by apply wrap_range.
Qed.

(** ** The first frame *)

Section FirstFrame.
Context `{Unicode}.

Lemma demo_row_id k : (Z.of_nat k < U32_MAX) → hr_id (demo_row k) = Z.of_nat k + 1.
Proof. intros Hk. cbn [hr_id demo_row]. apply wrap_small. change (2 ^ 32) with 4294967296. lia. Qed.

(** The made-up catalog is a store the list can show. *)
Lemma demo_store_ok count :
  0 ≤ count ≤ U32_MAX → store_ok (demo_store count) ∧ Z.of_nat (store_len (demo_store count)) = count.
Proof.
  intros Hc. unfold demo_store. set (rows := map demo_row (seq 0 (Z.to_nat count))).
  assert (Z.of_nat (length (concat (map hr_source_sub_ids rows))) ≤ U32_MAX) as Hsz.
  { assert (length (concat (map hr_source_sub_ids rows)) = length rows) as ->.
    { unfold rows. generalize (seq 0 (Z.to_nat count)). intros l. induction l; cbn; [done|by f_equal]. }
    unfold rows. rewrite length_map, length_seq. lia. }
  destruct (from_hot_rows_closed rows Hsz) as (Eids & _). destruct (from_hot_rows_wf rows Hsz) as [Hw Hs].
  split.
  - split_and!; [done|by eexists|]. rewrite Eids. unfold rows. rewrite map_map.
    apply (NoDup_fmap_2_strong (λ k, hr_id (demo_row k))); [|apply NoDup_seq].
    intros a b Ha%elem_of_seq Hb%elem_of_seq. rewrite !demo_row_id by lia. lia.
  - unfold store_len. rewrite Eids. unfold rows. rewrite !length_map, length_seq. lia.
Qed.

(** With an empty catalog, or one that cannot be read, the application shows ten
    thousand made-up nodes and counts them as its local catalog. *)
Lemma empty_catalog_shows_demo env temp_dir args hydrated :
  has_flag args "--demo-nodes" = false → flag_value args "--demo-nodes" = None →
  match hydrated with Ok store => store_len store = 0%nat | Err _ => True end →
  let shown := initial_store (startup env temp_dir args) hydrated in
  shown = demo_store 10000 ∧
  initial_status (Z.of_nat (store_len shown)) = "10000 nodes from local catalog".
Proof.
  intros Hf Hv He. cbv zeta.
  assert (initial_store (startup env temp_dir args) hydrated = demo_store 10000) as ->.
  { unfold initial_store, startup. cbn. rewrite Hv, Hf. destruct hydrated as [store|]; [|done]. by rewrite He. }
  split; [done|]. rewrite (proj2 (demo_store_ok 10000 ltac:(lia))). vm_compute. reflexivity.
Qed.

(** A flag is never mistaken for the absence of one: it has a value only if it is
    there. *)
Lemma flag_value_has args flag v : flag_value args flag = Some v → has_flag args flag = true.
Proof.
  unfold has_flag. induction args as [|a args IH]; [done|]. cbn. destruct args as [|b args]; [done|].
  rewrite (String.eqb_sym flag a). destruct (String.eqb a flag); [done|]. apply IH.
Qed.
End FirstFrame.

(** ** Witnesses *)

Lemma honesty_bounds_witness :
  reachability_health true (Some 12) = 54 ∧ verified_health true (Some 800) = 10 ∧
  verified_health true (Some 800) < reachability_health true (Some 0).
Proof.
  split; [reflexivity|]. split; [reflexivity|].
  destruct (honesty_bounds 12 800) as (_ & _ & _ & _ & _ & Hb & _);
    [vm_compute; intuition discriminate|vm_compute; intuition discriminate|]. apply Hb. lia.
Defined.

(** A catalog of two, the first refusing its dial, the second answering. *)
Definition two_targets : list (Z * CanonicalNode) := [(9, sample_node 1 "Bonn"); (11, sample_node 2 "Ulm")].
Definition sample_nets (i : nat) : Network :=
  {| nw_lookup_host _ _ := Some [addr_of (match i with O => 1 | _ => 3 end)];
     nw_tcp_connect := nw_tcp_connect sample_net; nw_udp_bind := Ok (); nw_udp_connect _ := Ok ();
     nw_udp_recv _ := None |}.

Definition sample_preflight : list Event :=
  Turned 10 true :: map Enqueued (on_probe_all false (Ok two_targets) None sample_nets (λ _, true) []).1 ++ [Timed].

