(* ===== verification/GuiMain.v ===== *)
(** The window from its start ([main] of [crates/gui/src/main.rs]): the command line,
    the controller, the watchdog, the first store and the first frame, and the
    handlers that change the view.

    [main] builds the world that [ViewModel] takes steps in; its [RefCell] of the view
    is what the handlers and the import read and write. *)

From S2P Require Import Prelude RustStr Ir Metadata Uri Clash Ingest Json Adapter Repository Store Storage ViewModel Dispatcher Egress Probe Score AutoSelect Supervisor Controller Watchdog Gui.

(** ** The application *)

(** What [main] and the handlers set of the window; a property nobody set keeps what
    the markup gives it. *)
Record Window := { wn_nodes_count : Z; wn_status : string; wn_active_name : option string }.

Record App := { ap_view : ViewState; ap_world : GuiWorld; ap_window : Window }.

Definition with_view (v : ViewState) (a : App) : App :=
  {| ap_view := v; ap_world := ap_world a; ap_window := ap_window a |}.
Definition with_world (w : GuiWorld) (a : App) : App :=
  {| ap_view := ap_view a; ap_world := w; ap_window := ap_window a |}.

(** The outcomes of the system calls of [main]. *)
Record MainIo := {
  mi_parent : bool;                 (** the path of the database has a parent *)
  mi_mkdir : option string;         (** creating it *)
  mi_db : OpenIo;                   (** opening the database *)
  mi_config : option string;        (** the configuration file of an earlier session *)
  mi_netd : bool;                   (** the daemon answers *)
  mi_gateway : option IpAddr;       (** what [default_gateway_v4] finds *)
  mi_window : option string         (** [MainWindow::new] *)
}.

Record Main := { mn_controller : Controller; mn_watchdog : bool; mn_app : App }.

Section Main.
Context `{IdentityHash} `{NodeCodec} `{Unicode}.

(** [ProxyController::hydrate]. *)
Definition controller_hydrate (c : Controller) : result Error DenseNodeStore :=
  context "hydrate node catalog" (hydrate_from_db (ct_db c)).

(** The world of a store: its snapshot, the model over it, nothing under way. *)
Definition first_world (store : DenseNodeStore) (v : ViewState) : option GuiWorld :=
  m ← model_new {| as_ptr := 0; as_store := store |} (from_store store) v;
  Some {| wd_ptr := 0; wd_snapshot := snapshot_new store; wd_model := m; wd_ui := UiIdle;
          wd_worker := WkIdle; wd_requests := []; wd_results := [] |}.

(** [None] is a panic. *)
Definition gui_main (io : MainIo) (env : string → option string) (temp_dir : string) (args : list string)
    (file : DbFile) : option (result Error Main) :=
  let su := startup env temp_dir args in
  match (if mi_parent io then os_fault (mi_mkdir io) else Ok ()) with
  | Err e => Some (Err e)
  | Ok _ =>
    match open_database (mi_db io) file with
    | (Err e, _) => Some (Err e)
    | (Ok _, file) =>
      let c := controller_open (db_of file) (mi_config io) (mi_netd io) (ProxySettings_default (mi_gateway io)) in
      let store := initial_store su (controller_hydrate c) in
      let count := Z.of_nat (store_len store) in
      world ← first_world store ViewState_default;
      Some (_ ← os_fault (mi_window io);
            Ok {| mn_controller := c; mn_watchdog := su_watchdog su;
                  mn_app := {| ap_view := ViewState_default; ap_world := world;
                               ap_window := {| wn_nodes_count := as_i32 count;
                                               wn_status := initial_status count;
                                               wn_active_name := None |} |} |})
    end
  end.

(** ** The handlers of the list *)

Definition on_search_changed (query : string) (a : App) : App :=
  let v := {| vs_search_text := query; vs_country_filter := vs_country_filter (ap_view a);
              vs_subscription_filter := vs_subscription_filter (ap_view a); vs_sort := vs_sort (ap_view a) |} in
  with_world (refresh_view v (ap_world a)) (with_view v a).

Definition on_sort_changed (sort : string) (a : App) : App :=
  let v := set_sort_name sort (ap_view a) in
  with_world (refresh_view v (ap_world a)) (with_view v a).

(** The id comes from the markup as an [i32]. *)
Definition on_node_selected (upgraded : bool) (node_id : Z) (a : App) : App * list Notification :=
  let '(m, notes) := select_node (wd_model (ap_world a)) (as_u32 node_id) in
  let a := with_world (with_model m (ap_world a)) a in
  (if upgraded
   then {| ap_view := ap_view a; ap_world := ap_world a;
           ap_window := {| wn_nodes_count := wn_nodes_count (ap_window a); wn_status := wn_status (ap_window a);
                           wn_active_name := Some (vm_active_name m) |} |}
   else a, notes).
End Main.

(** ** The window follows the user *)

Section Window.
Context `{IdentityHash} `{NodeCodec} `{Unicode}.

(** The handlers, the timers and the worker, the publication of metrics, and an import
    with its three writes; the timer that sorts again asks for the same view. *)
Inductive app_step (a : App) : App → Prop :=
| ap_quiet w : quiet_step (ap_world a) w → app_step a (with_world w a)
| ap_search query : wd_ui (ap_world a) = UiIdle → app_step a (on_search_changed query a)
| ap_sort sort : wd_ui (ap_world a) = UiIdle → app_step a (on_sort_changed sort a)
| ap_select upgraded id : wd_ui (ap_world a) = UiIdle → app_step a (on_node_selected upgraded id a).1
| ap_resort : wd_ui (ap_world a) = UiIdle → app_step a (with_world (refresh_view (ap_view a) (ap_world a)) a)
| ap_publish m :
    app_step a (with_world (with_snapshot (wd_ptr (ap_world a)) (store_metrics m (wd_snapshot (ap_world a)))
                              (ap_world a)) a)
| ap_import s :
    wd_ui (ap_world a) = UiIdle → store_ok s →
    app_step a (with_world (with_ui (UiMetrics (from_store s))
      (with_snapshot (S (wd_ptr (ap_world a))) (store_store s (wd_snapshot (ap_world a))) (ap_world a))) a)
| ap_import_metrics m :
    wd_ui (ap_world a) = UiMetrics m →
    app_step a (with_world (with_ui UiRefresh
      (with_snapshot (wd_ptr (ap_world a)) (store_metrics m (wd_snapshot (ap_world a))) (ap_world a))) a)
| ap_import_refresh :
    wd_ui (ap_world a) = UiRefresh →
    app_step a (with_world (with_ui UiIdle (refresh_view (ap_view a) (ap_world a))) a).

(** The model works towards the view the user made. *)
Definition follows (a : App) : Prop := vm_desired_view (wd_model (ap_world a)) = ap_view a.

Lemma quiet_desired w w' :
  quiet_step w w' → vm_desired_view (wd_model w') = vm_desired_view (wd_model w).
Proof.
  destruct 1 as [| | | |w Eu Hn]; [done..|]. destruct (last_is_some _ Hn) as [p El].
  by destruct (apply_cases w p El) as [[_ ->]|[_ ->]].
Qed.

(** Every event of the application is a step of the view model. *)
Lemma app_step_gui a a' : app_step a a' → gui_step (ap_world a) (ap_world a').
Proof.
  destruct 1 as [w Hq|q Hi|st Hi|b id Hi|Hi|m|s Hi Hs|m Hi|Hi]; cbn.
  - by apply step_quiet.
  - by apply step_refresh.
  - by apply step_refresh.
  - destruct b; exact (step_select (ap_world a) (as_u32 id) Hi).
  - by apply step_refresh.
  - apply step_publish.
  - by apply step_import.
  - by apply step_import_metrics.
  - by apply step_import_refresh.
Qed.

Lemma app_step_follows a a' : app_step a a' → follows a → follows a'.
Proof.
  unfold follows. destruct 1 as [w Hq|q Hi|st Hi|b id Hi|Hi|m|s Hi Hs|m Hi|Hi]; cbn; try done.
  - by rewrite (quiet_desired _ _ Hq).
  - unfold on_node_selected, select_node. destruct b; cbn; done.
Qed.

Lemma app_run a a' :
  rtc app_step a a' → gui_inv (ap_world a) ∧ follows a → gui_inv (ap_world a') ∧ follows a'.
Proof.
  apply (rtc_preserves app_step (λ a, gui_inv (ap_world a) ∧ follows a)). intros x y Hs [Hi Hf]. split.
  - eapply gui_step_inv; [by apply app_step_gui|done].
  - by eapply app_step_follows.
Qed.

Lemma hydrated_ok c store :
  Z.of_nat (size (node_sources (ct_db c))) ≤ U32_MAX → controller_hydrate c = Ok store → store_ok store.
Proof.
  intros Hsz E. apply map_err_Ok in E. destruct (hydrate_from_db_spec _ _ E Hsz) as [Hh Hs].
  split_and!; [apply Hh|done|apply Hh].
Qed.

Lemma initial_store_ok su c :
  Z.of_nat (size (node_sources (ct_db c))) ≤ U32_MAX → 0 ≤ su_demo_count su ≤ U32_MAX →
  store_ok (initial_store su (controller_hydrate c)).
Proof.
  intros Hsz Hd. pose proof (proj1 (demo_store_ok _ Hd)) as Hdemo. unfold initial_store.
  destruct (controller_hydrate c) as [store|e] eqn:E; [|done]. case_match; [by eapply hydrated_ok|done].
Qed.

Lemma default_view_shows_all store m l :
  to_lowercase EmptyString = EmptyString →
  store_ok store → projection ViewState_default store m = Some l → length l = store_len store.
Proof.
  intros Hlow (Hw & [groups Hg] & _) E. unfold projection, query_with_metrics in E.
  destruct (run_query_indices store groups "" None None LatencyAsc
    (λ i, default UNTESTED_LATENCY (ma_latencies_ms m !! i)) (λ i, default 0 (ma_health_scores m !! i)) Hw Hg)
    as (idx & Ei & Hd & Hi). cbn in E. rewrite Ei in E. injection E as <-. rewrite sort_by_length.
  etrans; [|apply (length_seq (store_len store) 0)]. apply Permutation_length, NoDup_Permutation; [done|apply NoDup_seq|].
  intros k. rewrite Hi, elem_of_seq. unfold selected. split; [intros (? & _); lia|].
  intros ?. split_and!; [lia|done|done|by left].
Qed.

(** The first frame: a world the view model starts in, with a row for every node. *)
Lemma first_world_starts store :
  store_ok store → ∃ w, first_world store ViewState_default = Some w ∧ starts w ∧
    ss_store (wd_snapshot w) = store ∧ vm_desired_view (wd_model w) = ViewState_default ∧
    (to_lowercase EmptyString = EmptyString → row_count (wd_model w) = store_len store).
Proof.
  intros Hok. destruct (projection_total ViewState_default store (from_store store) Hok) as (l & El & Hd & Hl).
  assert (∃ ids, mapM (λ k, node_ids store !! k) l = Some ids) as [ids Eids].
  { apply mapM_is_Some, Forall_forall. intros k Hk. rewrite Forall_forall in Hl. apply lookup_lt_is_Some_2, (Hl k Hk). }
  unfold first_world, model_new. cbn [as_store]. rewrite El. cbn [mbind option_bind]. rewrite Eids. cbn.
  eexists. split; [done|]. split; [|split_and!; try done; by intros; eapply default_view_shows_all].
  split; [exact Hok|]. do 4 (split; [done|]). exists ViewState_default. unfold model_new. cbn. rewrite El. cbn.
  by rewrite Eids.
Qed.

(** C21. From the start of the program to the list.  Over a database of a size the
    store can hold, starting never panics.  If it succeeds, the watchdog runs exactly
    if it was not turned off, the count is that of the nodes shown, each of which has
    a row; and after whatever the user, imports and measurements do, if they pause the
    list settles within a bound on the rows of the search, filters and order the user
    chose last, over the current store. *)
Theorem window_follows_user (io : MainIo) (env : string → option string) (temp_dir : string)
    (args : list string) (file : DbFile) :
  (∀ file', (open_database (mi_db io) file).2 = file' → Z.of_nat (size (node_sources (db_of file'))) ≤ U32_MAX) →
  0 ≤ su_demo_count (startup env temp_dir args) ≤ U32_MAX →
  ∃ r, gui_main io env temp_dir args file = Some r ∧
  ∀ m, r = Ok m →
    mn_watchdog m = negb (has_flag args "--no-egress-watchdog") ∧
    (let w := ap_world (mn_app m) in let shown := ss_store (wd_snapshot w) in
     wn_nodes_count (ap_window (mn_app m)) = as_i32 (Z.of_nat (store_len shown)) ∧
     (to_lowercase EmptyString = EmptyString → row_count (wd_model w) = store_len shown)) ∧
    ∀ a, rtc app_step (mn_app m) a → wd_ui (ap_world a) = UiIdle →
      (∀ n w', nsteps quiet_step n (ap_world a) w' → (n ≤ quiet_turns (ap_world a))%nat) ∧
      ∀ w', rtc quiet_step (ap_world a) w' →
        (∃ w'', quiet_step w' w'') ∨
        (computed (ap_view a) (vm_projection (wd_model w')) ∧
         as_store (pj_store (vm_projection (wd_model w'))) = ss_store (wd_snapshot w')).
Proof.
  intros Hsz Hd. unfold gui_main. destruct (if mi_parent io then _ else _) as [[]|e]; [|by eexists].
  destruct (open_database (mi_db io) file) as [[u|e] file']; [|by eexists].
  specialize (Hsz file' eq_refl). set (su := startup env temp_dir args) in *.
  set (c := controller_open _ _ _ _).
  destruct (first_world_starts (initial_store su (controller_hydrate c)) (initial_store_ok su c Hsz Hd))
    as (w & Ew & Hst & Es & Ev & Hrows).
  cbv zeta. rewrite Ew. cbn [mbind option_bind]. eexists. split; [done|]. intros m Em.
  destruct (os_fault (mi_window io)) as [[]|e]; [|done]. cbn in Em. injection Em as <-. cbn [mn_watchdog mn_app ap_world ap_window wn_nodes_count].
  split; [done|]. split; [by rewrite Es|]. intros a Ha Hu.
  destruct (app_run _ _ Ha) as [Hi Hf]; [split; [by apply starts_inv|done]|].
  destruct (catches_up (ap_world a) Hi Hu) as [Hb Hq]. split; [done|]. intros w' Hw'.
  destruct (Hq w' Hw') as [?|[[Hp Hc] Hcur]]; [by left|right]. split; [|done].
  rewrite <-Hf. assert (vm_desired_view (wd_model w') = vm_desired_view (wd_model (ap_world a))) as <-; [|done].
  clear -Hw'. induction Hw' as [|x y z Hxy _ IH]; [done|]. by rewrite IH, (quiet_desired _ _ Hxy).
Qed.
End Window.

(** ** Witness *)

#[local] Existing Instances wide_hash Controller.sample_codec Controller.sample_unicode.

Definition io_of_main : MainIo :=
  {| mi_parent := true; mi_mkdir := None; mi_db := op_fine; mi_config := None; mi_netd := false;
     mi_gateway := None; mi_window := None |}.
(** Three made-up nodes, and a search for the second. *)
Definition demo_main : option (result Error Main) :=
  gui_main io_of_main (λ _, None) "/tmp" ["gui"; "--demo-nodes"; "3"]%stdpp DbFile_empty.

Lemma window_follows_user_witness :
  ∃ m, demo_main = Some (Ok m) ∧ wn_nodes_count (ap_window (mn_app m)) = 3 ∧ mn_watchdog m = true ∧
    ∀ w', rtc quiet_step (ap_world (on_search_changed "00002" (mn_app m))) w' →
      (∃ w'', quiet_step w' w'') ∨
      (vs_search_text (ap_view (on_search_changed "00002" (mn_app m))) = "00002"%stdpp ∧
       computed (ap_view (on_search_changed "00002" (mn_app m))) (vm_projection (wd_model w'))).
Proof.
  destruct (window_follows_user io_of_main (λ _, None) "/tmp" ["gui"; "--demo-nodes"; "3"]%stdpp DbFile_empty)
    as (r & Er & Hr).
  - intros file' <-. vm_compute. discriminate.
  - split; vm_compute; discriminate.
  - assert ((λ r, match r with
               | Ok m => Some (wn_nodes_count (ap_window (mn_app m)), mn_watchdog m,
                               match wd_ui (ap_world (mn_app m)) with UiIdle => true | _ => false end)
               | Err _ => None end) <$> demo_main = Some (Some (3, true, true))) as Hd by (vm_compute; reflexivity).
    change (demo_main = Some r) in Er. rewrite Er in Hd. destruct r as [m|e]; [|discriminate Hd].
    injection Hd as Hc Hw Hu. exists m. split; [exact Er|]. split; [exact Hc|]. split; [exact Hw|].
    assert (wd_ui (ap_world (mn_app m)) = UiIdle) as Hidle.
    { destruct (wd_ui (ap_world (mn_app m))); [reflexivity|discriminate Hu..]. }
    destruct (Hr m eq_refl) as (_ & _ & Hs).
    destruct (Hs (on_search_changed "00002" (mn_app m))) as [_ Hset]; [apply rtc_once, ap_search, Hidle|exact Hidle|].
    intros w' Hq. destruct (Hset w' Hq) as [Hgo|[Hc' _]]; [left; exact Hgo|right]. split; [reflexivity|exact Hc'].
Defined.
